(* ===== verification/_CoqProject ===== *)
-Q . S2P
Prelude.v
CFloat.v
Rounding.v
Timer.v
Atomic.v
Threads.v
SockHelp.v
Broadcast.v
Leader.v
Election.v
Scanf.v
Printf.v
TimerText.v
MlModel.v
Protocol.v
Groups.v
Server.v
Client.v
Monitoring.v
Balancer.v
Relay.v
CList.v
Aggregate.v
Database.v
Repmat.v
Tiling.v
Mex.v
Workload.v
Registry.v
Races.v
Atomicity.v
Quiescent.v
Sessions.v
Dispatch.v
Interleaved.v
Separate.v
Progress.v
Startup.v
Pipeline.v
EndToEnd.v
