(* ===== verification/Prelude.v ===== *)
(** * Verification of A2PM

    A2PM keeps cloud services alive by rejuvenating virtual machines before they
    fail.  Every VM runs a monitoring client that sends its resource usage to a
    controller; the controller predicts when the VM will fail, replaces it by a
    stand-by one, and tells a load balancer, through which the users reach the
    VMs.  Several controllers elect a leader over UDP.  Off line, a database of
    the samples is aggregated into the table the prediction models are fitted to.

    ** Files, and the code they model

    Shared: Prelude (this file: fixed-width integers, [outcome], arrays, tactics,
    the hint database a2pm), CFloat (IEEE arithmetic and conversions), Rounding (the
    rounding of products and quotients, on exact rationals), Scanf and Printf (the
    conversions of the C library that the programs use), Protocol (the structs on
    the wire and their bytes, server.c, balancer.c, client.c).

    Runtime of the controller, src/controller/: Timer and TimerText (timer.h), Atomic
    (atomic.c), Threads (thread.c), SockHelp (sockhelp.c).

    Controllers among themselves: Broadcast (broadcast.c), Leader (leader.c), which
    is written against the class [Broadcaster]; the real table and a log of calls
    are its instances; Election (several controllers over a network that loses and
    reorders datagrams).

    Controller and VMs: MlModel (ml_model.c), Groups (the tables of server.c and
    the handshake), Server (the threads of server.c as one transition system),
    Client (client.c), Monitoring (client and controller put together).

    Load balancer, balancer.c: Balancer (tables and choice of the VM), Registry
    (the abstract table, the class [RegistryImpl] and its instances), Sessions
    (which VM a client stays with), Relay ([deal_with_data] between two sockets),
    Dispatch (the accepting thread, the workers and the controller thread,
    interleaved), Races (the choice of a VM and a message of the controller, which
    no lock keeps apart, interleaved access by access), Atomicity (each of the two
    alone is the one step it is in Dispatch), Quiescent (messages and the table, the
    workers interfering), Interleaved (all the threads, access
    by access: Dispatch and Races in one), Separate (the runs of these threads in
    which a message and a choice do not overlap: there Sessions and Registry hold),
    Progress (its lock is released), Pipeline
    (controller, wire and balancer together), EndToEnd (all the threads of the
    controller and of the balancer, running at the same time), Startup (main of
    server.c and balancer.c up to the accept loops).

    Model building, src/model_build/: CList (list.c, list.h), Aggregate (parsing and
    aggregation of aggregate.c), Database (input, output and main of aggregate.c),
    Repmat, Tiling and Mex (memrep and repmat, the array they make by subscripts,
    and the MATLAB command, of lasso/sub/repmatC.c).  Load generators: Workload
    (src/utilities/leak.c and thread.c).

    ** How the code is rendered

    Integers are [Z] with the wrap-around of their type written out ([s32], [u32],
    [u64]); a signed overflow, an access out of bounds, a [NULL] or a dangling
    pointer, a division by zero and a read of an uninitialised pointer are the
    [fault]s of the type [outcome], next to [exit] and [abort].  [float] and
    [double] are [spec_float]s with the operations of their format.  Memory is
    explicit where pointers matter: arrays are lists with their allocated length,
    nodes and buffers live in finite maps.  What the system answers (results of
    system calls, the contents of files, the time, numbers from [random], what
    uninitialised memory holds) is an argument of the definition.  A program with
    threads is a step function on its whole state, a step being a system call, a
    lock operation or the code between two of them; theorems are about all
    sequences of steps ([rtc]).

    The names of the definitions are those of the functions; where a function
    was cut, its parts have the name of what they do and say where they come from.

    ** What the theorems show

    - Controller, as long as [pthread_create] does not fail (what a failure does is
      Server.failed_create_loses_message): the mailbox between its threads and the
      load balancer is a FIFO with one place (Server.mailbox_fifo), what a thread
      posts is its own message (Server.posts_are_own_messages), no state is a
      deadlock (Server.locks_always_released), the table of VMs stays well typed
      (Server.table_well_typed), and what the threads can fault on
      (Server.controller_faults_only, Server.rates_freed_under_a_store); what each
      operation does to a group (Groups.register_appends,
      Groups.disconnect_removes_one).
    - Load balancer, one thing at a time: every message has its effect on the table
      (Balancer.controller_message_correct), which refines the abstract registry
      (Registry.balancer_refines_registry), also at the other end of the wire
      (Pipeline.balancer_follows_controller); clients are dealt out in turn
      (Balancer.round_robin).
    - Load balancer, all its threads: every worker serves its own connection, by
      the lock that passes from thread to thread (Dispatch.workers_get_their_client);
      whatever the run, the threads refine two, the controller thread and one worker
      (Interleaved.threads_refine_races).  For the runs in which [realloc] does not
      move the table, messages are valid and the turn is in range when it is tested
      ([calm], [calm_input]): the faults that are left
      (Races.interleaved_threads_fault_only), clients are sent to addresses and
      ports that were announced, if not together
      (Interleaved.workers_reach_announced_vms, Races.endpoint_can_be_torn), and the
      lock is always released (Progress.lock_is_released).  For those of them in
      which moreover the accesses of a message and of a choice do not overlap
      ([separate_input]): sessions are kept, nobody is recorded twice, and clients
      are sent to registered VMs (Separate.sessions_are_kept,
      Separate.nobody_recorded_twice, Separate.clients_go_to_registered_vms); where
      they overlap Interleaved.session_can_be_lost shows what happens.
    - The relay keeps the order of the bytes and loses none while memory stays where
      it is (Relay.relay_in_order).
    - Controller and load balancer running together ([fair]: the conditions above on
      both, and a connection that gives a struct whole): a client is connected to a
      VM that registered as active, at the port the controller announces
      (EndToEnd.clients_reach_active_vms), and between two messages the table is
      what the messages ask for (EndToEnd.table_keeps_up).
    - Client and controller agree on the handshake and on what is measured
      (Monitoring.handshake_agreement, Monitoring.features_roundtrip).
    - Controllers that have heard everybody elect the same one
      (Election.election_agreement); broadcast, locks, threads, sockets: the
      functional behaviour of each and the invariants of their interleavings.
    - Model building: from the bytes of the database to the bytes of the output
      (Database.database_to_csv), against a reference definition of the windows
      (Aggregate.aggregate_run_windows); the list on the heap
      (CList.deleteNode_removes); the MATLAB command against the array its
      documentation describes (Mex.mexFunction_repeats).
    - Load generators: whatever numbers are drawn, leak.c leaks at least a megabyte
      in every turn and faults only on a [malloc] or a waiting time that fail
      (Workload.leak_main_leaks), and the range of [RandomRange]
      (Workload.random_range_bounds).
    - What goes wrong, stated as theorems where the code does something else than it
      is meant to: Balancer.sixth_client_faults, Balancer.index_escapes,
      Interleaved.session_can_be_lost, Relay.moved_buffer_dangles,
      Server.standby_threads_are_deaf,
      Server.payload_ignored, Leader.never_sends_heartbeat,
      Leader.leader_is_dropped, Threads.create_threads_double_free,
      Startup.balancer_ignores_its_port, Monitoring.cpu_total_cancels,
      MlModel.nan_never_rejuvenates, Workload.thread_waits_once and others.

    ** Fuel and bounds

    Traversals of the heap take the number of nodes they may visit; the theorems
    ask for as many as the list has and then give the result, and
    Database.aggregate_file takes the number of nodes allocated.  [fgets_all] takes
    the length of the file, and every call consumes a character.  Loops over
    scripts of system call answers are structural: when the script ends, the
    result says that the loop is still running.  [memrep] takes one step for each
    halving, and 32 are enough for an [int].  Runs of the database have fewer than 2^32 points, tables fewer than
    2^30 VMs, where a theorem says so.

    ** Not modelled

    - What is printed on the terminal (but that what [printf] reads is a string, where
      the bytes come from a socket), the [printf] of leak.c that reads a variable not
      yet written, [ignore_pipe], signals, [start_server] of
      client.c (never called), and code that is compiled only with VERBOSE, SIMULATE
      or SPINLOCK_GIVES_COUNT.  The MATLAB interface is the class [Mex.Mx], and the
      time zone an argument of [TimerText.timer_tostring].
    - Memory models: interleavings are sequentially consistent.  In Races and
      Interleaved a copy of a struct or of a short string is one access.  In
      EndToEnd each [recv] of the balancer gets one struct whole, and [realloc]
      does not move the table; what happens otherwise is in
      Balancer.end_of_stream_readds and Races.realloc_under_a_worker.
    - In the relay, [select] is given by which sockets are ready; that one set is
      used for reading and writing only makes more sockets ready.
    - The [malloc]s of the relay's four buffers, of the tables in main of server.c and
      of the block of [create_threads] succeed; where else one can return [NULL] is an
      argument of the model.
    - Hexadecimal floating constants in input, and the sign of a printed NaN, which
      is an argument.
    - The scripts in MATLAB, Octave, Python and shell, which are not C. *)
From stdpp Require Export gmap list strings numbers relations.
From Stdlib Require Export ZArith Lia.

Open Scope Z_scope.

(** ** Notation scope, tactics and hint databases *)

Declare Scope a2pm_scope.
Delimit Scope a2pm_scope with a2pm.
Open Scope a2pm_scope.

Create HintDb a2pm.
Create HintDb a2pm_inv.

(** ** Machine integers

    A C [unsigned int] is a [Z] in [0, 2^32), an [int] a [Z] in [-2^31, 2^31),
    a [size_t] a [Z] in [0, 2^64).  The three functions below are the
    conversions the compiler inserts (two's complement, reduction modulo the
    width). *)
Definition u32 (z : Z) : Z := z mod 2 ^ 32.
Definition s32 (z : Z) : Z := (z + 2 ^ 31) mod 2 ^ 32 - 2 ^ 31.
Definition u64 (z : Z) : Z := z mod 2 ^ 64.

Definition is_u32 (z : Z) : Prop := 0 <= z < 2 ^ 32.
Definition is_s32 (z : Z) : Prop := - 2 ^ 31 <= z < 2 ^ 31.
Definition is_u64 (z : Z) : Prop := 0 <= z < 2 ^ 64.

Lemma u32_range z : is_u32 (u32 z).
Proof. apply Z.mod_pos_bound. lia. Qed.

Lemma s32_range z : is_s32 (s32 z).
Proof.
  unfold is_s32, s32. pose proof (Z.mod_pos_bound (z + 2 ^ 31) (2 ^ 32) ltac:(lia)). lia.
Qed.

Lemma u64_range z : is_u64 (u64 z).
Proof. apply Z.mod_pos_bound. lia. Qed.

Lemma u32_id z : is_u32 z → u32 z = z.
Proof. intros H. apply Z.mod_small, H. Qed.

Lemma s32_id z : is_s32 z → s32 z = z.
Proof. unfold is_s32, s32. intros H. rewrite Z.mod_small by lia. lia. Qed.

Lemma u64_id z : is_u64 z → u64 z = z.
Proof. intros H. apply Z.mod_small, H. Qed.

(** [s32] only depends on its argument modulo [2^32]. *)
Lemma s32_shift z k : s32 (z + k * 2 ^ 32) = s32 z.
Proof.
  unfold s32. f_equal.
  replace (z + k * 2 ^ 32 + 2 ^ 31) with (z + 2 ^ 31 + k * 2 ^ 32) by lia.
  apply Z.mod_add. lia.
Qed.

Lemma s32_eq_shift z : ∃ k, s32 z = z + k * 2 ^ 32.
Proof.
  exists (- ((z + 2 ^ 31) / 2 ^ 32)). unfold s32.
  pose proof (Z.div_mod (z + 2 ^ 31) (2 ^ 32) ltac:(lia)). lia.
Qed.

Lemma s32_sub_l a b : s32 (s32 a - b) = s32 (a - b).
Proof.
  destruct (s32_eq_shift a) as [k ->].
  replace (a + k * 2 ^ 32 - b) with (a - b + k * 2 ^ 32) by lia. apply s32_shift.
Qed.

Lemma s32_add_l a b : s32 (s32 a + b) = s32 (a + b).
Proof.
  destruct (s32_eq_shift a) as [k ->].
  replace (a + k * 2 ^ 32 + b) with (a + b + k * 2 ^ 32) by lia. apply s32_shift.
Qed.

#[export] Hint Resolve u32_range s32_range u64_range : a2pm.
#[export] Hint Rewrite s32_sub_l s32_add_l : a2pm.

(** ** Outcomes of C code

    A piece of C code returns a value, ends the process with [exit]/[abort],
    or runs into undefined behaviour; the last case names what went wrong. *)
Inductive fault :=
  | OutOfBounds       (* access outside the object *)
  | NullDeref
  | UseAfterFree      (* dangling pointer, double free included *)
  | DivByZero
  | UninitRead        (* value of an object that was never written *)
  | SignedOverflow.   (* an [int] result, or a conversion of a number with a fraction, outside the range of its type *)

Inductive outcome (A : Type) : Type :=
  | Val (a : A)
  | Exit (code : Z)
  | Aborted
  | Fault (f : fault).
Arguments Val {A} a.
Arguments Exit {A} code.
Arguments Aborted {A}.
Arguments Fault {A} f.

#[export] Instance fault_eq_dec : EqDecision fault.
Proof. solve_decision. Defined.
#[export] Instance outcome_eq_dec {A} `{EqDecision A} : EqDecision (outcome A).
Proof. solve_decision. Defined.

#[export] Instance outcome_ret : MRet outcome := λ A a, Val a.
#[export] Instance outcome_bind : MBind outcome := λ A B k m,
  match m with
  | Val a => k a
  | Exit c => Exit c
  | Aborted => Aborted
  | Fault f => Fault f
  end.

Lemma outcome_bind_Val {A B} (k : A → outcome B) m b :
  (m ≫= k) = Val b ↔ ∃ a, m = Val a ∧ k a = Val b.
Proof. destruct m; simpl; naive_solver. Qed.

Lemma outcome_bind_assoc {A B C} (m : outcome A) (f : A → outcome B) (g : B → outcome C) :
  ((m ≫= f) ≫= g) = (m ≫= λ a, f a ≫= g).
Proof. by destruct m. Qed.

(** The result of an operation on [int]s. *)
Definition int_result (z : Z) : outcome Z := if decide (is_s32 z) then Val z else Fault SignedOverflow.

Lemma int_result_Val z v : int_result z = Val v → v = z ∧ is_s32 z.
Proof. unfold int_result. case_decide; [by intros [= <-]|done]. Qed.

Lemma int_result_ok z : is_s32 z → int_result z = Val z.
Proof. intros H. unfold int_result. by rewrite decide_True. Qed.

(** Computations that may not have ended within their fuel: [None]. *)
Definition then_ {A B} (m : outcome (option A)) (k : A → outcome (option B)) : outcome (option B) :=
  m ≫= λ r, match r with Some a => k a | None => Val None end.
Notation "x ←? m ; k" := (then_ m (λ x, k))
  (at level 20, m at level 100, k at level 200, only parsing) : a2pm_scope.

(** ** Arrays

    An array object is a list; an access names its index as the C [int] it is
    and faults outside the object. *)
Definition arr_get {A} (l : list A) (i : Z) : outcome A :=
  if decide (0 <= i)
  then match l !! Z.to_nat i with Some a => Val a | None => Fault OutOfBounds end
  else Fault OutOfBounds.

Definition arr_set {A} (l : list A) (i : Z) (a : A) : outcome (list A) :=
  if decide (0 <= i < Z.of_nat (length l))
  then Val (<[Z.to_nat i := a]> l)
  else Fault OutOfBounds.

Lemma arr_get_Val {A} (l : list A) i a :
  arr_get l i = Val a ↔ 0 <= i ∧ l !! Z.to_nat i = Some a.
Proof. unfold arr_get. case_decide; [case_match|]; naive_solver. Qed.

Lemma arr_get_nat {A} (l : list A) (n : nat) a :
  l !! n = Some a → arr_get l (Z.of_nat n) = Val a.
Proof. intros H. apply arr_get_Val. rewrite Nat2Z.id. split; [lia|done]. Qed.

Lemma arr_get_in_bounds {A} (l : list A) i :
  0 <= i < Z.of_nat (length l) → ∃ a, arr_get l i = Val a ∧ l !! Z.to_nat i = Some a.
Proof.
  intros H. destruct (lookup_lt_is_Some_2 l (Z.to_nat i)) as [a Ha]; [lia|].
  exists a. split; [|done]. apply arr_get_Val. split; [lia|done].
Qed.

Lemma arr_get_oob {A} (l : list A) i :
  i < 0 ∨ Z.of_nat (length l) <= i → arr_get l i = Fault OutOfBounds.
Proof.
  intros H. unfold arr_get. case_decide; [|done].
  rewrite lookup_ge_None_2; [done|lia].
Qed.

Lemma arr_set_Val {A} (l l' : list A) i a :
  arr_set l i a = Val l' ↔ 0 <= i < Z.of_nat (length l) ∧ l' = <[Z.to_nat i := a]> l.
Proof. unfold arr_set. case_decide; naive_solver. Qed.

Lemma arr_set_in_bounds {A} (l : list A) i a :
  0 <= i < Z.of_nat (length l) → arr_set l i a = Val (<[Z.to_nat i := a]> l).
Proof. intros H. apply arr_set_Val. done. Qed.

Lemma arr_set_oob {A} (l : list A) i a :
  i < 0 ∨ Z.of_nat (length l) <= i → arr_set l i a = Fault OutOfBounds.
Proof. intros H. unfold arr_set. case_decide; [lia|done]. Qed.

(** ** Scanning and compacting an array *)

(** The index of the first of the [n] slots from [index] on that satisfies [p]. *)
Fixpoint find_slot {A} (p : A → bool) (slots : list A) (index : Z) (n : nat) : outcome (option Z) :=
  match n with
  | O => Val None
  | S n => v ← arr_get slots index;
           if p v then Val (Some index) else find_slot p slots (index + 1) n
  end.

Lemma find_slot_list_find {A} (p : A → bool) slots i n :
  (i + n <= length slots)%nat →
  find_slot p slots (Z.of_nat i) n
    = Val ((λ jv, Z.of_nat (i + jv.1)) <$> list_find (λ v, p v = true) (take n (drop i slots))).
Proof.
  revert i. induction n as [|n IH]; intros i Hl; [done|].
  destruct (lookup_lt_is_Some_2 slots i) as [v Hv]; [lia|].
  cbn [find_slot]. rewrite (arr_get_nat _ _ _ Hv). cbn [mbind outcome_bind].
  erewrite drop_S by done. cbn [take list_find].
  destruct (decide (p v = true)) as [E|E].
  - rewrite E. cbn. by rewrite Nat.add_0_r.
  - destruct (p v); [done|]. replace (Z.of_nat i + 1) with (Z.of_nat (S i)) by lia. rewrite IH by lia.
    f_equal. destruct (list_find _ _) as [[j w]|]; simpl; [|done]. f_equal. lia.
Qed.

(** The element at [i] is overwritten by the last one, which goes away. *)
Definition swap_remove {A} (i : nat) (l : list A) : list A :=
  match last l with
  | Some x => take (pred (length l)) (<[i := x]> l)
  | None => l
  end.

Lemma swap_remove_perm {A} i (l : list A) v : l !! i = Some v → v :: swap_remove i l ≡ₚ l.
Proof.
  intros Hi. unfold swap_remove. destruct (last l) as [x|] eqn:Hx.
  - apply last_Some in Hx as [l' ->]. rewrite length_app, Nat.add_1_r. cbn [pred].
    destruct (decide (i = length l')) as [->|Hne].
    + rewrite list_lookup_middle in Hi by done. injection Hi as <-.
      rewrite insert_app_r_alt, Nat.sub_diag by lia.
      change (<[0%nat := x]> [x]) with [x]. rewrite take_app_le, take_ge by lia. apply Permutation_cons_append.
    + apply lookup_lt_Some in Hi as Hlt. rewrite length_app in Hlt; cbn in Hlt.
      rewrite lookup_app_l in Hi by lia. rewrite insert_app_l by lia.
      rewrite take_app_le, take_ge by (rewrite length_insert; lia).
      apply list_elem_of_split_length in Hi as (l1 & l2 & -> & ->).
      rewrite insert_app_r_alt, Nat.sub_diag by lia.
      change (<[0%nat := x]> (v :: l2)) with (x :: l2).
      rewrite <-(Permutation_cons_append (l1 ++ v :: l2) x), <-!Permutation_middle. apply Permutation_swap.
  - apply last_None in Hx as ->. done.
Qed.

(** On an array whose first [n] elements are in use. *)
Lemma take_swap_remove {A} (l : list A) n i w :
  (i < Z.to_nat n <= length l)%nat → l !! Z.to_nat (n - 1) = Some w →
  take (Z.to_nat (n - 1)) (<[i := w]> l) = swap_remove i (take (Z.to_nat n) l).
Proof.
  intros [Hi Hn] Hw. unfold swap_remove. rewrite last_lookup, length_take, Nat.min_l by lia.
  rewrite lookup_take_lt by lia. replace (pred (Z.to_nat n)) with (Z.to_nat (n - 1)) by lia. rewrite Hw.
  destruct (decide (i < Z.to_nat (n - 1))%nat) as [Hin|Hin].
  - rewrite !take_insert_lt by lia. by rewrite take_take, Nat.min_l by lia.
  - rewrite !take_insert_ge by lia. by rewrite take_take, Nat.min_l by lia.
Qed.

Lemma swap_remove_length {A} i (l : list A) v : l !! i = Some v → S (length (swap_remove i l)) = length l.
Proof. intros H. by rewrite <-(Permutation_length (swap_remove_perm i l v H)). Qed.

(** ** Counting the threads that are in a section *)
Lemma sum_list_with_insert {A} (f : A → nat) l i x y :
  l !! i = Some y → (sum_list_with f (<[i := x]> l) + f y = sum_list_with f l + f x)%nat.
Proof.
  revert i. induction l as [|z l IH]; intros [|i] H; simplify_eq/=; [lia|]. specialize (IH _ H). lia.
Qed.

Lemma sum_list_with_lookup {A} (f : A → nat) l i x : l !! i = Some x → (f x <= sum_list_with f l)%nat.
Proof. revert i. induction l as [|y l IH]; intros [|i] H; simplify_eq/=; [lia|]. specialize (IH _ H). lia. Qed.

Lemma sum_list_with_pos {A} (f : A → nat) l : (0 < sum_list_with f l)%nat → ∃ i x, l !! i = Some x ∧ (0 < f x)%nat.
Proof.
  induction l as [|y l IH]; cbn; [lia|]. intros H. destruct (f y) eqn:E.
  - destruct IH as (i & x & ? & ?); [lia|]. by exists (S i), x.
  - exists 0%nat, y. split; [done|lia].
Qed.

Lemma sum_list_with_two {A} (f : A → nat) l i j x y :
  i ≠ j → l !! i = Some x → l !! j = Some y → (f x + f y <= sum_list_with f l)%nat.
Proof.
  revert i j. induction l as [|z l IH]; intros [|i] [|j] Hne Hx Hy; simplify_eq/=.
  - pose proof (sum_list_with_lookup f _ _ _ Hy). lia.
  - pose proof (sum_list_with_lookup f _ _ _ Hx). lia.
  - specialize (IH i j ltac:(congruence) Hx Hy). lia.
Qed.

Lemma Forall_insert_others {A} (P : A → Prop) l t x :
  (∀ t' y, t' ≠ t → l !! t' = Some y → P y) → P x → Forall P (<[t := x]> l).
Proof.
  intros H Hx. apply Forall_lookup. intros i y Hi. apply list_lookup_insert_Some in Hi as [(-> & <- & _)|[Hne Hi]]; [done|].
  by eapply H.
Qed.

(** ** Transition systems *)
Lemma rtc_invariant {S : Type} (R : relation S) (I : S → Prop) s s' :
  (∀ x y, I x → R x y → I y) → I s → rtc R s s' → I s'.
Proof. intros Hpres Hs Hr. induction Hr; eauto. Qed.

(** A run of a deterministic handler over a list of events. *)
Fixpoint run {S E} (f : E → S → outcome S) (es : list E) (s : S) : outcome S :=
  match es with
  | [] => Val s
  | e :: es => f e s ≫= run f es
  end.

Lemma run_app {S E} (f : E → S → outcome S) es1 es2 s :
  run f (es1 ++ es2) s = (run f es1 s ≫= run f es2).
Proof.
  revert s; induction es1 as [|e es1 IH]; intros s; simpl; [done|].
  destruct (f e s); simpl; auto.
Qed.

Lemma run_invariant {S E} (f : E → S → outcome S) (I : S → Prop) es s s' :
  (∀ e x y, I x → f e x = Val y → I y) → I s → run f es s = Val s' → I s'.
Proof.
  intros Hpres. revert s; induction es as [|e es IH]; intros s Hs; simpl.
  - by intros [= <-].
  - intros (x & Hx & Hr)%outcome_bind_Val. eauto.
Qed.

(** ** Tactics *)

(** Breaks a hypothesis [m = Val v] along its binds, conditionals and matches. *)
Ltac outcome_inv H :=
  repeat first
    [ progress simplify_eq/=
    | apply outcome_bind_Val in H; destruct H as (? & ? & H)
    | case_decide
    | case_match ].

(** Case analysis on a bounded integer index: [0 <= i < n] with [n] a numeral. *)
Ltac done_lia := solve [ done | lia | naive_solver lia ].
