(* ===== verification/CFloat.v ===== *)
(** * C [float] and [double]

    IEEE 754 binary32 and binary64 as [SpecFloat] computes them: round to
    nearest, ties to even, no excess precision and no contraction (x86-64 with
    SSE arithmetic). *)
From Stdlib Require Import Floats.SpecFloat.
From S2P Require Export Prelude.
Open Scope Z_scope.

(** A [float] or a [double] is a [spec_float]; the operations carry the format. *)
Notation f32 := spec_float (only parsing).
Notation f64 := spec_float (only parsing).

Definition add32 : f32 → f32 → f32 := SFadd 24 128.
Definition sub32 : f32 → f32 → f32 := SFsub 24 128.
Definition mul32 : f32 → f32 → f32 := SFmul 24 128.
Definition div32 : f32 → f32 → f32 := SFdiv 24 128.

Definition add64 : f64 → f64 → f64 := SFadd 53 1024.
Definition sub64 : f64 → f64 → f64 := SFsub 53 1024.
Definition mul64 : f64 → f64 → f64 := SFmul 53 1024.
Definition div64 : f64 → f64 → f64 := SFdiv 53 1024.

Definition zero : spec_float := S754_zero false.

(** [(float)z], [(double)z] for an integer. *)
Definition f32_of_Z (z : Z) : f32 := binary_normalize 24 128 z 0 false.
Definition f64_of_Z (z : Z) : f64 := binary_normalize 53 1024 z 0 false.

(** Conversions between the two formats; [(double)x] is exact. *)
Definition convert (prec emax : Z) (x : spec_float) : spec_float :=
  match x with
  | S754_finite s m e => binary_round prec emax s m e
  | _ => x
  end.
Definition f32_of_f64 : f64 → f32 := convert 24 128.
Definition f64_of_f32 : f32 → f64 := convert 53 1024.

(** The value nearest to [± m * 10^k]: a decimal constant, or what [%f] and
    [%lf] read. *)
Definition of_decimal (prec emax : Z) (s : bool) (m : N) (k : Z) : spec_float :=
  match m with
  | N0 => S754_zero s
  | Npos p =>
      if 0 <=? k
      then binary_round prec emax s (p * Z.to_pos (10 ^ k)) 0
      else SFdiv prec emax (S754_finite s p 0) (S754_finite false (Z.to_pos (10 ^ (- k))) 0)
  end.
Definition dec32 := of_decimal 24 128.
Definition dec64 := of_decimal 53 1024.

(** [x < y]; false when one of them is a NaN. *)
Definition flt (x y : spec_float) : bool := SFltb x y.

Definition is_nan_f (x : spec_float) : bool :=
  match x with S754_nan => true | _ => false end.

(** ** NaN is absorbing *)
Lemma SFadd_nan_l p e y : SFadd p e S754_nan y = S754_nan.
Proof. done. Qed.
Lemma SFadd_nan_r p e x : SFadd p e x S754_nan = S754_nan.
Proof. by destruct x. Qed.
Lemma SFsub_nan_l p e y : SFsub p e S754_nan y = S754_nan.
Proof. done. Qed.
Lemma SFsub_nan_r p e x : SFsub p e x S754_nan = S754_nan.
Proof. by destruct x. Qed.
Lemma SFmul_nan_l p e y : SFmul p e S754_nan y = S754_nan.
Proof. done. Qed.
Lemma SFmul_nan_r p e x : SFmul p e x S754_nan = S754_nan.
Proof. by destruct x. Qed.
Lemma SFdiv_nan_l p e y : SFdiv p e S754_nan y = S754_nan.
Proof. done. Qed.
Lemma SFdiv_nan_r p e x : SFdiv p e x S754_nan = S754_nan.
Proof. by destruct x. Qed.
Lemma flt_nan_l y : flt S754_nan y = false.
Proof. done. Qed.
Lemma flt_nan_r x : flt x S754_nan = false.
Proof. by destruct x. Qed.

#[export] Hint Rewrite SFadd_nan_l SFadd_nan_r SFsub_nan_l SFsub_nan_r SFmul_nan_l SFmul_nan_r
  SFdiv_nan_l SFdiv_nan_r flt_nan_l flt_nan_r : nan.

(** Pushes a NaN to the top of a float expression. *)
Ltac absorb_nan :=
  unfold add32, sub32, mul32, div32, add64, sub64, mul64, div64, f32_of_f64, f64_of_f32, convert in *;
  repeat (first [progress autorewrite with nan | progress cbn beta iota zeta]); try done.

#[export] Instance spec_float_eq_dec : EqDecision spec_float.
Proof. solve_decision. Defined.

Example dec64_tenth : dec64 false 1 (-1) = S754_finite false 7205759403792794 (-56).
Proof. reflexivity. Qed.
Example f32_rounds : f32_of_Z 16777217 = f32_of_Z 16777216.
Proof. reflexivity. Qed.
Example f32_of_tenth : f32_of_f64 (dec64 false 1 (-1)) = dec32 false 1 (-1).
Proof. reflexivity. Qed.

(** ** Integers below 2^53 are exact, and compare as they do *)
Lemma digits2_size p : digits2_pos p = Pos.size p.
Proof. by induction p as [p IH|p IH|]; cbn; rewrite ?IH. Qed.

Lemma size_bounds p : 2 ^ (Z.pos (digits2_pos p) - 1) <= Z.pos p < 2 ^ Z.pos (digits2_pos p).
Proof.
  rewrite digits2_size. pose proof (Pos.size_gt p) as H1%Pos2Z.pos_lt_pos. pose proof (Pos.size_le p) as H2%Pos2Z.pos_le_pos.
  rewrite Pos2Z.inj_xO, Pos2Z.inj_pow in H2. rewrite Pos2Z.inj_pow in H1. split; [|done].
  apply (Z.mul_le_mono_pos_l _ _ 2); [lia|]. rewrite <-Z.pow_succ_r by lia.
  by replace (Z.succ (Z.pos (Pos.size p) - 1)) with (Z.pos (Pos.size p)) by lia.
Qed.

Lemma iter_xO p d : Z.pos (Pos.iter xO p d) = Z.pos p * 2 ^ Z.pos d ∧
  Z.pos (digits2_pos (Pos.iter xO p d)) = Z.pos (digits2_pos p) + Z.pos d.
Proof.
  induction d as [|d [IH1 IH2]] using Pos.peano_ind; [cbn [Pos.iter digits2_pos]; split; lia|].
  rewrite Pos.iter_succ. cbn [digits2_pos]. rewrite Pos2Z.inj_xO, IH1, !Pos2Z.inj_succ, IH2, Z.pow_succ_r by lia. split; lia.
Qed.

(** A mantissa of the full width is left alone. *)
Lemma round_full prec emax s m e :
  fexp prec emax (Z.pos (digits2_pos m) + e) = e → e <= emax - prec →
  binary_round_aux prec emax s (Z.pos m) e loc_Exact = S754_finite s m e.
Proof.
  intros Hf He. assert (Hs : shr_fexp prec emax (Z.pos m) e loc_Exact = ({| shr_m := Z.pos m; shr_r := false; shr_s := false |}, e)).
  { unfold shr_fexp. cbn [Zdigits2 shr_record_of_loc]. rewrite Hf, Z.sub_diag. done. }
  unfold binary_round_aux. rewrite Hs. cbn [shr_m loc_of_shr_record round_nearest_even]. rewrite Hs. cbn [shr_m].
  by rewrite (proj2 (Z.leb_le _ _) He).
Qed.

Lemma f64_of_pos p :
  Z.pos p < 2 ^ 53 → ∃ m, f64_of_Z (Z.pos p) = S754_finite false m (Z.pos (digits2_pos p) - 53) ∧
    Z.pos m = Z.pos p * 2 ^ (53 - Z.pos (digits2_pos p)).
Proof.
  intros Hp. pose proof (size_bounds p) as [Hb _].
  assert (Hd : Z.pos (digits2_pos p) <= 53).
  { assert (Z.pos (digits2_pos p) - 1 < 53) by (apply (Z.pow_lt_mono_r_iff 2); lia). lia. }
  unfold f64_of_Z, binary_normalize, binary_round. rewrite Z.add_0_r.
  assert (Hf : fexp 53 1024 (Z.pos (digits2_pos p)) = Z.pos (digits2_pos p) - 53) by (unfold fexp, emin; lia).
  rewrite Hf. unfold shl_align. rewrite Z.sub_0_r.
  destruct (Z.pos (digits2_pos p) - 53) as [|d|d] eqn:E; [|lia|].
  - exists p. rewrite round_full by (rewrite ?Z.add_0_r; lia || rewrite Hf; lia). split; [done|].
    replace (53 - Z.pos (digits2_pos p)) with 0 by lia. lia.
  - destruct (iter_xO p d) as [Hv Hl]. exists (Pos.iter xO p d).
    rewrite round_full by (rewrite ?Hl; unfold fexp, emin; lia). split; [done|].
    rewrite Hv. do 2 f_equal. lia.
Qed.

Lemma flt_integers a b : 0 <= a < 2 ^ 53 → 0 <= b < 2 ^ 53 → flt (f64_of_Z a) (f64_of_Z b) = (a <? b).
Proof.
  intros Ha Hb. destruct a as [|a|a], b as [|b|b]; try lia; try done.
  - destruct (f64_of_pos b) as (m & E & _); [lia|]. by rewrite E.
  - destruct (f64_of_pos a) as (m & E & _); [lia|]. by rewrite E.
  - destruct (f64_of_pos a) as (m & Ea & Hm); [lia|]. destruct (f64_of_pos b) as (n & Eb & Hn); [lia|].
    rewrite Ea, Eb. unfold flt, SFltb. cbn [SFcompare].
    pose proof (size_bounds a) as Sa. pose proof (size_bounds b) as Sb. symmetry.
    destruct (Z.compare_spec (Z.pos (digits2_pos a) - 53) (Z.pos (digits2_pos b) - 53)) as [E|E|E].
    + rewrite <-E in *. change (Pos.compare_cont Eq m n) with (Pos.compare m n).
      replace (digits2_pos b) with (digits2_pos a) in Hn by lia.
      assert (0 < 2 ^ (53 - Z.pos (digits2_pos a))) as Hpow.
      { apply Z.pow_pos_nonneg; [lia|]. pose proof (Z.pow_lt_mono_r_iff 2 (Z.pos (digits2_pos a) - 1) 53). lia. }
      destruct (Pos.compare_spec m n) as [->|H|H].
      * apply Z.ltb_ge. nia.
      * apply Z.ltb_lt. apply Pos2Z.pos_lt_pos in H. nia.
      * apply Z.ltb_ge. apply Pos2Z.pos_lt_pos in H. nia.
    + apply Z.ltb_lt. pose proof (Z.pow_le_mono_r 2 (Z.pos (digits2_pos a)) (Z.pos (digits2_pos b) - 1)). lia.
    + apply Z.ltb_ge. pose proof (Z.pow_le_mono_r 2 (Z.pos (digits2_pos b)) (Z.pos (digits2_pos a) - 1)). lia.
Qed.

(** ** Signs *)

(** Without a minus sign. *)
Definition nonneg (x : spec_float) : Prop := match x with S754_finite true _ _ | S754_infinity true | S754_zero true => False | _ => True end.

Lemma round_nonneg prec emax m e l : nonneg (binary_round_aux prec emax false m e l).
Proof.
  unfold binary_round_aux. destruct (shr_fexp _ _ _ _ _) as [r1 e1]. destruct (shr_fexp _ _ _ _ _) as [r2 e2].
  destruct (shr_m r2); try exact I. by destruct (_ <=? _).
Qed.

Lemma f64_of_Z_nonneg z : 0 <= z → nonneg (f64_of_Z z).
Proof.
  intros H. unfold f64_of_Z, binary_normalize. destruct z as [|p|p]; [done| |lia].
  unfold binary_round. destruct (shl_align _ _ _). apply round_nonneg.
Qed.

Lemma mul64_nonneg x y : nonneg x → nonneg y → nonneg (mul64 x y).
Proof. destruct x as [[]|[]| |[] ? ?], y as [[]|[]| |[] ? ?]; try done. intros _ _. apply round_nonneg. Qed.

Lemma div64_nonneg x y : nonneg x → nonneg y → nonneg (div64 x y).
Proof.
  destruct x as [[]|[]| |[] m e], y as [[]|[]| |[] m0 e0]; try done. intros _ _. unfold div64, SFdiv.
  destruct (SFdiv_core_binary 53 1024 (Z.pos m) e (Z.pos m0) e0) as [[q e1] l]. apply round_nonneg.
Qed.
