(* ===== verification/Rounding.v ===== *)
(** * Rounding of C [float] and [double] to nearest

    What the programs need to know of the rounding of a product or a quotient:
    the result is on the same side of every representable number as the exact
    value ([rounds]), so that a comparison with a representable number, the
    rounding of a representable value and the floor can be computed on exact
    rationals.  The value of a float is a rational. *)
From Stdlib Require Import QArith Qpower Qround Lqa.
From Stdlib Require Import Floats.SpecFloat.
From S2P Require Import Prelude CFloat.
Open Scope Z_scope.

(** ** Powers of two and dyadic numbers *)
Definition pw (e : Z) : Q := Qpower (inject_Z 2) e.
Definition dy (m e : Z) : Q := inject_Z m * pw e.

Lemma pw_pos e : (0 < pw e)%Q.
Proof. apply Qpower_0_lt. reflexivity. Qed.

Lemma pw_add a b : (pw (a + b) == pw a * pw b)%Q.
Proof. apply Qpower_plus. intros H. discriminate H. Qed.

Lemma pw_nonneg n : 0 <= n → (pw n == inject_Z (2 ^ n))%Q.
Proof. intros H. unfold pw. by rewrite Zpower_Qpower. Qed.

Lemma dy_shift m e n : 0 <= n → (dy m (e + n) == dy (m * 2 ^ n) e)%Q.
Proof. intros H. unfold dy. rewrite pw_add, (pw_nonneg n), inject_Z_mult by done. ring. Qed.

Lemma dy_at m e e' : e' <= e → (dy m e == dy (m * 2 ^ (e - e')) e')%Q.
Proof. intros H. rewrite <-dy_shift by lia. by replace (e' + (e - e')) with e by lia. Qed.

Lemma dy_le m m' e : (dy m e <= dy m' e)%Q ↔ m <= m'.
Proof.
  unfold dy. pose proof (pw_pos e) as Hp. rewrite (Zle_Qle m m'). split; intros H.
  - by apply (Qmult_le_r _ _ (pw e)).
  - by apply Qmult_le_r.
Qed.

Lemma dy_lt m m' e : (dy m e < dy m' e)%Q ↔ m < m'.
Proof. rewrite Z.lt_nge, <-(dy_le m' m e). split; [apply Qlt_not_le|apply Qnot_le_lt]. Qed.

Lemma dy_0 m : (dy m 0 == inject_Z m)%Q.
Proof. unfold dy. change (pw 0) with 1%Q. ring. Qed.

Lemma inject_Z_pos z : 0 < z → (0 < inject_Z z)%Q.
Proof. by destruct z. Qed.

Lemma dy_mult m e m' e' : (dy m e * dy m' e' == dy (m * m') (e + e'))%Q.
Proof. unfold dy. rewrite pw_add, inject_Z_mult. ring. Qed.

#[export] Instance dy_proper : Proper (eq ==> eq ==> Qeq) dy.
Proof. by intros ? ? -> ? ? ->. Qed.

(** ** Where the exact value lies

    [X] is in the interval of one unit above the mantissa, at its lower end
    exactly when the two bits are not set. *)
Definition inexact (r : shr_record) : bool := shr_r r || shr_s r.
Definition located (X : Q) (e : Z) (r : shr_record) : Prop :=
  0 <= shr_m r ∧ (dy (shr_m r) e <= X < dy (shr_m r + 1) e)%Q ∧
  (inexact r = false → X == dy (shr_m r) e)%Q ∧ (inexact r = true → dy (shr_m r) e < X)%Q.

Lemma shr_1_mantissa r : 0 <= shr_m r → shr_m (shr_1 r) = shr_m r / 2 ∧
  inexact (shr_1 r) = Z.odd (shr_m r) || inexact r.
Proof.
  destruct r as [[|[p|p|]|p] b s]; intros H; cbn in H; try lia; unfold inexact; cbn -[Z.div]; (split; [|done]); try done.
  - rewrite Pos2Z.inj_xI. apply (Z.div_unique_pos _ 2 _ 1); lia.
  - rewrite Pos2Z.inj_xO. apply (Z.div_unique_pos _ 2 _ 0); lia.
Qed.

Lemma located_shr_1 X e r : located X e r → located X (e + 1) (shr_1 r).
Proof.
  intros (H0 & [H1 H2] & H3 & H4). destruct (shr_1_mantissa r H0) as [Em Ei].
  pose proof (Z.div_mod (shr_m r) 2 ltac:(lia)) as Hd. rewrite Zmod_odd in Hd.
  unfold located. rewrite Em, Ei, !dy_shift by lia. set (q := shr_m r / 2) in *.
  assert (dy (q * 2 ^ 1) e <= dy (shr_m r) e)%Q as G1 by (apply dy_le; destruct (Z.odd _); lia).
  assert (dy (shr_m r + 1) e <= dy ((q + 1) * 2 ^ 1) e)%Q as G2 by (apply dy_le; destruct (Z.odd _); lia).
  split; [by apply Z.div_pos|]. split; [split; lra|]. destruct (Z.odd (shr_m r)) eqn:Eo; cbn [orb].
  - assert (dy (q * 2 ^ 1) e < dy (shr_m r) e)%Q as G by (apply dy_lt; lia). split; [done|]. intros _. lra.
  - replace (q * 2 ^ 1) with (shr_m r) by lia. tauto.
Qed.

Lemma located_iter X p e r : located X e r → located X (e + Z.pos p) (SpecFloat.iter_pos shr_1 p r).
Proof.
  revert e r. induction p as [p IH|p IH|]; intros e r H; cbn [SpecFloat.iter_pos].
  - replace (e + Z.pos p~1) with (e + 1 + Z.pos p + Z.pos p) by lia. by apply IH, IH, located_shr_1.
  - replace (e + Z.pos p~0) with (e + Z.pos p + Z.pos p) by lia. by apply IH, IH.
  - by apply located_shr_1.
Qed.

Lemma located_shr X e r n r' e' : shr r e n = (r', e') → located X e r → located X e' r' ∧ e' = Z.max e (e + n).
Proof.
  unfold shr. destruct n as [|p|p]; intros [= <- <-] H; (split; [|lia]); try done. by apply located_iter.
Qed.

(** The mantissa after a shift is the quotient. *)
Lemma located_div X e r m e0 : located X e r → located X e0 m → e0 <= e → shr_m r = shr_m m / 2 ^ (e - e0).
Proof.
  intros (_ & [H1 H2] & _) (_ & [H3 H4] & _) He.
  rewrite (dy_at _ e e0 He) in H1. rewrite (dy_at _ e e0 He) in H2.
  assert (shr_m r * 2 ^ (e - e0) < shr_m m + 1) by (apply (dy_lt _ _ e0); lra).
  assert (shr_m m < (shr_m r + 1) * 2 ^ (e - e0)) by (apply (dy_lt _ _ e0); lra).
  pose proof (Z.pow_pos_nonneg 2 (e - e0)).
  apply (Z.div_unique_pos _ _ _ (shr_m m - shr_m r * 2 ^ (e - e0))); lia.
Qed.

(** ** Rounding *)
Section Format.
Context (prec emax : Z) (Hprec : 1 < prec) (Hemax : prec < emax).

Notation emin := (emin prec emax).
Notation fexp := (fexp prec emax).

(** The numbers of the format that are not negative. *)
Definition representable (y : Q) : Prop :=
  ∃ m e, 0 <= m < 2 ^ prec ∧ emin <= e <= emax - prec ∧ (y == dy m e)%Q.

Definition fval (x : spec_float) : Q :=
  match x with S754_finite s m e => dy (cond_Zopp s (Z.pos m)) e | _ => 0%Q end.

Definition canonical (x : spec_float) : Prop :=
  match x with
  | S754_zero false => True
  | S754_finite false m e => fexp (Z.pos (digits2_pos m) + e) = e ∧ e <= emax - prec
  | _ => False
  end.

(** [f] is [X] rounded: no number of the format is strictly between them. *)
Definition rounds (X : Q) (f : spec_float) : Prop :=
  canonical f ∧ ∀ y, representable y → (y <= X → y <= fval f)%Q ∧ (X <= y → fval f <= y)%Q.

#[export] Instance rounds_proper : Proper (Qeq ==> eq ==> iff) rounds.
Proof. intros X X' HX f _ <-. unfold rounds. by setoid_rewrite HX. Qed.

Lemma two_prec : 2 ^ prec = 2 ^ (prec - 1) * 2.
Proof. replace prec with (Z.succ (prec - 1)) at 1 by lia. rewrite Z.pow_succ_r by lia. lia. Qed.

Lemma digits_bounds m : 0 < m → 2 ^ (Zdigits2 m - 1) <= m < 2 ^ Zdigits2 m ∧ 0 < Zdigits2 m.
Proof. intros H. destruct m as [|p|p]; try lia. split; [apply size_bounds|done]. Qed.

Lemma digits_le m k : 0 <= m < 2 ^ k → 0 <= k → Zdigits2 m <= k.
Proof.
  intros [H0 H] Hk. destruct (Z.eq_dec m 0) as [->|Hm]; [done|].
  destruct (digits_bounds m) as ([H1 _] & _); [lia|].
  assert (Zdigits2 m - 1 < k); [|lia]. apply (Z.pow_lt_mono_r_iff 2); lia.
Qed.

Lemma digits_ge m k : 2 ^ k <= m → 0 <= k → k < Zdigits2 m.
Proof.
  intros H Hk. pose proof (Z.pow_pos_nonneg 2 k ltac:(lia) Hk). destruct (digits_bounds m) as ([_ H2] & H3); [lia|].
  apply (Z.pow_lt_mono_r_iff 2); lia.
Qed.

(** A mantissa and an exponent of the width of the format: at the least exponent,
    or with all its digits. *)
Definition full (m e : Z) : Prop := emin <= e ∧ (e = emin ∨ 2 ^ (prec - 1) <= m).

(** Numbers of the format around a full mantissa. *)
Lemma representable_steps m e y :
  0 <= m → full m e → representable y → (y < dy (m + 1) e → y <= dy m e)%Q ∧ (dy m e < y → dy (m + 1) e <= y)%Q.
Proof.
  intros Hm [He Hf] (k & e' & [Hk0 Hk] & [He' _] & Hy).
  destruct (Z.le_gt_cases e e') as [Hle|Hgt].
  - rewrite (dy_at k e' e Hle) in Hy. split; intros H; rewrite Hy in *; [apply dy_lt in H|apply dy_lt in H]; apply dy_le; lia.
  - destruct Hf as [->|Hf]; [lia|].
    assert (y < dy m e)%Q as Hlt.
    { rewrite Hy, (dy_at m e e') by lia. apply dy_lt.
      assert (2 ^ prec <= m * 2 ^ (e - e')); [|lia].
      replace prec with (prec - 1 + 1) by lia. rewrite Z.pow_add_r by lia.
      pose proof (Z.pow_le_mono_r 2 1 (e - e') ltac:(lia) ltac:(lia)). pose proof (Z.pow_pos_nonneg 2 (prec - 1)). nia. }
    split; intros; lra.
Qed.

(** The first shift leaves a full mantissa. *)
Lemma shr_fexp_spec X m e l r e' :
  0 <= m → located X e (shr_record_of_loc m l) → e <= fexp (Zdigits2 m + e) → shr_fexp prec emax m e l = (r, e') →
  located X e' r ∧ full (shr_m r) e' ∧ shr_m r < 2 ^ prec.
Proof.
  intros Hm Hloc He Hs. unfold shr_fexp in Hs. apply (located_shr X) in Hs as [Hr E]; [|done].
  set (f := fexp (Zdigits2 m + e)) in *. rewrite Z.max_r in E by lia. replace (e + (f - e)) with f in E by lia. subst e'.
  split; [done|]. rewrite (located_div X f r _ e Hr Hloc He).
  replace (shr_m (shr_record_of_loc m l)) with m by (by destruct l as [|[]]).
  assert (Hf : f = Z.max (Zdigits2 m + e - prec) emin) by done. clearbody f.
  destruct (Z.eq_dec m 0) as [->|Hm0].
  { cbn [Zdigits2] in Hf. rewrite Z.div_0_l by (apply Z.pow_nonzero; lia). split; [split; lia|]. by apply Z.pow_pos_nonneg; lia. }
  destruct (digits_bounds m) as ([H1 H2] & Hd); [lia|].
  assert (0 < 2 ^ (f - e)) by (apply Z.pow_pos_nonneg; lia). split; [split; [lia|]|].
  - destruct (Z.eq_dec f emin) as [?|Hne]; [by left|right]. apply Z.div_le_lower_bound; [done|].
    rewrite <-Z.pow_add_r by lia. replace (f - e + (prec - 1)) with (Zdigits2 m - 1) by lia. done.
  - apply Z.div_lt_upper_bound; [done|]. rewrite <-Z.pow_add_r by lia.
    eapply Z.lt_le_trans; [exact H2|]. apply Z.pow_le_mono_r; lia.
Qed.

(** ... and the rounding goes to one of its ends. *)
Lemma nearest_ends r : round_nearest_even (shr_m r) (loc_of_shr_record r) = shr_m r ∨
  inexact r = true ∧ round_nearest_even (shr_m r) (loc_of_shr_record r) = shr_m r + 1.
Proof. destruct r as [m [] []]; cbn; try case_match; tauto. Qed.

Lemma nearest_rounds X r e y :
  located X e r → full (shr_m r) e → representable y →
  let z := dy (round_nearest_even (shr_m r) (loc_of_shr_record r)) e in (y <= X → y <= z)%Q ∧ (X <= y → z <= y)%Q.
Proof.
  intros (H0 & [H1 H2] & H3 & H4) Hf Hy. destruct (representable_steps _ _ y H0 Hf Hy) as [S1 S2].
  destruct (nearest_ends r) as [->|[Hi ->]].
  - split; intros H; [apply S1; lra|]. lra.
  - specialize (H4 Hi). pose proof (dy_le (shr_m r) (shr_m r + 1) e) as Hle. split; intros H; [|apply S2; lra].
    eapply Qle_trans; [apply S1; lra|]. apply Hle. lia.
Qed.

(** The second shift only takes a carry back. *)
Lemma shr_fexp_carry m e r e' :
  0 <= m <= 2 ^ prec → full m e → shr_fexp prec emax m e loc_Exact = (r, e') →
  (dy (shr_m r) e' == dy m e)%Q ∧ 0 <= shr_m r < 2 ^ prec ∧ full (shr_m r) e' ∧ (0 < m → 0 < shr_m r).
Proof.
  intros Hm Hf Hs. unfold shr_fexp in Hs. cbn [shr_record_of_loc] in Hs.
  destruct (Z.eq_dec m (2 ^ prec)) as [->|Hne].
  - assert (Hd : Zdigits2 (2 ^ prec) = prec + 1).
    { pose proof (digits_ge (2 ^ prec) prec ltac:(lia) ltac:(lia)).
      pose proof (digits_le (2 ^ prec) (prec + 1)) as H'. rewrite Z.pow_add_r in H' by lia. lia. }
    destruct Hf as [He _]. rewrite Hd in Hs. replace (fexp (prec + 1 + e) - e) with 1 in Hs by (unfold SpecFloat.fexp; lia).
    assert (Hloc : located (dy (2 ^ prec) e) e {| shr_m := 2 ^ prec; shr_r := false; shr_s := false |}).
    { unfold located, inexact. cbn [shr_m shr_r shr_s orb]. split; [lia|].
      pose proof (dy_lt (2 ^ prec) (2 ^ prec + 1) e) as H'. split; [split; [apply Qle_refl|apply H'; lia]|]. by split; [intros|]. }
    pose proof (located_shr _ _ _ _ _ _ Hs Hloc) as [Hr E]. replace (Z.max e (e + 1)) with (e + 1) in E by lia. subst e'.
    rewrite (located_div _ _ _ _ e Hr Hloc) by lia. cbn [shr_m]. replace (e + 1 - e) with 1 by lia.
    pose proof (Z.pow_pos_nonneg 2 (prec - 1)). change (2 ^ 1) with 2. rewrite two_prec, Z.div_mul by lia. rewrite dy_shift by lia.
    split; [done|]. split; [lia|]. split; [|lia]. split; [lia|by right].
  - pose proof (digits_le m prec ltac:(lia) ltac:(lia)) as Hd. destruct Hf as [He Hf].
    assert (Hs' : shr {| shr_m := m; shr_r := false; shr_s := false |} e (fexp (Zdigits2 m + e) - e)
      = ({| shr_m := m; shr_r := false; shr_s := false |}, e)).
    { unfold shr. destruct (fexp (Zdigits2 m + e) - e) eqn:E; try done. unfold SpecFloat.fexp in E. lia. }
    rewrite Hs' in Hs. injection Hs as <- <-. cbn [shr_m]. split; [done|]. split; [lia|]. by split; [split|].
Qed.

Lemma full_canonical m e : 0 < m < 2 ^ prec → full m e → fexp (Zdigits2 m + e) = e.
Proof.
  intros Hm [He Hf]. pose proof (digits_le m prec ltac:(lia) ltac:(lia)) as Hd. unfold SpecFloat.fexp.
  destruct Hf as [->|Hf]; [lia|]. pose proof (digits_ge m (prec - 1) Hf ltac:(lia)). lia.
Qed.

(** The largest power of two of the format. *)
Definition huge : Q := pw (emax - 1).

Lemma huge_representable : representable huge.
Proof.
  exists (2 ^ (prec - 1)), (emax - prec). split; [|split].
  - split; [apply Z.pow_nonneg; lia|]. apply Z.pow_lt_mono_r; lia.
  - unfold SpecFloat.emin. lia.
  - unfold huge, dy. rewrite <-pw_nonneg, <-pw_add by lia. by replace (prec - 1 + (emax - prec)) with (emax - 1) by lia.
Qed.

Lemma below_huge m e : full m e → (dy m e <= huge)%Q → e <= emax - prec.
Proof.
  intros [He Hf] H. destruct Hf as [->|Hf]; [unfold SpecFloat.emin; lia|].
  destruct (Z.le_gt_cases e (emax - prec)) as [|Hgt]; [done|exfalso].
  rewrite (dy_at m e (emax - prec)) in H by lia.
  assert (huge == dy (2 ^ (prec - 1)) (emax - prec))%Q as E.
  { unfold huge, dy. rewrite <-pw_nonneg, <-pw_add by lia. by replace (prec - 1 + (emax - prec)) with (emax - 1) by lia. }
  rewrite E in H. apply dy_le in H.
  pose proof (Z.pow_le_mono_r 2 1 (e - (emax - prec)) ltac:(lia) ltac:(lia)). pose proof (Z.pow_pos_nonneg 2 (prec - 1)). nia.
Qed.

Lemma binary_round_aux_rounds X m e l :
  0 <= m → located X e (shr_record_of_loc m l) → e <= fexp (Zdigits2 m + e) → (X <= huge)%Q →
  rounds X (binary_round_aux prec emax false m e l).
Proof.
  intros Hm Hloc He HX. unfold binary_round_aux.
  destruct (shr_fexp prec emax m e l) as [r1 e1] eqn:E1.
  destruct (shr_fexp_spec X m e l r1 e1 Hm Hloc He E1) as (Hl1 & Hf1 & Hb1).
  pose proof (λ y, nearest_rounds X r1 e1 y Hl1 Hf1) as Hn. pose proof Hl1 as (H0 & _).
  set (mr := round_nearest_even _ _) in *.
  assert (Hmr : shr_m r1 <= mr <= shr_m r1 + 1) by (unfold mr; destruct (nearest_ends r1) as [->|[_ ->]]; lia).
  destruct (shr_fexp prec emax mr e1 loc_Exact) as [r2 e2] eqn:E2.
  destruct (shr_fexp_carry mr e1 r2 e2) as (Hv & Hb2 & Hf2 & _); [lia|destruct Hf1; split; [done|]; destruct (Z.eq_dec e1 emin); [by left|right; lia]|done|].
  assert (Hh : (dy (shr_m r2) e2 <= huge)%Q).
  { rewrite Hv. by apply (Hn huge huge_representable). }
  pose proof (below_huge _ _ Hf2 Hh) as He2.
  assert (Hval : ∀ y, representable y → (y <= X → y <= dy (shr_m r2) e2)%Q ∧ (X <= y → dy (shr_m r2) e2 <= y)%Q).
  { intros y Hy. rewrite Hv. by apply Hn. }
  destruct (shr_m r2) as [|p|p] eqn:Ep; [|rewrite (proj2 (Z.leb_le _ _) He2)|lia].
  - split; [done|]. intros y Hy. specialize (Hval y Hy). cbn [fval].
    assert (dy 0 e2 == 0)%Q as Hz by (unfold dy; ring). rewrite Hz in Hval. exact Hval.
  - split; [split; [|done]; apply (full_canonical (Z.pos p)); [lia|done]|exact Hval].
Qed.

(** ** What follows from the rounding *)
Lemma rounds_exact X f : rounds X f → representable X → (fval f == X)%Q.
Proof. intros [_ H] HX. destruct (H X HX) as [H1 H2]. apply Qle_antisym; [apply H2|apply H1]; apply Qle_refl. Qed.

Lemma canonical_nonneg f : canonical f → (0 <= fval f)%Q.
Proof.
  destruct f as [[]|[]| |[] m e]; try done; intros _; cbn.
  unfold dy. apply Qmult_le_0_compat; [by rewrite <-(Zle_Qle 0)|]. apply Qlt_le_weak, pw_pos.
Qed.

Lemma canonical_full m e : canonical (S754_finite false m e) → full (Z.pos m) e ∧ Z.pos m < 2 ^ prec.
Proof.
  intros [Hf _]. destruct (digits_bounds (Z.pos m)) as ([H1 H2] & Hd); [done|]. cbn [Zdigits2] in *. unfold SpecFloat.fexp in Hf.
  split.
  - split; [lia|]. destruct (Z.eq_dec e emin) as [?|Hne]; [by left|right].
    by replace (prec - 1) with (Z.pos (digits2_pos m) - 1) by lia.
  - eapply Z.lt_le_trans; [exact H2|]. apply Z.pow_le_mono_r; lia.
Qed.

Lemma canonical_representable f : canonical f → representable (fval f).
Proof.
  destruct f as [[]|[]| |[] m e]; try done; intros H.
  - exists 0, emin. split; [lia|]. split; [unfold SpecFloat.emin; lia|]. cbn. unfold dy. ring.
  - destruct (canonical_full m e H) as [[He _] Hb]. destruct H as [_ H]. exists (Z.pos m), e. split; [lia|]. by split.
Qed.

(** A canonical number is compared by its value. *)
Lemma flt_value x y : canonical x → canonical y → flt x y = true ↔ (fval x < fval y)%Q.
Proof.
  intros Hx Hy. unfold flt, SFltb. destruct x as [[]|[]| |[] m e], y as [[]|[]| |[] m' e']; try done; cbn [SFcompare fval cond_Zopp].
  - split; [intros _|done]. unfold dy. apply Qmult_lt_0_compat; [by rewrite <-(Zlt_Qlt 0)|apply pw_pos].
  - split; [done|]. intros H. pose proof (canonical_nonneg _ Hx) as Hp. cbn [fval cond_Zopp] in Hp. lra.
  - destruct (canonical_full _ _ Hx) as [Fx Bx], (canonical_full _ _ Hy) as [Fy By]. destruct (Z.compare_spec e e') as [<-|He|He].
    + rewrite dy_lt. change (Pos.compare_cont Eq m m') with (Pos.compare m m'). destruct (Pos.compare_spec m m'); split; try done; lia.
    + split; [intros _|done]. assert (Hr : representable (dy (Z.pos m) e)) by (apply (canonical_representable _ Hx)).
      rewrite (dy_at (Z.pos m') e' e) by lia. apply dy_lt. destruct Fy as [? [?|Hy']]; [destruct Fx; lia|].
      pose proof (Z.pow_le_mono_r 2 1 (e' - e) ltac:(lia) ltac:(lia)).
      pose proof two_prec. nia.
    + split; [done|]. intros H. exfalso. rewrite (dy_at (Z.pos m) e e') in H by lia. apply dy_lt in H.
      destruct Fx as [? [?|Hx']]; [destruct Fy; lia|].
      pose proof (Z.pow_le_mono_r 2 1 (e - e') ltac:(lia) ltac:(lia)).
      pose proof two_prec. nia.
Qed.

(** ** Products and quotients *)
Lemma located_exact m e : 0 <= m → located (dy m e) e (shr_record_of_loc m loc_Exact).
Proof.
  intros Hm. unfold located, inexact. cbn. split; [done|]. pose proof (dy_lt m (m + 1) e) as H.
  split; [split; [apply Qle_refl|apply H; lia]|]. by split; [intros|].
Qed.

Lemma rounds_zero X : (X == 0)%Q → rounds X (S754_zero false).
Proof. intros HX. split; [done|]. intros y _. cbn [fval]. rewrite HX. tauto. Qed.

Lemma SFmul_rounds x y :
  canonical x → canonical y → (fval x * fval y <= huge)%Q → rounds (fval x * fval y) (SFmul prec emax x y).
Proof.
  intros Hx Hy Hh. destruct x as [[]|[]| |[] m e], y as [[]|[]| |[] m' e']; try done; cbn [SFmul xorb];
    try (apply rounds_zero; cbn [fval]; ring).
  cbn [fval cond_Zopp] in *. rewrite dy_mult in *. change (Z.pos m * Z.pos m') with (Z.pos (m * m')) in *.
  apply binary_round_aux_rounds; [lia|by apply located_exact| |done].
  destruct (canonical_full _ _ Hx) as [[E1 F1] B1], (canonical_full _ _ Hy) as [[E2 F2] B2]. unfold SpecFloat.fexp.
  destruct F1 as [F1|F1], F2 as [F2|F2].
  1: unfold SpecFloat.emin in *; lia.
  all: pose proof (digits_ge (Z.pos (m * m')) (prec - 1)) as Hd; rewrite Pos2Z.inj_mul in *; specialize (Hd ltac:(nia) ltac:(lia)); lia.
Qed.

Lemma new_location_spec n k m :
  0 <= k < n → let r := shr_record_of_loc m (new_location n k) in shr_m r = m ∧ (inexact r = false ↔ k = 0).
Proof.
  intros Hk. unfold new_location, new_location_even, new_location_odd.
  unfold inexact.
  destruct (Z.even n), (Z.eqb_spec k 0) as [->|Hne]; cbn; try done; [destruct (Z.compare _ _)|case_match]; by cbn; split_and!.
Qed.

Lemma SFdiv_rounds x m e :
  let y := S754_finite false m e in
  canonical x → (fval x / fval y <= huge)%Q → rounds (fval x / fval y) (SFdiv prec emax x y).
Proof.
  intros y Hx Hh. destruct x as [[]|[]| |[] m1 e1]; try done; cbn [SFdiv xorb y].
  { apply rounds_zero. cbn [fval]. unfold Qdiv. ring. }
  cbn [fval cond_Zopp y] in *. destruct (SFdiv_core_binary prec emax (Z.pos m1) e1 (Z.pos m) e) as [[q e'] l] eqn:E.
  unfold SFdiv_core_binary in E. cbn [Zdigits2] in E. set (d1 := Z.pos (digits2_pos m1)) in *. set (d2 := Z.pos (digits2_pos m)) in *.
  set (f := fexp (d1 + e1 - (d2 + e))) in *. set (k := Z.min f (e1 - e)) in *.
  assert (Hs : match e1 - e - k with Z0 => Z.pos m1 | Z.pos _ => Z.shiftl (Z.pos m1) (e1 - e - k) | Z.neg _ => 0 end
    = Z.pos m1 * 2 ^ (e1 - e - k)).
  { destruct (e1 - e - k) eqn:Es; [lia|by rewrite Z.shiftl_mul_pow2 by lia|unfold k in Es; lia]. }
  rewrite Hs in E. clear Hs. set (s := e1 - e - k) in *. assert (0 <= s) by (unfold s, k; lia).
  pose proof (Z.div_eucl_eq (Z.pos m1 * 2 ^ s) (Z.pos m) ltac:(lia)) as Hd.
  pose proof (Z.mod_pos_bound (Z.pos m1 * 2 ^ s) (Z.pos m) ltac:(lia)) as Hr. unfold Z.modulo in Hr.
  destruct (Z.div_eucl _ _) as [q' r]. injection E as -> <- <-.
  destruct (new_location_spec (Z.pos m) r q Hr) as [Hm Hi]. pose proof (size_bounds m1) as [G1 _]. pose proof (size_bounds m) as [_ G2].
  fold d1 d2 in G1, G2. assert (0 < d1 ∧ 0 < d2) as [D1 D2] by done.
  assert (0 < 2 ^ s) by (apply Z.pow_pos_nonneg; lia). assert (0 <= q) by nia.
  apply binary_round_aux_rounds; [done| | |done].
  - (* where the quotient lies *)
    assert (HX : (dy (Z.pos m1) e1 / dy (Z.pos m) e * inject_Z (Z.pos m) == dy (Z.pos m1 * 2 ^ s) k)%Q).
    { replace e1 with (k + s + e) by (unfold s; lia). rewrite <-dy_shift by lia. unfold dy. rewrite !pw_add.
      pose proof (pw_pos e). assert (0 < inject_Z (Z.pos m))%Q by reflexivity. field. split; intros Hz; rewrite Hz in *; lra. }
    assert (Hm0 : (0 < inject_Z (Z.pos m))%Q) by reflexivity.
    set (X := (dy (Z.pos m1) e1 / dy (Z.pos m) e)%Q) in *.
    assert (Hsc : ∀ a, (dy (a * Z.pos m) k == dy a k * inject_Z (Z.pos m))%Q) by (intros a; unfold dy; rewrite inject_Z_mult; ring).
    assert (Hlo : (dy (q * Z.pos m) k <= dy (Z.pos m1 * 2 ^ s) k)%Q) by (apply dy_le; lia).
    assert (Hhi : (dy (Z.pos m1 * 2 ^ s) k < dy ((q + 1) * Z.pos m) k)%Q) by (apply dy_lt; lia).
    rewrite <-HX, Hsc in Hlo, Hhi. apply Qmult_le_r in Hlo; [|done]. apply Qmult_lt_r in Hhi; [|done].
    unfold located. rewrite Hm. split; [done|]. split; [done|]. split; intros Hie.
    + apply Hi in Hie. subst r.
      replace (Z.pos m1 * 2 ^ s) with (q * Z.pos m) in HX by lia. rewrite Hsc in HX. apply (Qmult_inj_r _ _ (inject_Z (Z.pos m))); [|exact HX].
      intros Hz. rewrite Hz in Hm0. by apply Qlt_irrefl in Hm0.
    + assert (r ≠ 0) by (intros ->; rewrite (proj2 Hi eq_refl) in Hie; discriminate Hie).
      apply (Qmult_lt_r _ _ (inject_Z (Z.pos m))); [done|]. rewrite HX, <-Hsc. apply dy_lt. lia.
  - assert (Hq : d1 + s - d2 <= Zdigits2 q); [|unfold k, f, s, SpecFloat.fexp in *; lia].
    destruct (Z.le_gt_cases (d1 + s - d2) 0) as [Hneg|Hpos].
    { assert (0 <= Zdigits2 q) by (by destruct q). lia. }
    enough (d1 + s - d2 - 1 < Zdigits2 q) by lia. apply digits_ge; [|lia].
    assert (2 ^ (d1 + s - d2 - 1) * 2 ^ d2 = 2 ^ (d1 - 1) * 2 ^ s) as Hp by (rewrite <-!Z.pow_add_r by lia; f_equal; lia).
    assert (0 < 2 ^ (d1 + s - d2 - 1)) by (apply Z.pow_pos_nonneg; lia).
    assert (2 ^ (d1 - 1) * 2 ^ s <= Z.pos m1 * 2 ^ s) by (by apply Z.mul_le_mono_pos_r).
    assert (2 ^ (d1 + s - d2 - 1) * Z.pos m < 2 ^ (d1 + s - d2 - 1) * 2 ^ d2) by (by apply Z.mul_lt_mono_pos_l).
    assert (2 ^ (d1 + s - d2 - 1) * Z.pos m < (q + 1) * Z.pos m) as Hlt by lia.
    apply Z.mul_lt_mono_pos_r in Hlt; lia.
Qed.
End Format.

#[export] Hint Resolve canonical_nonneg canonical_representable : a2pm.

(** ** [double] *)
Notation canonical64 := (canonical 53 1024).
Notation representable64 := (representable 53 1024).
Notation rounds64 := (rounds 53 1024).

Lemma representable_dyadic m k : 0 <= m < 2 ^ 53 → 0 <= k <= 1000 → representable64 (inject_Z m / inject_Z (2 ^ k)).
Proof.
  intros Hm Hk. exists m, (- k). split; [done|]. split; [unfold emin; lia|]. unfold dy, pw.
  rewrite Qpower_opp, <-Zpower_Qpower by lia. done.
Qed.

Lemma representable_integer z : 0 <= z < 2 ^ 53 → representable64 (inject_Z z).
Proof. intros Hz. exists z, 0. split; [done|]. split; [unfold emin; lia|]. by rewrite dy_0. Qed.

Lemma f64_of_Z_value z : 0 <= z < 2 ^ 53 → canonical64 (f64_of_Z z) ∧ (fval (f64_of_Z z) == inject_Z z)%Q.
Proof.
  intros Hz. destruct z as [|p|p]; [done| |lia]. destruct (f64_of_pos p) as (m & -> & Hm); [lia|].
  assert (Hd : Z.pos (digits2_pos p) <= 53) by (apply (digits_le (Z.pos p) 53); lia). split.
  - split; [|lia]. apply (full_canonical 53 1024 ltac:(lia) (Z.pos m)).
    + pose proof (size_bounds p) as [_ H2]. split; [done|]. rewrite Hm.
      replace 53 with (Z.pos (digits2_pos p) + (53 - Z.pos (digits2_pos p))) at 2 by lia. rewrite Z.pow_add_r by lia.
      apply Z.mul_lt_mono_pos_r; [|done]. apply Z.pow_pos_nonneg; lia.
    + split; [unfold emin; lia|]. right. rewrite Hm. pose proof (size_bounds p) as [H1 _].
      replace (53 - 1) with (Z.pos (digits2_pos p) - 1 + (53 - Z.pos (digits2_pos p))) by lia. rewrite Z.pow_add_r by lia.
      apply Z.mul_le_mono_nonneg_r; [|done]. apply Z.pow_nonneg. lia.
  - cbn [fval cond_Zopp]. rewrite Hm. rewrite <-(dy_0 (Z.pos p)), (dy_at (Z.pos p) 0 (Z.pos (digits2_pos p) - 53)) by lia.
    by replace (0 - (Z.pos (digits2_pos p) - 53)) with (53 - Z.pos (digits2_pos p)) by lia.
Qed.

(** Products and quotients far from the limits of the format. *)
Lemma below_huge64 X : (X <= inject_Z (2 ^ 1000))%Q → (X <= huge 1024)%Q.
Proof.
  intros H. eapply Qle_trans; [exact H|]. unfold huge. rewrite pw_nonneg by lia. rewrite <-Zle_Qle.
  apply Z.pow_le_mono_r; lia.
Qed.

Lemma mul64_rounds x y :
  canonical64 x → canonical64 y → (fval x * fval y <= inject_Z (2 ^ 1000))%Q → rounds64 (fval x * fval y) (mul64 x y).
Proof. intros Hx Hy H. apply SFmul_rounds; try done. by apply below_huge64. Qed.

(** The quotient of two integers. *)
Lemma div64_integers a b :
  0 <= a < 2 ^ 53 → 0 < b < 2 ^ 53 → rounds64 (inject_Z a / inject_Z b) (div64 (f64_of_Z a) (f64_of_Z b)).
Proof.
  intros Ha Hb. destruct (f64_of_Z_value a Ha) as [Ca Va].
  destruct b as [|p|p]; try lia. destruct (f64_of_Z_value (Z.pos p)) as [Cb Vb]; [lia|].
  destruct (f64_of_pos p) as (m & E & _); [lia|]. rewrite E in *.
  assert (Hq : (fval (f64_of_Z a) / fval (S754_finite false m (Z.pos (digits2_pos p) - 53)) == inject_Z a / inject_Z (Z.pos p))%Q)
    by by rewrite Va, Vb.
  rewrite <-Hq. apply SFdiv_rounds; [done..|]. rewrite Hq. apply below_huge64.
  apply Qle_shift_div_r; [reflexivity|]. rewrite <-inject_Z_mult, <-Zle_Qle.
  assert (2 ^ 53 <= 2 ^ 1000) by (apply Z.pow_le_mono_r; lia). nia.
Qed.

(** A quotient of integers is above an integer when the exact one is, by one
    part in 2^20 of the divisor. *)
Lemma flt_quotient k a b :
  0 <= k < 2 ^ 32 → 0 <= a < 2 ^ 53 → 0 < b <= 2 ^ 20 →
  flt (f64_of_Z k) (div64 (f64_of_Z a) (f64_of_Z b)) = (k * b <? a).
Proof.
  intros Hk Ha Hb. destruct (f64_of_Z_value k) as [Ck Vk]; [lia|].
  destruct (div64_integers a b Ha) as [Cq Hq]; [lia|]. apply eq_true_iff_eq. rewrite Z.ltb_lt, (flt_value 53 1024) by done.
  rewrite Vk. assert (0 < inject_Z b)%Q as Hb0 by (apply inject_Z_pos; lia). split; intros H.
  - apply Z.nle_gt. intros Hle. apply (Qlt_not_le _ _ H), (Hq (inject_Z k)); [apply representable_integer; lia|].
    apply Qle_shift_div_r; [done|]. by rewrite <-inject_Z_mult, <-Zle_Qle.
  - apply (Qlt_le_trans _ (inject_Z (k * 2 ^ 20 + 1) / inject_Z (2 ^ 20))).
    + apply Qlt_shift_div_l; [reflexivity|]. rewrite <-inject_Z_mult, <-Zlt_Qlt. lia.
    + apply Hq; [apply representable_dyadic; lia|]. apply Qle_shift_div_l; [done|].
      assert (inject_Z (k * 2 ^ 20 + 1) / inject_Z (2 ^ 20) * inject_Z b == inject_Z ((k * 2 ^ 20 + 1) * b) / inject_Z (2 ^ 20))%Q
        as -> by (rewrite inject_Z_mult; unfold Qdiv; ring).
      apply Qle_shift_div_r; [reflexivity|]. rewrite <-inject_Z_mult, <-Zle_Qle. nia.
Qed.

(** A negative quotient is above nothing. *)
Lemma round_negative prec emax m e l y : nonneg y → flt y (binary_round_aux prec emax true m e l) = false.
Proof.
  intros Hy. unfold binary_round_aux. destruct (shr_fexp _ _ _ _ _) as [r1 e1]. destruct (shr_fexp _ _ _ _ _) as [r2 e2].
  destruct (shr_m r2); [|destruct (_ <=? _)|]; by destruct y as [[]|[]| |[] ? ?].
Qed.

Lemma flt_negative k a b : 0 <= k → a < 0 → 0 < b < 2 ^ 53 → flt (f64_of_Z k) (div64 (f64_of_Z a) (f64_of_Z b)) = false.
Proof.
  intros Hk Ha Hb. pose proof (f64_of_Z_nonneg k Hk) as Hn. destruct b as [|b|b]; try lia.
  destruct (f64_of_pos b) as (m & -> & _); [lia|]. destruct a as [|a|a]; try lia.
  change (f64_of_Z (Z.neg a)) with (binary_round 53 1024 true a 0). unfold binary_round.
  destruct (shl_align _ _ _) as [mz ez]. unfold div64.
  unfold binary_round_aux at 1. destruct (shr_fexp _ _ _ _ _) as [r1 e1]. destruct (shr_fexp _ _ _ _ _) as [r2 e2].
  destruct (shr_m r2); [|destruct (_ <=? _)|]; cbn [SFdiv xorb];
    try (by destruct (f64_of_Z k) as [[]|[]| |[] ? ?]).
  destruct (SFdiv_core_binary _ _ _ _ _ _) as [[q e'] l]. by apply round_negative.
Qed.
