(* ===== verification/Timer.v ===== *)
(** * controller/timer.h

    The [gettimeofday] timers: the elapsed time is computed in [long]s and
    stored in an [int], twice. *)
From S2P Require Import Prelude CFloat Rounding.
Open Scope Z_scope.

(** A [struct timeval]; a timer is one, and the argument [now] below is what
    [gettimeofday] returns when the macro is evaluated. *)
Record timeval := Timeval { tv_sec : Z; tv_usec : Z }.

(** A normalised time after the epoch and before the [long] computations overflow. *)
Definition timeval_ok (t : timeval) : Prop := 0 <= tv_sec t < 2 ^ 43 ∧ 0 <= tv_usec t < 10 ^ 6.

Definition timer_start (now : timeval) : timeval := now.
Definition timer_restart (now : timeval) : timeval := now.

(** Milliseconds since the epoch. *)
Definition millis (t : timeval) : Z := tv_sec t * 1000 + Z.quot (tv_usec t) 1000.

Definition timer_value_milli (now timer_name : timeval) : Z :=
  let rs_timedif := s32 (millis now) in
  s32 (rs_timedif - millis timer_name).

Definition microseconds (t : timeval) : Z := tv_sec t * 1000000 + tv_usec t.

Definition timer_value_micro (now timer_name : timeval) : Z :=
  let rs_timedif := s32 (microseconds now) in
  s32 (rs_timedif - microseconds timer_name).

(** [((double)ms / 1000.0)] *)
Definition timer_value_seconds (now timer_name : timeval) : f64 :=
  div64 (f64_of_Z (timer_value_milli now timer_name)) (f64_of_Z 1000).

(** [timer_value_seconds(...) > k] *)
Definition seconds_above (now timer_name : timeval) (k : Z) : bool :=
  flt (f64_of_Z k) (timer_value_seconds now timer_name).

(** Comparing the rounded quotient is comparing the milliseconds. *)
Lemma seconds_above_millis now t k :
  0 <= k < 2 ^ 32 → seconds_above now t k = (k * 1000 <? timer_value_milli now t).
Proof.
  intros Hk. unfold seconds_above, timer_value_seconds.
  assert (is_s32 (timer_value_milli now t)) as Hs by apply s32_range. unfold is_s32 in Hs.
  destruct (Z.neg_nonneg_cases (timer_value_milli now t)) as [Hneg|Hpos].
  - rewrite flt_negative by lia. symmetry. apply Z.ltb_ge. lia.
  - apply flt_quotient; lia.
Qed.

Lemma timer_value_milli_wrap now t : timer_value_milli now t = s32 (millis now - millis t).
Proof. apply s32_sub_l. Qed.

Lemma timer_value_milli_exact now t :
  is_s32 (millis now - millis t) → timer_value_milli now t = millis now - millis t.
Proof. intros H. rewrite timer_value_milli_wrap. by apply s32_id. Qed.

(** The microseconds wrap after 35 minutes and 47 seconds. *)
Lemma timer_value_micro_exact now t :
  (0 <= microseconds now - microseconds t < 2 ^ 31 → timer_value_micro now t = microseconds now - microseconds t) ∧
  (2 ^ 31 <= microseconds now - microseconds t < 2 ^ 32 → timer_value_micro now t = microseconds now - microseconds t - 2 ^ 32).
Proof.
  unfold timer_value_micro. rewrite s32_sub_l. split; intros H; [apply s32_id; unfold is_s32; lia|].
  rewrite <-(s32_shift _ (-1)), s32_id by (unfold is_s32; lia). lia.
Qed.

(** The two truncations to [int] cancel out: the timer shows the exact
    number of milliseconds as long as that number fits an [int] (less than 24
    days and 21 hours), and then [timer_value_seconds > k] is the comparison of
    the elapsed time with k seconds; past that it restarts from -2^31, so a
    timer 2^31 to 2^32 milliseconds old reads as negative and is above no
    positive threshold. *)
Theorem timer_value_milli_correct now t k :
  0 <= k < 2 ^ 32 →
  (0 <= millis now - millis t < 2 ^ 31 →
     timer_value_milli now t = millis now - millis t ∧
     (seconds_above now t k = true ↔ k * 1000 < millis now - millis t)) ∧
  (2 ^ 31 <= millis now - millis t < 2 ^ 32 →
     timer_value_milli now t = millis now - millis t - 2 ^ 32 ∧ seconds_above now t k = false).
Proof.
  intros Hk. rewrite seconds_above_millis by done. split; intros H.
  - rewrite timer_value_milli_exact by (unfold is_s32; lia). split; [done|]. apply Z.ltb_lt.
  - assert (timer_value_milli now t = millis now - millis t - 2 ^ 32) as ->.
    { rewrite timer_value_milli_wrap.
      rewrite <- (s32_shift _ (-1)), s32_id by (unfold is_s32; lia). lia. }
    split; [done|]. apply Z.ltb_ge. lia.
Qed.

Lemma timer_value_milli_correct_witness :
  seconds_above (Timeval 1427000012 5000) (Timeval 1427000000 999000) 10 = true ∧
  seconds_above (Timeval 1430000000 0) (Timeval 1427000000 0) 10 = false.
Proof.
  split.
  - apply (timer_value_milli_correct (Timeval 1427000012 5000) (Timeval 1427000000 999000) 10);
      vm_compute; repeat split; discriminate.
  - apply (timer_value_milli_correct (Timeval 1430000000 0) (Timeval 1427000000 0) 10);
      vm_compute; repeat split; discriminate.
Defined.
