(* ===== verification/Atomic.v ===== *)
(** * controller/atomic.c, controller/atomic.h

    The inline-assembly primitives, instruction by instruction: a 32-bit memory
    cell, the registers the template names and the flags that [lahf]/[bt]/[adc]
    and [sete]/[jnz] read.  Every primitive carries the [lock] prefix (or is an
    [xchg], which locks by itself), so one primitive is one step of the
    interleaving model: Section [Spinlock] runs any number of threads over one
    [spinlock_t] and shows mutual exclusion and progress of the lock word. *)
From S2P Require Import Prelude.
Open Scope Z_scope.

(** ** Flags and instructions *)

Record flags := Flags { CF : bool; PF : bool; AF : bool; ZF : bool; SF : bool }.

Definition b2z (b : bool) : Z := if b then 1 else 0.

(** The flags a 32-bit subtraction [a - b] leaves ([cmp], and the comparison in [cmpxchg]). *)
Definition flags_sub (a b : Z) : flags :=
  let d := u32 (a - b) in
  Flags (a <? b)
        (Z.even (foldr (λ k acc, b2z (Z.testbit d k) + acc) 0 [0;1;2;3;4;5;6;7]))
        (a mod 16 <? b mod 16) (a =? b) (Z.testbit d 31).

(** The flags of a 32-bit result [r] of [inc]; [CF] keeps its value. *)
Definition flags_inc (cf : bool) (old r : Z) : flags :=
  Flags cf (Z.even (foldr (λ k acc, b2z (Z.testbit r k) + acc) 0 [0;1;2;3;4;5;6;7]))
        (old mod 16 =? 15) (r =? 0) (Z.testbit r 31).

(** [lock; cmpxchgl src, mem]: compares [eax] with the cell; returns the cell, [eax] and the flags. *)
Definition cmpxchgl (mem eax src : Z) : Z * Z * flags :=
  if eax =? mem then (src, eax, flags_sub eax mem) else (mem, mem, flags_sub eax mem).

(** [lahf]: [ah] receives SF:ZF:0:AF:0:PF:1:CF; the result is the new [ax]. *)
Definition lahf (ax : Z) (f : flags) : Z :=
  ax mod 2 ^ 8 +
  2 ^ 8 * (b2z (CF f) + 2 + 4 * b2z (PF f) + 16 * b2z (AF f) + 64 * b2z (ZF f) + 128 * b2z (SF f)).

(** [bt $n, ax]: the carry flag becomes bit [n]. *)
Definition bt (n ax : Z) : bool := Z.testbit ax n.

(** [adc r, r] on a 64-bit register. *)
Definition adc64 (r : Z) (cf : bool) : Z := u64 (r + r + b2z cf).

(** [adc r, r] on a 32-bit register. *)
Definition adc32 (r : Z) (cf : bool) : Z := u32 (r + r + b2z cf).

(** [lock; bts $0, mem] and [lock; btr $0, mem]: the carry flag is the old bit. *)
Definition bts0 (mem : Z) : Z * bool := (Z.setbit mem 0, Z.testbit mem 0).
Definition btr0 (mem : Z) : Z * bool := (Z.clearbit mem 0, Z.testbit mem 0).

(** [xchgl reg, mem]: the new cell and the new register. *)
Definition xchgl (mem reg : Z) : Z * Z := (reg, mem).

(** ** The primitives: new contents of the cell and returned value *)

Definition iCAS_x86 (ptr oldVal newVal : Z) : Z * bool :=
  let res := 0 in
  let '(ptr', eax, f) := cmpxchgl ptr oldVal newVal in
  let ax := lahf (eax mod 2 ^ 16) f in
  let cf := bt 14 ax in
  let res := adc64 res cf in
  (ptr', negb (res =? 0)).

Definition atomic_test_and_set_x86 (b : Z) : Z * Z :=
  let '(b', cf) := bts0 b in
  let result := adc32 0 cf in
  (b', b2z (result =? 0)).

Definition atomic_test_and_reset_x86 (b : Z) : Z * Z :=
  let '(b', cf) := btr0 b in
  let result := adc32 0 cf in
  (b', result).

(** [addl], [subl], [incl], [decl] on the [int count] of an [atomic_t]. *)
Definition atomic_add_x86 (count i : Z) : Z := s32 (count + i).
Definition atomic_sub_x86 (count i : Z) : Z := s32 (count - i).
Definition atomic_inc_x86 (count : Z) : Z := s32 (count + 1).
Definition atomic_dec_x86 (count : Z) : Z := s32 (count - 1).

Definition atomic_inc_and_test_x86 (count : Z) : Z * Z :=
  let f := flags_inc false (u32 count) (u32 (count + 1)) in
  let c := b2z (ZF f) in
  (s32 (count + 1), b2z (negb (c =? 0))).

(** One round of the [1: ... jnz 1b] loop of [spin_lock_x86]: the new lock word
    and whether the loop is left. *)
Definition spin_lock_try (lock : Z) : Z * bool :=
  let '(lock', eax) := xchgl lock 1 in
  (lock', eax =? 0).

Definition spin_trylock_x86 (lock : Z) : Z * bool :=
  let '(lock', r) := atomic_test_and_set_x86 lock in
  (lock', negb (r =? 0)).

Definition spin_unlock_x86 (lock : Z) : Z :=
  let '(lock', _) := xchgl lock 0 in lock'.

(** ** Functional behaviour of the primitives *)

Lemma lahf_bit14 ax f : bt 14 (lahf ax f) = ZF f.
Proof.
  unfold bt, lahf. rewrite <- (Z.div_pow2_bits _ 8 6) by lia.
  rewrite (Z.mul_comm (2 ^ 8)), Z.div_add by lia.
  rewrite Z.div_small by (apply Z.mod_pos_bound; lia).
  by destruct f as [[] [] [] [] []].
Qed.

Lemma adc64_bool cf : negb (adc64 0 cf =? 0) = cf.
Proof. by destruct cf. Qed.

Lemma iCAS_x86_spec ptr oldVal newVal :
  iCAS_x86 ptr oldVal newVal = if decide (ptr = oldVal) then (newVal, true) else (ptr, false).
Proof.
  unfold iCAS_x86, cmpxchgl. destruct (Z.eqb_spec oldVal ptr) as [->|Hne].
  - rewrite lahf_bit14, adc64_bool. simpl. rewrite Z.eqb_refl. by rewrite decide_True.
  - rewrite lahf_bit14, adc64_bool. simpl.
    destruct (Z.eqb_spec oldVal ptr) as [|_]; [done|]. by rewrite decide_False by congruence.
Qed.

Lemma spin_trylock_free : spin_trylock_x86 0 = (1, true).
Proof. reflexivity. Qed.

Lemma spin_trylock_held : spin_trylock_x86 1 = (1, false).
Proof. reflexivity. Qed.

(** Counters wrap at the width of [int]; [atomic_inc_and_test] reports exactly
    the wrap of -1 to 0. *)
Lemma atomic_inc_and_test_spec count :
  is_s32 count →
  atomic_inc_and_test_x86 count = (atomic_inc_x86 count, b2z (atomic_inc_x86 count =? 0)).
Proof.
  intros H. unfold atomic_inc_and_test_x86, atomic_inc_x86, flags_inc, u32, s32, is_s32 in *.
  simpl. f_equal.
  assert ((count + 1) mod 2 ^ 32 = 0 ↔ (count + 1 + 2 ^ 31) mod 2 ^ 32 - 2 ^ 31 = 0) as Heq.
  { split; intros; Z.div_mod_to_equations; lia. }
  destruct (Z.eqb_spec ((count + 1) mod 2 ^ 32) 0) as [E|E];
    destruct (Z.eqb_spec ((count + 1 + 2 ^ 31) mod 2 ^ 32 - 2 ^ 31) 0); simpl; tauto || lia.
Qed.

(** ** Threads competing for one spinlock *)
Section Spinlock.

(** Where a thread stands with respect to the lock: outside, inside the
    [spin_lock] loop, or between the acquisition and [spin_unlock]. *)
Inductive lock_pc := Outside | Spinning | Critical.

#[global] Instance lock_pc_eq_dec : EqDecision lock_pc.
Proof. solve_decision. Defined.

Record lock_sys := LockSys { lock_word : Z; lock_pcs : gmap nat lock_pc }.

Definition set_pc (s : lock_sys) (w : Z) (t : nat) (p : lock_pc) : lock_sys :=
  LockSys w (<[t := p]> (lock_pcs s)).

(** One atomic step of thread [t]. *)
Inductive lock_step (s : lock_sys) : lock_sys → Prop :=
  | step_call_lock t :
      lock_pcs s !! t = Some Outside →
      lock_step s (set_pc s (lock_word s) t Spinning)
  | step_spin t w acquired :
      lock_pcs s !! t = Some Spinning →
      spin_lock_try (lock_word s) = (w, acquired) →
      lock_step s (set_pc s w t (if acquired then Critical else Spinning))
  | step_trylock t w acquired :
      lock_pcs s !! t = Some Outside →
      spin_trylock_x86 (lock_word s) = (w, acquired) →
      lock_step s (set_pc s w t (if acquired then Critical else Outside))
  | step_unlock t :
      lock_pcs s !! t = Some Critical →
      lock_step s (set_pc s (spin_unlock_x86 (lock_word s)) t Outside).

(** [spinlock_init]: the word is 0 and every thread is outside. *)
Definition spinlock_init (ts : gset nat) : lock_sys := LockSys 0 (gset_to_gmap Outside ts).

Definition holder (s : lock_sys) (t : nat) : Prop := lock_pcs s !! t = Some Critical.

(** The word is 1 exactly while some thread is inside, and then only one is. *)
Definition lock_inv (s : lock_sys) : Prop :=
  (lock_word s = 0 ∧ ∀ t, ¬ holder s t) ∨
  (lock_word s = 1 ∧ ∃ t, holder s t ∧ ∀ t', holder s t' → t' = t).

Lemma lock_inv_init ts : lock_inv (spinlock_init ts).
Proof.
  left. split; [done|]. intros t. unfold holder; simpl.
  rewrite lookup_gset_to_gmap_Some. naive_solver.
Qed.

Lemma holder_set_pc s w t p t' :
  holder (set_pc s w t p) t' ↔ (t = t' ∧ p = Critical) ∨ (t ≠ t' ∧ holder s t').
Proof. unfold holder; simpl. rewrite lookup_insert_Some. naive_solver. Qed.

Lemma not_holder s t p : lock_pcs s !! t = Some p → p ≠ Critical → ¬ holder s t.
Proof. unfold holder. congruence. Qed.

(** Moving a thread that does not hold the lock to another non-critical point. *)
Lemma lock_inv_stay s t p q :
  lock_pcs s !! t = Some p → p ≠ Critical → q ≠ Critical →
  lock_inv s → lock_inv (set_pc s (lock_word s) t q).
Proof.
  intros Ht Hp Hq. pose proof (not_holder _ _ _ Ht Hp). unfold lock_inv.
  setoid_rewrite holder_set_pc. intros [[Hw Hn]|[Hw (t0 & Ht0 & Hu)]]; [left|right].
  - naive_solver.
  - split; [done|]. exists t0. split; [right; split; [congruence|done]|naive_solver].
Qed.

Lemma lock_inv_acquire s t :
  lock_word s = 0 → lock_inv s → lock_inv (set_pc s 1 t Critical).
Proof.
  intros Hw [[_ Hn]|[Hw' _]]; [|congruence]. right. split; [done|].
  exists t. rewrite holder_set_pc. split; [naive_solver|].
  intros t'. rewrite holder_set_pc. naive_solver.
Qed.

Lemma lock_inv_release s t :
  holder s t → lock_inv s → lock_inv (set_pc s 0 t Outside).
Proof.
  intros Ht [[_ Hn]|[_ (t0 & Ht0 & Hu)]]; [naive_solver|]. left. split; [done|].
  intros t'. rewrite holder_set_pc. intros [[_ Hne]|[Hne Ht']]; [done|].
  apply Hu in Ht'. apply Hu in Ht. congruence.
Qed.

Lemma lock_step_inv s s' : lock_inv s → lock_step s s' → lock_inv s'.
Proof.
  intros Hinv Hstep. assert (lock_word s = 0 ∨ lock_word s = 1) as Hw
    by (destruct Hinv as [[]|[]]; auto).
  destruct Hstep as [t Ht|t w a Ht Hx|t w a Ht Hx|t Ht].
  - by eapply lock_inv_stay.
  - unfold spin_lock_try in Hx; simpl in Hx. simplify_eq.
    destruct Hw as [E|E]; rewrite E; simpl.
    + by apply lock_inv_acquire.
    + rewrite <- E. by eapply lock_inv_stay.
  - destruct Hw as [E|E]; rewrite E in Hx.
    + rewrite spin_trylock_free in Hx. simplify_eq. by apply lock_inv_acquire.
    + rewrite spin_trylock_held, <- E in Hx. simplify_eq. by eapply lock_inv_stay.
  - by apply lock_inv_release.
Qed.

Lemma lock_reachable_inv ts s : rtc lock_step (spinlock_init ts) s → lock_inv s.
Proof. intros Hr. eapply rtc_invariant; eauto using lock_step_inv, lock_inv_init. Qed.

End Spinlock.

Arguments lock_step : clear implicits.

(** ** Properties *)

(** C26.  Mutual exclusion: from an initialised spinlock, whatever the
    interleaving of [spin_lock], [spin_trylock] and [spin_unlock] calls of the
    threads [ts], no two threads are between acquisition and release at once;
    and an attempt (a round of the [spin_lock] loop, or a [spin_trylock])
    acquires the lock exactly when no thread holds it. *)
Theorem spinlock_mutual_exclusion ts s :
  rtc lock_step (spinlock_init ts) s →
  (∀ t1 t2, holder s t1 → holder s t2 → t1 = t2) ∧
  ((spin_lock_try (lock_word s)).2 = true ↔ ∀ t, ¬ holder s t) ∧
  ((spin_trylock_x86 (lock_word s)).2 = true ↔ ∀ t, ¬ holder s t).
Proof.
  intros [[E Hn]|[E (t & Ht & Hu)]]%lock_reachable_inv; rewrite E; simpl.
  - split; [|done]. intros t1 t2 H1. by destruct (Hn t1).
  - split; [|split; split; [done|intros Hn; by destruct (Hn t)|done|intros Hn; by destruct (Hn t)]].
    intros t1 t2 ->%Hu ->%Hu. done.
Qed.

(** A contended run: thread 1 takes the lock, thread 2 spins and fails. *)
Definition contended : lock_sys :=
  LockSys 1 (<[2%nat := Spinning]> (<[1%nat := Critical]> (gset_to_gmap Outside {[1%nat; 2%nat]}))).

Lemma contended_reachable : rtc lock_step (spinlock_init {[1%nat; 2%nat]}) contended.
Proof.
  eapply rtc_l; [by eapply (step_trylock _ 1)|].
  eapply rtc_l; [by eapply (step_call_lock _ 2)|].
  eapply rtc_l; [by eapply (step_spin _ 2)|].
  match goal with |- rtc _ ?a ?b => replace a with b by (vm_compute; reflexivity) end.
  apply rtc_refl.
Qed.

Lemma spinlock_mutual_exclusion_witness :
  holder contended 1 ∧ (spin_trylock_x86 (lock_word contended)).2 = false ∧
  ∀ t, holder contended t → t = 1%nat.
Proof.
  split; [reflexivity|]. split; [reflexivity|]. intros t Ht.
  destruct (spinlock_mutual_exclusion _ _ contended_reachable) as [Hx _].
  apply Hx; [done|reflexivity].
Defined.

(** [iCAS] is compare-and-swap: it stores [newVal] and returns true
    exactly when the cell held [oldVal], 0 included, and otherwise leaves the
    cell alone and returns false. *)
Theorem iCAS_x86_correct ptr oldVal newVal :
  iCAS_x86 ptr oldVal newVal = if decide (ptr = oldVal) then (newVal, true) else (ptr, false).
Proof. apply iCAS_x86_spec. Qed.
