(* ===== verification/Threads.v ===== *)
(** * controller/thread.c, controller/thread.h

    [create_threads] and the start-up helper every thread runs first.  The
    helper draws a thread identifier from the shared [thread_counter] with the
    [iCAS] of [Atomic]; the heap block that carries the entry point and its
    argument is allocated once per [create_threads] call and freed by every
    helper.  The threads interleave: one step is one access to shared memory. *)
From S2P Require Import Prelude Atomic.
Open Scope Z_scope.

(** ** create_threads

    [rets] are the results of the successive [pthread_create] calls (0 or an
    error number).  The function returns the last one; [num] is not
    initialised. *)
Definition create_threads_ret (rets : list Z) : outcome Z :=
  match last rets with
  | Some num => Val num
  | None => Fault UninitRead
  end.

(** ** The shared state *)

(** The program points of [__helper_create_thread], and the end of a thread:
    finished, or stopped by an access to a freed block. *)
Inductive helper_pc :=
  | HLoop                    (* at [old_counter = thread_counter] *)
  | HLoaded (old : Z)        (* before [iCAS(&thread_counter, old, old + 1)] *)
  | HNamed (tid : Z)         (* identifier drawn, before the read of [real_arg] *)
  | HRunning (tid : Z)       (* inside [start_routine] *)
  | HReturned (tid : Z)      (* before [free(real_arg)] *)
  | HDone (tid : Z)
  | HCrashed (tid : Z) (f : fault).

Record thread := Thread { th_arg : nat; th_pc : helper_pc }.

(** [ts_blocks] are the [struct _helper_thread] blocks: true while allocated.
    [ts_pending] are the [create_threads] calls in progress: their block and
    the number of [pthread_create] calls still to make. *)
Record tsys := TSys {
  thread_counter : Z;
  ts_blocks : gmap nat bool;
  ts_pending : gmap nat nat;
  ts_threads : gmap nat thread
}.

Definition tsys_init : tsys := TSys 0 ∅ ∅ ∅.

Definition set_thread (s : tsys) (t : nat) (th : thread) : tsys :=
  TSys (thread_counter s) (ts_blocks s) (ts_pending s) (<[t := th]> (ts_threads s)).

(** ** One step of [__helper_create_thread] *)
Definition helper_step (s : tsys) (t : nat) (th : thread) : option tsys :=
  let b := th_arg th in
  let goto s' pc := Some (set_thread s' t (Thread b pc)) in
  match th_pc th with
  | HLoop => goto s (HLoaded (thread_counter s))
  | HLoaded old =>
      let tid := u32 (old + 1) in
      let '(c, ok) := iCAS_x86 (thread_counter s) old tid in
      goto (TSys c (ts_blocks s) (ts_pending s) (ts_threads s)) (if ok then HNamed tid else HLoop)
  | HNamed tid =>
      if decide (ts_blocks s !! b = Some true) then goto s (HRunning tid)
      else goto s (HCrashed tid UseAfterFree)
  | HRunning tid => goto s (HReturned tid)
  | HReturned tid =>
      if decide (ts_blocks s !! b = Some true)
      then goto (TSys (thread_counter s) (<[b := false]> (ts_blocks s)) (ts_pending s) (ts_threads s)) (HDone tid)
      else goto s (HCrashed tid UseAfterFree)
  | HDone _ | HCrashed _ _ => None
  end.

(** [width n]: the calls allowed to [create_threads(n, ...)], a parameter so
    that a client that only uses [create_thread] (n = 1) can be singled out. *)
Inductive tstep (width : nat → Prop) (s : tsys) : tsys → Prop :=
  | ts_call n b :
      width n → ts_blocks s !! b = None →
      tstep width s (TSys (thread_counter s) (<[b := true]> (ts_blocks s))
                          (<[b := n]> (ts_pending s)) (ts_threads s))
  | ts_create n b t :
      ts_pending s !! b = Some (S n) → ts_threads s !! t = None →
      tstep width s (TSys (thread_counter s) (ts_blocks s) (<[b := n]> (ts_pending s))
                          (<[t := Thread b HLoop]> (ts_threads s)))
  | ts_create_fails n b :
      ts_pending s !! b = Some (S n) →
      tstep width s (TSys (thread_counter s) (ts_blocks s) (<[b := n]> (ts_pending s)) (ts_threads s))
  | ts_helper t th s' :
      ts_threads s !! t = Some th → helper_step s t th = Some s' → tstep width s s'.

(** The identifier a thread has drawn. *)
Definition tid_of (th : thread) : option Z :=
  match th_pc th with
  | HNamed i | HRunning i | HReturned i | HDone i | HCrashed i _ => Some i
  | HLoop | HLoaded _ => None
  end.

(** The threads that still use their argument block. *)
Definition uses_block (th : thread) : bool :=
  match th_pc th with
  | HLoop | HLoaded _ | HNamed _ | HRunning _ | HReturned _ => true
  | HDone _ | HCrashed _ _ => false
  end.

(** ** Identifiers *)

(** The identifiers drawn so far, by thread. *)
Definition drawn (s : tsys) : gmap nat Z := omap tid_of (ts_threads s).

Lemma drawn_same_tid (m : gmap nat thread) t th th' :
  m !! t = Some th → tid_of th' = tid_of th → omap tid_of (<[t := th']> m) = omap tid_of m.
Proof.
  intros Ht E. apply map_eq. intros t'. rewrite !lookup_omap.
  destruct (decide (t = t')) as [<-|]; [|by rewrite lookup_insert_ne].
  by rewrite lookup_insert_eq, Ht.
Qed.

Lemma drawn_new_loop (m : gmap nat thread) t b :
  m !! t = None → omap tid_of (<[t := Thread b HLoop]> m) = omap tid_of m.
Proof.
  intros Ht. apply map_eq. intros t'. rewrite !lookup_omap.
  destruct (decide (t = t')) as [<-|]; [|by rewrite lookup_insert_ne].
  by rewrite lookup_insert_eq, Ht.
Qed.

Lemma drawn_draw (m : gmap nat thread) t th th' i :
  m !! t = Some th → tid_of th = None → tid_of th' = Some i →
  omap tid_of (<[t := th']> m) = <[t := i]> (omap tid_of m) ∧ omap tid_of m !! t = None.
Proof.
  intros Ht E E'. split; [|by rewrite lookup_omap, Ht].
  apply map_eq. intros t'. rewrite lookup_omap.
  destruct (decide (t = t')) as [<-|].
  - by rewrite !lookup_insert_eq.
  - by rewrite !lookup_insert_ne, lookup_omap by done.
Qed.

(** The identifiers are those from 1 to [thread_counter], each drawn once. *)
Definition tid_inv (s : tsys) : Prop :=
  0 <= thread_counter s ∧
  Z.of_nat (size (drawn s)) = thread_counter s ∧
  (∀ t i, drawn s !! t = Some i → 1 <= i <= thread_counter s) ∧
  (∀ t1 t2 i, drawn s !! t1 = Some i → drawn s !! t2 = Some i → t1 = t2).

Lemma drawn_size_le s : (size (drawn s) <= size (ts_threads s))%nat.
Proof. rewrite <- !size_dom. apply subseteq_size, dom_omap_subseteq. Qed.

Lemma tid_inv_draw s s' t :
  tid_inv s → thread_counter s' = thread_counter s + 1 →
  drawn s' = <[t := thread_counter s + 1]> (drawn s) → drawn s !! t = None →
  tid_inv s'.
Proof.
  intros (H0 & Hsz & Hr & Hinj) Hc Hd Hn. unfold tid_inv. rewrite Hc, Hd.
  rewrite map_size_insert_None by done. split_and!; [lia|lia| |].
  - intros t' i. rewrite lookup_insert_Some. intros [[_ <-]|[_ Hi]]; [lia|].
    apply Hr in Hi. lia.
  - intros t1 t2 i. rewrite !lookup_insert_Some.
    intros [[<- <-]|[? H1]] [[<- ?]|[? H2]]; try done; try (by eapply Hinj);
      [apply Hr in H2|apply Hr in H1]; lia.
Qed.

Lemma tid_inv_same s s' :
  tid_inv s → thread_counter s' = thread_counter s → drawn s' = drawn s → tid_inv s'.
Proof. unfold tid_inv. by intros ? -> ->. Qed.

(** What a helper step does to the counter and to the identifiers. *)
Lemma helper_step_drawn s t th s' :
  ts_threads s !! t = Some th → helper_step s t th = Some s' →
  (thread_counter s' = thread_counter s ∧ drawn s' = drawn s) ∨
  (thread_counter s' = u32 (thread_counter s + 1) ∧
   drawn s' = <[t := u32 (thread_counter s + 1)]> (drawn s) ∧ drawn s !! t = None).
Proof.
  intros Ht Hs. unfold helper_step in Hs. destruct th as [b pc]; simpl in *.
  destruct pc as [|old|i|i|i|i|i f]; repeat case_decide; simplify_eq/=.
  all: try (left; split; [done|]; by eapply drawn_same_tid).
  rewrite iCAS_x86_spec in Hs. case_decide as Hc; simplify_eq/=.
  - right. split; [done|]. by eapply drawn_draw.
  - left. split; [done|]. by eapply drawn_same_tid.
Qed.

Lemma tstep_threads_size width s s' :
  tstep width s s' → (size (ts_threads s) <= size (ts_threads s'))%nat.
Proof.
  assert (∀ t th (m : gmap nat thread), size m <= size (<[t:=th]> m))%nat as Hins.
  { intros t th m. rewrite map_size_insert. case_match; unfold id; lia. }
  destruct 1 as [| | |t th s' Ht Hs]; simpl; try done.
  unfold helper_step in Hs. repeat (case_match || case_decide); simplify_eq/=; apply Hins.
Qed.

Lemma tstep_tid_inv width s s' :
  Z.of_nat (size (ts_threads s')) < 2 ^ 32 → tid_inv s → tstep width s s' → tid_inv s'.
Proof.
  intros Hb Hinv Hstep. pose proof (tstep_threads_size _ _ _ Hstep) as Hmono.
  destruct Hstep as [n b|n b t Hp Ht|n b|t th s' Ht Hs]; simpl in *.
  - by eapply tid_inv_same.
  - eapply tid_inv_same; [done|done|]. by apply drawn_new_loop.
  - by eapply tid_inv_same.
  - destruct (helper_step_drawn _ _ _ _ Ht Hs) as [[Hc Hd]|(Hc & Hd & Hn)].
    { by eapply tid_inv_same. }
    assert (size (drawn s) < size (ts_threads s))%nat as Hlt.
    { rewrite <- !size_dom. apply subset_size. split; [apply dom_omap_subseteq|].
      intros Hsub. assert (t ∈ dom (drawn s)) as [? ?]%elem_of_dom; [|congruence].
      apply Hsub, elem_of_dom. eauto. }
    rewrite u32_id in Hc, Hd by (destruct Hinv as (? & ? & _); unfold is_u32; lia).
    by eapply tid_inv_draw.
Qed.

Lemma tsys_reachable_tid_inv width s :
  rtc (tstep width) tsys_init s → Z.of_nat (size (ts_threads s)) < 2 ^ 32 → tid_inv s.
Proof.
  intros Hr Hb.
  assert (Z.of_nat (size (ts_threads s)) < 2 ^ 32 → tid_inv s) as Himp; [|by apply Himp].
  clear Hb. pattern s. eapply rtc_invariant; [| |exact Hr]; simpl.
  - intros x y IH Hstep Hb. eapply tstep_tid_inv; eauto. apply IH.
    pose proof (tstep_threads_size _ _ _ Hstep). lia.
  - intros _. split_and!; [done|done|..]; intros *; unfold drawn; simpl; by rewrite omap_empty, lookup_empty.
Qed.

(** ** The argument block *)

(** With at most one thread per [create_threads] call, a block has one user,
    which finds it allocated. *)
Definition block_inv (s : tsys) : Prop :=
  (∀ b n, ts_pending s !! b = Some (S n) →
     n = 0%nat ∧ ts_blocks s !! b = Some true ∧
     ∀ t th, ts_threads s !! t = Some th → th_arg th ≠ b) ∧
  (∀ t th, ts_threads s !! t = Some th →
     is_Some (ts_blocks s !! th_arg th) ∧
     (uses_block th = true → ts_blocks s !! th_arg th = Some true) ∧
     (∀ i f, th_pc th ≠ HCrashed i f)) ∧
  (∀ t1 t2 th1 th2, ts_threads s !! t1 = Some th1 → ts_threads s !! t2 = Some th2 →
     th_arg th1 = th_arg th2 → t1 = t2).

Lemma block_inv_init : block_inv tsys_init.
Proof. split_and!; intros *; simpl; by rewrite lookup_empty. Qed.

(** A thread that moves without touching its block. *)
Lemma block_inv_move s t th pc c :
  block_inv s → ts_threads s !! t = Some th →
  (uses_block (Thread (th_arg th) pc) = true → uses_block th = true) →
  (∀ i f, pc ≠ HCrashed i f) →
  block_inv (TSys c (ts_blocks s) (ts_pending s) (<[t := Thread (th_arg th) pc]> (ts_threads s))).
Proof.
  intros (H1 & H2 & H3) Ht Hu Hnc. split_and!; simpl.
  - intros b n Hb. destruct (H1 b n Hb) as (-> & ? & Hno). split_and!; [done|done|].
    intros t' th' [[<- <-]|[? Ht']]%lookup_insert_Some; simpl; eauto.
  - intros t' th' [[<- <-]|[? Ht']]%lookup_insert_Some; simpl; [|eauto].
    destruct (H2 _ _ Ht) as (? & ? & _). eauto.
  - intros t1 t2 th1 th2 [[<- <-]|[? Ht1]]%lookup_insert_Some
      [[<- <-]|[? Ht2]]%lookup_insert_Some; simpl; intros E; eauto.
Qed.

(** The only user frees the block and stops. *)
Lemma block_inv_free s t th i :
  block_inv s → ts_threads s !! t = Some th → ts_blocks s !! th_arg th = Some true →
  block_inv (TSys (thread_counter s) (<[th_arg th := false]> (ts_blocks s)) (ts_pending s)
                  (<[t := Thread (th_arg th) (HDone i)]> (ts_threads s))).
Proof.
  intros (H1 & H2 & H3) Ht Hb. split_and!; simpl.
  - intros b n Hp. destruct (H1 b n Hp) as (-> & ? & Hno). split_and!; [done| |].
    + rewrite lookup_insert_ne; [done|]. intros <-. by eapply Hno.
    + intros t' th' [[<- <-]|[? Ht']]%lookup_insert_Some; simpl; eauto.
  - intros t' th' [[<- <-]|[? Ht']]%lookup_insert_Some; simpl.
    + rewrite lookup_insert_eq. split_and!; [eauto|done|done].
    + rewrite lookup_insert_ne; [eauto|]. intros E. eauto using eq_sym.
  - intros t1 t2 th1 th2 [[<- <-]|[? Ht1]]%lookup_insert_Some
      [[<- <-]|[? Ht2]]%lookup_insert_Some; simpl; intros E; eauto.
Qed.

Lemma helper_step_block_inv s t th s' :
  block_inv s → ts_threads s !! t = Some th → helper_step s t th = Some s' → block_inv s'.
Proof.
  intros Hinv Ht Hs. pose proof Hinv as (_ & H2 & _). destruct (H2 _ _ Ht) as (_ & Hu & _).
  unfold helper_step in Hs. destruct (th_pc th) as [|old|i|i|i|i|i f] eqn:E;
    unfold uses_block in Hu; rewrite E in Hu; simplify_eq/=;
    try (rewrite decide_True in Hs by auto; simplify_eq/=);
    try (apply (block_inv_move s); [done|done|unfold uses_block; by rewrite E|done]);
    [|by apply (block_inv_free s); auto].
  destruct (iCAS_x86 _ _ _) as [c ok]. simplify_eq/=.
  apply block_inv_move; [done|done|unfold uses_block; by rewrite E|by destruct ok].
Qed.

Lemma tstep_block_inv width s s' :
  (∀ n, width n → (n <= 1)%nat) → block_inv s → tstep width s s' → block_inv s'.
Proof.
  intros Hw Hinv Hstep. pose proof Hinv as (H1 & H2 & H3).
  destruct Hstep as [n b Hn Hb|n b t Hp Ht|n b Hp|t th s' Ht Hs]; [| | |by eapply helper_step_block_inv].
  - assert (∀ t th, ts_threads s !! t = Some th → th_arg th ≠ b) as Hno.
    { intros t th Ht <-. destruct (H2 _ _ Ht) as ([? ?] & _). congruence. }
    split_and!; simpl; [| |done].
    + intros b' n' [[<- ->]|[? Hp]]%lookup_insert_Some.
      * rewrite lookup_insert_eq. apply Hw in Hn. split_and!; [lia|done|done].
      * rewrite lookup_insert_ne by done. eauto.
    + intros t th Ht. rewrite lookup_insert_ne by (intros E; by eapply Hno). eauto.
  - destruct (H1 _ _ Hp) as (-> & Hb & Hno). split_and!; simpl.
    + intros b' n' [[<- ?]|[Hne Hp']]%lookup_insert_Some; [done|].
      destruct (H1 _ _ Hp') as (-> & ? & ?). split_and!; [done|done|].
      intros t' th' [[<- <-]|[? Ht']]%lookup_insert_Some; simpl; eauto.
    + intros t' th' [[<- <-]|[? Ht']]%lookup_insert_Some; simpl; eauto.
    + intros t1 t2 th1 th2 [[<- <-]|[? Ht1]]%lookup_insert_Some
        [[<- <-]|[? Ht2]]%lookup_insert_Some; simpl; intros E; eauto; by destruct (Hno _ _ ltac:(done)).
  - split_and!; simpl; [|done|done].
    intros b' n' [[<- ->]|[? Hp']]%lookup_insert_Some; [|eauto].
    by destruct (H1 _ _ Hp).
Qed.

(** ** Properties *)

(** C28.  Thread identifiers are unique: in every interleaving of
    [create_threads] calls and of the helpers of fewer than 2^32 threads, the
    identifiers drawn are pairwise distinct, lie between 1 and
    [thread_counter], and [thread_counter] is their number (no draw is lost in
    a failed [iCAS]). *)
Theorem tids_unique width s :
  rtc (tstep width) tsys_init s → Z.of_nat (size (ts_threads s)) < 2 ^ 32 →
  (∀ t1 t2 i, drawn s !! t1 = Some i → drawn s !! t2 = Some i → t1 = t2) ∧
  (∀ t i, drawn s !! t = Some i → 1 <= i <= thread_counter s) ∧
  Z.of_nat (size (drawn s)) = thread_counter s.
Proof. intros Hr Hb. destruct (tsys_reachable_tid_inv _ _ Hr Hb) as (_ & ? & ? & ?). auto. Qed.

(** With the way the program uses it (one thread per call, as in
    [create_thread]), the helper never touches a freed argument block: no
    interleaving of any number of [create_threads(1, ...)] calls crashes. *)
Theorem create_thread_no_crash s t th :
  rtc (tstep (λ n, n = 1%nat)) tsys_init s → ts_threads s !! t = Some th →
  ∀ i f, th_pc th ≠ HCrashed i f.
Proof.
  intros Hr Ht. assert (block_inv s) as (_ & H2 & _).
  { eapply rtc_invariant; [|apply block_inv_init|done].
    intros x y. apply tstep_block_inv. naive_solver lia. }
  by apply (H2 _ _ Ht).
Qed.

(** Runs thread [t] for [k] steps. *)
Fixpoint helper_steps (k : nat) (t : nat) (s : tsys) : option tsys :=
  match k with
  | O => Some s
  | S k => match ts_threads s !! t with
           | Some th => match helper_step s t th with Some s' => helper_steps k t s' | None => None end
           | None => None
           end
  end.

Lemma helper_steps_rtc width k t s s' : helper_steps k t s = Some s' → rtc (tstep width) s s'.
Proof.
  revert s; induction k as [|k IH]; intros s; simpl; [by intros [= ->]|].
  destruct (ts_threads s !! t) as [th|] eqn:Ht; [|done].
  destruct (helper_step s t th) as [s1|] eqn:Hs; [|done].
  intros Hr. eapply rtc_l; [by eapply ts_helper|eauto].
Qed.

(** Two threads created by one call, or by one call each. *)
Definition two_threads (b1 b2 : nat) : tsys :=
  TSys 0 (<[b2 := true]> (<[b1 := true]> ∅)) (<[b2 := 0%nat]> (<[b1 := 0%nat]> ∅))
       (<[1%nat := Thread b2 HLoop]> (<[0%nat := Thread b1 HLoop]> ∅)).

Definition two_threads_done (b1 b2 : nat) : option tsys :=
  helper_steps 5 0 (two_threads b1 b2) ≫= helper_steps 5 1.

Lemma two_calls_reachable : rtc (tstep (λ n, n = 1%nat)) tsys_init (two_threads 0 1).
Proof.
  eapply rtc_l; [by apply (ts_call _ _ 1 0)|].
  eapply rtc_l; [by apply (ts_create _ _ 0 0 0)|].
  eapply rtc_l; [by apply (ts_call _ _ 1 1)|].
  eapply rtc_l; [by apply (ts_create _ _ 0 1 1)|]. reflexivity.
Qed.

Lemma one_call_reachable : rtc (tstep (λ n, n = 2%nat)) tsys_init (two_threads 0 0).
Proof.
  eapply rtc_l; [by apply (ts_call _ _ 2 0)|].
  eapply rtc_l; [by apply (ts_create _ _ 1 0 0)|].
  eapply rtc_l; [by apply (ts_create _ _ 0 0 1)|]. reflexivity.
Qed.

Lemma tids_unique_witness :
  ∃ s, two_threads_done 0 1 = Some s ∧ drawn s !! 0%nat = Some 1 ∧ drawn s !! 1%nat = Some 2 ∧
       Z.of_nat (size (drawn s)) = thread_counter s.
Proof.
  destruct (two_threads_done 0 1) as [s|] eqn:E; [|by vm_compute in E].
  exists s. split; [done|]. vm_compute in E. injection E as <-. split_and!; [reflexivity..|].
  eapply (tids_unique (λ n, n = 1%nat)); [|reflexivity].
  etrans; [apply two_calls_reachable|]. etrans; [apply (helper_steps_rtc _ 5 0); reflexivity|].
  apply (helper_steps_rtc _ 5 1). reflexivity.
Defined.

Lemma create_thread_no_crash_witness :
  ts_threads (two_threads 0 1) !! 0%nat = Some (Thread 0 HLoop) ∧
  ∀ i f, th_pc (Thread 0 HLoop) ≠ HCrashed i f.
Proof. split; [reflexivity|]. apply (create_thread_no_crash _ 0 _ two_calls_reachable). reflexivity. Defined.

(** With two threads per call the helpers share one argument block and
    both free it: some interleaving runs a second [free] of the same block. *)
Theorem create_threads_double_free :
  ∃ s t i b, rtc (tstep (λ n, n = 2%nat)) tsys_init s ∧
    ts_threads s !! t = Some (Thread b (HCrashed i UseAfterFree)) ∧
    ∃ t' i', t' ≠ t ∧ ts_threads s !! t' = Some (Thread b (HDone i')).
Proof.
  destruct ((helper_steps 4 1 (two_threads 0 0) ≫= helper_steps 5 0) ≫= helper_steps 1 1)
    as [s|] eqn:E; [|by vm_compute in E].
  exists s, 1%nat, 1, 0%nat. split.
  - etrans; [apply one_call_reachable|].
    destruct (helper_steps 4 1 (two_threads 0 0)) as [s1|] eqn:E1; [|done].
    change (helper_steps 5 0 s1 ≫= helper_steps 1 1 = Some s) in E.
    destruct (helper_steps 5 0 s1) as [s2|] eqn:E2; [|done].
    change (helper_steps 1 1 s2 = Some s) in E.
    etrans; [eapply helper_steps_rtc, E1|]. etrans; eapply helper_steps_rtc; [exact E2|exact E].
  - vm_compute in E. injection E as <-. split; [reflexivity|]. by exists 0%nat, 2.
Qed.
