(* ===== verification/SockHelp.v ===== *)
(** * controller/sockhelp.c

    The socket helpers.  System calls are the environment: a call consumes one
    answer of a script, and the definitions below say what the helper makes of
    it.  Bytes and characters are [Z] (0..255); a NUL-terminated string is the
    list of its characters without the terminator.  A helper whose script runs
    out is blocked in a system call. *)
From S2P Require Import Prelude.
Open Scope Z_scope.

Definition EINTR : Z := 4.
Definition EWOULDBLOCK : Z := 11.
Definition NOT_AVAILABLE : Z := -71.

(** ** Answers of the kernel *)

(** [write]/[sendto]: the kernel takes up to [k] bytes of what is offered, or
    fails with an error number. *)
Inductive wres := WAccept (k : N) | WFail (errno : Z).

(** The [ssize_t] result and the error number of a call offering [requested] bytes. *)
Definition sys_write (r : wres) (requested : Z) : Z * Z :=
  match r with
  | WAccept k => (Z.min (Z.of_N k) requested, 0)
  | WFail e => (-1, e)
  end.

(** [read]/[recvfrom]: data (cut to what was asked for; none is the end of the
    stream), or an error. *)
Inductive rres := RData (bs : list Z) | RFail (errno : Z).

Definition sys_read (r : rres) (requested : Z) : Z * list Z * Z :=
  match r with
  | RData bs => let d := take (Z.to_nat requested) bs in (Z.of_nat (length d), d, 0)
  | RFail e => (-1, [], e)
  end.

(** What a helper that transfers bytes came to: it returned an [int], having
    transferred [data] and left [rest] of the script, or it is blocked. *)
Inductive transfer (R : Type) : Type :=
  | Returned (ret : Z) (data : list Z) (rest : list R)
  | Blocked (data : list Z).
Arguments Returned {R} ret data rest.
Arguments Blocked {R} data.

(** ** sock_write, sock_write_udp

    The [while] loop and the [do ... while (EINTR)] loop in it; both helpers
    have this loop and differ in the system call only. *)
Fixpoint sock_write_loop (rs : list wres) (buf : list Z) (count bytes_sent : Z) (sent : list Z)
    : transfer wres :=
  if bytes_sent <? count then
    match rs with
    | [] => Blocked sent
    | r :: rs =>
        let requested := count - bytes_sent in
        let '(ret, errno) := sys_write r requested in
        let this_write := s32 ret in
        if (this_write <? 0) && (errno =? EINTR) then sock_write_loop rs buf count bytes_sent sent
        else if this_write <=? 0 then Returned this_write sent rs
        else sock_write_loop rs (drop (Z.to_nat ret) buf) count (u64 (bytes_sent + this_write))
                             (sent ++ take (Z.to_nat ret) buf)
    end
  else Returned (s32 count) sent rs.

Definition sock_write (rs : list wres) (buf : list Z) (count : Z) : transfer wres :=
  sock_write_loop rs buf count 0 [].

Definition sock_write_udp (rs : list wres) (buf : list Z) (count : Z) : transfer wres :=
  sock_write_loop rs buf count 0 [].

(** [sock_puts]: the terminator is not sent. *)
Definition sock_puts (rs : list wres) (str : list Z) : transfer wres :=
  sock_write rs str (Z.of_nat (length str)).

(** ** sock_read, sock_read_udp: one transfer, retried while interrupted *)
Fixpoint sock_read (rs : list rres) (count : Z) : transfer rres :=
  match rs with
  | [] => Blocked []
  | r :: rs =>
      let '(ret, data, errno) := sys_read r count in
      let this_read := s32 ret in
      if (this_read <? 0) && (errno =? EINTR) then sock_read rs count
      else if (this_read <? 0) && (errno =? EWOULDBLOCK) then Returned NOT_AVAILABLE [] rs
      else if this_read <? 0 then Returned this_read [] rs
      else if this_read =? 0 then Returned 0 [] rs
      else Returned (s32 (u64 (0 + this_read))) data rs
  end.

Definition sock_read_udp (rs : list rres) (count : Z) : transfer rres := sock_read rs count.

(** ** sock_gets

    Reads single bytes up to a line feed into [str]; [pos] is
    [current_position - str], [total] is [total_count].  Stores go through the
    array bounds of the object [str] points to. *)
Inductive gets_result :=
  | GetsReturned (ret : Z) (str : list Z) (rest : list rres)
  | GetsBlocked (str : list Z).

Fixpoint sock_gets_loop (rs : list rres) (str : list Z) (count pos total : Z) : outcome gets_result :=
  match rs with
  | [] => Val (GetsBlocked str)
  | r :: rs =>
      let '(ret, data, _) := sys_read r 1 in
      let bytes_read := s32 ret in
      if bytes_read <=? 0 then Val (GetsReturned (-1) str rs)
      else
        let last_read := default 0 (head data) in
        if (u64 total <? count) && negb (last_read =? 10) && negb (last_read =? 13) then
          str ← arr_set str pos last_read;
          (* the stored character is not a line feed: the loop goes on *)
          sock_gets_loop rs str count (pos + 1) (s32 (total + 1))
        else if last_read =? 10 then
          str ← (if 0 <? count then arr_set str pos 0 else mret str);
          mret (GetsReturned total str rs)
        else sock_gets_loop rs str count pos total
  end.

Definition sock_gets (rs : list rres) (str : list Z) (count : Z) : outcome gets_result :=
  sock_gets_loop rs str count 0 0.

(** ** atoport, atoaddr

    [sprintf("%d")] of an [int] and [strtol] with base 0, character by
    character ('0' is 48, '-' is 45). *)
Fixpoint dec_digits (fuel : nat) (n : Z) (acc : list Z) : list Z :=
  match fuel with
  | O => acc
  | S fuel =>
      let acc := 48 + n mod 10 :: acc in
      if n <? 10 then acc else dec_digits fuel (n / 10) acc
  end.

Definition sprintf_d (z : Z) : list Z :=
  if z <? 0 then 45 :: dec_digits 10 (- z) [] else dec_digits 10 z [].

(** The value of a character as a digit, 36 for none. *)
Definition digit_value (c : Z) : Z :=
  if (48 <=? c) && (c <=? 57) then c - 48
  else if (97 <=? c) && (c <=? 122) then c - 87
  else if (65 <=? c) && (c <=? 90) then c - 55
  else 36.

(** The longest run of digits of [base]: its value, what follows, and whether it is empty. *)
Fixpoint scan_digits (base : Z) (s : list Z) (v : Z) : Z * list Z * bool :=
  match s with
  | c :: s' =>
      if digit_value c <? base
      then let '(v', rest, _) := scan_digits base s' (v * base + digit_value c) in (v', rest, false)
      else (v, s, true)
  | [] => (v, s, true)
  end.

Definition is_space (c : Z) : bool := (c =? 32) || ((9 <=? c) && (c <=? 13)).

Fixpoint skip_spaces (s : list Z) : list Z :=
  match s with c :: s' => if is_space c then skip_spaces s' else s | [] => [] end.

Definition LONG_MAX : Z := 2 ^ 63 - 1.
Definition LONG_MIN : Z := - 2 ^ 63.

(** [strtol(s, &errpos, 0)]: the value and the text at [errpos]. *)
Definition strtol0 (s : list Z) : Z * list Z :=
  let s1 := skip_spaces s in
  let '(neg, s2) :=
    match s1 with
    | c :: t => if c =? 45 then (true, t) else if c =? 43 then (false, t) else (false, s1)
    | [] => (false, s1)
    end in
  let '(v, rest, empty) :=
    match s2 with
    | z :: t =>
        if z =? 48 then
          match t with
          | c :: u => if ((c =? 120) || (c =? 88)) && negb (scan_digits 16 u 0).2
                      then scan_digits 16 u 0 else scan_digits 8 s2 0
          | [] => scan_digits 8 s2 0
          end
        else scan_digits 10 s2 0
    | [] => scan_digits 10 s2 0
    end in
  if empty : bool then (0, s)
  else (Z.max LONG_MIN (Z.min LONG_MAX (if neg : bool then - v else v)), rest).

(** Network byte order of a 16-bit number on a little-endian machine. *)
Definition htons (n : Z) : Z := (n mod 2 ^ 8) * 2 ^ 8 + (n / 2 ^ 8) mod 2 ^ 8.
Definition ntohs (n : Z) : Z := htons n.

(** [service] is the [char *] argument as a number: the code prints it as an
    [int].  [getservbyname] is the services database of the host: the
    network-order port of a name, if it has one. *)
Definition atoport (getservbyname : list Z → option Z) (service : Z) : Z :=
  let service_name := sprintf_d (s32 service) in
  match getservbyname service_name with
  | Some s_port => s_port
  | None =>
      let '(lport, errpos) := strtol0 service_name in
      if negb (bool_decide (errpos = [])) || (lport <? 1) || (65535 <? lport) then -1
      else htons lport
  end.

(** [inet] is the result of [inet_addr], [host] the first address of
    [gethostbyname]; [None] is the null pointer. *)
Definition atoaddr (inet : Z) (host : option Z) : option Z :=
  if negb (inet =? u32 (-1)) then Some inet else host.

(** ** make_connection *)
Definition SOCK_STREAM : Z := 1.
Definition SOCK_DGRAM : Z := 2.

(** The answers of the system to one [make_connection]. *)
Record conn_env := ConnEnv {
  env_services : list Z → list Z → option Z;   (* getservbyname(name, proto) *)
  env_inet_addr : Z; env_host : option Z;
  env_socket : Z; env_connect : Z
}.

Definition tcp : list Z := [116; 99; 112].
Definition udp : list Z := [117; 100; 112].

(** The returned descriptor, and the destination [connect] was given, if it was called. *)
Definition make_connection (env : conn_env) (service type : Z) : Z * option (Z * Z) :=
  let port := -1 in
  let port := if type =? SOCK_STREAM then atoport (λ n, env_services env n tcp) service else port in
  let port := if type =? SOCK_DGRAM then atoport (λ n, env_services env n udp) service else port in
  if port =? -1 then (-1, None)
  else
    match atoaddr (env_inet_addr env) (env_host env) with
    | None => (-1, None)
    | Some addr =>
        let sock := env_socket env in
        if type =? SOCK_STREAM then
          if env_connect env <? 0 then (-1, Some (addr, port)) else (sock, Some (addr, port))
        else (sock, None)
    end.

(** ** get_connection

    [accept] and [fork] answers of the listening process; every successful
    [fork] has a child, in which [get_connection] returns the connected socket. *)
Inductive accept_ans := AcceptErr (errno : Z) | AcceptOk (fd : Z) (fork_fails : bool).
Inductive listener_end := ListenerWaits | ListenerExits.

(** The sockets returned in the children, in order, and what became of the listener. *)
Fixpoint get_connection_loop (ans : list accept_ans) : list Z * listener_end :=
  match ans with
  | [] => ([], ListenerWaits)
  | AcceptErr e :: ans => if e =? EINTR then get_connection_loop ans else ([], ListenerExits)
  | AcceptOk _ true :: ans => get_connection_loop ans
  | AcceptOk fd false :: ans => let '(cs, e) := get_connection_loop ans in (fd :: cs, e)
  end.

Inductive get_conn := GcExit | GcReturned (fd : Z) | GcForked (children : list Z) (e : listener_end).

Definition get_connection (socket_type socket_res bind_res : Z) (ans : list accept_ans) : get_conn :=
  if socket_res <? 0 then GcExit
  else if bind_res <? 0 then GcExit
  else if socket_type =? SOCK_STREAM then
    let '(cs, e) := get_connection_loop ans in GcForked cs e
  else GcReturned socket_res.

(** ** Lemmas on transfers *)

Lemma sys_write_accept k requested :
  0 <= requested → 0 <= (sys_write (WAccept k) requested).1 <= requested.
Proof. simpl. lia. Qed.

(** What one round of the loop does, for a count that fits [int]. *)
Lemma sock_write_loop_accept k rs buf count n sent :
  0 <= n < count → count < 2 ^ 31 →
  let m := Z.min (Z.of_N k) (count - n) in
  sock_write_loop (WAccept k :: rs) buf count n sent =
  if m <=? 0 then Returned 0 sent rs
  else sock_write_loop rs (drop (Z.to_nat m) buf) count (n + m) (sent ++ take (Z.to_nat m) buf).
Proof.
  intros Hn Hc m. cbn [sock_write_loop sys_write fst snd]. fold m.
  rewrite (proj2 (Z.ltb_lt n count)) by lia.
  rewrite s32_id by (unfold is_s32; lia).
  rewrite (proj2 (Z.ltb_ge m 0)) by lia. simpl.
  destruct (Z.leb_spec m 0) as [Hm|Hm]; [by replace m with 0 by lia|].
  rewrite u64_id by (unfold is_u64; lia). done.
Qed.

Lemma sock_write_loop_fail e rs buf count n sent :
  0 <= n < count →
  sock_write_loop (WFail e :: rs) buf count n sent =
  if e =? EINTR then sock_write_loop rs buf count n sent else Returned (-1) sent rs.
Proof.
  intros Hn. cbn [sock_write_loop sys_write fst snd].
  rewrite (proj2 (Z.ltb_lt n count)) by lia.
  rewrite s32_id by (unfold is_s32; lia). simpl. by destruct (e =? EINTR).
Qed.

Lemma sock_write_loop_done rs buf count sent :
  0 <= count < 2 ^ 31 → sock_write_loop rs buf count count sent = Returned count sent rs.
Proof.
  intros H. destruct rs; cbn [sock_write_loop]; rewrite Z.ltb_irrefl, s32_id by (unfold is_s32; lia); done.
Qed.

Lemma sock_write_loop_blocked buf count n sent :
  0 <= n < count → sock_write_loop [] buf count n sent = Blocked sent.
Proof. intros H. simpl. by rewrite (proj2 (Z.ltb_lt n count)) by lia. Qed.

(** What a transfer says about the bytes that went out and the value returned. *)
Definition write_outcome (rs : list wres) (buf sent : list Z) (count : Z) (t : transfer wres) : Prop :=
  match t with
  | Returned ret data rest =>
      (ret = count ∧ data = sent ++ buf) ∨
      (ret <= 0 ∧ ∃ k, (k < length buf)%nat ∧ data = sent ++ take k buf ∧
         ∃ r, r ∈ rs ∧ (r = WAccept 0 ∧ ret = 0 ∨ ∃ e, e ≠ EINTR ∧ r = WFail e ∧ ret = -1))
  | Blocked data => ∃ k, (k < length buf)%nat ∧ data = sent ++ take k buf
  end.

Lemma write_outcome_step r rs buf sent count t m :
  (m <= length buf)%nat →
  write_outcome rs (drop m buf) (sent ++ take m buf) count t →
  write_outcome (r :: rs) buf sent count t.
Proof.
  intros Hm. assert (∀ k, (k < length (drop m buf))%nat → (m + k < length buf)%nat ∧
    (sent ++ take m buf) ++ take k (drop m buf) = sent ++ take (m + k) buf) as Hk.
  { intros k. rewrite length_drop. split; [lia|].
    rewrite <- app_assoc. f_equal. rewrite take_take_drop. done. }
  destruct t as [ret data rest|data]; simpl.
  - intros [[-> ->]|(Hr & k & Hlt & -> & r' & Hr' & Hx)].
    + left. split; [done|]. by rewrite <- app_assoc, take_drop.
    + right. split; [done|]. destruct (Hk k Hlt) as [? ->]. exists (m + k)%nat.
      split_and!; [lia|done|]. exists r'. split; [by right|done].
  - intros (k & Hlt & ->). destruct (Hk k Hlt) as [? ->]. eauto.
Qed.

Lemma sock_write_loop_outcome rs buf count n sent :
  0 <= n → n + Z.of_nat (length buf) = count → count < 2 ^ 31 →
  write_outcome rs buf sent count (sock_write_loop rs buf count n sent).
Proof.
  revert buf n sent; induction rs as [|r rs IH]; intros buf n sent H0 Hl Hc.
  all: destruct (decide (n = count)) as [->|Hne].
  1,3: rewrite sock_write_loop_done by lia; left; destruct buf; [by rewrite app_nil_r|simpl in Hl; lia].
  - rewrite sock_write_loop_blocked by lia. exists 0%nat. rewrite app_nil_r. split; [lia|done].
  - destruct r as [k|e].
    + rewrite sock_write_loop_accept by lia. set (m := Z.min (Z.of_N k) (count - n)).
      destruct (Z.leb_spec m 0) as [Hm|Hm].
      * right. split; [lia|]. exists 0%nat. rewrite app_nil_r. split_and!; [lia|done|].
        exists (WAccept k). split; [by left|]. left. split; [|done]. f_equal. lia.
      * apply (write_outcome_step _ _ _ _ _ _ (Z.to_nat m)); [lia|].
        apply IH; rewrite ?length_drop; lia.
    + rewrite sock_write_loop_fail by lia. destruct (Z.eqb_spec e EINTR) as [->|He].
      * apply (write_outcome_step _ _ _ _ _ _ 0%nat); [lia|].
        rewrite take_0, app_nil_r, drop_0. by apply IH.
      * right. split; [lia|]. exists 0%nat. rewrite app_nil_r. split_and!; [lia|done|].
        exists (WFail e). split; [by left|]. right. eauto.
Qed.

(** The answers that let the transfer advance. *)
Definition makes_progress (r : wres) : bool := match r with WAccept k => (0 <? k)%N | WFail _ => false end.
Definition harmless (r : wres) : Prop := makes_progress r = true ∨ r = WFail EINTR.

Lemma sock_write_loop_completes rs buf count n sent :
  Forall harmless rs → 0 <= n → n + Z.of_nat (length buf) = count → count < 2 ^ 31 →
  Z.of_nat (length buf) <= Z.of_nat (length (filter (λ r, makes_progress r = true) rs)) →
  ∃ rest, sock_write_loop rs buf count n sent = Returned count (sent ++ buf) rest.
Proof.
  intros Hh; revert buf n sent; induction Hh as [|r rs Hr Hrs IH]; intros buf n sent H0 Hl Hc Hp.
  all: destruct (decide (n = count)) as [->|Hne];
    [rewrite sock_write_loop_done by lia; destruct buf; [rewrite app_nil_r; eauto|simpl in Hl; lia]|].
  { simpl in Hp. destruct buf; simpl in *; lia. }
  rewrite filter_cons in Hp. destruct Hr as [Hr|Hr].
  - rewrite decide_True in Hp by done. simpl in Hp. destruct r as [k|]; [|done].
    apply N.ltb_lt in Hr. rewrite sock_write_loop_accept by lia.
    set (m := Z.min (Z.of_N k) (count - n)). destruct (Z.leb_spec m 0) as [Hm|Hm]; [lia|].
    destruct (IH (drop (Z.to_nat m) buf) (n + m) (sent ++ take (Z.to_nat m) buf)) as [rest ->];
      rewrite ?length_drop; [lia..|].
    exists rest. by rewrite <- app_assoc, take_drop.
  - subst r. rewrite sock_write_loop_fail by lia. rewrite Z.eqb_refl.
    rewrite decide_False in Hp by done. by apply IH.
Qed.

(** ** Lemmas on sock_gets *)

(** The characters of a line that [sock_gets] keeps: all but carriage returns. *)
Definition kept (line : list Z) : list Z := filter (λ c, c ≠ 13) line.

(** Stores [xs] then a terminator at index [pos] of [str]. *)
Definition put_string (str : list Z) (pos : Z) (xs : list Z) : outcome (list Z) :=
  if decide (pos + Z.of_nat (length xs) < Z.of_nat (length str))
  then Val (take (Z.to_nat pos) str ++ xs ++ [0] ++ drop (Z.to_nat pos + length xs + 1) str)
  else Fault OutOfBounds.

Lemma put_string_nil str pos :
  0 <= pos → arr_set str pos 0 = put_string str pos [].
Proof.
  intros H. unfold put_string. simpl. rewrite Z.add_0_r. case_decide as Hd.
  - rewrite arr_set_in_bounds by lia. f_equal.
    rewrite insert_take_drop by lia. simpl. do 2 f_equal. f_equal. lia.
  - by rewrite arr_set_oob by lia.
Qed.

Lemma put_string_cons str str' pos x xs :
  0 <= pos → arr_set str pos x = Val str' →
  put_string str' (pos + 1) xs = put_string str pos (x :: xs).
Proof.
  intros H [Hb ->]%arr_set_Val. unfold put_string. rewrite length_insert. simpl length.
  replace (pos + 1 + Z.of_nat (length xs)) with (pos + Z.of_nat (S (length xs))) by lia.
  case_decide as Hd; [|done]. f_equal.
  replace (Z.to_nat (pos + 1)) with (S (Z.to_nat pos)) by lia.
  rewrite (take_S_r _ _ x) by (apply list_lookup_insert_eq; lia).
  rewrite take_insert_ge by lia. rewrite drop_insert_lt by lia.
  rewrite <- app_assoc. simpl. do 4 f_equal. f_equal. lia.
Qed.

(** Storing past the end of [str] faults, whatever comes next. *)
Lemma put_string_oob str pos xs :
  0 <= pos → Z.of_nat (length str) <= pos + Z.of_nat (length xs) →
  put_string str pos xs = Fault OutOfBounds.
Proof. intros ??. unfold put_string. by rewrite decide_False by lia. Qed.

(** A character of the line, in the three cases of the loop body. *)
Lemma sock_gets_loop_char c rs str count pos total :
  c ≠ 10 → 0 <= total < 2 ^ 31 - 1 →
  sock_gets_loop (RData [c] :: rs) str count pos total =
  if decide (c ≠ 13 ∧ total < count)
  then str ← arr_set str pos c; sock_gets_loop rs str count (pos + 1) (total + 1)
  else sock_gets_loop rs str count pos total.
Proof.
  intros Hc Ht. cbn [sock_gets_loop].
  change (sys_read (RData [c]) 1) with (1, [c], 0). cbv beta iota zeta. change (default 0 (head [c])) with c.
  rewrite (s32_id 1), (u64_id total), (s32_id (total + 1)) by (unfold is_u64, is_s32; lia).
  rewrite (proj2 (Z.eqb_neq c 10)) by done. cbn [Z.leb Z.compare].
  destruct (Z.ltb_spec total count), (Z.eqb_spec c 13); case_decide; simpl; done || lia.
Qed.

Lemma sock_gets_loop_lf rs str count pos total :
  sock_gets_loop (RData [10] :: rs) str count pos total =
  (str ← (if 0 <? count then arr_set str pos 0 else mret str); mret (GetsReturned total str rs)).
Proof. cbn. by rewrite andb_false_r. Qed.

Lemma sock_gets_loop_line line rs str count pos :
  Forall (λ c, c ≠ 10) line → 0 < count →
  0 <= pos <= count → pos + Z.of_nat (length line) < 2 ^ 31 →
  let xs := take (Z.to_nat (count - pos)) (kept line) in
  sock_gets_loop (map (λ c, RData [c]) (line ++ [10]) ++ rs) str count pos pos =
  (str' ← put_string str pos xs; mret (GetsReturned (pos + Z.of_nat (length xs)) str' rs)).
Proof.
  intros Hl Hc; revert str pos; induction Hl as [|c line Hne Hl IH]; intros str pos Hp Hb xs.
  - subst xs. unfold kept. rewrite filter_nil, take_nil.
    change (map _ ([] ++ [10]) ++ rs) with (RData [10] :: rs).
    rewrite sock_gets_loop_lf, (proj2 (Z.ltb_lt 0 count)), Z.add_0_r, put_string_nil by lia. done.
  - simpl in Hb. change (map _ ((c :: line) ++ [10]) ++ rs)
      with (RData [c] :: (map (λ c, RData [c]) (line ++ [10]) ++ rs)).
    rewrite sock_gets_loop_char by lia. subst xs. unfold kept. rewrite filter_cons.
    case_decide as Hd.
    + rewrite decide_True by lia.
      replace (Z.to_nat (count - pos)) with (S (Z.to_nat (count - (pos + 1)))) by lia. simpl.
      destruct (decide (pos < Z.of_nat (length str))).
      * rewrite arr_set_in_bounds by lia. simpl. rewrite IH by lia. unfold kept.
        rewrite (put_string_cons str _ pos c) by (lia || (apply arr_set_in_bounds; lia)).
        destruct (put_string _ _ _); simpl; [|done..]. do 2 f_equal. lia.
      * rewrite arr_set_oob by lia. rewrite put_string_oob by (simpl; lia). done.
    + rewrite IH by lia. unfold kept. case_decide; [|done].
      replace (Z.to_nat (count - pos)) with 0%nat by lia. by rewrite !take_0.
Qed.

(** ** Lemmas on decimal text *)

Definition is_digit (c : Z) : Prop := 48 <= c <= 57.
Definition dec_value (ds : list Z) (v : Z) : Z := foldl (λ v c, v * 10 + (c - 48)) v ds.

Lemma dec_digits_acc fuel n acc : dec_digits fuel n acc = dec_digits fuel n [] ++ acc.
Proof.
  revert n acc; induction fuel as [|fuel IH]; intros n acc; simpl; [done|].
  destruct (n <? 10); [done|]. rewrite IH, (IH _ [_]), <- app_assoc. done.
Qed.

Lemma dec_value_app ds1 ds2 v : dec_value (ds1 ++ ds2) v = dec_value ds2 (dec_value ds1 v).
Proof. apply foldl_app. Qed.

(** The digits of [n]: they denote [n], and they start with a zero for 0 only. *)
Lemma dec_digits_spec fuel n :
  0 <= n < 10 ^ Z.of_nat fuel → (0 < fuel)%nat →
  ∃ c ds, dec_digits fuel n [] = c :: ds ∧ Forall is_digit (c :: ds) ∧
    dec_value (c :: ds) 0 = n ∧ (c = 48 → n = 0 ∧ ds = []).
Proof.
  revert n; induction fuel as [|fuel IH]; intros n Hn Hf; [lia|]. simpl dec_digits.
  pose proof (Z.mod_pos_bound n 10 ltac:(lia)). pose proof (Z.div_mod n 10 ltac:(lia)).
  destruct (Z.ltb_spec n 10) as [Hlt|Hge].
  - rewrite Z.mod_small in * by lia. exists (48 + n), []. split_and!; [done| | |].
    + constructor; [unfold is_digit; lia|done].
    + unfold dec_value. simpl. lia.
    + intros. split; [lia|done].
  - rewrite dec_digits_acc.
    assert (0 < fuel)%nat by (destruct fuel; [simpl in Hn|]; lia).
    destruct (IH (n / 10)) as (c & ds & -> & Hd & Hv & Hz); [|done|].
    { rewrite Nat2Z.inj_succ, Z.pow_succ_r in Hn by lia. lia. }
    exists c, (ds ++ [48 + n mod 10]). split_and!; [done| | |].
    + rewrite app_comm_cons. apply Forall_app. split; [done|]. constructor; [unfold is_digit; lia|done].
    + rewrite app_comm_cons, dec_value_app, Hv. unfold dec_value. simpl. lia.
    + intros E. destruct (Hz E). lia.
Qed.

Lemma digit_value_digit c : is_digit c → digit_value c = c - 48 ∧ digit_value c < 10.
Proof.
  unfold is_digit, digit_value. intros H.
  rewrite (proj2 (Z.leb_le 48 c)), (proj2 (Z.leb_le c 57)) by lia. simpl. lia.
Qed.

Lemma scan_digits_decimal ds v :
  Forall is_digit ds → scan_digits 10 ds v = (dec_value ds v, [], bool_decide (ds = [])).
Proof.
  intros H; revert v; induction H as [|c ds Hc Hds IH]; intros v; simpl; [done|].
  destruct (digit_value_digit c Hc) as [E Hlt].
  rewrite (proj2 (Z.ltb_lt _ _) Hlt), IH, E. done.
Qed.

Lemma skip_spaces_nonspace c s : 32 < c → skip_spaces (c :: s) = c :: s.
Proof.
  intros H. simpl. unfold is_space.
  rewrite (proj2 (Z.eqb_neq c 32)), (proj2 (Z.leb_gt c 13)), andb_false_r by lia. done.
Qed.

(** [strtol] on a decimal numeral that does not start with a zero. *)
Lemma strtol0_digits c ds :
  Forall is_digit (c :: ds) → (c = 48 → ds = []) → dec_value (c :: ds) 0 <= LONG_MAX →
  strtol0 (c :: ds) = (dec_value (c :: ds) 0, []) ∧
  strtol0 (45 :: c :: ds) = (- dec_value (c :: ds) 0, []).
Proof.
  intros Hd Hz Hb. assert (is_digit c) as Hc by (by inversion Hd).
  assert (0 <= dec_value (c :: ds) 0) as Hpos.
  { clear Hb Hz Hc. unfold dec_value. generalize (Z.le_refl 0). generalize 0 at 2 4 as v.
    induction Hd as [|x xs Hx _ IH]; intros v Hv; simpl; [done|]. apply IH. unfold is_digit in Hx. lia. }
  unfold strtol0. rewrite (skip_spaces_nonspace c) by (unfold is_digit in Hc; lia).
  rewrite (skip_spaces_nonspace 45) by lia.
  rewrite (proj2 (Z.eqb_neq c 45)), (proj2 (Z.eqb_neq c 43)) by (unfold is_digit in Hc; lia).
  change (45 =? 45) with true. cbv iota beta.
  destruct (decide (c = 48)) as [->|Hne]; [rewrite (Hz eq_refl); done|].
  rewrite (proj2 (Z.eqb_neq c 48)) by done. rewrite (scan_digits_decimal (c :: ds)) by done.
  rewrite bool_decide_false by done. unfold LONG_MIN, LONG_MAX in *. split; f_equal; lia.
Qed.

(** Printing an [int] with "%d" and reading it back with [strtol] gives it back. *)
Lemma strtol0_sprintf_d z : is_s32 z → strtol0 (sprintf_d z) = (z, []).
Proof.
  unfold is_s32. intros Hz. unfold sprintf_d.
  assert (∀ n, 0 <= n <= 2 ^ 31 → strtol0 (dec_digits 10 n []) = (n, []) ∧
    strtol0 (45 :: dec_digits 10 n []) = (- n, [])) as Hn.
  { intros n Hn. destruct (dec_digits_spec 10 n) as (c & ds & -> & Hd & Hv & H0); [simpl; lia|lia|].
    rewrite <- Hv. apply strtol0_digits; [done|naive_solver|unfold LONG_MAX; lia]. }
  destruct (Z.ltb_spec z 0).
  - destruct (Hn (- z)) as [_ ->]; [lia|]. f_equal. lia.
  - destruct (Hn z) as [-> _]; [lia|]. done.
Qed.

Lemma htons_involutive n : 0 <= n < 2 ^ 16 → ntohs (htons n) = n.
Proof. unfold ntohs, htons. intros H. Z.div_mod_to_equations. lia. Qed.

(** ** Properties *)

(** C33.  [sock_write] transmits everything or says so: whatever the kernel
    answers, the call either returns [count] with exactly the [count] bytes of
    the buffer sent in order, or returns 0 or -1 after a strict prefix because
    the kernel took nothing or failed with an error other than EINTR, or is
    still blocked after a strict prefix; and it does return [count] as soon as
    the kernel has made progress [count] times, failing with EINTR at most in
    between. *)
Theorem sock_write_transmits rs buf :
  Z.of_nat (length buf) < 2 ^ 31 →
  let count := Z.of_nat (length buf) in
  write_outcome rs buf [] count (sock_write rs buf count) ∧
  (Forall harmless rs →
   count <= Z.of_nat (length (filter (λ r, makes_progress r = true) rs)) →
   ∃ rest, sock_write rs buf count = Returned count buf rest).
Proof.
  intros Hb count. unfold sock_write. split.
  - apply sock_write_loop_outcome; lia.
  - intros Hh Hp. by apply (sock_write_loop_completes rs buf count 0 []).
Qed.

Lemma sock_write_transmits_witness :
  ∃ rest, sock_write [WAccept 2; WFail EINTR; WAccept 1; WAccept 9; WAccept 1; WFail 104] [10;20;30] 3
          = Returned 3 [10;20;30] rest.
Proof.
  destruct (sock_write_transmits [WAccept 2; WFail EINTR; WAccept 1; WAccept 9; WAccept 1] [10;20;30]
    ltac:(reflexivity)) as [_ [rest H]].
  - repeat constructor; (by left) || by right.
  - vm_compute. discriminate.
  - exists (rest ++ [WFail 104]). vm_compute in H. by injection H as <-.
Defined.

(** C37.  [sock_gets] on a line ended by a line feed: it stores the characters
    of the line other than carriage returns, cut to [count], then a NUL, and
    returns their number; this needs one byte more than it stores characters,
    so a line of [count] or more kept characters writes past a buffer of
    [count] bytes. *)
Theorem sock_gets_line line rs str count :
  Forall (λ c, c ≠ 10) line → 0 < count → Z.of_nat (length line) < 2 ^ 31 →
  let xs := take (Z.to_nat count) (kept line) in
  let ans := map (λ c, RData [c]) (line ++ [10]) ++ rs in
  ((length xs < length str)%nat →
     sock_gets ans str count =
     Val (GetsReturned (Z.of_nat (length xs)) (xs ++ 0 :: drop (length xs + 1) str) rs)) ∧
  ((length str <= length xs)%nat → sock_gets ans str count = Fault OutOfBounds) ∧
  (Z.of_nat (length str) = count → count <= Z.of_nat (length (kept line)) →
     sock_gets ans str count = Fault OutOfBounds).
Proof.
  intros Hl Hc Hb xs ans. unfold sock_gets, ans.
  rewrite sock_gets_loop_line by (done || lia). rewrite Z.sub_0_r. fold xs. unfold put_string.
  assert (length xs = Nat.min (Z.to_nat count) (length (kept line))) as Hx by apply length_take.
  split_and!; intros; case_decide; simpl; done || lia.
Qed.

Lemma sock_gets_line_witness :
  sock_gets (map (λ c, RData [c]) [72;105;13;10]) [7;7;7;7] 4 = Val (GetsReturned 2 [72;105;0;7] []) ∧
  sock_gets (map (λ c, RData [c]) [72;105;10]) [7;7] 2 = Fault OutOfBounds.
Proof.
  destruct (sock_gets_line [72;105;13] [] [7;7;7;7] 4) as [H1 _];
    [repeat constructor; done|lia|simpl; lia|].
  destruct (sock_gets_line [72;105] [] [7;7] 2) as (_ & _ & H2);
    [repeat constructor; done|lia|simpl; lia|].
  split; [apply H1; simpl; lia|apply H2; [reflexivity|simpl; lia]].
Defined.

(** [atoport] on an argument that names no service: the number printed
    with "%d" and read back by [strtol] is the same number, so the result is
    that number in network byte order when it is a port (1..65535), from which
    [ntohs] recovers it, and -1 otherwise. *)
Theorem atoport_numeric getservbyname service :
  getservbyname (sprintf_d (s32 service)) = None →
  (1 <= s32 service <= 65535 →
     atoport getservbyname service = htons (s32 service) ∧
     ntohs (atoport getservbyname service) = s32 service) ∧
  (s32 service < 1 ∨ 65535 < s32 service → atoport getservbyname service = -1).
Proof.
  intros Hn. unfold atoport. rewrite Hn, (strtol0_sprintf_d _ (s32_range service)).
  rewrite bool_decide_true by done. simpl. split; intros H.
  - rewrite (proj2 (Z.ltb_ge _ _)), (proj2 (Z.ltb_ge 65535 _)) by lia. simpl.
    split; [done|]. apply htons_involutive. lia.
  - destruct (Z.ltb_spec (s32 service) 1), (Z.ltb_spec 65535 (s32 service)); simpl; done || lia.
Qed.

Lemma atoport_numeric_witness : ntohs (atoport (λ _, None) 4567) = 4567.
Proof. apply (atoport_numeric (λ _, None) 4567); [reflexivity|vm_compute; split; discriminate]. Defined.
