(* ===== verification/Broadcast.v ===== *)
(** * controller/broadcast.c, controller/broadcast.h

    The table of peer controllers, the callback table, the single-slot outgoing
    message and the UDP loop that sends it and dispatches incoming datagrams.
    [S] is the state the callbacks work on (the leader election of [Leader]);
    a callback is a state transformer, as the program's callbacks are. *)
From S2P Require Import Prelude Timer SockHelp.
Open Scope Z_scope.

Definition MAX_CONTROLLERS : Z := 32.
Definition MAX_CALLBACKS : Z := 1024.
Definition MAX_MESSAGE : Z := 1024.
Definition IP_SIZE : Z := 16.
Definition GLOBAL_CONTROLLER_PORT : Z := 4567.

(** [msg_struct] *)
Record msg_struct := Msg { msg_type : Z; msg_size : Z; msg_payload : Z }.

#[export] Instance msg_struct_eq_dec : EqDecision msg_struct.
Proof. solve_decision. Defined.

(** [struct ip_socket_receiver]: [conn_ip] is the [char ip[16]] array. *)
Record connection := Conn { conn_ip : list Z; conn_socket : Z; conn_value : Z }.

(** The string in a character array: up to the first NUL, which must be there. *)
Fixpoint c_string (a : list Z) : outcome (list Z) :=
  match a with
  | [] => Fault OutOfBounds
  | c :: a => if c =? 0 then mret [] else s ← c_string a; mret (c :: s)
  end.

Section Broadcast.
Context {S : Type}.

(** The arguments are the time, [sock], [content] and [size]. *)
Definition callback : Type := timeval → Z → Z → Z → S → outcome S.

(** [callback_struct]; [None] is the null pointer. *)
Record callback_struct := Cb { cb_type : Z; cb_fun : option callback }.

Record bcast := Bcast {
  controllers_sockets : list Z;
  last_controller_socket : Z;
  callbacks : list callback_struct;
  last_callback : Z;
  msg_temp : msg_struct;
  connections : list connection;
  new_bcast_message : bool
}.

(** The zero-initialised globals. *)
Definition bcast_globals : bcast :=
  Bcast (replicate 32 0) 0 (replicate 1024 (Cb 0 None)) 0 (Msg 0 0 0)
        (replicate 32 (Conn (replicate 16 0) 0 0)) false.

(** ** register_callback *)
Definition register_callback (type : Z) (f : callback) (b : bcast) : outcome bcast :=
  cbs ← arr_set (callbacks b) (last_callback b) (Cb type (Some f));
  mret (Bcast (controllers_sockets b) (last_controller_socket b) cbs (last_callback b + 1)
              (msg_temp b) (connections b) (new_bcast_message b)).

(** ** broadcast *)
Definition broadcast (type payload size : Z) (b : bcast) : outcome bcast :=
  if MAX_MESSAGE <? size then Aborted
  else mret (Bcast (controllers_sockets b) (last_controller_socket b) (callbacks b) (last_callback b)
                   (Msg type size payload) (connections b) true).

(** ** call_function: the loop over the callback table *)
Fixpoint call_function_from (cbs : list callback_struct) (now : timeval) (sock : Z) (m : msg_struct)
    (s : S) : outcome S :=
  match cbs with
  | [] => mret s
  | c :: cbs =>
      if msg_type m =? 0 then call_function_from cbs now sock m s
      else if msg_type m =? cb_type c then
        match cb_fun c with
        | Some f => f now sock (msg_payload m) (msg_size m) s
        | None => Fault NullDeref
        end
      else call_function_from cbs now sock m s
  end.

Definition call_function (b : bcast) (now : timeval) (sock : Z) (m : msg_struct) (s : S) : outcome S :=
  call_function_from (callbacks b) now sock m s.

(** ** do_bcast: the datagrams handed to [sock_write_udp], as (socket, message, ip) *)
Definition clear_flag (b : bcast) : bcast :=
  Bcast (controllers_sockets b) (last_controller_socket b) (callbacks b) (last_callback b)
        (msg_temp b) (connections b) false.

Fixpoint do_bcast_from (n : nat) (index : Z) (b : bcast) : outcome (list (Z * msg_struct * list Z)) :=
  match n with
  | O => mret []
  | Datatypes.S n =>
      sock ← arr_get (controllers_sockets b) index;
      c ← arr_get (connections b) index;
      ip ← c_string (conn_ip c);
      sent ← do_bcast_from n (index + 1) b;
      mret ((sock, msg_temp b, ip) :: sent)
  end.

Definition do_bcast (b : bcast) : outcome (list (Z * msg_struct * list Z) * bcast) :=
  sent ← do_bcast_from (Z.to_nat (last_controller_socket b)) 0 b;
  mret (sent, clear_flag b).

(** ** broadcast_loop

    One round, after [build_select_list]: [my] is [my_new_bcast_message], read
    before the [select]; [msg] the local message buffer; the answers of
    [select] and [recvfrom] are the event. *)
Inductive select_ans :=
  | SelectError
  | SelectTimeout
  | SelectReady (received : option msg_struct) (receiver : list Z).

(** Index of the first connection with the sender's address, or [last]. *)
Fixpoint find_connection (n : nat) (i : Z) (b : bcast) (receiver : list Z) : outcome Z :=
  match n with
  | O => mret i
  | Datatypes.S n =>
      c ← arr_get (connections b) i;
      ip ← c_string (conn_ip c);
      if decide (ip = receiver) then mret i else find_connection n (i + 1) b receiver
  end.

Definition set_value (i v : Z) (b : bcast) : outcome bcast :=
  c ← arr_get (connections b) i;
  cs ← arr_set (connections b) i (Conn (conn_ip c) (conn_socket c) v);
  mret (Bcast (controllers_sockets b) (last_controller_socket b) (callbacks b) (last_callback b)
              (msg_temp b) cs (new_bcast_message b)).

(** What a round leaves: the message buffer, the table and the callbacks'
    state, and the datagrams it sent. *)
Record loop_state := Loop { lp_msg : msg_struct; lp_bcast : bcast; lp_client : S;
                            lp_sent : list (Z * msg_struct * list Z) }.

Definition broadcast_round (now : timeval) (my_new_bcast_message : bool) (ans : select_ans)
    (st : loop_state) : outcome loop_state :=
  let b := lp_bcast st in
  match ans with
  | SelectError => Exit 1
  | SelectTimeout =>
      if my_new_bcast_message then
        '(sent, b) ← do_bcast b;
        mret (Loop (lp_msg st) b (lp_client st) (lp_sent st ++ sent))
      else mret st
  | SelectReady received receiver =>
      let msg := default (lp_msg st) received in
      i ← find_connection (Z.to_nat (last_controller_socket b)) 0 b receiver;
      b ← (if i <? last_controller_socket b then set_value i (msg_payload msg) b else mret b);
      c ← arr_get (connections b) i;
      s ← call_function b now (conn_socket c) msg (lp_client st);
      mret (Loop msg b s (lp_sent st))
  end.

(** One turn of the [while(1)]: the flag is read, then [select] waits while
    other threads may call [broadcast] (the [posts]), then the round above. *)
Record turn := Turn { tn_posts : list (Z * Z * Z); tn_ans : select_ans; tn_now : timeval }.

Fixpoint post_all (posts : list (Z * Z * Z)) (b : bcast) : outcome bcast :=
  match posts with
  | [] => mret b
  | (type, payload, size) :: posts => b ← broadcast type payload size b; post_all posts b
  end.

Definition broadcast_loop_turn (t : turn) (st : loop_state) : outcome loop_state :=
  let my_new_bcast_message := new_bcast_message (lp_bcast st) in
  b ← post_all (tn_posts t) (lp_bcast st);
  broadcast_round (tn_now t) my_new_bcast_message (tn_ans t) (Loop (lp_msg st) b (lp_client st) (lp_sent st)).

Definition broadcast_loop (ts : list turn) (st : loop_state) : outcome loop_state :=
  run broadcast_loop_turn ts st.

(** ** initialize_broadcast

    A line of the file as [fgets] returns it, and the results of the
    successive [make_connection] calls for it. *)
Definition store_ip (ip line : list Z) : outcome (list Z) :=
  let n := Z.of_nat (length line) - 1 in
  if IP_SIZE <? n then Fault OutOfBounds
  else mret (take (Z.to_nat n) line ++ drop (Z.to_nat n) ip).

Fixpoint connect_line (socks : list Z) (i : Z) (line : list Z) (b : bcast) : outcome (option bcast) :=
  match socks with
  | [] => mret None   (* still trying *)
  | sock :: socks =>
      c ← arr_get (connections b) i;
      ss ← arr_set (controllers_sockets b) i sock;
      ip ← store_ip (conn_ip c) line;
      cs ← arr_set (connections b) i (Conn ip sock (conn_value c));
      let b := Bcast ss (last_controller_socket b) (callbacks b) (last_callback b) (msg_temp b) cs
                     (new_bcast_message b) in
      if sock <? 0 then connect_line socks i line b else mret (Some b)
  end.

Fixpoint initialize_broadcast_from (file : list (list Z * list Z)) (i : Z) (b : bcast)
    : outcome (option bcast) :=
  match file with
  | [] => mret (Some (Bcast (controllers_sockets b) i (callbacks b) (last_callback b) (msg_temp b)
                            (connections b) (new_bcast_message b)))
  | (line, socks) :: file =>
      ob ← connect_line socks i line b;
      match ob with
      | Some b => initialize_broadcast_from file (i + 1) b
      | None => mret None
      end
  end.

Definition initialize_broadcast (file : option (list (list Z * list Z))) (b : bcast)
    : outcome (option bcast) :=
  match file with
  | None => Exit 1
  | Some file => initialize_broadcast_from file 0 b
  end.

(** ** The peer table *)

(** The table holds the peers [ps] (socket, address), in order, and zeros after them. *)
Definition table_ok (b : bcast) (ps : list (Z * list Z)) : Prop :=
  last_controller_socket b = Z.of_nat (length ps) ∧
  length (controllers_sockets b) = 32%nat ∧ length (connections b) = 32%nat ∧
  (∀ i p, ps !! i = Some p →
     controllers_sockets b !! i = Some p.1 ∧
     ∃ c, connections b !! i = Some c ∧ conn_socket c = p.1 ∧ c_string (conn_ip c) = Val p.2) ∧
  (∀ i c, (length ps <= i)%nat → connections b !! i = Some c → conn_socket c = 0).

(** The datagrams of one [do_bcast]. *)
Definition to_all (m : msg_struct) (ps : list (Z * list Z)) : list (Z * msg_struct * list Z) :=
  map (λ p, (p.1, m, p.2)) ps.

Lemma do_bcast_from_spec b ps n i :
  table_ok b ps → n = length (drop i ps) →
  do_bcast_from n (Z.of_nat i) b = Val (to_all (msg_temp b) (drop i ps)).
Proof.
  intros (Hl & _ & _ & Ht & _). revert i; induction n as [|n IH]; intros i Hn.
  - by destruct (drop i ps).
  - destruct (lookup_lt_is_Some_2 ps i) as [p Hp]; [rewrite length_drop in Hn; lia|].
    rewrite (drop_S _ _ _ Hp) in *.
    destruct (Ht _ _ Hp) as (Hs & c & Hc & _ & Hip). simpl.
    rewrite (arr_get_nat _ _ _ Hs). simpl. rewrite (arr_get_nat _ _ _ Hc). simpl.
    rewrite Hip. simpl. replace (Z.of_nat i + 1) with (Z.of_nat (Datatypes.S i)) by lia.
    rewrite IH by (simpl in Hn; lia). done.
Qed.

Lemma do_bcast_spec b ps :
  table_ok b ps → do_bcast b = Val (to_all (msg_temp b) ps, clear_flag b).
Proof.
  intros Ht. unfold do_bcast. rewrite (proj1 Ht), Nat2Z.id.
  by rewrite (do_bcast_from_spec b ps _ 0).
Qed.

(** The position of the sender among the peers, or their number. *)
Fixpoint peer_index (ps : list (Z * list Z)) (receiver : list Z) : nat :=
  match ps with
  | [] => 0
  | p :: ps => if decide (p.2 = receiver) then 0 else Datatypes.S (peer_index ps receiver)
  end.

Lemma find_connection_spec b ps receiver n i :
  table_ok b ps → n = length (drop i ps) →
  find_connection n (Z.of_nat i) b receiver = Val (Z.of_nat (i + peer_index (drop i ps) receiver)).
Proof.
  intros (Hl & _ & _ & Ht & _). revert i; induction n as [|n IH]; intros i Hn.
  - destruct (drop i ps); [|done]. simpl. do 2 f_equal. lia.
  - destruct (lookup_lt_is_Some_2 ps i) as [p Hp]; [rewrite length_drop in Hn; lia|].
    rewrite (drop_S _ _ _ Hp) in *. destruct (Ht _ _ Hp) as (_ & c & Hc & _ & Hip). simpl.
    rewrite (arr_get_nat _ _ _ Hc). simpl. rewrite Hip. simpl.
    case_decide; [do 2 f_equal; lia|].
    replace (Z.of_nat i + 1) with (Z.of_nat (Datatypes.S i)) by lia.
    rewrite IH by (simpl in Hn; lia). do 2 f_equal. lia.
Qed.

Lemma peer_index_le ps receiver : (peer_index ps receiver <= length ps)%nat.
Proof. induction ps; simpl; [lia|]. case_decide; lia. Qed.

Lemma table_ok_ext b b' ps :
  table_ok b ps → last_controller_socket b' = last_controller_socket b →
  controllers_sockets b' = controllers_sockets b → connections b' = connections b → table_ok b' ps.
Proof. unfold table_ok. by intros ? -> -> ->. Qed.

Lemma set_value_spec b ps i p v :
  table_ok b ps → ps !! i = Some p →
  ∃ b', set_value (Z.of_nat i) v b = Val b' ∧ table_ok b' ps ∧
    callbacks b' = callbacks b ∧ msg_temp b' = msg_temp b ∧ new_bcast_message b' = new_bcast_message b.
Proof.
  intros Ht Hp. pose proof Ht as (Hl & Hs & Hc & Hps & Hz).
  destruct (Hps _ _ Hp) as (_ & c & Hi & Hsock & Hip).
  assert (i < length (connections b))%nat as Hlt by (by eapply lookup_lt_Some).
  unfold set_value. rewrite (arr_get_nat _ _ _ Hi). simpl.
  rewrite arr_set_in_bounds, Nat2Z.id by lia. eexists. split; [reflexivity|].
  split_and!; try done. split_and!; simpl; [done|done|by rewrite length_insert| |].
  - intros j q Hq. destruct (Hps _ _ Hq) as (Hjs & c' & Hc' & ? & ?). split; [done|].
    destruct (decide (i = j)) as [<-|].
    + exists (Conn (conn_ip c) (conn_socket c) v). rewrite list_lookup_insert_eq by done.
      simplify_eq/=. done.
    + exists c'. by rewrite list_lookup_insert_ne.
  - intros j c' Hj. rewrite list_lookup_insert_ne by (apply lookup_lt_Some in Hp; lia). by apply Hz.
Qed.

(** A datagram from [receiver]: the callback gets the socket of the peer with
    that address; for an unknown sender it gets the entry after the table. *)
Lemma broadcast_round_ready now my received receiver st ps :
  table_ok (lp_bcast st) ps →
  let msg := default (lp_msg st) received in
  let i := peer_index ps receiver in
  (i < 32)%nat →
  ∃ b', table_ok b' ps ∧ callbacks b' = callbacks (lp_bcast st) ∧
    msg_temp b' = msg_temp (lp_bcast st) ∧
    new_bcast_message b' = new_bcast_message (lp_bcast st) ∧
    broadcast_round now my (SelectReady received receiver) st =
    (s ← call_function (lp_bcast st) now (default 0 (fst <$> ps !! i)) msg (lp_client st);
     mret (Loop msg b' s (lp_sent st))).
Proof.
  intros Ht msg i Hi. unfold broadcast_round. fold msg.
  rewrite (proj1 Ht), Nat2Z.id, (find_connection_spec _ ps receiver _ 0) by done. simpl.
  pose proof Ht as (_ & _ & Hc & Hps & Hz). pose proof (peer_index_le ps receiver) as Hle.
  change (peer_index (drop 0 ps) receiver) with i. fold i in Hle. clearbody i.
  destruct (decide (i < length ps)%nat) as [Hlt|Hge].
  - rewrite (proj2 (Z.ltb_lt _ _)) by lia.
    destruct (lookup_lt_is_Some_2 ps i Hlt) as [p Hp].
    destruct (set_value_spec (lp_bcast st) ps i p (msg_payload msg) Ht Hp)
      as (b' & -> & Ht' & Hcb & Hm & Hn).
    pose proof Ht' as (_ & _ & _ & Hps' & _). destruct (Hps' _ _ Hp) as (_ & c & Hci & Hsock & _).
    exists b'. split_and!; [done..|]. simpl.
    rewrite (arr_get_nat _ _ _ Hci). simpl. rewrite Hp. simpl. rewrite Hsock.
    unfold call_function. by rewrite Hcb.
  - rewrite (proj2 (Z.ltb_ge _ _)) by lia. exists (lp_bcast st). split_and!; [done..|]. simpl.
    destruct (lookup_lt_is_Some_2 (connections (lp_bcast st)) i) as [c Hci]; [lia|].
    rewrite (arr_get_nat _ _ _ Hci). simpl. rewrite (Hz i c) by (done || lia).
    rewrite lookup_ge_None_2 by lia. done.
Qed.

Lemma broadcast_round_unknown_full now my received receiver st ps :
  table_ok (lp_bcast st) ps → peer_index ps receiver = 32%nat →
  broadcast_round now my (SelectReady received receiver) st = Fault OutOfBounds.
Proof.
  intros Ht Hi. unfold broadcast_round.
  rewrite (proj1 Ht), Nat2Z.id, (find_connection_spec _ ps receiver _ 0) by done. simpl.
  change (peer_index (drop 0 ps) receiver) with (peer_index ps receiver).
  rewrite Hi. pose proof (peer_index_le ps receiver) as Hle. pose proof Ht as (_ & Hs & Hc & Hps & _).
  assert (length ps <= 32)%nat as Hn.
  { destruct (decide (length ps <= 32)%nat) as [|Hgt]; [done|].
    destruct (lookup_lt_is_Some_2 ps 32) as [p Hp]; [lia|].
    destruct (Hps _ _ Hp) as (Hx & _). apply lookup_lt_Some in Hx. lia. }
  rewrite (proj2 (Z.ltb_ge _ _)) by lia. simpl. rewrite arr_get_oob by lia. done.
Qed.

(** ** The outgoing message *)

Definition is_ready (t : turn) : Prop := tn_posts t = [] ∧ ∃ r ip, tn_ans t = SelectReady r ip.

(** A turn that handles a datagram sends nothing and leaves the pending message. *)
Lemma ready_turn_keeps t st st' ps :
  table_ok (lp_bcast st) ps → is_ready t → broadcast_loop_turn t st = Val st' →
  table_ok (lp_bcast st') ps ∧ msg_temp (lp_bcast st') = msg_temp (lp_bcast st) ∧
  new_bcast_message (lp_bcast st') = new_bcast_message (lp_bcast st) ∧ lp_sent st' = lp_sent st.
Proof.
  intros Ht (Hp & r & ip & Ha). unfold broadcast_loop_turn. rewrite Hp, Ha.
  cbn [post_all mbind outcome_bind mret outcome_ret]. intros Hr.
  set (st0 := Loop (lp_msg st) (lp_bcast st) (lp_client st) (lp_sent st)) in *.
  change (lp_bcast st) with (lp_bcast st0) in Ht.
  destruct (decide (peer_index ps ip < 32)%nat) as [Hlt|Hge].
  - destruct (broadcast_round_ready (tn_now t) (new_bcast_message (lp_bcast st)) r ip st0 ps Ht Hlt)
      as (b' & Ht' & _ & Hm & Hn & E). rewrite E in Hr.
    apply outcome_bind_Val in Hr as (s & _ & Hr). by injection Hr as <-.
  - assert (peer_index ps ip = 32%nat) as Hi.
    { pose proof (peer_index_le ps ip). pose proof Ht as (_ & Hs & _ & Hps & _).
      destruct (decide (length ps <= 32)%nat) as [|Hgt]; [lia|].
      destruct (lookup_lt_is_Some_2 ps 32) as [p Hp']; [lia|].
      destruct (Hps _ _ Hp') as (Hx & _). apply lookup_lt_Some in Hx. lia. }
    by rewrite (broadcast_round_unknown_full _ _ _ _ st0 ps Ht Hi) in Hr.
Qed.

Lemma ready_turns_keep ts st st' ps :
  table_ok (lp_bcast st) ps → Forall is_ready ts → broadcast_loop ts st = Val st' →
  table_ok (lp_bcast st') ps ∧ msg_temp (lp_bcast st') = msg_temp (lp_bcast st) ∧
  new_bcast_message (lp_bcast st') = new_bcast_message (lp_bcast st) ∧ lp_sent st' = lp_sent st.
Proof.
  intros Ht Hts; revert st Ht; induction Hts as [|t ts Hr Hts IH]; intros st Ht; simpl.
  - by intros [= <-].
  - intros (st1 & H1 & H2)%outcome_bind_Val.
    destruct (ready_turn_keeps _ _ _ _ Ht Hr H1) as (Ht1 & Hm & Hn & Hs).
    destruct (IH _ Ht1 H2) as (? & ? & ? & ?). split_and!; congruence.
Qed.

Lemma post_all_last posts type payload size b :
  Forall (λ p, p.2 <= MAX_MESSAGE) (posts ++ [(type, payload, size)]) →
  post_all (posts ++ [(type, payload, size)]) b =
  Val (Bcast (controllers_sockets b) (last_controller_socket b) (callbacks b) (last_callback b)
             (Msg type size payload) (connections b) true).
Proof.
  revert b; induction posts as [|[[t' p'] s'] posts IH]; intros b Hf; simpl; inversion Hf; subst;
    unfold broadcast; rewrite (proj2 (Z.ltb_ge _ _)) by done; simpl; [done|by rewrite IH].
Qed.

Lemma timeout_turn_sends st ps now :
  table_ok (lp_bcast st) ps → new_bcast_message (lp_bcast st) = true →
  broadcast_loop_turn (Turn [] SelectTimeout now) st =
  Val (Loop (lp_msg st) (clear_flag (lp_bcast st)) (lp_client st)
            (lp_sent st ++ to_all (msg_temp (lp_bcast st)) ps)).
Proof.
  intros Ht Hn. unfold broadcast_loop_turn. simpl. rewrite Hn, (do_bcast_spec _ _ Ht). done.
Qed.

(** ** The callback table *)

Fixpoint register_all (rs : list (Z * callback)) (b : bcast) : outcome bcast :=
  match rs with
  | [] => mret b
  | (t, f) :: rs => b ← register_callback t f b; register_all rs b
  end.

(** The callback of the first registration for [t]. *)
Fixpoint first_callback (rs : list (Z * callback)) (t : Z) : option callback :=
  match rs with
  | [] => None
  | (t', f) :: rs => if t =? t' then Some f else first_callback rs t
  end.

Definition cb_entry (r : Z * callback) : callback_struct := Cb r.1 (Some r.2).

Definition registered (b : bcast) (rs : list (Z * callback)) : Prop :=
  last_callback b = Z.of_nat (length rs) ∧
  callbacks b = map cb_entry rs ++ replicate (1024 - length rs) (Cb 0 None).

Lemma registered_globals : registered bcast_globals [].
Proof. done. Qed.

Lemma register_callback_spec b rs t f :
  registered b rs →
  ((length rs < 1024)%nat →
     ∃ b', register_callback t f b = Val b' ∧ registered b' (rs ++ [(t, f)]) ∧
       controllers_sockets b' = controllers_sockets b ∧ connections b' = connections b ∧
       last_controller_socket b' = last_controller_socket b) ∧
  ((1024 <= length rs)%nat → register_callback t f b = Fault OutOfBounds).
Proof.
  intros [Hl Hc]. unfold register_callback.
  assert (length (callbacks b) = length rs + (1024 - length rs))%nat as Hlen
    by (rewrite Hc, length_app, length_map, length_replicate; done).
  split; intros Hb.
  - rewrite arr_set_in_bounds by lia. eexists. split; [reflexivity|]. split; [|done].
    split; simpl; [rewrite length_app; simpl; lia|].
    rewrite Hl, Nat2Z.id, Hc, map_app, length_app. simpl.
    replace (1024 - length rs)%nat with (Datatypes.S (1024 - (length rs + 1)))%nat by lia.
    rewrite insert_app_r_alt by (rewrite length_map; lia). rewrite length_map, Nat.sub_diag.
    simpl. by rewrite <- app_assoc.
  - rewrite arr_set_oob by lia. done.
Qed.

Lemma register_all_spec b rs rs' :
  registered b rs → (length rs <= 1024)%nat →
  ((length (rs ++ rs') <= 1024)%nat → ∃ b', register_all rs' b = Val b' ∧ registered b' (rs ++ rs')) ∧
  ((1024 < length (rs ++ rs'))%nat → register_all rs' b = Fault OutOfBounds).
Proof.
  revert b rs; induction rs' as [|[t f] rs' IH]; intros b rs Hr Hle.
  - rewrite app_nil_r. split; intros; [by exists b|lia].
  - simpl register_all. destruct (register_callback_spec b rs t f Hr) as [Hok Hoob].
    destruct (decide (length rs < 1024)%nat) as [Hlt|Hge].
    + destruct (Hok Hlt) as (b' & -> & Hr' & _). simpl.
      replace (rs ++ (t, f) :: rs') with ((rs ++ [(t, f)]) ++ rs') by by rewrite <- app_assoc.
      apply IH; [done|]. rewrite length_app. simpl. lia.
    + rewrite Hoob by lia. rewrite length_app. simpl. split; [lia|done].
Qed.

(** Dispatch finds the first registration; type 0 and unknown types do nothing. *)
Lemma call_function_spec b rs now sock m s :
  registered b rs →
  call_function b now sock m s =
  if decide (msg_type m = 0) then Val s
  else match first_callback rs (msg_type m) with
       | Some f => f now sock (msg_payload m) (msg_size m) s
       | None => Val s
       end.
Proof.
  intros [_ Hc]. unfold call_function. rewrite Hc. clear Hc. case_decide as H0.
  - assert (∀ l, call_function_from l now sock m s = Val s) as Hz; [|apply Hz].
    intros l; induction l as [|c l IH]; simpl; [done|]. by rewrite H0.
  - generalize (1024 - length rs)%nat as k. intros k.
    induction rs as [|[t f] rs IH]; simpl.
    + induction k as [|k IH]; simpl; [done|].
      rewrite (proj2 (Z.eqb_neq (msg_type m) 0)) by done. done.
    + rewrite (proj2 (Z.eqb_neq (msg_type m) 0)) by done. by destruct (msg_type m =? t).
Qed.

(** ** The table that initialize_broadcast builds *)

Definition set_last (b : bcast) (n : Z) : bcast :=
  Bcast (controllers_sockets b) n (callbacks b) (last_callback b) (msg_temp b) (connections b)
        (new_bcast_message b).

(** After [length ps] lines: the table of [ps], then untouched entries. *)
Definition building (b : bcast) (ps : list (Z * list Z)) : Prop :=
  table_ok (set_last b (Z.of_nat (length ps))) ps ∧
  ∀ i, (length ps <= i < 32)%nat → connections b !! i = Some (Conn (replicate 16 0) 0 0).

Lemma building_globals : building bcast_globals [].
Proof.
  split; [split_and!; try done|].
  - intros i c _ H. apply lookup_replicate in H as [-> _]. done.
  - intros i Hi. apply lookup_replicate_2. simpl in Hi. lia.
Qed.

Lemma c_string_pad (ip : list Z) k :
  Forall (λ c, c ≠ 0) ip → (0 < k)%nat → c_string (ip ++ replicate k 0) = Val ip.
Proof.
  intros Hip Hk. induction Hip as [|c ip Hc Hip IH]; simpl; [by destruct k; [lia|]|].
  rewrite (proj2 (Z.eqb_neq c 0)) by done. by rewrite IH.
Qed.

(** One (re)connection attempt of line [ip ++ [c]] at position [i]. *)
Lemma store_ip_line arr ip c :
  (length ip <= 15)%nat → (arr = replicate 16 0 ∨ arr = ip ++ replicate (16 - length ip) 0) →
  store_ip arr (ip ++ [c]) = Val (ip ++ replicate (16 - length ip) 0).
Proof.
  intros Hl Ha. unfold store_ip, IP_SIZE. rewrite length_app. simpl.
  rewrite (proj2 (Z.ltb_ge _ _)) by lia.
  replace (Z.to_nat _) with (length ip) by lia. rewrite take_app_length. simpl.
  destruct Ha as [->| ->]; [by rewrite drop_replicate|by rewrite drop_app_length].
Qed.

Definition connected (b : bcast) (i : nat) (sock : Z) (ip : list Z) : bcast :=
  Bcast (<[i := sock]> (controllers_sockets b)) (last_controller_socket b) (callbacks b) (last_callback b)
        (msg_temp b) (<[i := Conn (ip ++ replicate (16 - length ip) 0) sock 0]> (connections b))
        (new_bcast_message b).

Lemma connect_line_spec b i arr s0 negs sock more ip c :
  (i < length (controllers_sockets b))%nat → connections b !! i = Some (Conn arr s0 0) →
  (length ip <= 15)%nat → (arr = replicate 16 0 ∨ arr = ip ++ replicate (16 - length ip) 0) →
  Forall (λ s, s < 0) negs → 0 <= sock →
  connect_line (negs ++ sock :: more) (Z.of_nat i) (ip ++ [c]) b = Val (Some (connected b i sock ip)).
Proof.
  intros Hi Hc Hl Ha Hn Hs; revert b arr s0 Hi Hc Ha; induction Hn as [|s negs Hneg Hn IH];
    intros b arr s0 Hi Hc Ha; cbn [connect_line app];
    rewrite (arr_get_nat _ _ _ Hc); cbn [mbind outcome_bind conn_ip conn_value];
    rewrite arr_set_in_bounds by lia; cbn [mbind outcome_bind];
    rewrite (store_ip_line _ _ _ Hl Ha); cbn [mbind outcome_bind];
    (rewrite arr_set_in_bounds by (apply lookup_lt_Some in Hc; lia)); cbn [mbind outcome_bind];
    rewrite Nat2Z.id.
  - rewrite (proj2 (Z.ltb_ge _ _)) by done. done.
  - rewrite (proj2 (Z.ltb_lt _ _)) by done.
    rewrite (IH _ (ip ++ replicate (16 - length ip) 0) s).
    + unfold connected; simpl. by rewrite !list_insert_insert_eq.
    + simpl. by rewrite length_insert.
    + simpl. apply list_lookup_insert_eq. by eapply lookup_lt_Some.
    + by right.
Qed.

Lemma building_connected b ps sock ip :
  building b ps → (length ps < 32)%nat → (length ip <= 15)%nat → Forall (λ c, c ≠ 0) ip →
  building (connected b (length ps) sock ip) (ps ++ [(sock, ip)]).
Proof.
  intros [(_ & Hs & Hc & Hps & Hz) Hrest] Hlt Hl Hip. simpl in *.
  split; [split_and!; simpl|]; rewrite ?length_insert, ?length_app; simpl; try done.
  - intros i p [Hp|[Hge Hp]]%lookup_app_Some.
    + assert (i < length ps)%nat by (by eapply lookup_lt_Some).
      rewrite !list_lookup_insert_ne by lia. by apply Hps.
    + apply list_lookup_singleton_Some in Hp as [Hi <-]. replace i with (length ps) by lia. simpl.
      rewrite !list_lookup_insert_eq by lia. split; [done|]. eexists. split; [done|]. split; [done|].
      simpl. apply c_string_pad; [done|lia].
  - intros i c Hi. rewrite list_lookup_insert_ne by lia. apply Hz. lia.
  - intros i Hi. rewrite list_lookup_insert_ne by lia. apply Hrest. lia.
Qed.

(** A line of the controllers file: its text, the characters [fgets] returned
    after it, and the descriptors the attempts to open a socket gave. *)
Record file_line := FLine { fl_ip : list Z; fl_end : Z; fl_failed : list Z; fl_sock : Z; fl_more : list Z }.

Definition line_ok (l : file_line) : Prop :=
  (length (fl_ip l) <= 15)%nat ∧ Forall (λ c, c ≠ 0) (fl_ip l) ∧
  Forall (λ s, s < 0) (fl_failed l) ∧ 0 <= fl_sock l.

Definition line_input (l : file_line) : list Z * list Z :=
  (fl_ip l ++ [fl_end l], fl_failed l ++ fl_sock l :: fl_more l).

Definition line_peer (l : file_line) : Z * list Z := (fl_sock l, fl_ip l).

Lemma initialize_broadcast_from_spec ls b ps :
  building b ps → Forall line_ok ls → (length ps + length ls <= 32)%nat →
  ∃ b', initialize_broadcast_from (map line_input ls) (Z.of_nat (length ps)) b = Val (Some b') ∧
    table_ok b' (ps ++ map line_peer ls) ∧ callbacks b' = callbacks b ∧
    new_bcast_message b' = new_bcast_message b ∧ last_callback b' = last_callback b.
Proof.
  intros Hb Hls; revert b ps Hb; induction Hls as [|l ls (Hl & Hip & Hf & Hs) Hls IH]; intros b ps Hb Hlen.
  - rewrite app_nil_r. eexists. split; [reflexivity|]. split; [apply Hb|done].
  - simpl in Hlen. cbn [map line_input initialize_broadcast_from].
    pose proof Hb as [(_ & Hss & Hcc & _ & _) Hrest]. simpl in Hss, Hcc.
    rewrite (connect_line_spec b (length ps) (replicate 16 0) 0) by (done || lia || (apply Hrest; lia) || by left).
    cbn [mbind outcome_bind].
    destruct (IH _ _ (building_connected b ps (fl_sock l) (fl_ip l) Hb ltac:(lia) Hl Hip))
      as (b' & E & Ht & Hcb & Hn); [rewrite length_app; simpl; lia|].
    rewrite length_app in E. simpl in E.
    replace (Z.of_nat (length ps) + 1) with (Z.of_nat (length ps + 1)) by lia.
    exists b'. split; [done|]. split; [|done]. by rewrite <- app_assoc in Ht.
Qed.

End Broadcast.

Arguments callback : clear implicits.
Arguments callback_struct : clear implicits.
Arguments bcast : clear implicits.
Arguments loop_state : clear implicits.

(** ** Properties *)

(** [initialize_broadcast] on a file of at most 32 lines of at most 15
    characters before their last one, each of which gets a socket after any
    number of failed attempts: it returns with the table of the peers in file
    order, the address of a peer being its line without the last character
    [fgets] returned -- the line feed, or, on a final line without one, the
    last character of the address itself. *)
Theorem initialize_broadcast_table {S} (ls : list file_line) :
  Forall line_ok ls → (length ls <= 32)%nat →
  ∃ b : bcast S, initialize_broadcast (Some (map line_input ls)) bcast_globals = Val (Some b) ∧
    table_ok b (map line_peer ls).
Proof.
  intros Hls Hlen.
  destruct (initialize_broadcast_from_spec (S := S) ls bcast_globals [] building_globals Hls)
    as (b & E & Ht & _); [simpl; lia|].
  exists b. split; [|done]. simpl in E. done.
Qed.

(** "10.0.0.7\n" after one failed attempt, then "10.0.0.81" at the end of the
    file: the second peer is recorded as "10.0.0.8". *)
Definition two_lines : list file_line :=
  [FLine [49;48;46;48;46;48;46;55] 10 [-1] 5 []; FLine [49;48;46;48;46;48;46;56] 49 [] 6 []].

Lemma two_lines_ok : Forall line_ok two_lines.
Proof.
  repeat apply Forall_cons_2; [..|apply Forall_nil_2]; (split; [simpl; lia|split; [|split]]);
    simpl; try lia; repeat apply Forall_cons_2; try apply Forall_nil_2; lia.
Qed.

Lemma initialize_broadcast_table_witness :
  ∃ b : bcast nat, initialize_broadcast (Some (map line_input two_lines)) bcast_globals = Val (Some b) ∧
    table_ok b [(5, [49;48;46;48;46;48;46;55]); (6, [49;48;46;48;46;48;46;56])].
Proof. apply (initialize_broadcast_table two_lines two_lines_ok). simpl; lia. Defined.

(** The callback table: up to 1024 registrations are kept in order and
    [call_function] runs exactly the callback registered first for the type of
    the message, with the message's payload and size, and does nothing for an
    unknown type or for type 0; the 1025th registration writes past the table. *)
Theorem callback_dispatch {S} (rs : list (Z * callback S)) :
  ((length rs <= 1024)%nat →
     ∃ b : bcast S, register_all rs bcast_globals = Val b ∧
       ∀ now sock m s, call_function b now sock m s =
         if decide (msg_type m = 0) then Val s
         else match first_callback rs (msg_type m) with
              | Some f => f now sock (msg_payload m) (msg_size m) s
              | None => Val s
              end) ∧
  ((1024 < length rs)%nat → register_all rs (bcast_globals (S := S)) = Fault OutOfBounds).
Proof.
  destruct (register_all_spec bcast_globals [] rs registered_globals) as [Hok Hoob]; [simpl; lia|].
  simpl in Hok, Hoob. split; [|done]. intros Hl. destruct (Hok Hl) as (b & E & Hr).
  exists b. split; [done|]. intros. by apply call_function_spec.
Qed.

Lemma callback_dispatch_witness :
  let f1 : callback (list Z) := λ _ _ c _ s, Val (c :: s) in
  let f2 : callback (list Z) := λ _ k _ _ s, Val (k :: s) in
  ∃ b, register_all [(20000, f2); (20001, f1); (20001, f2)] bcast_globals = Val b ∧
    call_function b (Timeval 0 0) 3 (Msg 20001 8 77) [] = Val [77].
Proof.
  intros f1 f2. destruct (callback_dispatch [(20000, f2); (20001, f1); (20001, f2)]) as [H _].
  destruct H as (b & E & Hb); [simpl; lia|]. exists b. split; [done|]. by rewrite Hb.
Defined.

(** The turn during which messages are posted while none was pending: it sends
    nothing, whatever its [select] returns, and leaves the last of them pending. *)
Lemma posting_turn {S} (st sta : loop_state S) ps posts type payload size ans now :
  table_ok (lp_bcast st) ps → new_bcast_message (lp_bcast st) = false →
  Forall (λ p, p.2 <= MAX_MESSAGE) (posts ++ [(type, payload, size)]) →
  broadcast_loop_turn (Turn (posts ++ [(type, payload, size)]) ans now) st = Val sta →
  table_ok (lp_bcast sta) ps ∧ msg_temp (lp_bcast sta) = Msg type size payload ∧
  new_bcast_message (lp_bcast sta) = true ∧ lp_sent sta = lp_sent st.
Proof.
  intros Ht Hn Hsz. unfold broadcast_loop_turn. rewrite Hn. cbn [tn_posts tn_ans tn_now].
  rewrite post_all_last by done. cbn [mbind outcome_bind].
  set (st0 := Loop _ _ _ _). intros Hr. assert (table_ok (lp_bcast st0) ps) as Ht0 by exact Ht.
  destruct ans as [| |r ip]; [discriminate Hr|by injection Hr as <-|].
  apply (ready_turn_keeps (Turn [] (SelectReady r ip) now) st0 sta ps Ht0); [|exact Hr]. split; [done|by exists r, ip].
Qed.

(** C32.  One message slot.  When none is pending and other threads hand messages
    to [broadcast] while the loop waits in a [select], that turn sends nothing, not
    even if its [select] times out, because the flag was read before it; the last of
    the messages is pending from then on; the turns that handle a datagram send
    nothing either; and the next turn whose [select] times out sends that message
    once to every peer, in table order, and no message is pending any more. *)
Theorem broadcast_sends_latest {S} (st st1 : loop_state S) ps posts type payload size ans now ready now' :
  table_ok (lp_bcast st) ps → new_bcast_message (lp_bcast st) = false →
  Forall (λ p, p.2 <= MAX_MESSAGE) (posts ++ [(type, payload, size)]) → Forall is_ready ready →
  let first := Turn (posts ++ [(type, payload, size)]) ans now in
  broadcast_loop (first :: ready) st = Val st1 →
  lp_sent st1 = lp_sent st ∧
  ∃ st2, broadcast_loop (first :: ready ++ [Turn [] SelectTimeout now']) st = Val st2 ∧
    lp_sent st2 = lp_sent st ++ to_all (Msg type size payload) ps ∧
    new_bcast_message (lp_bcast st2) = false.
Proof.
  intros Ht Hn Hsz Hrd first. unfold broadcast_loop. cbn [run]. intros (sta & E & Hr)%outcome_bind_Val.
  destruct (posting_turn _ _ _ _ _ _ _ _ _ Ht Hn Hsz E) as (Hta & Hma & Hna & Hsa).
  destruct (ready_turns_keep ready sta st1 ps Hta Hrd Hr) as (Ht1 & Hm1 & Hn1 & Hs1).
  split; [congruence|]. rewrite E. cbn [mbind outcome_bind]. rewrite run_app, Hr. cbn [mbind outcome_bind run].
  rewrite (timeout_turn_sends st1 ps now' Ht1) by congruence. cbn [mbind outcome_bind].
  eexists. split; [reflexivity|]. simpl. split; [|done]. congruence.
Qed.

(** The table of [two_lines], with no callbacks. *)
Definition two_peers : bcast nat :=
  match initialize_broadcast (Some (map line_input two_lines)) bcast_globals with
  | Val (Some b) => b | _ => bcast_globals
  end.

Lemma two_peers_ok : table_ok two_peers (map line_peer two_lines).
Proof.
  unfold two_peers. destruct (initialize_broadcast_from_spec (S := nat) two_lines bcast_globals []
    building_globals two_lines_ok ltac:(simpl; lia)) as (b & E & Ht & _).
  change (initialize_broadcast _ _) with
    (initialize_broadcast_from (S := nat) (map line_input two_lines) 0 bcast_globals).
  change (Z.of_nat (length [])) with 0 in E. by rewrite E.
Qed.

Lemma broadcast_sends_latest_witness :
  ∃ st2, broadcast_loop [Turn [(20000, 0, 0); (20001, 9, 8)] SelectTimeout (Timeval 0 0);
                         Turn [] (SelectReady (Some (Msg 5 0 1)) [49]) (Timeval 1 0);
                         Turn [] SelectTimeout (Timeval 0 0)] (Loop (Msg 0 0 0) two_peers 0%nat []) = Val st2 ∧
    lp_sent st2 = to_all (Msg 20001 8 9) (map line_peer two_lines).
Proof.
  destruct (broadcast_sends_latest (Loop (Msg 0 0 0) two_peers 0%nat [])
    (Loop (Msg 5 0 1) (Bcast (controllers_sockets two_peers) 2 (callbacks two_peers) 0 (Msg 20001 8 9)
       (connections two_peers) true) 0%nat [])
    (map line_peer two_lines) [(20000, 0, 0)] 20001 9 8 SelectTimeout (Timeval 0 0)
    [Turn [] (SelectReady (Some (Msg 5 0 1)) [49]) (Timeval 1 0)] (Timeval 0 0)) as (_ & st2 & E & Hs & _).
  - apply two_peers_ok.
  - reflexivity.
  - repeat apply Forall_cons_2; [done|done|apply Forall_nil_2; done].
  - apply Forall_cons_2; [|apply Forall_nil_2; done]. split; [done|]. by eexists _, _.
  - vm_compute. reflexivity.
  - exists st2. split; [exact E|exact Hs].
Defined.

(** A datagram from an address outside the table is not rejected: the
    callback for its type still runs, with descriptor 0 as the sender's socket,
    and when the table is full (32 peers) the entry it reads is outside the
    array. *)
Theorem unknown_sender_dispatched {S} (st : loop_state S) ps now my m receiver :
  table_ok (lp_bcast st) ps → Forall (λ p, p.2 ≠ receiver) ps →
  ((length ps < 32)%nat →
     ∃ b', broadcast_round now my (SelectReady (Some m) receiver) st =
       (s ← call_function (lp_bcast st) now 0 m (lp_client st); mret (Loop m b' s (lp_sent st)))) ∧
  (length ps = 32%nat →
     broadcast_round now my (SelectReady (Some m) receiver) st = Fault OutOfBounds).
Proof.
  intros Ht Hf. assert (peer_index ps receiver = length ps) as Hi.
  { clear Ht. induction Hf as [|p ps Hp Hf IH]; simpl; [done|]. rewrite decide_False by done. by rewrite IH. }
  split; intros Hlen.
  - destruct (broadcast_round_ready now my (Some m) receiver st ps Ht) as (b' & _ & _ & _ & _ & E); [lia|].
    exists b'. rewrite E, Hi, lookup_ge_None_2 by lia. done.
  - apply (broadcast_round_unknown_full _ _ _ _ _ ps); [done|lia].
Qed.

Lemma unknown_sender_dispatched_witness :
  ∃ b', broadcast_round (Timeval 0 0) false (SelectReady (Some (Msg 20001 8 9)) [49]) (Loop (Msg 0 0 0) two_peers 0%nat [])
        = Val (Loop (Msg 20001 8 9) b' 0%nat []).
Proof.
  destruct (unknown_sender_dispatched (Loop (Msg 0 0 0) two_peers 0%nat []) (map line_peer two_lines)
    (Timeval 0 0) false (Msg 20001 8 9) [49]) as [H _].
  - apply two_peers_ok.
  - repeat apply Forall_cons_2; [done|done|apply Forall_nil_2; done].
  - destruct H as [b' H]; [simpl; lia|]. exists b'. rewrite H. reflexivity.
Defined.
