(* ===== verification/Leader.v ===== *)
(** * controller/leader.c

    The leader election.  The election uses the broadcast layer through one
    operation, [broadcast]; the class [Broadcaster] is that interface, so that
    the theorems about the election hold over any transport, and the table of
    [Broadcast] is one instance. *)
From S2P Require Import Prelude Timer SockHelp Broadcast.
Open Scope Z_scope.

Definition LEADER_SUSPECT_THRESHOLD : Z := 10.
Definition LEADER_PROPOSE_THRESHOLD : Z := 10.
Definition LEADER_HEARTBEAT : Z := 20000.
Definition LEADER_PROPOSE : Z := 20001.
Definition AF_INET : Z := 2.
Definition SIZEOF_LONG : Z := 8.

(** ** The interface to the broadcast layer *)
Class Broadcaster (B : Type) := {
  bc_broadcast : Z → Z → Z → B → outcome B   (* type, payload, size *)
}.

(** The state globals of leader.c. *)
Record leader := Leader {
  controllers : Z;                       (* unsigned int *)
  leader_socket : Z;
  am_i_leader : bool;
  heartbeat : timeval;
  leader_propose_timer : timeval;
  agreement_running : bool;
  leader_proposals : list Z;             (* long[MAX_CONTROLLERS] *)
  leader_proposals_sockets : list Z;     (* int[MAX_CONTROLLERS] *)
  last_proposal : Z
}.

Definition leader_globals : leader :=
  Leader 0 (-1) false (Timeval 0 0) (Timeval 0 0) false (replicate 32 0) (replicate 32 0) 0.

Definition set_leader_socket (s : Z) (l : leader) : leader :=
  Leader (controllers l) s (am_i_leader l) (heartbeat l) (leader_propose_timer l) (agreement_running l)
         (leader_proposals l) (leader_proposals_sockets l) (last_proposal l).
Definition set_agreement (a : bool) (l : leader) : leader :=
  Leader (controllers l) (leader_socket l) (am_i_leader l) (heartbeat l) (leader_propose_timer l) a
         (leader_proposals l) (leader_proposals_sockets l) (last_proposal l).

(** ** do_agreement_reduction *)

(** The search loop, from index [i] on: [id] and [best] (the code's local
    [leader]) are the greatest proposal so far and its socket. *)
Fixpoint search_greatest (n : nat) (i id best : Z) (l : leader) : outcome Z :=
  match n with
  | O => mret best
  | S n =>
      p ← arr_get (leader_proposals l) i;
      if id <? p then
        s ← arr_get (leader_proposals_sockets l) i;
        search_greatest n (i + 1) p s l
      else search_greatest n (i + 1) id best l
  end.

Definition do_agreement_reduction (now : timeval) (l : leader) : outcome leader :=
  if (u32 (last_proposal l) <? controllers l)
     && negb (seconds_above now (leader_propose_timer l) LEADER_PROPOSE_THRESHOLD)
  then mret l
  else
    best ← search_greatest (Z.to_nat (last_proposal l)) 0 0 (-1) l;
    if best =? -1 then mret (set_agreement false l)
    else mret (set_leader_socket best (set_agreement false l)).

(** ** Callbacks *)
Definition leader_propose (sock content : Z) (l : leader) : outcome leader :=
  socks ← arr_set (leader_proposals_sockets l) (last_proposal l) sock;
  props ← arr_set (leader_proposals l) (last_proposal l) content;
  mret (Leader (controllers l) (leader_socket l) (am_i_leader l) (heartbeat l) (leader_propose_timer l)
               (agreement_running l) props socks (last_proposal l + 1)).

Definition leader_heartbeat (now : timeval) (l : leader) : leader :=
  Leader (controllers l) (leader_socket l) (am_i_leader l) (timer_restart now) (leader_propose_timer l)
         (agreement_running l) (leader_proposals l) (leader_proposals_sockets l) (last_proposal l).

(** ** suspect_leader *)
Definition suspect_leader (now : timeval) (l : leader) : leader :=
  if seconds_above now (heartbeat l) LEADER_SUSPECT_THRESHOLD then
    Leader (controllers l) (-1) (if am_i_leader l then false else am_i_leader l) (heartbeat l)
           (leader_propose_timer l) (agreement_running l) (leader_proposals l)
           (leader_proposals_sockets l) (last_proposal l)
  else l.

(** ** Network interfaces, as [getifaddrs] lists them; [ifa_addr] is the family
    and the IPv4 address, [None] the null pointer. *)
Record ifaddr := Ifaddr { ifa_name : list Z; ifa_addr : option (Z * Z) }.

Definition eth0 : list Z := [101; 116; 104; 48].

Fixpoint my_address (ifs : list ifaddr) : option Z :=
  match ifs with
  | [] => None
  | ifa :: ifs =>
      match ifa_addr ifa with
      | None => my_address ifs
      | Some (family, s_addr) =>
          if (family =? AF_INET) && bool_decide (ifa_name ifa = eth0) then Some s_addr
          else my_address ifs
      end
  end.

Section Election.
Context {B : Type} `{!Broadcaster B}.

(** ** do_leader_election: [ifs] is [None] when [getifaddrs] fails *)
Definition do_leader_election (now : timeval) (ifs : option (list ifaddr)) (l : leader) (b : B)
    : outcome (leader * B) :=
  if agreement_running l then l ← do_agreement_reduction now l; mret (l, b)
  else
    let l := Leader (controllers l) (leader_socket l) (am_i_leader l) (heartbeat l) (timer_start now)
                    true (leader_proposals l) (leader_proposals_sockets l) 0 in
    match ifs with
    | None => Exit 1
    | Some ifs =>
        match my_address ifs with
        | Some my_int_ip => b ← bc_broadcast LEADER_PROPOSE my_int_ip SIZEOF_LONG b; mret (l, b)
        | None => mret (l, b)
        end
    end.

(** ** One turn of leader_loop, after the [sleep] *)
Definition leader_loop_turn (now : timeval) (ifs : option (list ifaddr)) (l : leader) (b : B)
    : outcome (leader * B) :=
  let l := suspect_leader now l in
  '(l, b) ← (if leader_socket l =? -1 then do_leader_election now ifs l b else mret (l, b));
  if am_i_leader l then b ← bc_broadcast LEADER_HEARTBEAT 0 0 b; mret (l, b)
  else mret (l, b).

(** What happens to the election: its own thread's turns, and the two
    callbacks the broadcast thread runs. *)
Inductive leader_event :=
  | EvTurn (now : timeval) (ifs : option (list ifaddr))
  | EvPropose (sock content : Z)
  | EvHeartbeat (now : timeval).

Definition leader_step (e : leader_event) (st : leader * B) : outcome (leader * B) :=
  let '(l, b) := st in
  match e with
  | EvTurn now ifs => leader_loop_turn now ifs l b
  | EvPropose sock content => l ← leader_propose sock content l; mret (l, b)
  | EvHeartbeat now => mret (leader_heartbeat now l, b)
  end.
End Election.

(** ** send_to_leader: the [int] result of [sock_write] is compared with a [size_t] *)
Definition send_to_leader (rs : list wres) (payload : list Z) (size : Z) (l : leader) : option bool :=
  if leader_socket l =? -1 then Some false
  else match sock_write rs payload size with
       | Blocked _ => None
       | Returned ret _ _ => Some (negb (u64 ret <? size))
       end.

(** ** initialize_leader

    [chunks] is the number of lines [fgets] finds in the file, [None] if it
    does not open; the two callbacks are registered in the broadcast table,
    over the state this file keeps. *)
Definition leader_propose_cb : callback leader := λ _ sock content _ l, leader_propose sock content l.
Definition leader_heartbeat_cb : callback leader := λ now _ _ _ l, mret (leader_heartbeat now l).

Definition initialize_leader (now : timeval) (chunks : option Z) (l : leader) (b : bcast leader)
    : outcome (leader * bcast leader) :=
  match chunks with
  | None => Exit 1
  | Some n =>
      let l := Leader (u32 (controllers l + n)) (leader_socket l) (am_i_leader l) (timer_start now)
                      (leader_propose_timer l) (agreement_running l) (leader_proposals l)
                      (leader_proposals_sockets l) (last_proposal l) in
      b ← register_callback LEADER_HEARTBEAT leader_heartbeat_cb b;
      b ← register_callback LEADER_PROPOSE leader_propose_cb b;
      mret (l, b)
  end.

(** ** Instances of the interface: the real table, and a log of the calls *)
#[export] Instance bcast_broadcaster {S} : Broadcaster (bcast S) := {| bc_broadcast := broadcast |}.

Definition call_log : Type := list (Z * Z * Z).
#[export] Instance log_broadcaster : Broadcaster call_log :=
  {| bc_broadcast type payload size log := mret (log ++ [(type, payload, size)]) |}.

(** ** The winner of an election *)

(** The proposals received since the election started: (value, socket). *)
Definition proposals (l : leader) : list (Z * Z) :=
  take (Z.to_nat (last_proposal l)) (zip (leader_proposals l) (leader_proposals_sockets l)).

(** The arrays have their size and the fill count is within them. *)
Definition leader_wf (l : leader) : Prop :=
  length (leader_proposals l) = 32%nat ∧ length (leader_proposals_sockets l) = 32%nat ∧
  0 <= last_proposal l <= 32.

Definition better (acc e : Z * Z) : Z * Z := if acc.1 <? e.1 then e else acc.

Lemma leader_wf_entry l i p s :
  leader_wf l → proposals l !! i = Some (p, s) →
  arr_get (leader_proposals l) (Z.of_nat i) = Val p ∧
  arr_get (leader_proposals_sockets l) (Z.of_nat i) = Val s.
Proof.
  intros _ [Hi _]%lookup_take_Some. unfold zip in Hi.
  apply lookup_zip_with_Some in Hi as (x & y & [= -> ->] & Hx & Hy).
  split; by apply arr_get_nat.
Qed.

Lemma length_proposals l : leader_wf l → length (proposals l) = Z.to_nat (last_proposal l).
Proof.
  intros (H1 & H2 & H3). unfold proposals. rewrite length_take, length_zip_with. lia.
Qed.

Lemma search_greatest_spec l n i id best :
  leader_wf l → n = length (drop i (proposals l)) →
  search_greatest n (Z.of_nat i) id best l = Val (foldl better (id, best) (drop i (proposals l))).2.
Proof.
  intros Hwf; revert i id best; induction n as [|n IH]; intros i id best Hn.
  - by destruct (drop i (proposals l)).
  - destruct (lookup_lt_is_Some_2 (proposals l) i) as [[p s] Hp]; [rewrite length_drop in Hn; lia|].
    rewrite (drop_S _ _ _ Hp) in *. destruct (leader_wf_entry _ _ _ _ Hwf Hp) as [E1 E2].
    cbn [search_greatest]. rewrite E1. cbn [mbind outcome_bind].
    replace (Z.of_nat i + 1) with (Z.of_nat (S i)) by lia. cbn [foldl]. unfold better at 2. cbn [fst].
    destruct (id <? p).
    + rewrite E2. cbn [mbind outcome_bind]. apply IH. simpl in Hn. lia.
    + apply IH. simpl in Hn. lia.
Qed.

(** [w] is the first of the greatest entries above [id0]. *)
Definition first_greatest (es : list (Z * Z)) (w : Z * Z) : Prop :=
  ∃ i, es !! i = Some w ∧ (∀ j e, es !! j = Some e → e.1 <= w.1) ∧
       (∀ j e, (j < i)%nat → es !! j = Some e → e.1 < w.1).

Lemma foldl_better es acc :
  (foldl better acc es = acc ∧ ∀ j e, es !! j = Some e → e.1 <= acc.1) ∨
  (first_greatest es (foldl better acc es) ∧ acc.1 < (foldl better acc es).1).
Proof.
  revert acc; induction es as [|e es IH]; intros acc; [left; split; [done|by intros j e]|].
  cbn [foldl]. unfold better at 2 4 6. destruct (Z.ltb_spec acc.1 e.1) as [Hlt|Hge].
  - right. destruct (IH e) as [[-> Hle]|[(i & Hi & Hmax & Hfst) Hgt]].
    + split; [|done]. exists 0%nat. split; [done|]. split; [|lia].
      intros [|j] x; simpl; [intros [= ->]; lia|apply Hle].
    + split; [|lia]. exists (S i). split; [done|]. split.
      * intros [|j] x; simpl; [intros [= ->]; lia|apply Hmax].
      * intros [|j] x Hj; simpl; [intros [= ->]; lia|apply Hfst; lia].
  - destruct (IH acc) as [[E Hle]|[(i & Hi & Hmax & Hfst) Hgt]].
    + left. split; [done|]. intros [|j] x; simpl; [intros [= ->]; lia|apply Hle].
    + right. split; [|done]. exists (S i). split; [done|]. split.
      * intros [|j] x; simpl; [intros [= ->]; lia|apply Hmax].
      * intros [|j] x Hj; simpl; [intros [= ->]; lia|apply Hfst; lia].
Qed.

(** The election waits while a proposal is missing and the period has not expired. *)
Definition still_waiting (now : timeval) (l : leader) : Prop :=
  last_proposal l < controllers l ∧
  seconds_above now (leader_propose_timer l) LEADER_PROPOSE_THRESHOLD = false.

Lemma do_agreement_reduction_waits now l :
  leader_wf l → still_waiting now l → do_agreement_reduction now l = Val l.
Proof.
  intros (_ & _ & H) [Hc Hs]. unfold do_agreement_reduction.
  rewrite Hs, u32_id by (unfold is_u32; lia). by rewrite (proj2 (Z.ltb_lt _ _)).
Qed.

Lemma do_agreement_reduction_decides now l :
  leader_wf l → ¬ still_waiting now l →
  do_agreement_reduction now l =
  let w := foldl better (0, -1) (proposals l) in
  Val (if w.2 =? -1 then set_agreement false l else set_leader_socket w.2 (set_agreement false l)).
Proof.
  intros Hwf Hn. unfold do_agreement_reduction, still_waiting in *. pose proof Hwf as (_ & _ & H).
  rewrite u32_id by (unfold is_u32; lia).
  replace (_ && _) with false.
  - change 0 with (Z.of_nat 0) at 1. rewrite search_greatest_spec; [|done|].
    + cbn [mbind outcome_bind]. rewrite drop_0. by destruct (_ =? -1).
    + by rewrite drop_0, length_proposals.
  - destruct (Z.ltb_spec (last_proposal l) (controllers l)), (seconds_above _ _ _); simpl; done || tauto.
Qed.

(** ** The leader flag and the messages of the election *)
Section NeverLeads.
Context {B : Type} `{!Broadcaster B} (P : B → Prop).
(** Handing over a proposal preserves [P]. *)
Context (P_broadcast : ∀ payload b b',
  P b → bc_broadcast LEADER_PROPOSE payload SIZEOF_LONG b = Val b' → P b').

Lemma leader_turn_flag now ifs l b l' b' :
  am_i_leader l = false → P b → leader_loop_turn now ifs l b = Val (l', b') →
  am_i_leader l' = false ∧ P b'.
Proof.
  intros Hl Hb. unfold leader_loop_turn.
  assert (am_i_leader (suspect_leader now l) = false) as Hs.
  { unfold suspect_leader. case_match; [|done]. simpl. by rewrite Hl. }
  intros ([l1 b1] & H1 & H2)%outcome_bind_Val.
  enough (am_i_leader l1 = false ∧ P b1) as [E ?].
  { rewrite E in H2. by injection H2 as <- <-. }
  clear H2. destruct (leader_socket (suspect_leader now l) =? -1); [|by injection H1 as <- <-].
  unfold do_leader_election in H1.
  destruct (agreement_running (suspect_leader now l)).
  - apply outcome_bind_Val in H1 as (l2 & H1 & [= <- <-]). split; [|done].
    unfold do_agreement_reduction in H1. case_match; [by injection H1 as <-|].
    apply outcome_bind_Val in H1 as (w & _ & H1). by destruct (w =? -1); injection H1 as <-.
  - destruct ifs as [ifs|]; [|done]. destruct (my_address ifs); [|by injection H1 as <- <-].
    apply outcome_bind_Val in H1 as (b2 & H1 & [= <- <-]). split; [done|].
    by eapply P_broadcast in H1.
Qed.

Lemma leader_step_flag e l b st' :
  am_i_leader l = false ∧ P b → leader_step e (l, b) = Val st' → am_i_leader st'.1 = false ∧ P st'.2.
Proof.
  intros [Hl Hb]. destruct st' as [l' b']. destruct e as [now ifs|sock content|now]; simpl.
  - by apply leader_turn_flag.
  - intros (l1 & H1 & [= <- <-])%outcome_bind_Val. split; [|done].
    unfold leader_propose in H1. apply outcome_bind_Val in H1 as (x & _ & H1).
    apply outcome_bind_Val in H1 as (y & _ & H1). by injection H1 as <-.
  - by intros [= <- <-].
Qed.

Lemma leader_run_flag es l b st' :
  am_i_leader l = false → P b → run leader_step es (l, b) = Val st' → am_i_leader st'.1 = false ∧ P st'.2.
Proof.
  intros Hl Hb. apply (run_invariant leader_step (λ st, am_i_leader st.1 = false ∧ P st.2)); [|done].
  intros e [l1 b1] y H. by apply leader_step_flag.
Qed.
End NeverLeads.

(** ** Properties *)

(** C27.  The agreement: while some controller has not proposed and the
    10-second period since the election started has not expired, nothing
    happens; otherwise the election ends, and the leader is the socket of the
    first of the greatest positive proposals (the socket is left as it was when
    no proposal is positive). *)
Theorem agreement_elects_greatest now l :
  leader_wf l →
  (still_waiting now l → do_agreement_reduction now l = Val l) ∧
  (¬ still_waiting now l →
   ∃ l', do_agreement_reduction now l = Val l' ∧ agreement_running l' = false ∧
     ((∀ i e, proposals l !! i = Some e → e.1 <= 0) → leader_socket l' = leader_socket l) ∧
     ((∃ i e, proposals l !! i = Some e ∧ 0 < e.1) → (∀ i e, proposals l !! i = Some e → e.2 ≠ -1) →
      ∃ w, first_greatest (proposals l) w ∧ leader_socket l' = w.2)).
Proof.
  intros Hwf. split; [by apply do_agreement_reduction_waits|]. intros Hn.
  rewrite do_agreement_reduction_decides by done. eexists. split; [reflexivity|].
  destruct (foldl_better (proposals l) (0, -1)) as [[-> Hle]|[Hf Hgt]]; cbv zeta.
  - split_and!; [done|done|]. intros (i & e & Hi & He). apply Hle in Hi. simpl in Hi. lia.
  - set (w := foldl better (0, -1) (proposals l)) in *. pose proof Hf as (k & Hk & _). simpl in Hgt.
    split_and!; [by destruct (w.2 =? -1)| |].
    + intros Hall. apply Hall in Hk. lia.
    + intros _ Hs. exists w. split; [done|]. rewrite (proj2 (Z.eqb_neq _ _)); [done|]. by eapply Hs.
Qed.

(** Two controllers of three have proposed: 7 from socket 4 and 9 from socket 5. *)
Definition two_of_three : leader :=
  Leader 3 (-1) false (Timeval 0 0) (Timeval 100 0) true
    (7 :: 9 :: replicate 30 0) (4 :: 5 :: replicate 30 0) 2.

Lemma two_of_three_wf : leader_wf two_of_three.
Proof. split_and!; simpl; lia. Qed.

Lemma agreement_elects_greatest_witness :
  do_agreement_reduction (Timeval 105 0) two_of_three = Val two_of_three ∧
  ∃ l' w, do_agreement_reduction (Timeval 111 0) two_of_three = Val l' ∧ leader_socket l' = w.2 ∧
    first_greatest (proposals two_of_three) w.
Proof.
  split.
  - apply (agreement_elects_greatest (Timeval 105 0) _ two_of_three_wf). split; reflexivity.
  - destruct (agreement_elects_greatest (Timeval 111 0) _ two_of_three_wf) as [_ H].
    destruct H as (l' & E & _ & _ & H); [intros [_ H]; vm_compute in H; discriminate|].
    destruct H as (w & Hw & Hs); [by exists 0%nat, (7, 4)| |by exists l', w].
    intros [|[|i]] e He; vm_compute in He; [by injection He as <-|by injection He as <-|discriminate].
Defined.

(** No controller ever leads: whatever turns the election thread takes
    and whatever proposals and heartbeats arrive, [am_i_leader] stays false
    from the initial state, so the only message this program ever hands to the
    broadcast layer is its own proposal, never a heartbeat. *)
Theorem never_sends_heartbeat es l (log : call_log) :
  run leader_step es (leader_globals, ([] : call_log)) = Val (l, log) →
  am_i_leader l = false ∧ Forall (λ c, c.1.1 = LEADER_PROPOSE) log.
Proof.
  intros Hr.
  apply (leader_run_flag (λ log : call_log, Forall (λ c, c.1.1 = LEADER_PROPOSE) log)) in Hr; [done|..].
  - intros payload b b' Hb [= <-]. apply Forall_app. by repeat constructor.
  - done.
  - by constructor.
Qed.

Lemma never_sends_heartbeat_witness :
  ∃ l log, run leader_step
    [EvTurn (Timeval 1 0) (Some [Ifaddr [108;111] (Some (AF_INET, 16777343)); Ifaddr eth0 (Some (AF_INET, 117440522))]);
     EvPropose 4 7; EvHeartbeat (Timeval 2 0); EvTurn (Timeval 12 500000) None]
    (leader_globals, ([] : call_log)) = Val (l, log) ∧
    log = [(LEADER_PROPOSE, 117440522, 8)] ∧ am_i_leader l = false.
Proof.
  destruct (run leader_step
    [EvTurn (Timeval 1 0) (Some [Ifaddr [108;111] (Some (AF_INET, 16777343)); Ifaddr eth0 (Some (AF_INET, 117440522))]);
     EvPropose 4 7; EvHeartbeat (Timeval 2 0); EvTurn (Timeval 12 500000) None]
    (leader_globals, ([] : call_log))) as [[l log]| | |] eqn:E; [|vm_compute in E; discriminate..].
  exists l, log. split; [done|]. pose proof (never_sends_heartbeat _ _ _ E) as [Hl _].
  split; [|exact Hl]. vm_compute in E. by injection E as <- <-.
Defined.

(** A leader does not last: once more than 10 seconds (and less than 24
    days) have passed since the last heartbeat, a turn of the election thread
    that finds an elected leader and no election running drops the leader and
    starts a new election, from no proposals, with a new 10-second period;
    with [never_sends_heartbeat], this is what happens to every election. *)
Theorem leader_is_dropped now ifs l (log : call_log) :
  10000 < millis now - millis (heartbeat l) < 2 ^ 31 →
  agreement_running l = false → am_i_leader l = false →
  ∃ l' log', leader_loop_turn now (Some ifs) l log = Val (l', log') ∧
    leader_socket l' = -1 ∧ agreement_running l' = true ∧ proposals l' = [] ∧
    leader_propose_timer l' = now.
Proof.
  intros Ht Ha Hl.
  assert (seconds_above now (heartbeat l) LEADER_SUSPECT_THRESHOLD = true) as Hs.
  { rewrite seconds_above_millis by (unfold LEADER_SUSPECT_THRESHOLD; lia).
    rewrite timer_value_milli_exact by (unfold is_s32; lia).
    apply Z.ltb_lt. unfold LEADER_SUSPECT_THRESHOLD. lia. }
  unfold leader_loop_turn, suspect_leader. rewrite Hs, Hl. simpl.
  unfold do_leader_election. simpl. rewrite Ha.
  destruct (my_address ifs); simpl; eexists _, _; (split; [reflexivity|done]).
Qed.

Lemma leader_is_dropped_witness :
  ∃ l' log', leader_loop_turn (Timeval 30 0) (Some [])
    (Leader 3 5 false (Timeval 10 0) (Timeval 12 0) false (replicate 32 0) (replicate 32 0) 2) [] = Val (l', log') ∧
    leader_socket l' = -1.
Proof.
  destruct (leader_is_dropped (Timeval 30 0) []
    (Leader 3 5 false (Timeval 10 0) (Timeval 12 0) false (replicate 32 0) (replicate 32 0) 2) [])
    as (l' & log' & E & H & _); [split; reflexivity|done|done|by exists l', log'].
Defined.

(** [send_to_leader] reports success when the connection fails: its
    comparison converts the result -1 of [sock_write] to [size_t], so for a
    non-empty payload a failing [write] yields true with nothing sent, exactly
    as a complete transfer does; only a [write] that takes 0 bytes yields
    false. *)
Theorem send_to_leader_masks_errors payload l e rs :
  leader_socket l ≠ -1 → 0 < Z.of_nat (length payload) < 2 ^ 31 → e ≠ EINTR →
  let size := Z.of_nat (length payload) in
  send_to_leader (WFail e :: rs) payload size l = Some true ∧
  send_to_leader (WAccept 0 :: rs) payload size l = Some false ∧
  (Forall harmless rs → size <= Z.of_nat (length (filter (λ r, makes_progress r = true) rs)) →
   send_to_leader rs payload size l = Some true).
Proof.
  intros Hl Hb He size. assert (size = Z.of_nat (length payload)) as Hsz by done. clearbody size.
  unfold send_to_leader, sock_write.
  rewrite (proj2 (Z.eqb_neq _ _) Hl). split_and!.
  - rewrite sock_write_loop_fail by lia. rewrite (proj2 (Z.eqb_neq _ _) He).
    change (u64 (-1)) with (2 ^ 64 - 1).
    rewrite (proj2 (Z.ltb_ge (2 ^ 64 - 1) size)) by lia. done.
  - rewrite sock_write_loop_accept by lia.
    replace (Z.min (Z.of_N 0) (size - 0)) with 0 by lia.
    change (u64 0) with 0. cbn [Z.leb Z.compare]. change (u64 0) with 0.
    by rewrite (proj2 (Z.ltb_lt 0 size)) by lia.
  - intros Hh Hp. destruct (sock_write_loop_completes rs payload size 0 [] Hh) as [rest ->]; try lia.
    rewrite u64_id, Z.ltb_irrefl by (unfold is_u64; lia). done.
Qed.

Lemma send_to_leader_masks_errors_witness :
  send_to_leader [WFail 104] [1;2;3] 3 (set_leader_socket 5 leader_globals) = Some true.
Proof. apply (send_to_leader_masks_errors [1;2;3] _ 104 []); simpl; done || lia. Defined.

(** A proposal is appended while there is room. *)
Lemma leader_propose_records sock content l :
  leader_wf l → last_proposal l < 32 →
  ∃ l', leader_propose sock content l = Val l' ∧ leader_wf l' ∧ proposals l' = proposals l ++ [(content, sock)] ∧
    am_i_leader l' = am_i_leader l ∧ leader_socket l' = leader_socket l.
Proof.
  intros (Hl1 & Hl2 & Hb) Hn. unfold leader_propose.
  rewrite arr_set_in_bounds by lia. simpl. rewrite arr_set_in_bounds by lia. simpl.
  eexists. split; [reflexivity|]. simpl. split.
  - split_and!; simpl; rewrite ?length_insert; done || lia.
  - split; [|done]. unfold proposals. simpl.
    replace (Z.to_nat (last_proposal l + 1)) with (S (Z.to_nat (last_proposal l))) by lia.
    rewrite <- (insert_zip_with pair). rewrite (take_S_r _ _ (content, sock)).
    + by rewrite take_insert_ge by lia.
    + apply list_lookup_insert_eq. rewrite length_zip_with. lia.
Qed.

(** From the wire to the election: with the callbacks registered by
    [initialize_leader], a LEADER_PROPOSE datagram from the peer [i] of the
    table appends (payload, socket of that peer) to the proposals of the
    running election, while fewer than 32 have arrived; the next one writes
    past the arrays. *)
Theorem proposal_recorded (b0 b : bcast leader) ps now0 n l0 l1 l now my i p payload sent size :
  registered b0 [] → table_ok b0 ps → initialize_leader now0 (Some n) l0 b0 = Val (l1, b) →
  leader_wf l → ps !! i = Some p → peer_index ps p.2 = i → (i < 32)%nat →
  let ans := SelectReady (Some (Msg LEADER_PROPOSE size payload)) p.2 in
  let st := Loop (Msg 0 0 0) b l sent in
  (last_proposal l < 32 →
   ∃ st', broadcast_round now my ans st = Val st' ∧ leader_wf (lp_client st') ∧
     proposals (lp_client st') = proposals l ++ [(payload, p.1)]) ∧
  (last_proposal l = 32 → broadcast_round now my ans st = Fault OutOfBounds).
Proof.
  intros Hreg Ht Hinit Hwf Hp Hi Hlt ans st.
  assert (registered b [(LEADER_HEARTBEAT, leader_heartbeat_cb); (LEADER_PROPOSE, leader_propose_cb)]
          ∧ table_ok b ps) as [Hr Htb].
  { unfold initialize_leader in Hinit.
    destruct (register_callback_spec b0 [] LEADER_HEARTBEAT leader_heartbeat_cb Hreg) as [H1 _].
    destruct H1 as (b1 & E1 & Hr1 & ? & ? & ?); [simpl; lia|]. rewrite E1 in Hinit. simpl in Hinit.
    destruct (register_callback_spec b1 _ LEADER_PROPOSE leader_propose_cb Hr1) as [H2 _].
    destruct H2 as (b2 & E2 & Hr2 & ? & ? & ?); [simpl; lia|]. rewrite E2 in Hinit. simpl in Hinit.
    injection Hinit as _ <-. split; [done|]. eapply (table_ok_ext b0); [done|congruence..]. }
  assert (∃ b', broadcast_round now my ans st =
    (l' ← leader_propose p.1 payload l; mret (Loop (Msg LEADER_PROPOSE size payload) b' l' sent))) as [b' Hround].
  { destruct (broadcast_round_ready now my (Some (Msg LEADER_PROPOSE size payload)) p.2 st ps Htb)
      as (b' & _ & _ & _ & _ & E); [by rewrite Hi|].
    exists b'. unfold ans. rewrite E, Hi, Hp. simpl. by rewrite (call_function_spec _ _ _ _ _ _ Hr). }
  rewrite Hround. clear Hround Hinit. split; intros Hn.
  - destruct (leader_propose_records p.1 payload l Hwf Hn) as (l' & -> & Hwf' & Hp' & _).
    eexists. split; [reflexivity|]. by split.
  - destruct Hwf as (Hl1 & Hl2 & Hb). unfold leader_propose. rewrite (arr_set_oob (leader_proposals_sockets l)) by lia. reflexivity.
Qed.

(** The two peers of [two_lines] over the election state. *)
Definition election_table : bcast leader :=
  match initialize_broadcast (Some (map line_input two_lines)) bcast_globals with
  | Val (Some b) => b | _ => bcast_globals
  end.

Lemma election_table_ok : table_ok election_table (map line_peer two_lines) ∧ registered election_table [].
Proof.
  unfold election_table. destruct (initialize_broadcast_from_spec (S := leader) two_lines bcast_globals []
    building_globals two_lines_ok ltac:(simpl; lia)) as (b & E & Ht & Hc & _).
  change (initialize_broadcast _ _) with
    (initialize_broadcast_from (S := leader) (map line_input two_lines) 0 bcast_globals).
  change (Z.of_nat (length [])) with 0 in E. rewrite E. split; [done|]. split; [|by rewrite Hc].
  vm_compute in E. by injection E as <-.
Qed.

Lemma proposal_recorded_witness :
  ∃ b st', initialize_leader (Timeval 0 0) (Some 2) leader_globals election_table
             = Val (Leader 2 (-1) false (Timeval 0 0) (Timeval 0 0) false (replicate 32 0) (replicate 32 0) 0, b) ∧
    broadcast_round (Timeval 1 0) false (SelectReady (Some (Msg LEADER_PROPOSE 8 99)) [49;48;46;48;46;48;46;56])
      (Loop (Msg 0 0 0) b leader_globals []) = Val st' ∧
    proposals (lp_client st') = [(99, 6)].
Proof.
  destruct (initialize_leader (Timeval 0 0) (Some 2) leader_globals election_table) as [[l b]| | |] eqn:E;
    [|vm_compute in E; discriminate..].
  destruct election_table_ok as [Ht Hr].
  assert (l = Leader 2 (-1) false (Timeval 0 0) (Timeval 0 0) false (replicate 32 0) (replicate 32 0) 0) as Hl.
  { vm_compute in E. by injection E as <- <-. }
  destruct (proposal_recorded election_table b (map line_peer two_lines) (Timeval 0 0) 2 leader_globals l
    leader_globals (Timeval 1 0) false 1 (6, [49;48;46;48;46;48;46;56]) 99 [] 8) as [H _]; try done.
  - lia.
  - destruct H as (st' & H & _ & Hp); [done|]. exists b, st'. by rewrite Hl.
Defined.
