(* ===== verification/Election.v ===== *)
(** * Several controllers: controller/broadcast.c and controller/leader.c over a network

    Every controller runs the thread of the election and the thread of the
    broadcast layer; datagrams may be delivered in any order, and lost.  The
    controllers are [members], in the order of the file they all read; a
    controller is named by its place in it. *)
From S2P Require Import Prelude Timer SockHelp Broadcast Leader.
Open Scope Z_scope.

(** A controller: [n_my] is the local [my_new_bcast_message] while the thread is
    in [select], [None] before it reads the flag. *)
Record host := Node { n_my : option bool; n_loop : loop_state leader }.

(** A datagram: the sender's address, the receiver's, the message. *)
Definition datagram : Type := list Z * list Z * msg_struct.

Record network := Network { nodes : list host; in_flight : list datagram }.

(** ** Steps *)
Inductive net_event :=
  | NTurn (i : nat) (now : timeval)              (* a turn of leader_loop *)
  | NFlag (i : nat)                              (* broadcast_loop reads the flag *)
  | NTimeout (i : nat) (now : timeval)           (* its select times out *)
  | NDeliver (i k : nat) (now : timeval)         (* its select finds datagram [k] *)
  | NLose (k : nat).

Definition with_loop (st : loop_state leader) (nd : host) : host := Node (n_my nd) st.

Lemma peer_index_from ps addr j p :
  ps !! j = Some p → p.2 = addr → (∀ k q, (k < j)%nat → ps !! k = Some q → q.2 ≠ addr) → peer_index ps addr = j.
Proof.
  revert j. induction ps as [|q ps IH]; intros j Hj Hp Hb; [done|]. cbn [peer_index]. destruct j as [|j].
  - injection Hj as ->. by rewrite decide_True.
  - rewrite decide_False by (apply (Hb 0%nat q); [lia|done]). f_equal. apply IH; [done..|].
    intros k q' Hk Hq. apply (Hb (S k) q'); [lia|done].
Qed.

Section Network.
(** Address and [eth0] address of every controller. *)
Variable members : list (list Z * Z).

(** [getifaddrs] of a controller. *)
Definition interfaces (m : list Z * Z) : list ifaddr := [Ifaddr eth0 (Some (AF_INET, m.2))].

Definition node_step (e : net_event) (m : list Z * Z) (nd : host) (flight : list datagram) : outcome (option (host * list datagram)) :=
  let st := n_loop nd in
  match e with
  | NTurn _ now =>
      '(l, b) ← leader_loop_turn now (Some (interfaces m)) (lp_client st) (lp_bcast st);
      Val (Some (with_loop (Loop (lp_msg st) b l (lp_sent st)) nd, flight))
  | NFlag _ =>
      match n_my nd with
      | None => Val (Some (Node (Some (new_bcast_message (lp_bcast st))) st, flight))
      | Some _ => Val None
      end
  | NTimeout _ now =>
      match n_my nd with
      | None => Val None
      | Some my =>
          st' ← broadcast_round now my SelectTimeout st;
          let sent := drop (length (lp_sent st)) (lp_sent st') in
          Val (Some (Node None st', flight ++ map (λ s, (m.1, s.2, s.1.2)) sent))
      end
  | NDeliver _ k now =>
      match n_my nd, flight !! k with
      | Some my, Some (src, dst, msg) =>
          if decide (dst = m.1) then
            st' ← broadcast_round now my (SelectReady (Some msg) src) st;
            Val (Some (Node None st', delete k flight))
          else Val None
      | _, _ => Val None
      end
  | NLose _ => Val None
  end.

Definition event_node (e : net_event) : option nat :=
  match e with NTurn i _ | NFlag i | NTimeout i _ | NDeliver i _ _ => Some i | NLose _ => None end.

Definition net_step (e : net_event) (s : network) : outcome (option network) :=
  match event_node e with
  | None => match e with NLose k => Val (Some (Network (nodes s) (delete k (in_flight s)))) | _ => Val None end
  | Some i =>
      match nodes s !! i, members !! i with
      | Some nd, Some m =>
          r ← node_step e m nd (in_flight s);
          mret (option_map (λ r, Network (<[i := r.1]> (nodes s)) r.2) r)
      | _, _ => Val None
      end
  end.

Definition nstep (s s' : network) : Prop := ∃ e, net_step e s = Val (Some s').

(** ** The start: the tables of the same file, and the election's callbacks

    [sock i j] is the descriptor controller [i] has for controller [j]. *)
Variable sock : nat → nat → Z.
Definition peers (i : nat) : list (Z * list Z) := imap (λ j m, (sock i j, m.1)) members.

Definition node_start (i : nat) (nd : host) : Prop :=
  ∃ now b0 b l, table_ok b0 (peers i) ∧ registered b0 [] ∧ new_bcast_message b0 = false ∧
    initialize_leader now (Some (Z.of_nat (length members))) leader_globals b0 = Val (l, b) ∧
    nd = Node None (Loop (Msg 0 0 0) b l []).

Definition net_start (s : network) : Prop :=
  in_flight s = [] ∧ length (nodes s) = length members ∧ ∀ i nd, nodes s !! i = Some nd → node_start i nd.

Hypothesis addresses_differ : NoDup members.*1.
Hypothesis values_differ : NoDup members.*2.
Hypothesis values_positive : Forall (λ v, 0 < v) members.*2.
Hypothesis few_members : (length members <= 32)%nat.
Hypothesis good_sockets : ∀ i j, sock i j ≠ -1.

(** ** The invariant *)
Definition proposal (m : list Z * Z) : msg_struct := Msg LEADER_PROPOSE SIZEOF_LONG m.2.

(** A recorded proposal is the address of a member with the descriptor for it. *)
Definition from_member (i : nat) (p : Z * Z) : Prop := ∃ j m, members !! j = Some m ∧ p = (m.2, sock i j).

Definition callbacks_ok (b : bcast leader) : Prop :=
  callbacks b = map cb_entry [(LEADER_HEARTBEAT, leader_heartbeat_cb); (LEADER_PROPOSE, leader_propose_cb)] ++
                replicate 1022 (Cb 0 None).

Definition leader_ok (i : nat) (l : leader) : Prop :=
  leader_wf l ∧ am_i_leader l = false ∧ Forall (from_member i) (proposals l) ∧
  (leader_socket l = -1 ∨ ∃ j, (j < length members)%nat ∧ leader_socket l = sock i j).

Definition node_ok (i : nat) (m : list Z * Z) (nd : host) : Prop :=
  let b := lp_bcast (n_loop nd) in
  table_ok b (peers i) ∧ callbacks_ok b ∧ leader_ok i (lp_client (n_loop nd)) ∧
  (n_my nd = Some true ∨ new_bcast_message b = true → msg_temp b = proposal m).

Definition datagram_ok (d : datagram) : Prop := ∃ m, m ∈ members ∧ d.1.1 = m.1 ∧ d.2 = proposal m.

Definition net_ok (s : network) : Prop :=
  Forall datagram_ok (in_flight s) ∧ ∀ i nd, nodes s !! i = Some nd → ∃ m, members !! i = Some m ∧ node_ok i m nd.

(** *** The tables *)
Lemma peers_lookup i j m : members !! j = Some m → peers i !! j = Some (sock i j, m.1).
Proof. intros H. unfold peers. by rewrite list_lookup_imap, H. Qed.

Lemma length_peers i : length (peers i) = length members.
Proof. apply length_imap. Qed.

Lemma peer_index_member i j m : members !! j = Some m → peer_index (peers i) m.1 = j.
Proof.
  intros Hj. apply (peer_index_from _ _ _ (sock i j, m.1)); [by apply peers_lookup|done|].
  intros k q Hk Hq E. unfold peers in Hq. rewrite list_lookup_imap in Hq.
  destruct (members !! k) as [mk|] eqn:Ek; [|done]. injection Hq as <-. cbn in E.
  assert (k = j); [|lia]. eapply (NoDup_lookup members.*1); [exact addresses_differ| |].
  - by rewrite list_lookup_fmap, Ek.
  - rewrite list_lookup_fmap, Hj. cbn. by rewrite E.
Qed.

Lemma find_proposal now s m l b :
  callbacks_ok b → call_function b now s (proposal m) l = leader_propose s m.2 l.
Proof.
  intros Hc.
  set (b' := Bcast (controllers_sockets b) (last_controller_socket b) (callbacks b) 2 (msg_temp b) (connections b) (new_bcast_message b)).
  change (call_function b now s (proposal m) l) with (call_function b' now s (proposal m) l).
  rewrite (call_function_spec b' [(LEADER_HEARTBEAT, leader_heartbeat_cb); (LEADER_PROPOSE, leader_propose_cb)]); [done|].
  split; [done|exact Hc].
Qed.

(** *** The state of the election *)
Lemma leader_propose_ok i j m l l' :
  members !! j = Some m → leader_ok i l → leader_propose (sock i j) m.2 l = Val l' → leader_ok i l'.
Proof.
  intros Hj ((H1 & H2 & H3) & Hf & Hp & Hs) H.
  destruct (decide (last_proposal l = 32)) as [E|E].
  { unfold leader_propose in H. rewrite (arr_set_oob (leader_proposals_sockets l)) in H by lia. discriminate H. }
  pose proof (leader_propose_records (sock i j) m.2 l (conj H1 (conj H2 H3)) ltac:(lia)) as (l2 & H' & Hwf & Hprops & Ha & Hsock).
  rewrite H' in H. injection H as <-. split; [done|]. split; [by rewrite Ha|]. split; [|by rewrite Hsock].
  rewrite Hprops. apply Forall_app. split; [done|]. apply Forall_singleton. by exists j, m.
Qed.

Lemma suspect_leader_ok i now l :
  leader_ok i l → leader_ok i (suspect_leader now l) ∧ proposals (suspect_leader now l) = proposals l.
Proof.
  intros (Hw & Hf & Hp & Hs). unfold suspect_leader. destruct (seconds_above _ _ _); [|done].
  split; [|done]. split; [done|]. cbn. rewrite Hf. split; [done|]. split; [done|by left].
Qed.

Lemma greatest_member i l :
  Forall (from_member i) (proposals l) →
  let w := foldl better (0, -1) (proposals l) in
  w = (0, -1) ∨ ∃ j m, members !! j = Some m ∧ w = (m.2, sock i j) ∧ first_greatest (proposals l) w.
Proof.
  intros Hp w. destruct (foldl_better (proposals l) (0, -1)) as [[E _]|[Hf _]]; [by left|right].
  pose proof Hf as (k & Hk & _). rewrite Forall_lookup in Hp. destruct (Hp k _ Hk) as (j & m & Hj & E). by exists j, m.
Qed.

Lemma agreement_ok i now l l' : leader_ok i l → do_agreement_reduction now l = Val l' → leader_ok i l'.
Proof.
  intros Hl H. pose proof Hl as (Hw & Hf & Hp & Hs).
  destruct (decide (last_proposal l < controllers l ∧ seconds_above now (leader_propose_timer l) LEADER_PROPOSE_THRESHOLD = false)) as [Hst|Hst].
  - rewrite do_agreement_reduction_waits in H by done. by injection H as <-.
  - rewrite do_agreement_reduction_decides in H by done. cbv zeta in H.
    destruct (greatest_member i l Hp) as [E|(j & m & Hj & E & _)]; rewrite E in H; cbn in H.
    + injection H as <-. done.
    + rewrite (proj2 (Z.eqb_neq _ _)) in H by done. injection H as <-. split; [done|]. split; [done|]. split; [done|].
      right. exists j. split; [by eapply lookup_lt_Some|done].
Qed.

Lemma turn_ok i m nd now l' b' :
  members !! i = Some m → node_ok i m nd →
  leader_loop_turn now (Some (interfaces m)) (lp_client (n_loop nd)) (lp_bcast (n_loop nd)) = Val (l', b') →
  node_ok i m (with_loop (Loop (lp_msg (n_loop nd)) b' l' (lp_sent (n_loop nd))) nd).
Proof.
  intros Hm (Ht & Hc & Hl & Hn) H. unfold leader_loop_turn in H.
  destruct (suspect_leader_ok i now _ Hl) as [Hl1 _]. set (l1 := suspect_leader now _) in *.
  apply outcome_bind_Val in H as ([l2 b2] & H1 & H2).
  assert (leader_ok i l2 ∧ table_ok b2 (peers i) ∧ callbacks_ok b2 ∧
    (n_my nd = Some true ∨ new_bcast_message b2 = true → msg_temp b2 = proposal m)) as (Hl2 & Ht2 & Hc2 & Hn2).
  { destruct (leader_socket l1 =? -1); [|by injection H1 as <- <-]. unfold do_leader_election in H1.
    destruct (agreement_running l1).
    - apply outcome_bind_Val in H1 as (l3 & H1 & [= <- <-]). split; [|done]. by eapply agreement_ok.
    - cbn [my_address interfaces ifa_addr ifa_name] in H1. rewrite bool_decide_true in H1 by done. cbn [Z.eqb Pos.eqb andb AF_INET] in H1.
      apply outcome_bind_Val in H1 as (b3 & H1 & [= <- <-]). unfold bc_broadcast, bcast_broadcaster, broadcast in H1.
      cbn in H1. injection H1 as <-. destruct Hl1 as ((? & ? & ?) & ? & ? & ?).
      split; [|done]. split; [split_and!; cbn; done || lia|]. split; [done|]. split; [apply Forall_nil_2|done]. }
  destruct Hl2 as (Hw2 & Hf2 & ?). rewrite Hf2 in H2. injection H2 as <- <-. done.
Qed.

Lemma timeout_ok i m nd my now st' :
  m ∈ members → node_ok i m nd → n_my nd = Some my → broadcast_round now my SelectTimeout (n_loop nd) = Val st' →
  node_ok i m (Node None st') ∧
  Forall datagram_ok (map (λ s, (m.1, s.2, s.1.2)) (drop (length (lp_sent (n_loop nd))) (lp_sent st'))).
Proof.
  intros Hm (Ht & Hc & Hl & Hn) Hmy H. destruct my; cbn [broadcast_round] in H.
  - rewrite (do_bcast_spec _ _ Ht) in H. cbn [mbind outcome_bind mret outcome_ret] in H. injection H as <-.
    cbn [lp_sent lp_bcast lp_client n_loop]. rewrite drop_app_length. split.
    + split; [done|]. split; [done|]. split; [done|]. by intros [?|?].
    + rewrite (Hn (or_introl Hmy)). unfold to_all. rewrite map_map. apply Forall_map, Forall_forall. intros p _.
      exists m. done.
  - injection H as <-. rewrite drop_all. split; [|constructor]. split; [done|]. split; [done|]. split; [done|].
    intros [?|?]; [done|]. apply Hn. by right.
Qed.

Lemma deliver_ok i m nd my now src msg dst st' :
  node_ok i m nd → datagram_ok (src, dst, msg) →
  broadcast_round now my (SelectReady (Some msg) src) (n_loop nd) = Val st' → node_ok i m (Node None st').
Proof.
  intros (Ht & Hc & Hl & Hn) (mj & Hmj & Hsrc & Hmsg) H. cbn [fst snd] in *. subst src msg.
  apply list_elem_of_lookup in Hmj as [j Hj]. pose proof (peer_index_member i j mj Hj) as Hi.
  destruct (broadcast_round_ready now my (Some (proposal mj)) mj.1 (n_loop nd) (peers i) Ht) as (b' & Ht' & Hc' & Hm' & Hn' & E).
  { rewrite Hi. apply lookup_lt_Some in Hj. lia. }
  rewrite E, Hi, (peers_lookup i j mj Hj) in H. cbn [fmap option_fmap option_map from_option id fst] in H.
  rewrite find_proposal in H by done. apply outcome_bind_Val in H as (l' & Hl' & H). injection H as <-.
  split; [done|]. cbn [lp_bcast lp_client n_loop n_my]. split; [by unfold callbacks_ok; rewrite Hc'|]. split.
  - by eapply leader_propose_ok.
  - intros [?|?]; [done|]. rewrite Hm'. apply Hn. right. congruence.
Qed.

Lemma net_ok_step s s' : net_ok s → nstep s s' → net_ok s'.
Proof.
  intros [Hf Hnd] [e H]. unfold net_step in H.
  assert (Hdel : ∀ k, Forall datagram_ok (delete k (in_flight s))) by (intros k; by apply Forall_delete).
  destruct (event_node e) as [i|] eqn:Ei; [|destruct e; try discriminate H; injection H as <-; split; [apply Hdel|exact Hnd]].
  destruct (nodes s !! i) as [nd|] eqn:End; [|discriminate H]. destruct (members !! i) as [m|] eqn:Em; [|discriminate H].
  apply outcome_bind_Val in H as ([[nd' fl]|] & Hs & H); [|discriminate H]. injection H as <-.
  destruct (Hnd i nd End) as (m' & Em' & Hok). rewrite Em in Em'. injection Em' as <-.
  enough (node_ok i m nd' ∧ Forall datagram_ok fl) as [H1 H2].
  { split; [done|]. cbn. intros k nk Hk. destruct (decide (k = i)) as [->|Hne].
    - rewrite list_lookup_insert_eq in Hk by (by eapply lookup_lt_Some). injection Hk as <-. by exists m.
    - rewrite list_lookup_insert_ne in Hk by done. by apply Hnd. }
  apply list_elem_of_lookup_2 in Em as Hin. destruct e as [i' now|i'|i' now|i' k now|k]; cbn [node_step] in Hs; [..|discriminate Ei].
  - apply outcome_bind_Val in Hs as ([l b] & Ht & Hs). injection Hs as <- <-. split; [|done]. by eapply turn_ok.
  - destruct (n_my nd) eqn:Hmy; [discriminate Hs|]. injection Hs as <- <-. split; [|done].
    destruct Hok as (? & ? & ? & Hn). split; [done|]. split; [done|]. split; [done|]. cbn [n_my n_loop].
    intros [[= ?]|?]; apply Hn; by right.
  - destruct (n_my nd) as [my|] eqn:Hmy; [|discriminate Hs]. apply outcome_bind_Val in Hs as (st' & Hr & Hs). injection Hs as <- <-.
    destruct (timeout_ok i m nd my now st' Hin Hok Hmy Hr) as [H1 H2]. split; [done|]. by apply Forall_app.
  - destruct (n_my nd) as [my|] eqn:Hmy; [|discriminate Hs]. destruct (in_flight s !! k) as [[[src dst] msg]|] eqn:Ek; [|discriminate Hs].
    case_decide; [|discriminate Hs]. apply outcome_bind_Val in Hs as (st' & Hr & Hs). injection Hs as <- <-.
    split; [|apply Hdel]. eapply deliver_ok; [done| |exact Hr]. by eapply Forall_lookup_1.
Qed.

Lemma node_start_ok i m nd : members !! i = Some m → node_start i nd → node_ok i m nd.
Proof.
  intros Hm (now & b0 & b & l & Ht & Hr & Hn & Hi & ->). unfold initialize_leader in Hi.
  destruct (register_callback_spec b0 [] LEADER_HEARTBEAT leader_heartbeat_cb Hr) as [H1 _].
  destruct H1 as (b1 & E1 & Hr1 & Hs1 & Hc1 & Hl1); [cbn; lia|]. rewrite E1 in Hi. cbn [mbind outcome_bind] in Hi.
  destruct (register_callback_spec b1 _ LEADER_PROPOSE leader_propose_cb Hr1) as [H2 _].
  destruct H2 as (b2 & E2 & Hr2 & Hs2 & Hc2 & Hl2); [cbn; lia|]. rewrite E2 in Hi. injection Hi as <- <-.
  split; [|split; [|split]]; cbn [lp_bcast n_loop lp_client n_my].
  - eapply (table_ok_ext b0); [done|congruence..].
  - apply Hr2.
  - split; [split_and!; cbn; done || lia|]. split; [done|]. split; [apply Forall_nil_2|by left].
  - intros [?|?]; [done|]. unfold register_callback in E1, E2.
    apply outcome_bind_Val in E1 as (? & _ & [= <-]). apply outcome_bind_Val in E2 as (? & _ & [= <-]). cbn in *. congruence.
Qed.

Lemma net_ok_reachable s0 s : net_start s0 → rtc nstep s0 s → net_ok s.
Proof.
  intros (Hf & Hlen & Hst). apply rtc_invariant; [intros x y Hx; by apply net_ok_step|]. split; [by rewrite Hf|].
  intros i nd Hi. destruct (lookup_lt_is_Some_2 members i) as [m Hm]; [rewrite <-Hlen; by eapply lookup_lt_Some|].
  exists m. split; [done|]. apply node_start_ok; [done|]. by apply Hst.
Qed.

(** ** Properties *)

(** Everybody has proposed to this controller. *)
Definition complete (l : leader) : Prop := ∀ m, m ∈ members → ∃ s, (m.2, s) ∈ proposals l.

Lemma winner_greatest i l :
  members ≠ [] → leader_ok i l → complete l →
  ∃ j m, members !! j = Some m ∧ (∀ m', m' ∈ members → m'.2 <= m.2) ∧
    (foldl better (0, -1) (proposals l)).2 = sock i j.
Proof.
  intros Hne (_ & _ & Hp & _) Hc. destruct (foldl_better (proposals l) (0, -1)) as [[_ Hle]|[Hg _]].
  - exfalso. assert (∃ m0, m0 ∈ members) as [m0 Hm0] by (destruct members as [|m0 ms]; [done|exists m0; by left]).
    destruct (Hc m0 Hm0) as (s & Hs). apply list_elem_of_lookup in Hs as [k Hk]. apply Hle in Hk. cbn in Hk.
    assert (0 < m0.2); [|lia]. pose proof values_positive as Hv. rewrite Forall_forall in Hv. apply Hv.
    by apply (list_elem_of_fmap_2 snd).
  - pose proof Hg as (k & Hk & Hmax & _). rewrite Forall_lookup in Hp. destruct (Hp k _ Hk) as (j & m & Hj & E).
    exists j, m. rewrite E in *. split; [done|]. split; [|done]. intros m' Hm'. destruct (Hc m' Hm') as (s & Hs).
    apply list_elem_of_lookup in Hs as [k' Hk']. by apply Hmax in Hk'.
Qed.

(** C9.  Controllers that have heard everybody elect the same controller: in
    every state of the network, whatever was delivered, reordered or lost, two
    controllers that have a proposal of each member and whose waiting is over end
    their elections with their own descriptors for one and the same member, the
    one with the greatest address. *)
Theorem election_agreement s0 s i1 i2 nd1 nd2 now1 now2 :
  net_start s0 → rtc nstep s0 s → nodes s !! i1 = Some nd1 → nodes s !! i2 = Some nd2 →
  let l1 := lp_client (n_loop nd1) in let l2 := lp_client (n_loop nd2) in
  complete l1 → complete l2 → ¬ still_waiting now1 l1 → ¬ still_waiting now2 l2 →
  ∃ j m l1' l2', members !! j = Some m ∧ (∀ m', m' ∈ members → m'.2 <= m.2) ∧
    do_agreement_reduction now1 l1 = Val l1' ∧ leader_socket l1' = sock i1 j ∧
    do_agreement_reduction now2 l2 = Val l2' ∧ leader_socket l2' = sock i2 j.
Proof.
  intros Hst Hr H1 H2 l1 l2 C1 C2 W1 W2. destruct (net_ok_reachable s0 s Hst Hr) as [_ Hok].
  destruct (Hok i1 nd1 H1) as (m1 & Em1 & _ & _ & L1 & _). destruct (Hok i2 nd2 H2) as (m2 & Em2 & _ & _ & L2 & _).
  fold l1 in L1. fold l2 in L2. assert (Hne : members ≠ []) by (intros E; by rewrite E in Em1).
  destruct (winner_greatest i1 l1 Hne L1 C1) as (j1 & w1 & Hj1 & G1 & S1).
  destruct (winner_greatest i2 l2 Hne L2 C2) as (j2 & w2 & Hj2 & G2 & S2).
  assert (j1 = j2) as <-.
  { apply (NoDup_lookup members.*2 j1 j2 w1.2 values_differ); rewrite list_lookup_fmap, ?Hj1, ?Hj2; [done|]. cbn. f_equal.
    apply Z.le_antisymm; [apply G1; by eapply list_elem_of_lookup_2|apply G2; by eapply list_elem_of_lookup_2]. }
  rewrite !do_agreement_reduction_decides by (done || apply L1 || apply L2). cbv zeta. rewrite S1, S2.
  rewrite !(proj2 (Z.eqb_neq _ _)) by done. by eexists j1, w1, _, _.
Qed.

(** Whoever a controller takes for the leader is a member it has a descriptor
    for. *)
Theorem leader_is_a_member s0 s i nd :
  net_start s0 → rtc nstep s0 s → nodes s !! i = Some nd →
  leader_socket (lp_client (n_loop nd)) = -1 ∨
  ∃ j, (j < length members)%nat ∧ leader_socket (lp_client (n_loop nd)) = sock i j.
Proof.
  intros Hst Hr Hi. destruct (net_ok_reachable s0 s Hst Hr) as [_ Hok]. by destruct (Hok i nd Hi) as (m & _ & _ & _ & (_ & _ & _ & ?) & _).
Qed.
End Network.

(** ** Witness: two controllers elect the second *)
Definition two_members : list (list Z * Z) :=
  [([49;48;46;48;46;48;46;55], 117440522); ([49;48;46;48;46;48;46;56], 134217738)].
Definition two_sockets (i j : nat) : Z := 5 + Z.of_nat j.

Definition started : leader * bcast leader :=
  match initialize_leader (Timeval 0 0) (Some 2) leader_globals election_table with
  | Val r => r | _ => (leader_globals, election_table)
  end.
Definition two_nodes : network :=
  Network (replicate 2 (Node None (Loop (Msg 0 0 0) started.2 started.1 []))) [].

Lemma two_nodes_start : net_start two_members two_sockets two_nodes.
Proof.
  split; [done|]. split; [done|]. intros i nd Hi. destruct election_table_ok as [Ht Hr].
  apply lookup_replicate_1 in Hi as [-> Hi]. exists (Timeval 0 0), election_table, started.2, started.1.
  split; [exact Ht|]. split; [exact Hr|]. split; [vm_compute; reflexivity|]. split; [|done]. vm_compute. reflexivity.
Qed.

Fixpoint net_run (es : list net_event) (s : network) : option network :=
  match es with
  | [] => Some s
  | e :: es => match net_step two_members e s with Val (Some s) => net_run es s | _ => None end
  end.

Lemma net_run_rtc es s s' : net_run es s = Some s' → rtc (nstep two_members) s s'.
Proof.
  revert s. induction es as [|e es IH]; intros s; cbn; [by intros [= ->]|].
  destruct (net_step two_members e s) as [[s1|]| | |] eqn:E; try done. intros H. eapply rtc_l; [by exists e|by apply IH].
Qed.

(** Both propose; the two proposals arrive in different orders. *)
Definition election_run : list net_event :=
  [NTurn 0 (Timeval 20 0); NTurn 1 (Timeval 21 0); NFlag 0; NFlag 1; NTimeout 0 (Timeval 25 0); NTimeout 1 (Timeval 26 0);
   NFlag 0; NDeliver 0 0 (Timeval 26 0); NFlag 1; NDeliver 1 2 (Timeval 26 0);
   NFlag 0; NDeliver 0 1 (Timeval 27 0); NFlag 1; NDeliver 1 0 (Timeval 27 0)].
Definition elected : network := default two_nodes (net_run election_run two_nodes).
Definition node_at (i : nat) : host := default (Node None (Loop (Msg 0 0 0) started.2 started.1 [])) (nodes elected !! i).

Lemma elected_complete i : (i < 2)%nat → complete two_members (lp_client (n_loop (node_at i))).
Proof.
  intros Hi m Hm. apply list_elem_of_lookup in Hm as [j Hj]. exists (two_sockets i j).
  destruct i as [|[|i]]; [| |lia]; destruct j as [|[|j]]; try discriminate Hj; injection Hj as <-;
    apply (bool_decide_unpack _); vm_compute; exact I.
Qed.

Lemma election_agreement_witness :
  ∃ l1 l2, do_agreement_reduction (Timeval 28 0) (lp_client (n_loop (node_at 0))) = Val l1 ∧
    do_agreement_reduction (Timeval 29 0) (lp_client (n_loop (node_at 1))) = Val l2 ∧
    leader_socket l1 = 6 ∧ leader_socket l2 = leader_socket l1 ∧
    map fst (proposals (lp_client (n_loop (node_at 1)))) = [134217738; 117440522] ∧
    map fst (proposals (lp_client (n_loop (node_at 0)))) = [117440522; 134217738].
Proof.
  destruct (election_agreement two_members two_sockets) with (s0 := two_nodes) (s := elected) (i1 := 0%nat) (i2 := 1%nat)
    (nd1 := node_at 0) (nd2 := node_at 1) (now1 := Timeval 28 0) (now2 := Timeval 29 0)
    as (j & m & l1 & l2 & Hj & Hmax & E1 & S1 & E2 & S2).
  - apply (bool_decide_unpack _). vm_compute. exact I.
  - apply (bool_decide_unpack _). vm_compute. exact I.
  - apply (bool_decide_unpack _). vm_compute. exact I.
  - simpl. lia.
  - intros i j. unfold two_sockets. lia.
  - exact two_nodes_start.
  - apply (net_run_rtc election_run). vm_compute. reflexivity.
  - vm_compute. reflexivity.
  - vm_compute. reflexivity.
  - apply elected_complete. lia.
  - apply elected_complete. lia.
  - intros [H _]. vm_compute in H. discriminate H.
  - intros [H _]. vm_compute in H. discriminate H.
  - exists l1, l2. split; [exact E1|]. split; [exact E2|].
    destruct j as [|[|j]]; [|split; [exact S1|]; split; [by rewrite S1, S2|]; split; vm_compute; reflexivity|discriminate Hj].
    exfalso. injection Hj as <-. specialize (Hmax ([49;48;46;48;46;48;46;56], 134217738)). cbn in Hmax.
    assert (134217738 <= 117440522) as H; [apply Hmax; right; left|lia].
Defined.
