(* ===== verification/Scanf.v ===== *)
(** * The part of [sscanf] the programs use

    Directives [%d], [%f], [%lf], white space and literal characters, on
    NUL-terminated strings (the list of the characters before the terminator).
    Input items are decimal; "inf" and "nan" are read in any case, hexadecimal
    floating constants are not modelled. *)
From Stdlib Require Import Ascii Floats.SpecFloat.
From S2P Require Import Prelude CFloat.
Open Scope Z_scope.

(** A string constant as its characters. *)
Definition chars (s : string) : list Z :=
  map (λ a, Z.of_N (N_of_ascii a)) (String.list_ascii_of_string s).

(** ** Directives and what they store *)
Inductive directive :=
  | DSpace                    (* any amount of white space, none included *)
  | DLit (c : Z)
  | DInt                      (* %d *)
  | DFloat (prec emax : Z).   (* %f, %lf *)

Notation Df := (DFloat 24 128).
Notation Dlf := (DFloat 53 1024).

Inductive scanned := SInt (z : Z) | SFloat (x : spec_float).

Definition is_space (c : Z) : bool := (c =? 32) || ((9 <=? c) && (c <=? 13)).
Definition is_digit (c : Z) : bool := (48 <=? c) && (c <=? 57).
Definition lower (c : Z) : Z := if (65 <=? c) && (c <=? 90) then c + 32 else c.

Fixpoint skip_space (l : list Z) : list Z :=
  match l with
  | c :: l' => if is_space c then skip_space l' else l
  | [] => []
  end.

(** The value of the leading digits, how many there are, and the rest. *)
Fixpoint digits (l : list Z) (acc : N) (n : nat) : N * nat * list Z :=
  match l with
  | c :: l' => if is_digit c then digits l' (acc * 10 + Z.to_N (c - 48)) (S n) else (acc, n, l)
  | [] => (acc, n, [])
  end.

Definition sign (l : list Z) : bool * list Z :=
  match l with
  | c :: l' => if c =? 45 then (true, l') else if c =? 43 then (false, l') else (false, l)
  | [] => (false, [])
  end.

(** Strips the word [w] (lower case) from [l], in any case. *)
Fixpoint strip (w l : list Z) : option (list Z) :=
  match w, l with
  | [], _ => Some l
  | a :: w, c :: l => if lower c =? a then strip w l else None
  | _, [] => None
  end.

(** [strtol] clamps to [long], the store takes the low 32 bits. *)
Definition clamp_long (z : Z) : Z := Z.max (- 2 ^ 63) (Z.min (2 ^ 63 - 1) z).

Definition scan_int (l : list Z) : option (Z * list Z) :=
  let '(neg, l1) := sign (skip_space l) in
  match digits l1 0 0 with
  | (_, O, _) => None
  | (m, _, rest) => Some (s32 (clamp_long (if neg then - Z.of_N m else Z.of_N m)), rest)
  end.

(** The exponent part, read only when it is complete. *)
Definition exponent (l : list Z) : Z * list Z :=
  match l with
  | c :: l1 =>
      if lower c =? 101 then
        let '(neg, l2) := sign l1 in
        match digits l2 0 0 with
        | (_, O, _) => (0, l)
        | (m, _, rest) => (if neg then - Z.of_N m else Z.of_N m, rest)
        end
      else (0, l)
  | [] => (0, [])
  end.

Definition scan_float (prec emax : Z) (l : list Z) : option (spec_float * list Z) :=
  let '(neg, l1) := sign (skip_space l) in
  match strip (chars "nan") l1 with
  | Some rest => Some (S754_nan, rest)
  | None =>
  match strip (chars "inf") l1 with
  | Some rest => Some (S754_infinity neg, default rest (strip (chars "inity") rest))
  | None =>
      let '(m, n, l2) := digits l1 0 0 in
      let '(m, k, l3) :=
        match l2 with
        | c :: l3 => if c =? 46 then digits l3 m 0 else (m, O, l2)
        | [] => (m, O, l2)
        end in
      if (n + k =? 0)%nat then None
      else let '(e, rest) := exponent l3 in
           Some (of_decimal prec emax neg m (e - Z.of_nat k), rest)
  end end.

(** The values stored, in order, up to the first directive that fails. *)
Fixpoint sscanf (fmt : list directive) (l : list Z) : list scanned :=
  match fmt with
  | [] => []
  | DSpace :: fmt => sscanf fmt (skip_space l)
  | DLit c :: fmt =>
      match l with
      | c' :: l' => if c =? c' then sscanf fmt l' else []
      | [] => []
      end
  | DInt :: fmt =>
      match scan_int l with
      | Some (z, rest) => SInt z :: sscanf fmt rest
      | None => []
      end
  | DFloat prec emax :: fmt =>
      match scan_float prec emax l with
      | Some (x, rest) => SFloat x :: sscanf fmt rest
      | None => []
      end
  end.

(** The literal part of a format: a white-space character is a [DSpace]. *)
Definition lit (s : string) : list directive :=
  map (λ c, if is_space c then DSpace else DLit c) (chars s).

Example sscanf_datapoint :
  sscanf (lit "Datapoint: " ++ [Df] ++ lit " " ++ [DInt] ++ lit "
Memory: " ++ [DInt])
    (chars "Datapoint: 12.5 -7
Memory: 4294967297") = [SFloat (dec32 false 125 (-1)); SInt (-7); SInt 1].
Proof. reflexivity. Qed.

(** ** Printing and reading back *)

(** [%d] of [printf]. *)
Fixpoint print_digits (fuel : nat) (n : N) (acc : list Z) : list Z :=
  match fuel with
  | O => acc
  | S fuel =>
      let acc := (48 + Z.of_N (n mod 10)) :: acc in
      if (n <? 10)%N then acc else print_digits fuel (n / 10) acc
  end.
Definition print_nat (n : N) : list Z := print_digits (S (N.to_nat (N.log2 n))) n [].
Definition print_int (z : Z) : list Z :=
  if z <? 0 then 45 :: print_nat (Z.to_N (- z)) else print_nat (Z.to_N z).

(** No digit comes next. *)
Definition stops (l : list Z) : Prop := match l with c :: _ => is_digit c = false | [] => True end.

Lemma digits_stop l acc n : stops l → digits l acc n = (acc, n, l).
Proof. destruct l as [|c l]; simpl; [done|]. by intros ->. Qed.

Lemma digits_app l k acc n :
  Forall (λ c, is_digit c = true) l → stops k →
  digits (l ++ k) acc n
    = (foldl (λ a c, a * 10 + Z.to_N (c - 48))%N acc l, (n + length l)%nat, k).
Proof.
  intros H Hk. revert acc n. induction H as [|c l Hc H IH]; intros acc n; simpl.
  - rewrite Nat.add_0_r. by apply digits_stop.
  - rewrite Hc, IH. do 2 f_equal. lia.
Qed.

Lemma print_digits_acc fuel n acc : print_digits fuel n acc = print_digits fuel n [] ++ acc.
Proof.
  revert n acc. induction fuel as [|fuel IH]; intros n acc; simpl; [done|].
  case_match; [done|]. rewrite IH, (IH _ [_]). by rewrite <-(assoc_L (++)).
Qed.

Lemma print_digits_are_digits fuel n : Forall (λ c, is_digit c = true) (print_digits fuel n []).
Proof.
  revert n. induction fuel as [|fuel IH]; intros n; simpl; [constructor|].
  assert (is_digit (48 + Z.of_N (n mod 10)) = true).
  { pose proof (N.mod_lt n 10 ltac:(lia)) as Hm. generalize dependent (n mod 10)%N. intros d Hm. unfold is_digit. apply andb_true_iff. split; apply Z.leb_le; lia. }
  case_match; [by constructor|]. rewrite print_digits_acc. apply Forall_app. split; [done|by constructor].
Qed.

Lemma print_digits_value fuel n :
  (n < 10 ^ N.of_nat fuel)%N →
  foldl (λ a c, a * 10 + Z.to_N (c - 48))%N 0%N (print_digits fuel n []) = n.
Proof.
  revert n. induction fuel as [|fuel IH]; intros n Hn.
  - simpl in *. lia.
  - rewrite Nat2N.inj_succ, N.pow_succ_r' in Hn. pose proof (N.div_mod n 10 ltac:(lia)) as Hd.
    pose proof (N.mod_lt n 10 ltac:(lia)) as Hm.
    assert (Hc : ∀ d, Z.to_N (48 + Z.of_N d - 48) = d) by lia.
    cbn [print_digits]. destruct (N.ltb_spec n 10).
    + cbn [foldl]. rewrite Hc. rewrite N.mod_small by done. lia.
    + rewrite print_digits_acc, foldl_app, IH by (apply N.Div0.div_lt_upper_bound; lia).
      cbn [foldl]. rewrite Hc. lia.
Qed.

Lemma print_nat_fuel n : (n < 10 ^ N.of_nat (S (N.to_nat (N.log2 n))))%N.
Proof.
  rewrite Nat2N.inj_succ, N2Nat.id. destruct (decide (n = 0)%N) as [->|]; [by vm_compute|].
  apply N.lt_le_trans with (2 ^ N.succ (N.log2 n))%N; [apply N.log2_spec; lia|].
  apply N.pow_le_mono_l. lia.
Qed.

Lemma print_nat_cons n : ∃ c l, print_nat n = c :: l ∧ is_digit c = true.
Proof.
  pose proof (print_digits_are_digits (S (N.to_nat (N.log2 n))) n) as H. fold (print_nat n) in H.
  destruct (print_nat n) as [|c l] eqn:E.
  - exfalso. unfold print_nat in E. cbn [print_digits] in E. case_match; [done|].
    rewrite print_digits_acc in E. by apply app_eq_nil in E as [_ ?].
  - exists c, l. by inversion H.
Qed.

Lemma is_digit_sign c l : is_digit c = true → sign (skip_space (c :: l)) = (false, c :: l).
Proof.
  intros H. apply andb_true_iff in H as [H1%Z.leb_le H2%Z.leb_le].
  unfold skip_space, is_space, sign.
  replace (c =? 32) with false by (symmetry; apply Z.eqb_neq; lia).
  replace (c <=? 13) with false by (symmetry; apply Z.leb_gt; lia).
  rewrite andb_false_r. cbn [orb].
  replace (c =? 45) with false by (symmetry; apply Z.eqb_neq; lia).
  by replace (c =? 43) with false by (symmetry; apply Z.eqb_neq; lia).
Qed.

(** Reading an [int] back after printing it. *)
Lemma scan_print_int z rest :
  is_s32 z → stops rest → scan_int (print_int z ++ rest) = Some (z, rest).
Proof.
  intros Hz Hr. unfold scan_int, print_int.
  assert (Hd : ∀ n, digits (print_nat n ++ rest) 0 0 = (n, length (print_nat n), rest)).
  { intros n. unfold print_nat. rewrite digits_app by (done || apply print_digits_are_digits).
    by rewrite print_digits_value by apply print_nat_fuel. }
  assert (Hl : ∀ n, ∃ k, length (print_nat n) = S k).
  { intros n. destruct (print_nat_cons n) as (c & l & -> & _). by eexists. }
  assert (Hs : clamp_long z = z ∧ s32 z = z).
  { split; [unfold clamp_long, is_s32 in *; lia|by apply s32_id]. }
  destruct (Z.ltb_spec z 0).
  - cbn [app skip_space is_space sign orb andb Z.eqb Z.leb Z.compare Pos.eqb Pos.compare Pos.compare_cont].
    rewrite Hd. destruct (Hl (Z.to_N (- z))) as [k ->].
    replace (- Z.of_N (Z.to_N (- z))) with z by lia. by rewrite (proj1 Hs), (proj2 Hs).
  - destruct (print_nat_cons (Z.to_N z)) as (c & l & E & Hc).
    rewrite E. cbn [app]. rewrite is_digit_sign by done.
    change (c :: l ++ rest) with ((c :: l) ++ rest). rewrite <-E, Hd.
    destruct (Hl (Z.to_N z)) as [k ->].
    replace (Z.of_N (Z.to_N z)) with z by lia. by rewrite (proj1 Hs), (proj2 Hs).
Qed.
