(* ===== verification/Printf.v ===== *)
(** * The part of [printf] the programs use: [%f]

    Six decimals, the exact binary value rounded to nearest, ties to even.  What
    is printed for a NaN has a sign that [spec_float] does not carry, so it is
    an argument. *)
From Stdlib Require Import Floats.SpecFloat.
From S2P Require Import Prelude CFloat Scanf.
Open Scope Z_scope.

(** [num / den] to the nearest integer. *)
Definition round_half_even (num den : N) : N :=
  let q := (num / den)%N in
  let r := (num mod den)%N in
  match (2 * r ?= den)%N with
  | Lt => q
  | Gt => (q + 1)%N
  | Eq => if N.even q then q else (q + 1)%N
  end.

(** The millionths of [m * 2^e]. *)
Definition micros (m : positive) (e : Z) : N :=
  if 0 <=? e then (Npos m * 2 ^ Z.to_N e * 1000000)%N
  else round_half_even (Npos m * 1000000) (2 ^ Z.to_N (- e)).

(** The last [k] decimal digits of [n]. *)
Fixpoint pad (k : nat) (n : N) : list Z :=
  match k with
  | O => []
  | S k => pad k (n / 10) ++ [48 + Z.of_N (n mod 10)]
  end.

Definition print_micros (n : N) : list Z := print_nat (n / 1000000) ++ 46 :: pad 6 (n mod 1000000).

Definition print_float (nan_text : list Z) (x : spec_float) : list Z :=
  match x with
  | S754_nan => nan_text
  | S754_infinity s => (if s then [45] else []) ++ chars "inf"
  | S754_zero s => (if s then [45] else []) ++ print_micros 0
  | S754_finite s m e => (if s then [45] else []) ++ print_micros (micros m e)
  end.

(** What a text of [print_float] reads as: the nearest number of the format to
    the six decimals. *)
Definition reread (prec emax : Z) (x : spec_float) : spec_float :=
  match x with
  | S754_finite s m e => of_decimal prec emax s (micros m e) (-6)
  | _ => x
  end.

Example print_float_tenth : print_float [] (dec64 true 1 (-1)) = chars "-0.100000".
Proof. reflexivity. Qed.
Example print_float_ties :
  print_float [] (div64 (f64_of_Z 1) (f64_of_Z 128)) = chars "0.007812" ∧
  print_float [] (div64 (f64_of_Z 3) (f64_of_Z 128)) = chars "0.023438".
Proof. split; reflexivity. Qed.

(** ** Reading back *)
Lemma pad_digits k n : Forall (λ c, is_digit c = true) (pad k n).
Proof.
  revert n. induction k as [|k IH]; intros n; cbn [pad]; [constructor|]. apply Forall_app. split; [apply IH|].
  constructor; [|constructor]. pose proof (N.mod_lt n 10 ltac:(lia)) as Hm. generalize dependent (n mod 10)%N. intros d Hm.
  unfold is_digit. apply andb_true_iff. split; apply Z.leb_le; lia.
Qed.

Lemma length_pad k n : length (pad k n) = k.
Proof. revert n. induction k as [|k IH]; intros n; [done|]. cbn [pad]. rewrite length_app, IH. cbn. lia. Qed.

Lemma pad_value k n acc :
  foldl (λ a c, a * 10 + Z.to_N (c - 48))%N acc (pad k n) = (acc * 10 ^ N.of_nat k + n mod 10 ^ N.of_nat k)%N.
Proof.
  revert n. induction k as [|k IH]; intros n; [cbn [pad foldl N.of_nat]; rewrite N.pow_0_r, N.mod_1_r; lia|].
  cbn [pad]. rewrite foldl_app, IH. cbn [foldl]. rewrite Nat2N.inj_succ, N.pow_succ_r'.
  assert (Hc : ∀ d, Z.to_N (48 + Z.of_N d - 48) = d) by lia. rewrite Hc.
  rewrite (N.Div0.mod_mul_r n 10). generalize (n mod 10)%N ((n / 10) mod 10 ^ N.of_nat k)%N. nia.
Qed.

Lemma digits_print_micros n rest :
  stops rest →
  digits (print_nat (n / 1000000) ++ 46 :: pad 6 (n mod 1000000) ++ rest) 0 0
    = ((n / 1000000)%N, length (print_nat (n / 1000000)), 46 :: pad 6 (n mod 1000000) ++ rest) ∧
  digits (pad 6 (n mod 1000000) ++ rest) (n / 1000000) 0 = (n, 6%nat, rest).
Proof.
  intros Hr. split.
  - unfold print_nat. rewrite digits_app by (done || apply print_digits_are_digits).
    by rewrite print_digits_value by apply print_nat_fuel.
  - rewrite digits_app by (done || apply pad_digits). rewrite pad_value, length_pad.
    change (10 ^ N.of_nat 6)%N with 1000000%N. rewrite N.Div0.mod_mod.
    pose proof (N.div_mod n 1000000 ltac:(lia)). do 2 f_equal. f_equal. lia.
Qed.

(** What may follow a number without being taken for a part of it. *)
Definition ends_number (l : list Z) : Prop := match l with c :: _ => is_digit c = false ∧ lower c ≠ 101 | [] => True end.

Lemma ends_number_stops l : ends_number l → stops l.
Proof. destruct l; [done|]. by intros [? _]. Qed.

Lemma exponent_none l : ends_number l → exponent l = (0, l).
Proof. destruct l as [|c l]; [done|]. intros [_ H]. cbn. by rewrite (proj2 (Z.eqb_neq _ _) H). Qed.

Lemma strip_digit w c l : is_digit c = true → Forall (λ a, 97 <= a) w → w ≠ [] → strip w (c :: l) = None.
Proof.
  intros Hc Hw Hne. apply andb_true_iff in Hc as [H1%Z.leb_le H2%Z.leb_le]. destruct w as [|a w]; [done|].
  apply Forall_cons in Hw as [Ha _]. cbn. unfold lower.
  replace (65 <=? c) with false by (symmetry; apply Z.leb_gt; lia). cbn [andb].
  by rewrite (proj2 (Z.eqb_neq c a)) by lia.
Qed.

(** A sign and a number. *)
Lemma scan_signed_micros prec emax (s : bool) n rest :
  ends_number rest →
  scan_float prec emax ((if s then [45] else []) ++ print_micros n ++ rest)
    = Some (of_decimal prec emax s n (-6), rest).
Proof.
  intros Hr. unfold print_micros. rewrite <-(assoc_L (++)). cbn [app].
  set (t := pad 6 (n mod 1000000) ++ rest).
  destruct (print_nat_cons (n / 1000000)) as (c & l & E & Hc).
  assert (Hsign : sign (skip_space ((if s then [45] else []) ++ print_nat (n / 1000000) ++ 46 :: t))
    = (s, print_nat (n / 1000000) ++ 46 :: t)).
  { rewrite E. destruct s; [done|]. cbn [app]. by apply (is_digit_sign c (l ++ 46 :: t)). }
  unfold scan_float. rewrite Hsign.
  assert (Hstrip : ∀ w, Forall (λ a, 97 <= a) w → w ≠ [] → strip w (print_nat (n / 1000000) ++ 46 :: t) = None).
  { intros w Hw Hne. rewrite E. by apply strip_digit. }
  rewrite (Hstrip (chars "nan")) by (done || (change (chars "nan") with [110; 97; 110]; repeat constructor; lia)).
  rewrite (Hstrip (chars "inf")) by (done || (change (chars "inf") with [105; 110; 102]; repeat constructor; lia)).
  destruct (digits_print_micros n rest (ends_number_stops _ Hr)) as [H1 H2]. fold t in H1, H2. rewrite H1.
  cbn [Z.eqb Pos.eqb]. rewrite H2. rewrite (exponent_none rest) by done.
  destruct (length (print_nat (n / 1000000)) + 6 =? 0)%nat eqn:El; [apply Nat.eqb_eq in El; lia|]. reflexivity.
Qed.

(** The texts glibc prints for a NaN. *)
Definition nan_text_ok (t : list Z) : Prop := t = chars "nan" ∨ t = chars "-nan".

(** Reading a printed number gives the nearest number to its six decimals. *)
Lemma scan_print_float prec emax t x rest :
  nan_text_ok t → ends_number rest → (∀ s, x = S754_infinity s → strip (chars "inity") rest = None) →
  scan_float prec emax (print_float t x ++ rest) = Some (reread prec emax x, rest).
Proof.
  intros Ht Hr Hi. destruct x as [s|s| |s m e]; cbn [print_float reread].
  - rewrite <-(assoc_L (++)). rewrite scan_signed_micros by done. by destruct s.
  - specialize (Hi s eq_refl).
    transitivity (Some (S754_infinity s, default rest (strip (chars "inity") rest))); [by destruct s|by rewrite Hi].
  - destruct Ht as [-> | ->]; reflexivity.
  - rewrite <-(assoc_L (++)). by rewrite scan_signed_micros.
Qed.

(** ** Lines of numbers *)

(** A conversion, [n] times, with white space in between and at the end. *)
Fixpoint spaced (d : directive) (n : nat) : list directive :=
  match n with O => [] | S O => [d; DSpace] | S n => d :: DSpace :: spaced d n end.

(** The items of a line, separated by a space and ended by a line feed. *)
Fixpoint print_ints (zs : list Z) : list Z :=
  match zs with
  | [] => []
  | [z] => print_int z ++ [10]
  | z :: zs => print_int z ++ 32 :: print_ints zs
  end.

Lemma scan_int_space l : scan_int (32 :: l) = scan_int l.
Proof. done. Qed.

Lemma print_int_nonspace z rest : skip_space (print_int z ++ rest) = print_int z ++ rest.
Proof.
  unfold print_int. destruct (z <? 0); [done|]. destruct (print_nat_cons (Z.to_N z)) as (c & l & -> & Hc).
  apply andb_true_iff in Hc as [H1%Z.leb_le H2%Z.leb_le]. cbn [app skip_space]. unfold is_space.
  replace (c =? 32) with false by (symmetry; apply Z.eqb_neq; lia).
  by replace (c <=? 13) with false by (symmetry; apply Z.leb_gt; lia); rewrite andb_false_r.
Qed.

(** What comes after the line is read on. *)
Lemma sscanf_print_ints_app zs fmt rest :
  Forall is_s32 zs → zs ≠ [] →
  sscanf (spaced DInt (length zs) ++ fmt) (print_ints zs ++ rest) = map SInt zs ++ sscanf fmt (skip_space rest).
Proof.
  induction zs as [|z zs IH]; [done|]. intros [Hz Hzs]%Forall_cons _. destruct zs as [|z' zs].
  - cbn [length spaced print_ints]. rewrite <-(assoc_L (++)). cbn [app sscanf]. rewrite scan_print_int by done. done.
  - change (print_ints (z :: z' :: zs)) with (print_int z ++ 32 :: print_ints (z' :: zs)).
    change (spaced DInt (length (z :: z' :: zs))) with (DInt :: DSpace :: spaced DInt (length (z' :: zs))).
    rewrite <-(assoc_L (++)). cbn [app sscanf]. rewrite scan_print_int by done.
    cbn [sscanf skip_space is_space Z.eqb Pos.eqb orb map app].
    f_equal. etrans; [|by apply (IH Hzs)]. f_equal.
    destruct zs; cbn [print_ints]; rewrite <-(assoc_L (++)); apply print_int_nonspace.
Qed.

Lemma sscanf_print_ints zs :
  Forall is_s32 zs → sscanf (spaced DInt (length zs)) (print_ints zs) = map SInt zs.
Proof.
  destruct zs as [|z zs]; [done|]. intros H. pose proof (sscanf_print_ints_app (z :: zs) [] [] H) as E.
  rewrite !app_nil_r in E. by apply E.
Qed.

(** The same for numbers with six decimals, without the line feed. *)
Fixpoint print_floats (t : list Z) (xs : list spec_float) : list Z :=
  match xs with
  | [] => []
  | [x] => print_float t x
  | x :: xs => print_float t x ++ 32 :: print_floats t xs
  end.

Fixpoint separated (d : directive) (n : nat) : list directive :=
  match n with O => [] | S O => [d] | S n => d :: DSpace :: separated d n end.

Lemma print_float_nonspace t x rest : nan_text_ok t → skip_space (print_float t x ++ rest) = print_float t x ++ rest.
Proof.
  intros Ht. assert (Hm : ∀ n l, skip_space (print_micros n ++ l) = print_micros n ++ l).
  { intros n l. unfold print_micros. destruct (print_nat_cons (n / 1000000)) as (c & k & -> & Hc).
    apply andb_true_iff in Hc as [H1%Z.leb_le H2%Z.leb_le]. cbn [app skip_space]. unfold is_space.
    replace (c =? 32) with false by (symmetry; apply Z.eqb_neq; lia).
    by replace (c <=? 13) with false by (symmetry; apply Z.leb_gt; lia); rewrite andb_false_r. }
  destruct x as [[]|[]| |[] m e]; cbn [print_float]; try done.
  - by destruct Ht as [-> | ->].
  - apply Hm.
Qed.

Lemma sscanf_print_floats prec emax t xs fmt rest :
  nan_text_ok t → ends_number rest → strip (chars "inity") rest = None → xs ≠ [] →
  sscanf (separated (DFloat prec emax) (length xs) ++ fmt) (print_floats t xs ++ rest)
    = map (λ x, SFloat (reread prec emax x)) xs ++ sscanf fmt rest.
Proof.
  intros Ht Hr Hi. induction xs as [|x xs IH]; [done|]. intros _. destruct xs as [|x' xs].
  - cbn [length separated print_floats app sscanf]. by rewrite scan_print_float by done.
  - change (print_floats t (x :: x' :: xs)) with (print_float t x ++ 32 :: print_floats t (x' :: xs)).
    change (separated (DFloat prec emax) (length (x :: x' :: xs)))
      with (DFloat prec emax :: DSpace :: separated (DFloat prec emax) (length (x' :: xs))).
    rewrite <-(assoc_L (++)). cbn [app sscanf]. rewrite scan_print_float by done.
    cbn [sscanf skip_space is_space Z.eqb Pos.eqb orb map app].
    f_equal. etrans; [|by apply IH]. f_equal.
    destruct xs; cbn [print_floats]; rewrite <-?(assoc_L (++)); by apply print_float_nonspace.
Qed.

(** Neither a control character nor a colon in a number. *)
Definition plain (c : Z) : Prop := 32 <= c ∧ c ≠ 58.
Lemma digit_plain c : is_digit c = true → plain c.
Proof. intros [H1%Z.leb_le H2%Z.leb_le]%andb_true_iff. unfold plain. lia. Qed.

Lemma print_nat_plain n : Forall plain (print_nat n).
Proof. eapply Forall_impl; [apply print_digits_are_digits|]. apply digit_plain. Qed.

Lemma print_int_plain z : Forall plain (print_int z).
Proof. unfold print_int. destruct (z <? 0); [constructor; [by unfold plain|]|]; apply print_nat_plain. Qed.

Lemma print_micros_plain n : Forall plain (print_micros n).
Proof.
  unfold print_micros. apply Forall_app. split; [apply print_nat_plain|]. constructor; [by unfold plain|].
  eapply Forall_impl; [apply pad_digits|]. apply digit_plain.
Qed.

Lemma print_float_plain t x : nan_text_ok t → Forall plain (print_float t x).
Proof.
  intros Ht. destruct x as [s|s| |s m e]; cbn [print_float].
  - apply Forall_app. split; [destruct s; by repeat constructor|apply print_micros_plain].
  - destruct s; repeat constructor; done.
  - destruct Ht as [-> | ->]; repeat constructor; done.
  - apply Forall_app. split; [destruct s; by repeat constructor|apply print_micros_plain].
Qed.

(** A line of [print_ints] ends at its line feed. *)
Lemma print_ints_line zs : zs ≠ [] → ∃ body, print_ints zs = body ++ [10] ∧ Forall plain body.
Proof.
  induction zs as [|z zs IH]; [done|intros _]. destruct zs as [|z' zs].
  - exists (print_int z). split; [done|apply print_int_plain].
  - destruct IH as (body & E & Hb); [done|]. exists (print_int z ++ 32 :: body). split.
    + change (print_ints (z :: z' :: zs)) with (print_int z ++ 32 :: print_ints (z' :: zs)). by rewrite E, <-(assoc_L (++)).
    + apply Forall_app. split; [apply print_int_plain|]. by constructor.
Qed.

Lemma print_floats_plain t xs : nan_text_ok t → Forall plain (print_floats t xs).
Proof.
  intros Ht. induction xs as [|x xs IH]; [constructor|]. destruct xs as [|x' xs]; cbn [print_floats] in *.
  - by apply print_float_plain.
  - apply Forall_app. split; [by apply print_float_plain|]. by constructor.
Qed.

Lemma plain_nonzero l : Forall plain l → Forall (λ c, c ≠ 0) l.
Proof. intros H. eapply Forall_impl; [exact H|]. unfold plain. lia. Qed.

Lemma plain_no_colon l : Forall plain l → 58 ∉ l.
Proof. intros H Hin. rewrite Forall_forall in H. by destruct (H 58 Hin). Qed.

Lemma plain_no_feed l : Forall plain l → 10 ∉ l.
Proof. intros H Hin. rewrite Forall_forall in H. destruct (H 10 Hin). lia. Qed.

Lemma print_ints_nonzero zs : Forall (λ c, c ≠ 0) (print_ints zs).
Proof.
  destruct (decide (zs = [])) as [->|Hne]; [constructor|]. destruct (print_ints_line zs Hne) as (body & -> & Hb).
  apply Forall_app. split; [by apply plain_nonzero|]. by repeat constructor.
Qed.

Lemma print_ints_no_colon zs : 58 ∉ print_ints zs.
Proof.
  destruct (decide (zs = [])) as [->|Hne]; [apply not_elem_of_nil|]. destruct (print_ints_line zs Hne) as (body & -> & Hb).
  rewrite elem_of_app, list_elem_of_singleton. intros [H|?]; [by apply plain_no_colon in H|done].
Qed.

Lemma print_ints_nonspace zs rest : zs ≠ [] → skip_space (print_ints zs ++ rest) = print_ints zs ++ rest.
Proof.
  destruct zs as [|z [|z' zs]]; [done|intros _..]; cbn [print_ints]; rewrite <-!(assoc_L (++)); apply print_int_nonspace.
Qed.

Lemma print_floats_nonspace t xs : nan_text_ok t → skip_space (print_floats t xs) = print_floats t xs.
Proof.
  intros Ht. destruct xs as [|x [|x' xs]]; [done|..]; cbn [print_floats].
  - pose proof (print_float_nonspace t x [] Ht) as H. by rewrite !app_nil_r in H.
  - by apply print_float_nonspace.
Qed.
