(* ===== verification/TimerText.v ===== *)
(** * controller/timer.h: [timer_tostring] and [CLOCK_READ]

    The text of a timer's date, by [localtime] (an argument, since it depends on
    the time zone) and [strftime], and the two halves of the time stamp counter. *)
From S2P Require Import Prelude CFloat Scanf Printf Timer.
Open Scope Z_scope.

(** The members of [struct tm] that are printed; the year counts from 1900, the
    month from 0. *)
Record tm := Tm { tm_year : Z; tm_mon : Z; tm_mday : Z; tm_hour : Z; tm_min : Z; tm_sec : Z }.

(** ** [strftime], with the conversions of the format *)
Inductive time_directive := TChar (c : Z) | TY | Tm' | Td | TH | TM | TS.

Definition time_item (d : time_directive) (t : tm) : list Z :=
  match d with
  | TChar c => [c]
  | TY => print_int (1900 + tm_year t)
  | Tm' => pad 2 (Z.to_N (tm_mon t + 1))
  | Td => pad 2 (Z.to_N (tm_mday t))
  | TH => pad 2 (Z.to_N (tm_hour t))
  | TM => pad 2 (Z.to_N (tm_min t))
  | TS => pad 2 (Z.to_N (tm_sec t))
  end.

(** What [strftime(s, max, format, t)] stores before the NUL; [None] when the
    text and the NUL do not fit and the array is left with unspecified contents. *)
Definition strftime (max : Z) (format : list time_directive) (t : tm) : option (list Z) :=
  let text := concat (map (λ d, time_item d t) format) in
  if Z.of_nat (length text) + 1 <=? max then Some text else None.

(** "%Y-%m-%d %H:%M:%S" *)
Definition date_format : list time_directive :=
  [TY; TChar 45; Tm'; TChar 45; Td; TChar 32; TH; TChar 58; TM; TChar 58; TS].

(** [size] is [sizeof string]; [localtime] returns [NULL] for a year that does
    not fit an [int]. *)
Definition timer_tostring (localtime : Z → option tm) (size : Z) (timer_name : timeval) : outcome (option (list Z)) :=
  match localtime (tv_sec timer_name) with
  | None => Fault NullDeref
  | Some now => mret (strftime size date_format now)
  end.

(** ** [CLOCK_READ] *)
Definition CLOCK_READ (hi lo : Z) : Z := u64 (Z.lor (Z.shiftl hi 32) lo).

Lemma lor_shiftl_add a b n : 0 <= n → 0 <= b < 2 ^ n → Z.lor (Z.shiftl a n) b = a * 2 ^ n + b.
Proof.
  intros Hn Hb. assert (Hl : Z.land (Z.shiftl a n) b = 0).
  { apply Z.bits_inj'. intros i Hi. rewrite Z.land_spec, Z.bits_0, Z.shiftl_spec by done.
    destruct (Z.lt_ge_cases i n) as [Hlt|Hge]; [by rewrite Z.testbit_neg_r by lia|].
    rewrite <-(Z.mod_small b (2 ^ n)), Z.mod_pow2_bits_high by lia. apply andb_false_r. }
  by rewrite <-Z.lxor_lor, <-Z.add_nocarry_lxor, Z.shiftl_mul_pow2.
Qed.

(** The counter is put together from its halves, and the seed that the load
    generators give to [srandom], an [unsigned int], is the lower one. *)
Lemma CLOCK_READ_halves hi lo :
  is_u32 hi → is_u32 lo → CLOCK_READ hi lo = hi * 2 ^ 32 + lo ∧ u32 (CLOCK_READ hi lo) = lo.
Proof.
  unfold is_u32. intros Hh Hl. unfold CLOCK_READ. rewrite lor_shiftl_add by lia. rewrite u64_id by (unfold is_u64; lia).
  split; [done|]. unfold u32. rewrite Z.add_comm, Z.mod_add by lia. by apply Z.mod_small.
Qed.

(** ** The text of a date *)
Definition tm_ok (t : tm) : Prop :=
  1000 <= 1900 + tm_year t <= 9999 ∧ 0 <= tm_mon t <= 11 ∧ 1 <= tm_mday t <= 31 ∧
  0 <= tm_hour t <= 23 ∧ 0 <= tm_min t <= 59 ∧ 0 <= tm_sec t <= 60.

Lemma scan_pad k n rest :
  (n < 10 ^ N.of_nat (S k))%N → Z.of_N n < 2 ^ 31 → stops rest → scan_int (pad (S k) n ++ rest) = Some (Z.of_N n, rest).
Proof.
  intros Hn Hz Hr. pose proof (pad_digits (S k) n) as Hd. pose proof (length_pad (S k) n) as Hl.
  pose proof (pad_value (S k) n 0) as Hv. destruct (pad (S k) n) as [|c l] eqn:E; [done|].
  pose proof Hd as [Hc _]%Forall_cons. unfold scan_int. cbn [app]. rewrite is_digit_sign by done.
  change (c :: l ++ rest) with ((c :: l) ++ rest). rewrite digits_app by done. rewrite Hv, Hl, N.mod_small by done.
  cbn [Nat.add]. rewrite N.mul_0_l, N.add_0_l. unfold clamp_long.
  rewrite Z.min_r, Z.max_r, s32_id by (unfold is_s32; lia). done.
Qed.

Lemma scan_int_skip l : scan_int (skip_space l) = scan_int l.
Proof.
  unfold scan_int. assert (skip_space (skip_space l) = skip_space l) as ->; [|done].
  induction l as [|c l IH]; [done|]. cbn [skip_space]. destruct (is_space c) eqn:E; [done|]. cbn [skip_space]. by rewrite E.
Qed.

Lemma scan_two z rest : 0 <= z < 100 → stops rest → scan_int (pad 2 (Z.to_N z) ++ rest) = Some (z, rest).
Proof.
  intros Hz Hr. rewrite scan_pad; [by rewrite Z2N.id by lia| |lia|done].
  change (10 ^ N.of_nat 2)%N with 100%N. lia.
Qed.

Lemma length_print_digits fuel n k :
  (10 ^ N.of_nat k <= n < 10 ^ N.of_nat (S k))%N → (S k <= fuel)%nat → length (print_digits fuel n []) = S k.
Proof.
  revert n k. induction fuel as [|fuel IH]; intros n k Hn Hf; [lia|]. cbn [print_digits]. destruct (N.ltb_spec n 10).
  - destruct k as [|k]; [done|]. rewrite Nat2N.inj_succ, N.pow_succ_r' in Hn.
    pose proof (N.pow_nonzero 10 (N.of_nat k)). lia.
  - rewrite print_digits_acc, length_app. cbn [length]. destruct k as [|k]; [cbn in Hn; lia|].
    rewrite (IH (n / 10)%N k); [lia| |lia]. rewrite !Nat2N.inj_succ, !N.pow_succ_r' in *.
    split; [apply N.div_le_lower_bound; lia|apply N.Div0.div_lt_upper_bound; lia].
Qed.

Lemma length_year y : 1000 <= y <= 9999 → length (print_int y) = 4%nat.
Proof.
  intros Hy. unfold print_int. replace (y <? 0) with false by (symmetry; apply Z.ltb_ge; lia). unfold print_nat.
  apply (length_print_digits _ _ 3); [cbn; lia|].
  assert (9 <= N.log2 (Z.to_N y))%N; [|lia]. change 9%N with (N.log2 1000). apply N.log2_le_mono. lia.
Qed.

(** A date of four-digit year takes 20 bytes with its NUL; in an array of that
    size it is stored and [sscanf] reads the date back, and in a smaller one (an
    array passed as a pointer has [sizeof] 8) nothing is promised. *)
Theorem timer_tostring_reads_back localtime size t d :
  localtime (tv_sec t) = Some d → tm_ok d →
  (size < 20 → timer_tostring localtime size t = Val None) ∧
  (20 <= size → ∃ text, timer_tostring localtime size t = Val (Some text) ∧ length text = 19%nat ∧
     sscanf ([DInt; DLit 45; DInt; DLit 45; DInt; DSpace; DInt; DLit 58; DInt; DLit 58; DInt]) text
       = map SInt [1900 + tm_year d; tm_mon d + 1; tm_mday d; tm_hour d; tm_min d; tm_sec d]).
Proof.
  intros Hl (Hy & Hm & Hd & Hh & Hmi & Hs). unfold timer_tostring. rewrite Hl. unfold strftime.
  set (text := concat _). assert (Ht : length text = 19%nat).
  { unfold text. cbn [map date_format concat time_item]. rewrite !length_app, !length_pad, length_year by done. done. }
  rewrite Ht. split; intros Hsize; [by rewrite (proj2 (Z.leb_gt _ _)) by lia|].
  rewrite (proj2 (Z.leb_le _ _)) by lia. exists text. split; [done|]. split; [done|].
  unfold text. cbn [map date_format concat time_item app].
  cbn [sscanf]. rewrite scan_print_int by (done || (unfold is_s32; lia)).
  do 5 (cbn [sscanf app Z.eqb Pos.eqb skip_space is_space orb]; rewrite ?scan_int_skip, scan_two by (done || lia)).
  done.
Qed.

Lemma timer_tostring_reads_back_witness :
  timer_tostring (λ _, Some (Tm 115 2 21 9 5 7)) 8 (Timeval 1426928707 0) = Val None ∧
  ∃ text, timer_tostring (λ _, Some (Tm 115 2 21 9 5 7)) 64 (Timeval 1426928707 0) = Val (Some text) ∧
    text = chars "2015-03-21 09:05:07".
Proof.
  destruct (timer_tostring_reads_back (λ _, Some (Tm 115 2 21 9 5 7)) 8 (Timeval 1426928707 0) (Tm 115 2 21 9 5 7) eq_refl)
    as [H _]; [unfold tm_ok; cbn; lia|].
  destruct (timer_tostring_reads_back (λ _, Some (Tm 115 2 21 9 5 7)) 64 (Timeval 1426928707 0) (Tm 115 2 21 9 5 7) eq_refl)
    as [_ H']; [unfold tm_ok; cbn; lia|].
  split; [apply H; lia|]. destruct H' as (text & E & _); [lia|]. exists text. split; [exact E|].
  vm_compute in E. injection E as <-. vm_compute. reflexivity.
Defined.
