(* ===== verification/MlModel.v ===== *)
(** * controller/ml_model.c, controller/system_features.h

    The predictors the controller runs on the features a VM sends. *)
From S2P Require Import Prelude CFloat.
From Stdlib Require Import Floats.SpecFloat.
Open Scope Z_scope.

(** ** system_features.h *)
Record system_features := SystemFeatures {
  time : f32;
  n_th : Z;
  mem_total : Z; mem_used : Z; mem_free : Z; mem_shared : Z; mem_buffers : Z; mem_cached : Z;
  swap_total : Z; swap_used : Z; swap_free : Z;
  cpu_user : f32; cpu_nice : f32; cpu_system : f32; cpu_iowait : f32; cpu_steal : f32; cpu_idle : f32
}.

Record system_features_with_slopes := WithSlopes {
  gen_time : f32;
  n_th_slope : f32; mem_used_slope : f32; mem_free_slope : f32;
  swap_used_slope : f32; swap_free_slope : f32;
  cpu_user_slope : f32; cpu_system_slope : f32; cpu_idle_slope : f32;
  f_n_th : Z;
  f_mem_total : Z; f_mem_used : Z; f_mem_free : Z; f_mem_shared : Z; f_mem_buffers : Z; f_mem_cached : Z;
  f_swap_total : Z; f_swap_used : Z; f_swap_free : Z;
  f_cpu_user : f32; f_cpu_nice : f32; f_cpu_system : f32; f_cpu_iowait : f32; f_cpu_steal : f32; f_cpu_idle : f32
}.

#[export] Instance system_features_eq_dec : EqDecision system_features.
Proof. solve_decision. Defined.

(** ** calculate_linear_regression

    The constants are [double]; a [float] or [int] operand is converted to
    [double] first, the sum is taken from left to right, and the result is
    rounded to [float] by the [return]. *)
Definition calculate_linear_regression (f : system_features_with_slopes) : f32 :=
  let c m k := dec64 false m k in
  let c' m k := SFopp (dec64 false m k) in
  let fl x := f64_of_f32 x in
  let i z := f64_of_Z z in
  let s := mul64 (c 5929%N (-4)) (fl (gen_time f)) in
  let s := add64 s (mul64 (c' 2645%N (-4)) (fl (n_th_slope f))) in
  let s := add64 s (mul64 (c' 2%N (-4)) (fl (mem_used_slope f))) in
  let s := add64 s (mul64 (c 2%N (-4)) (fl (mem_free_slope f))) in
  let s := add64 s (mul64 (c 4242%N (-4)) (fl (cpu_user_slope f))) in
  let s := add64 s (mul64 (c' 9884%N (-4)) (fl (cpu_idle_slope f))) in
  let s := add64 s (mul64 (c' 459%N (-3)) (i (f_n_th f))) in
  let s := add64 s (mul64 (c 2%N (-4)) (i (f_mem_free f))) in
  let s := add64 s (mul64 (c' 13%N (-4)) (i (f_mem_buffers f))) in
  let s := add64 s (mul64 (c 1%N (-4)) (i (f_mem_cached f))) in
  let s := add64 s (mul64 (c' 4%N (-4)) (i (f_swap_used f))) in
  let s := add64 s (mul64 (c 11191%N (-4)) (fl (f_cpu_user f))) in
  let s := add64 s (mul64 (c 9517%N (-4)) (fl (f_cpu_system f))) in
  let s := add64 s (mul64 (c 8971%N (-4)) (fl (f_cpu_idle f))) in
  let s := add64 s (c 2428923%N (-4)) in
  f32_of_f64 s.

(** The assignments to the local [f], which holds [f0] before: the members
    [mem_total], [mem_free], [mem_shared], [mem_cached], [swap_total],
    [swap_free] and [cpu_steal] are not assigned.  The instantaneous values come
    from [base] ([init_features] or [last_features]).  The [int] differences
    wrap. *)
Definition fill_features (f0 : system_features_with_slopes)
    (last_features current_features base : system_features) : system_features_with_slopes :=
  let d x y := f32_of_Z (s32 (x - y)) in
  WithSlopes
    (sub32 (time current_features) (time last_features))
    (d (n_th current_features) (n_th last_features))
    (d (mem_used current_features) (mem_used last_features))
    (d (mem_free current_features) (mem_free last_features))
    (d (swap_used current_features) (swap_used last_features))
    (d (swap_free current_features) (swap_free last_features))
    (sub32 (cpu_user current_features) (cpu_user last_features))
    (sub32 (cpu_system current_features) (cpu_system last_features))
    (sub32 (cpu_idle current_features) (cpu_idle last_features))
    (n_th base)
    (f_mem_total f0) (mem_used base) (f_mem_free f0) (f_mem_shared f0) (mem_buffers base) (f_mem_cached f0)
    (f_swap_total f0) (swap_used base) (f_swap_free f0)
    (cpu_user base) (cpu_nice base) (cpu_system base) (cpu_iowait base) (f_cpu_steal f0) (cpu_idle base).

Definition get_predicted_mttf (f0 : system_features_with_slopes) (ml_model : Z)
    (last_features current_features init_features : system_features) : f32 :=
  calculate_linear_regression (fill_features f0 last_features current_features init_features).

Definition get_predicted_rttc (f0 : system_features_with_slopes) (ml_model : Z)
    (last_features current_features : system_features) : f32 :=
  calculate_linear_regression (fill_features f0 last_features current_features last_features).

(** ** Reference: the model as an ordered dot product *)
Definition coefficients : list f64 :=
  map (λ '(s, m, k), if (s : bool) then SFopp (dec64 false m k) else dec64 false m k)
    [(false, 5929%N, -4); (true, 2645%N, -4); (true, 2%N, -4); (false, 2%N, -4); (false, 4242%N, -4);
     (true, 9884%N, -4); (true, 459%N, -3); (false, 2%N, -4); (true, 13%N, -4); (false, 1%N, -4);
     (true, 4%N, -4); (false, 11191%N, -4); (false, 9517%N, -4); (false, 8971%N, -4)].

Definition regressors (f : system_features_with_slopes) : list f64 :=
  map f64_of_f32 [gen_time f; n_th_slope f; mem_used_slope f; mem_free_slope f; cpu_user_slope f; cpu_idle_slope f] ++
  map f64_of_Z [f_n_th f; f_mem_free f; f_mem_buffers f; f_mem_cached f; f_swap_used f] ++
  map f64_of_f32 [f_cpu_user f; f_cpu_system f; f_cpu_idle f].

Definition dot (ws xs : list f64) : f64 :=
  match zip_with mul64 ws xs with
  | [] => zero
  | p :: ps => foldl add64 p ps
  end.

Lemma foldl_add_nan xs : foldl add64 S754_nan xs = S754_nan.
Proof. induction xs; [done|]. apply IHxs. Qed.

Lemma foldl_add_absorb xs a : S754_nan ∈ xs → foldl add64 a xs = S754_nan.
Proof.
  revert a. induction xs as [|x xs IH]; intros a Hin; [by apply not_elem_of_nil in Hin|].
  apply elem_of_cons in Hin as [<-|Hin]; simpl.
  - unfold add64. rewrite SFadd_nan_r. apply foldl_add_nan.
  - by apply IH.
Qed.

Lemma dot_nan ws xs : (length xs <= length ws)%nat → S754_nan ∈ xs → dot ws xs = S754_nan.
Proof.
  intros Hlen Hin. unfold dot.
  assert (S754_nan ∈ zip_with mul64 ws xs) as H.
  { apply list_elem_of_lookup in Hin as [i Hi].
    destruct (lookup_lt_is_Some_2 ws i) as [w Hw]; [apply lookup_lt_Some in Hi; lia|].
    apply list_elem_of_lookup. exists i. rewrite lookup_zip_with, Hw; simpl. rewrite Hi; simpl.
    f_equal; apply SFmul_nan_r. }
  destruct (zip_with mul64 ws xs) as [|p ps]; [by apply not_elem_of_nil in H|].
  apply elem_of_cons in H as [<-|H]; [apply foldl_add_nan|by apply foldl_add_absorb].
Qed.

#[local] Opaque dec64 mul64 add64 f32_of_f64 f64_of_f32 f64_of_Z.
Lemma regression_dot f :
  calculate_linear_regression f
    = f32_of_f64 (add64 (dot coefficients (regressors f)) (dec64 false 2428923 (-4))).
Proof. reflexivity. Qed.
#[local] Transparent dec64 mul64 add64 f32_of_f64 f64_of_f32 f64_of_Z.

(** ** What a prediction depends on *)

(** The members of the features the predictors read. *)
Definition slope_view (x : system_features) :=
  (time x, n_th x, mem_used x, mem_free x, cpu_user x, cpu_idle x).
Definition base_view (x : system_features) :=
  (n_th x, mem_buffers x, swap_used x, cpu_user x, cpu_system x, cpu_idle x).

Lemma regressors_ext f0 f0' l c b l' c' b' :
  slope_view l = slope_view l' → slope_view c = slope_view c' → base_view b = base_view b' →
  f_mem_free f0 = f_mem_free f0' → f_mem_cached f0 = f_mem_cached f0' →
  regressors (fill_features f0 l c b) = regressors (fill_features f0' l' c' b').
Proof.
  unfold slope_view, base_view. intros [=] [=] [=] ? ?. unfold regressors, fill_features.
  cbn [gen_time n_th_slope mem_used_slope mem_free_slope cpu_user_slope cpu_idle_slope f_n_th f_mem_free
       f_mem_buffers f_mem_cached f_swap_used f_cpu_user f_cpu_system f_cpu_idle]. congruence.
Qed.

(** A prediction is a function of six members of each pair of datapoints
    and of two members of the local struct the code never writes; neither the
    model number nor any other feature has a part in it, and the predictor of
    the time to failure is the predictor of the remaining time with the
    instantaneous values taken from the first datapoint. *)
Theorem prediction_footprint f0 f0' m m' l l' c c' b :
  slope_view l = slope_view l' → slope_view c = slope_view c' → base_view b = base_view l' →
  f_mem_free f0 = f_mem_free f0' → f_mem_cached f0 = f_mem_cached f0' →
  get_predicted_mttf f0 m l c b = get_predicted_rttc f0' m' l' c'.
Proof.
  intros. unfold get_predicted_mttf, get_predicted_rttc. rewrite !regression_dot. do 3 f_equal.
  apply regressors_ext; congruence.
Qed.

Lemma rttc_mttf f0 m l c : get_predicted_rttc f0 m l c = get_predicted_mttf f0 m l c l.
Proof. unfold get_predicted_rttc, get_predicted_mttf. reflexivity. Qed.

(** A pair of datapoints with a NaN among the floats the model reads. *)
Definition nan_input (l c b : system_features) : Prop :=
  Exists (λ x, x = S754_nan)
    [time l; cpu_user l; cpu_idle l; time c; cpu_user c; cpu_idle c; cpu_user b; cpu_system b; cpu_idle b].

Lemma regressors_nan f0 l c b : nan_input l c b → S754_nan ∈ regressors (fill_features f0 l c b).
Proof.
  intros H. unfold regressors, fill_features, sub32.
  cbn [map app gen_time n_th_slope mem_used_slope mem_free_slope cpu_user_slope cpu_idle_slope f_n_th f_mem_free
       f_mem_buffers f_mem_cached f_swap_used f_cpu_user f_cpu_system f_cpu_idle].
  unfold nan_input in H. rewrite !Exists_cons, Exists_nil in H.
  repeat destruct H as [H|H]; try done; rewrite H;
    rewrite ?SFsub_nan_l, ?SFsub_nan_r; rewrite ?elem_of_cons; cbn; tauto.
Qed.

(** [TTC_THRESHOLD] of server.c *)
Definition TTC_THRESHOLD : Z := 300.

(** A NaN in a datapoint (the wire format admits it: [%f] reads "nan")
    makes both predictions NaN, and the comparison with the threshold false: no
    such datapoint ever triggers a rejuvenation. *)
Theorem nan_never_rejuvenates f0 m l c b :
  nan_input l c b →
  get_predicted_mttf f0 m l c b = S754_nan ∧
  (b = l → get_predicted_rttc f0 m l c = S754_nan ∧
           flt (get_predicted_rttc f0 m l c) (f32_of_Z TTC_THRESHOLD) = false).
Proof.
  intros H.
  assert (Hm : get_predicted_mttf f0 m l c b = S754_nan).
  { unfold get_predicted_mttf. rewrite regression_dot, dot_nan; [exact eq_refl|simpl; lia|].
    by apply regressors_nan. }
  split; [exact Hm|]. intros ->.
  assert (Hr : get_predicted_rttc f0 m l c = S754_nan) by (rewrite rttc_mttf; exact Hm).
  split; [exact Hr|]. rewrite Hr. exact eq_refl.
Qed.

Definition quiet : system_features :=
  SystemFeatures zero 0 0 0 0 0 0 0 0 0 0 zero zero zero zero zero zero.
Definition garbage (z : Z) : system_features_with_slopes :=
  WithSlopes zero zero zero zero zero zero zero zero zero 0 0 0 z 0 0 0 0 0 0 zero zero zero zero zero zero.

(** Whether a VM is rejuvenated depends on memory the program never
    wrote: the same two datapoints are below and above the threshold with two
    contents of the local struct's [mem_free]. *)
Theorem uninitialised_member_decides :
  ∃ l c f0 f0', f0 = garbage 0 ∧ f0' = garbage 1000000 ∧
    flt (get_predicted_rttc f0 0 l c) (f32_of_Z TTC_THRESHOLD) = true ∧
    flt (get_predicted_rttc f0' 0 l c) (f32_of_Z TTC_THRESHOLD) = false.
Proof. exists quiet, quiet, (garbage 0), (garbage 1000000). by vm_compute. Qed.

(** ** Witnesses *)
Definition busy : system_features :=
  SystemFeatures (dec32 false 105 (-1)) 120 2048 900 100 7 50 200 1024 12 1012
    (dec32 false 251 (-1)) zero (dec32 false 5 0) zero zero (dec32 false 699 (-1)).

Lemma prediction_footprint_witness :
  get_predicted_mttf (garbage 3) 0 quiet busy quiet
    = get_predicted_rttc (garbage 3) 5 (SystemFeatures zero 0 9 0 0 9 0 9 9 0 9 zero zero zero zero zero zero) busy.
Proof. apply prediction_footprint; reflexivity. Defined.

Lemma nan_never_rejuvenates_witness :
  get_predicted_rttc (garbage 0) 0 quiet (SystemFeatures S754_nan 0 0 0 0 0 0 0 0 0 0 zero zero zero zero zero zero) = S754_nan.
Proof.
  apply (nan_never_rejuvenates (garbage 0) 0 quiet _ quiet); [|reflexivity].
  unfold nan_input; rewrite !Exists_cons; simpl; tauto.
Defined.
