(* ===== verification/Protocol.v ===== *)
(** * Messages between the client, the controller and the load balancer

    The structs the three programs send to each other as raw memory
    (controller/commands.h, server.c, balancer.c, client.c): little-endian
    [int]s, strings in 16-byte arrays. *)
From S2P Require Import Prelude.
Open Scope Z_scope.

(** ** commands.h *)
Definition WAITING_DATA : Z := 0.
Definition CONTINUE : Z := 1.
Definition REJUVENATE : Z := 2.
Definition READY : Z := 3.
Definition STARTING_REJUVENATING : Z := 4.

(** ** Enumerations of server.c, balancer.c and client.c ([unsigned int] on the wire) *)
Definition NUMBER_GROUPS : Z := 3.
Definition NUMBER_VMs : Z := 5.

Definition ADD : Z := 0.
Definition DELETE : Z := 1.
Definition REJ : Z := 2.

Definition STAND_BY : Z := 0.
Definition ACTIVE : Z := 1.
Definition REJUVENATING : Z := 2.

(** [struct vm_service] of server.c *)
Record vm_service := VmService { service : Z; state : Z; provided_port : Z }.

(** [struct virtual_machine], the same in server.c and balancer.c *)
Record virtual_machine := VirtualMachine { ip : list Z; port : Z; vm_srv : Z; op : Z }.

#[export] Instance vm_service_eq_dec : EqDecision vm_service.
Proof. solve_decision. Defined.
#[export] Instance virtual_machine_eq_dec : EqDecision virtual_machine.
Proof. solve_decision. Defined.

(** ** Memory representation *)
Definition le32 (z : Z) : list Z :=
  let u := u32 z in [u mod 256; u / 256 mod 256; u / 65536 mod 256; u / 16777216 mod 256].

Definition of_le32 (l : list Z) : Z :=
  match l with
  | b0 :: b1 :: b2 :: b3 :: _ => b0 + b1 * 256 + b2 * 65536 + b3 * 16777216
  | _ => 0
  end.

(** The size of the buffers of server.c and client.c. *)
Definition BUFSIZE : Z := 4096.

(** A string in a [char] array: its characters, the terminator, and what the
    array held before. *)
Definition put_string (s old : list Z) : list Z := s ++ 0 :: drop (S (length s)) old.
Fixpoint get_string (l : list Z) : list Z :=
  match l with
  | c :: l => if c =? 0 then [] else c :: get_string l
  | [] => []
  end.

(** [struct virtual_machine]: 28 bytes; [old] is the 16 bytes of [ip] before the [strcpy]. *)
Definition encode_vm (old : list Z) (m : virtual_machine) : list Z :=
  put_string (ip m) old ++ le32 (port m) ++ le32 (vm_srv m) ++ le32 (op m).

Definition decode_vm (l : list Z) : virtual_machine :=
  VirtualMachine (get_string (take 16 l)) (s32 (of_le32 (drop 16 l)))
                 (u32 (of_le32 (drop 20 l))) (u32 (of_le32 (drop 24 l))).

(** [struct vm_service] of server.c (12 bytes), and of client.c (8 bytes,
    without [provided_port]).  [recv] overwrites a prefix of the struct. *)
Definition decode_service (l : list Z) : vm_service :=
  VmService (u32 (of_le32 l)) (u32 (of_le32 (drop 4 l))) (s32 (of_le32 (drop 8 l))).
Definition client_service (srv st : Z) : list Z := le32 srv ++ le32 st.
Definition recv_into (data mem : list Z) : list Z := data ++ drop (length data) mem.

(** ** Round trips *)
Lemma length_le32 z : length (le32 z) = 4%nat.
Proof. done. Qed.

Lemma of_le32_app z rest : of_le32 (le32 z ++ rest) = u32 z.
Proof.
  pose proof (u32_range z) as Hr. unfold le32. cbn zeta. generalize dependent (u32 z). clear z. intros z Hz.
  unfold is_u32 in Hz. cbn [of_le32 app].
  pose proof (Z.div_mod z 256 ltac:(lia)). pose proof (Z.div_mod (z / 256) 256 ltac:(lia)).
  pose proof (Z.div_mod (z / 65536) 256 ltac:(lia)).
  assert (z / 256 / 256 = z / 65536) by (rewrite Z.div_div by lia; done).
  assert (z / 65536 / 256 = z / 16777216) by (rewrite Z.div_div by lia; done).
  rewrite (Z.mod_small (z / 16777216)) by (split; [apply Z.div_pos; lia|apply Z.div_lt_upper_bound; lia]).
  lia.
Qed.

Lemma s32_u32 z : s32 (u32 z) = s32 z.
Proof.
  unfold u32. pose proof (Z.div_mod z (2 ^ 32) ltac:(lia)) as H.
  rewrite <-(s32_shift (z mod 2 ^ 32) (z / 2 ^ 32)). f_equal. lia.
Qed.

Lemma get_string_put s old :
  Forall (λ c, c ≠ 0) s → get_string (put_string s old) = s.
Proof.
  intros H. unfold put_string. generalize (drop (S (length s)) old). intros l.
  induction H as [|c s Hc H IH]; simpl; [done|]. apply Z.eqb_neq in Hc. by rewrite Hc, IH.
Qed.

Lemma length_put_string s old :
  (length s < length old)%nat → length (put_string s old) = length old.
Proof. intros H. unfold put_string. rewrite length_app; cbn [length]. rewrite length_drop. lia. Qed.

(** A message as its sender writes it. *)
Definition vm_message (m : virtual_machine) : Prop :=
  (length (ip m) <= 15)%nat ∧ Forall (λ c, c ≠ 0) (ip m) ∧ is_s32 (port m) ∧ is_u32 (vm_srv m) ∧ is_u32 (op m).

(** Whatever follows the struct in memory. *)
Lemma decode_encode_vm old m rest :
  length old = 16%nat → vm_message m → length (encode_vm old m) = 28%nat ∧ decode_vm (encode_vm old m ++ rest) = m.
Proof.
  intros Ho (Hl & Hn & Hp & Hs & Hop). pose proof (length_put_string (ip m) old ltac:(lia)) as Hlen.
  unfold encode_vm, decode_vm. split; [rewrite !length_app, Hlen, Ho; done|]. rewrite <-!(assoc_L (++)).
  rewrite take_app_le, take_ge by lia. rewrite get_string_put by done.
  rewrite drop_app_length' by lia.
  rewrite (drop_app_ge _ _ 20), (drop_app_ge _ _ 24), Hlen, Ho by lia.
  change (drop (20 - 16)%nat (le32 (port m) ++ le32 (vm_srv m) ++ le32 (op m) ++ rest))
    with (le32 (vm_srv m) ++ le32 (op m) ++ rest).
  change (drop (24 - 16)%nat (le32 (port m) ++ le32 (vm_srv m) ++ le32 (op m) ++ rest)) with (le32 (op m) ++ rest).
  rewrite !of_le32_app, s32_u32, s32_id, !(u32_id (vm_srv m)), !(u32_id (op m)) by (done || by rewrite u32_id). by destruct m.
Qed.

(** What the controller sends the load balancer reads back: the 28 bytes
    of a [struct virtual_machine] decode to the message, whatever bytes follow
    the address in its array. *)
Theorem virtual_machine_roundtrip old m :
  length old = 16%nat → vm_message m → length (encode_vm old m) = 28%nat ∧ decode_vm (encode_vm old m) = m.
Proof. intros Ho Hm. rewrite <-(app_nil_r (encode_vm old m)) at 2. by apply decode_encode_vm. Qed.

Lemma virtual_machine_roundtrip_witness :
  decode_vm (encode_vm (replicate 16 170) (VirtualMachine [49;48;46;48;46;48;46;55] (-28641) 2 REJ))
    = VirtualMachine [49;48;46;48;46;48;46;55] (-28641) 2 REJ.
Proof.
  apply virtual_machine_roundtrip; [reflexivity|].
  split; [simpl; lia|]. split; [repeat constructor; discriminate|].
  split; [vm_compute; split; congruence|]. split; vm_compute; split; congruence.
Defined.

Lemma client_service_layout srv st mem :
  length mem = 12%nat → is_u32 srv → is_u32 st →
  decode_service (recv_into (client_service srv st) mem)
    = VmService srv st (s32 (of_le32 (drop 8 mem))).
Proof.
  intros Hm Hs Ht. unfold recv_into, client_service, decode_service. rewrite !length_app, !length_le32.
  rewrite <-!(assoc_L (++)), of_le32_app.
  change (drop 4 (le32 srv ++ le32 st ++ drop (4 + 4) mem)) with (le32 st ++ drop 8 mem).
  change (drop 8 (le32 srv ++ le32 st ++ drop (4 + 4) mem)) with (drop 8 mem).
  by rewrite of_le32_app, !(u32_id srv), !(u32_id st) by (done || by rewrite u32_id).
Qed.

(** The two ends of the handshake declare different structs: the 8 bytes
    a client sends give the controller the service and the state, and leave in
    [provided_port] whatever the controller's stack held. *)
Theorem handshake_layout srv st mem :
  length mem = 12%nat → is_u32 srv → is_u32 st →
  decode_service (recv_into (client_service srv st) mem)
    = VmService srv st (s32 (of_le32 (drop 8 mem))).
Proof. apply client_service_layout. Qed.

Lemma handshake_layout_witness :
  decode_service (recv_into (client_service 1 ACTIVE) (replicate 12 255)) = VmService 1 ACTIVE (-1).
Proof. rewrite handshake_layout; [reflexivity..|vm_compute; split; congruence|vm_compute; split; congruence]. Defined.
