(* ===== verification/Groups.v ===== *)
(** * controller/server.c: the table of VMs and the handshake

    The three groups of VMs ([vm_data_set], [current_vms], [allocated_vms]),
    the operations that run under [mutex], and the dialogue that precedes a
    registration.  The threads that call them are in Server.v. *)
From S2P Require Import Prelude CFloat MlModel Protocol SockHelp.
Open Scope Z_scope.

Record vm_data := VmData {
  socket : Z;
  ip_address : list Z;
  vport : Z;
  service_info : vm_service;
  last_features : system_features;
  last_system_features_stored : Z
}.

Definition set_service_info (s : vm_service) (v : vm_data) : vm_data :=
  VmData (socket v) (ip_address v) (vport v) s (last_features v) (last_system_features_stored v).
Definition set_state (st : Z) (v : vm_data) : vm_data :=
  set_service_info (VmService (service (service_info v)) st (provided_port (service_info v))) v.
Definition set_last_features (f : system_features) (v : vm_data) : vm_data :=
  VmData (socket v) (ip_address v) (vport v) (service_info v) f (last_system_features_stored v).
Definition set_stored (z : Z) (v : vm_data) : vm_data :=
  VmData (socket v) (ip_address v) (vport v) (service_info v) (last_features v) z.

Definition group_of (v : vm_data) : Z := service (service_info v).
Definition vm_state (v : vm_data) : Z := state (service_info v).

(** The globals [vm_data_set], [current_vms], [allocated_vms] and the object
    [rej_rate] points to.  A group's memory is the list of its slots, the ones
    above [current_vms] included. *)
Record groups := Groups {
  vm_data_set : list (list vm_data);
  current_vms : list Z;
  allocated_vms : list Z;
  rej_rate : list f32
}.

(** [for (index = 0; index < current_vms[group]; index++)] up to its [break]. *)
Definition find_vm (p : vm_data → bool) (g : groups) (group : Z) : outcome (option Z) :=
  n ← arr_get (current_vms g) group;
  slots ← arr_get (vm_data_set g) group;
  find_slot p slots 0 (Z.to_nat n).

Definition same_ip (a b : list Z) : bool := bool_decide (a = b).

(** Stores a slot of a group. *)
Definition set_slot (g : groups) (group index : Z) (v : vm_data) : outcome groups :=
  slots ← arr_get (vm_data_set g) group;
  slots' ← arr_set slots index v;
  sets ← arr_set (vm_data_set g) group slots';
  mret (Groups sets (current_vms g) (allocated_vms g) (rej_rate g)).

Definition set_current (g : groups) (group n : Z) : outcome groups :=
  c ← arr_set (current_vms g) group n;
  mret (Groups (vm_data_set g) c (allocated_vms g) (rej_rate g)).

(** ** manage_disconnected_vms: the slot of the address is filled with the last one *)
Definition manage_disconnected_vms (vm : vm_data) (g : groups) : outcome groups :=
  let group := s32 (group_of vm) in
  found ← find_vm (λ v, same_ip (ip_address v) (ip_address vm)) g group;
  match found with
  | None => mret g
  | Some index =>
      n ← arr_get (current_vms g) group;
      g ← set_current g group (n - 1);
      slots ← arr_get (vm_data_set g) group;
      last ← arr_get slots (n - 1);
      set_slot g group index last
  end.

(** ** switch_active_machine, up to its [send]

    [vm] is the callee's own copy of the caller's struct: the state and the flag
    it sets are in the second component of the result, which its caller never
    sees. *)
Definition switch_active_machine (vm : vm_data) (g : groups) : outcome (groups * vm_data) :=
  let vm := set_state REJUVENATING vm in
  let group := group_of vm in
  found ← find_vm (λ v, vm_state v =? STAND_BY) g group;
  g ← match found with
      | None => mret g
      | Some index =>
          slots ← arr_get (vm_data_set g) group;
          v ← arr_get slots index;
          set_slot g group index (set_state ACTIVE v)
      end;
  mret (g, set_stored 0 vm).

(** ** accept_new_client: the registration, under [mutex] *)

(** The contents of the new part of the two blocks that [realloc] returns, by
    index; [None] is a [NULL] from [realloc].  [rates_move]: the block of the
    rates is moved, which matters to the threads that use it (Server.v). *)
Record fresh_memory := FreshMemory { fresh_slots : option (Z → vm_data); fresh_rates : option (Z → f32); rates_move : bool }.

(** [realloc] to [2 * allocated_vms] slots, and of [rej_rate] to
    [sizeof(float)*NUMBER_GROUPS*NUMBER_VMs + allocated - previously_allocated]
    bytes, of which whole [float]s can be stored to.  A [NULL] for the slots is
    dereferenced by the assignment that follows; a [NULL] for the rates leaves
    no element to store to. *)
Definition rate_bytes (allocated : Z) : Z := 4 * NUMBER_GROUPS * NUMBER_VMs + 2 * allocated - allocated.

Definition grow (fresh : fresh_memory) (g : groups) (group : Z) : outcome groups :=
  allocated ← arr_get (allocated_vms g) group;
  if decide (is_s32 (2 * allocated)) then
    match fresh_slots fresh with
    | None => Fault NullDeref
    | Some f =>
        slots ← arr_get (vm_data_set g) group;
        sets ← arr_set (vm_data_set g) group (slots ++ map f (seqZ allocated allocated));
        alloc ← arr_set (allocated_vms g) group (2 * allocated);
        let n := rate_bytes allocated / 4 in
        let rates := match fresh_rates fresh with
                     | None => []
                     | Some r => take (Z.to_nat n) (rej_rate g ++ map r (seqZ (Z.of_nat (length (rej_rate g))) n))
                     end in
        mret (Groups sets (current_vms g) alloc rates)
    end
  else Fault SignedOverflow.

(** A client that passed the handshake. *)
Record client := Client { c_socket : Z; c_ip : list Z; c_port : Z; c_service : vm_service }.

(** The assignment phase: [last_features] and [last_system_features_stored] of
    the slot keep what the memory holds.  Returns [index] too. *)
Definition assign_slot (c : client) (g : groups) : outcome (groups * Z) :=
  let group := service (c_service c) in
  n ← arr_get (current_vms g) group;
  slots ← arr_get (vm_data_set g) group;
  old ← arr_get slots n;
  g ← set_slot g group n (VmData (c_socket c) (c_ip c) (c_port c) (c_service c)
                                 (last_features old) (last_system_features_stored old));
  g ← set_current g group (n + 1);
  mret (g, n).

Definition register (c : client) (fresh : fresh_memory) (g : groups) : outcome (groups * Z) :=
  let group := service (c_service c) in
  n ← arr_get (current_vms g) group;
  allocated ← arr_get (allocated_vms g) group;
  g ← (if decide (n = allocated) then grow fresh g group else mret g);
  assign_slot c g.

(** ** accept_new_client: the dialogue

    [mem] is the struct [s].  A turn of the loop has the answer to the [send]
    and, after a "groups", the answer to the [recv]; [closes] counts the calls
    of [close(socket)]. *)
Inductive handshake_result :=
  | HsReturn (closes : nat)                    (* back to the accept loop, nothing registered *)
  | HsClient (s : vm_service) (closes : nat)   (* goes on to the registration *)
  | HsLooping (closes : nat).                  (* still in the loop when the script ends *)

Fixpoint handshake_loop (turns : list (bool * rres)) (mem : list Z) (closes : nat) : handshake_result :=
  match turns with
  | [] => HsLooping closes
  | (send_ok, answer) :: turns =>
      let s := decode_service mem in
      let closes := if send_ok then closes else S closes in
      if NUMBER_GROUPS <=? service s then
        match answer with
        | RFail errno => handshake_loop turns mem (if errno =? EWOULDBLOCK then S closes else closes)
        | RData [] => handshake_loop turns mem (S closes)
        | RData bs => handshake_loop turns (recv_into (take 12 bs) mem) closes
        end
      else HsClient s closes
  end.

Definition handshake (mem : list Z) (first : rres) (turns : list (bool * rres)) : handshake_result :=
  match first with
  | RFail errno => HsReturn (if errno =? EWOULDBLOCK then 1 else 0)
  | RData [] => HsReturn 1
  | RData bs => handshake_loop turns (recv_into (take 12 bs) mem) 0
  end.

(** ** The table's invariant *)

(** The live slots of group [k]. *)
Definition live (g : groups) (k : nat) : list vm_data :=
  match vm_data_set g !! k, current_vms g !! k with
  | Some slots, Some n => take (Z.to_nat n) slots
  | _, _ => []
  end.

(** One group: as many slots as allocated, the live ones tagged with the group. *)
Definition group_ok (k : nat) (slots : list vm_data) (n allocated : Z) : Prop :=
  Z.of_nat (length slots) = allocated ∧ is_s32 allocated ∧ NUMBER_VMs <= allocated ∧ 0 <= n <= allocated ∧
  Forall (λ v, group_of v = Z.of_nat k) (take (Z.to_nat n) slots).

Definition groups_ok (g : groups) : Prop :=
  length (vm_data_set g) = 3%nat ∧ length (current_vms g) = 3%nat ∧ length (allocated_vms g) = 3%nat ∧
  ∀ k slots n allocated, vm_data_set g !! k = Some slots → current_vms g !! k = Some n →
    allocated_vms g !! k = Some allocated → group_ok k slots n allocated.

(** main: every group empty, on [NUMBER_VMs] slots of fresh memory. *)
Definition init_groups (fresh : Z → Z → vm_data) (rates : Z → f32) : groups :=
  Groups (map (λ k, map (fresh k) (seqZ 0 NUMBER_VMs)) (seqZ 0 NUMBER_GROUPS))
         (replicate (Z.to_nat NUMBER_GROUPS) 0) (replicate (Z.to_nat NUMBER_GROUPS) NUMBER_VMs)
         (map rates (seqZ 0 (NUMBER_GROUPS * NUMBER_VMs))).

(** ** Scanning a group *)
(** A group of a well-formed table. *)
Lemma groups_ok_lookup g k :
  groups_ok g → (k < 3)%nat →
  ∃ slots n allocated, vm_data_set g !! k = Some slots ∧ current_vms g !! k = Some n ∧
    allocated_vms g !! k = Some allocated ∧ group_ok k slots n allocated ∧ live g k = take (Z.to_nat n) slots.
Proof.
  intros (H1 & H2 & H3 & H) Hk.
  destruct (lookup_lt_is_Some_2 (vm_data_set g) k) as [slots Es]; [lia|].
  destruct (lookup_lt_is_Some_2 (current_vms g) k) as [n En]; [lia|].
  destruct (lookup_lt_is_Some_2 (allocated_vms g) k) as [a Ea]; [lia|].
  exists slots, n, a. split_and!; try done; [by eapply H|]. unfold live. by rewrite Es, En.
Qed.

Lemma find_vm_live p g k :
  groups_ok g → (k < 3)%nat →
  find_vm p g (Z.of_nat k) = Val ((λ jv, Z.of_nat jv.1) <$> list_find (λ v, p v = true) (live g k)).
Proof.
  intros Hg Hk. destruct (groups_ok_lookup g k Hg Hk) as (slots & n & a & Es & En & Ea & (Hl & _ & _ & Hn & _) & ->).
  unfold find_vm. rewrite (arr_get_nat _ _ _ En). cbn [mbind outcome_bind].
  rewrite (arr_get_nat _ _ _ Es). cbn [mbind outcome_bind].
  change 0 with (Z.of_nat 0). rewrite find_slot_list_find by lia. done.
Qed.

Lemma live_inside g k : groups_ok g → (k < 3)%nat → ∃ n, current_vms g !! k = Some n ∧ length (live g k) = Z.to_nat n.
Proof.
  intros Hg Hk. destruct (groups_ok_lookup g k Hg Hk) as (slots & n & a & Es & En & Ea & (Hl & _ & _ & Hn & _) & ->).
  exists n. split; [done|]. rewrite length_take. lia.
Qed.

(** ** Updating a group *)
Lemma groups_update g k slots n a rates :
  groups_ok g → (k < 3)%nat → group_ok k slots n a →
  let g' := Groups (<[k := slots]> (vm_data_set g)) (<[k := n]> (current_vms g)) (<[k := a]> (allocated_vms g)) rates in
  groups_ok g' ∧ live g' k = take (Z.to_nat n) slots ∧ ∀ k', k' ≠ k → live g' k' = live g k'.
Proof.
  intros (H1 & H2 & H3 & H) Hk Hok g'. split_and!.
  - unfold groups_ok. cbn [g' vm_data_set current_vms allocated_vms]. rewrite !length_insert. split_and!; try done.
    intros k' s' n' a'. destruct (decide (k' = k)) as [->|Hne].
    + rewrite !list_lookup_insert_eq by lia. naive_solver.
    + rewrite !list_lookup_insert_ne by done. apply H.
  - unfold live. cbn [g' vm_data_set current_vms]. by rewrite !list_lookup_insert_eq by lia.
  - intros k' Hne. unfold live. cbn [g' vm_data_set current_vms]. by rewrite !list_lookup_insert_ne by done.
Qed.

(** Two tables that agree outside group [k]. *)
Definition same_but (k : nat) (g g' : groups) : Prop := ∀ k', k' ≠ k → live g' k' = live g k'.

(** Entries a group operation may put in group [k]. *)
Definition tagged (k : nat) (l : list vm_data) : Prop := Forall (λ v, group_of v = Z.of_nat k) l.

Lemma live_tagged g k : groups_ok g → tagged k (live g k).
Proof.
  intros Hg. unfold live. destruct (vm_data_set g !! k) as [slots|] eqn:E1; [|constructor].
  destruct (current_vms g !! k) as [n|] eqn:E2; [|constructor].
  destruct Hg as (_ & H2 & H3 & H). apply lookup_lt_Some in E2 as ?.
  destruct (lookup_lt_is_Some_2 (allocated_vms g) k) as [a Ea]; [lia|].
  by destruct (H k slots n a E1 E2 Ea) as (_ & _ & _ & _ & ?).
Qed.

Lemma get_group g k slots n a {B} (f : list vm_data → outcome B) :
  vm_data_set g !! k = Some slots → current_vms g !! k = Some n → allocated_vms g !! k = Some a →
  (arr_get (vm_data_set g) (Z.of_nat k) ≫= f) = f slots ∧ arr_get (current_vms g) (Z.of_nat k) = Val n ∧
  arr_get (allocated_vms g) (Z.of_nat k) = Val a.
Proof. intros H1 H2 H3. rewrite (arr_get_nat _ _ _ H1). split_and!; [done|by apply arr_get_nat..]. Qed.

Lemma set_slot_val g k slots (i : nat) v :
  vm_data_set g !! k = Some slots → (i < length slots)%nat →
  set_slot g (Z.of_nat k) (Z.of_nat i) v
    = Val (Groups (<[k := <[i := v]> slots]> (vm_data_set g)) (current_vms g) (allocated_vms g) (rej_rate g)).
Proof.
  intros Es Hi. unfold set_slot. rewrite (arr_get_nat _ _ _ Es). cbn [mbind outcome_bind].
  rewrite arr_set_in_bounds, Nat2Z.id by lia. cbn [mbind outcome_bind].
  apply lookup_lt_Some in Es. by rewrite arr_set_in_bounds, Nat2Z.id by lia.
Qed.

Lemma set_current_val g k n n' :
  current_vms g !! k = Some n →
  set_current g (Z.of_nat k) n'
    = Val (Groups (vm_data_set g) (<[k := n']> (current_vms g)) (allocated_vms g) (rej_rate g)).
Proof.
  intros En. apply lookup_lt_Some in En. unfold set_current. by rewrite arr_set_in_bounds, Nat2Z.id by lia.
Qed.

(** ** manage_disconnected_vms *)

(** What it does to the entries of a group. *)
Definition remove_ip (a : list Z) (l : list vm_data) : list vm_data :=
  match list_find (λ v, same_ip (ip_address v) a = true) l with
  | Some (i, _) => swap_remove i l
  | None => l
  end.

Lemma manage_disconnected_vms_spec vm g k :
  groups_ok g → (k < 3)%nat → group_of vm = Z.of_nat k →
  ∃ g', manage_disconnected_vms vm g = Val g' ∧ groups_ok g' ∧
    live g' k = remove_ip (ip_address vm) (live g k) ∧ same_but k g g' ∧ rej_rate g' = rej_rate g.
Proof.
  intros Hg Hk Hvm. unfold manage_disconnected_vms. rewrite Hvm, s32_id by (unfold is_s32; lia).
  rewrite find_vm_live by done. unfold remove_ip. cbn [mbind outcome_bind].
  destruct (list_find _ (live g k)) as [[i v]|] eqn:Hf; cbn [fmap option_fmap option_map fst]; [|by exists g].
  apply list_find_Some in Hf as (Hi & Hip & _).
  destruct (groups_ok_lookup g k Hg Hk) as (slots & n & a & Es & En & Ea & (Hl & Hs & Hmin & Hn & Ht) & Hlive).
  rewrite Hlive in *. apply lookup_lt_Some in Hi as Hlt. rewrite length_take in Hlt.
  rewrite (arr_get_nat _ _ _ En). cbn [mbind outcome_bind]. rewrite (set_current_val _ _ _ _ En).
  cbn [mbind outcome_bind vm_data_set]. rewrite (arr_get_nat _ _ _ Es). cbn [mbind outcome_bind].
  destruct (lookup_lt_is_Some_2 slots (Z.to_nat (n - 1))) as [w Hw]; [lia|].
  rewrite (proj2 (arr_get_Val slots (n - 1) w)) by (split; [lia|done]). cbn [mbind outcome_bind].
  rewrite (set_slot_val _ _ slots) by (done || lia).
  assert (Hrm : take (Z.to_nat (n - 1)) (<[i := w]> slots) = swap_remove i (take (Z.to_nat n) slots)).
  { apply take_swap_remove; [lia|done]. }
  assert (Hok : group_ok k (<[i := w]> slots) (n - 1) a).
  { unfold group_ok. rewrite length_insert. split_and!; try done; try lia. rewrite Hrm.
    pose proof (swap_remove_perm i _ v Hi) as Hp. rewrite <-Hp in Ht. by apply Forall_cons in Ht as [_ ?]. }
  destruct (groups_update g k _ _ _ (rej_rate g) Hg Hk Hok) as (Hg' & Hl' & Ho').
  rewrite (list_insert_id (allocated_vms g)) in * by done.
  eexists. split; [reflexivity|]. split_and!; try done. by etrans; [apply Hl'|].
Qed.

(** ** switch_active_machine *)
Definition activate_first (l : list vm_data) : list vm_data :=
  match list_find (λ v, vm_state v =? STAND_BY = true) l with
  | Some (i, v) => <[i := set_state ACTIVE v]> l
  | None => l
  end.

Lemma switch_active_machine_spec vm g k :
  groups_ok g → (k < 3)%nat → group_of vm = Z.of_nat k →
  ∃ g', switch_active_machine vm g = Val (g', set_stored 0 (set_state REJUVENATING vm)) ∧ groups_ok g' ∧
    live g' k = activate_first (live g k) ∧ same_but k g g' ∧ rej_rate g' = rej_rate g.
Proof.
  intros Hg Hk Hvm. unfold switch_active_machine.
  change (group_of (set_state REJUVENATING vm)) with (group_of vm). rewrite Hvm, find_vm_live by done.
  unfold activate_first. cbn [mbind outcome_bind].
  destruct (list_find _ (live g k)) as [[i v]|] eqn:Hf; cbn [fmap option_fmap option_map fst]; [|by exists g].
  apply list_find_Some in Hf as (Hi & Hst & _).
  destruct (groups_ok_lookup g k Hg Hk) as (slots & n & a & Es & En & Ea & (Hl & Hs & Hmin & Hn & Ht) & Hlive).
  rewrite Hlive in *. apply lookup_lt_Some in Hi as Hlt. rewrite length_take in Hlt.
  assert (Hi' : slots !! i = Some v) by (rewrite lookup_take_lt in Hi by lia; done).
  rewrite (arr_get_nat _ _ _ Es). cbn [mbind outcome_bind]. rewrite (arr_get_nat _ _ _ Hi'). cbn [mbind outcome_bind].
  rewrite (set_slot_val _ _ slots) by (done || lia). cbn [mbind outcome_bind mret outcome_ret].
  assert (Hok : group_ok k (<[i := set_state ACTIVE v]> slots) n a).
  { unfold group_ok. rewrite length_insert, take_insert_lt by lia. split_and!; try done; try lia.
    apply Forall_insert; [done|]. by apply (Forall_lookup_1 _ _ _ _ Ht Hi). }
  destruct (groups_update g k _ _ _ (rej_rate g) Hg Hk Hok) as (Hg' & Hl' & Ho').
  rewrite (list_insert_id (current_vms g)), (list_insert_id (allocated_vms g)) in * by done.
  eexists. split; [reflexivity|]. split_and!; try done. etrans; [apply Hl'|]. by rewrite take_insert_lt by lia.
Qed.

(** ** Registration *)
Lemma grow_spec fresh g k n :
  groups_ok g → (k < 3)%nat → current_vms g !! k = Some n → allocated_vms g !! k = Some n →
  (∃ g', grow fresh g (Z.of_nat k) = Val g' ∧ groups_ok g' ∧ (∀ k', live g' k' = live g k') ∧
     current_vms g' = current_vms g ∧ ∃ slots, vm_data_set g' !! k = Some slots ∧ (Z.to_nat n < length slots)%nat) ∨
  grow fresh g (Z.of_nat k) = Fault NullDeref ∧ fresh_slots fresh = None ∨
  grow fresh g (Z.of_nat k) = Fault SignedOverflow ∧ 2 ^ 30 <= n.
Proof.
  intros Hg Hk En Ea.
  destruct (groups_ok_lookup g k Hg Hk) as (slots & n' & a & Es & En' & Ea' & (Hl & Hs & Hmin & Hn & Ht) & Hlive).
  simplify_eq. unfold grow. rewrite (arr_get_nat _ _ _ Ea). cbn [mbind outcome_bind].
  unfold NUMBER_VMs, is_s32 in *.
  case_decide; [|right; right; split; [done|lia]].
  destruct (fresh_slots fresh) as [f|]; [|right; left; done]. left.
  rewrite (arr_get_nat _ _ _ Es). cbn [mbind outcome_bind].
  pose proof Hg as (H1 & H2 & H3 & _).
  rewrite !arr_set_in_bounds, Nat2Z.id by lia. cbn [mbind outcome_bind mret outcome_ret].
  set (slots' := slots ++ map f (seqZ _ _)).
  assert (Hlen : length slots' = Z.to_nat (2 * Z.of_nat (length slots))).
  { unfold slots'. rewrite length_app, length_map, length_seqZ. lia. }
  assert (Htake : take (length slots) slots' = slots) by (unfold slots'; rewrite take_app_le, take_ge by lia; done).
  assert (Hok : group_ok k slots' (Z.of_nat (length slots)) (2 * Z.of_nat (length slots))).
  { unfold group_ok, is_s32, NUMBER_VMs. rewrite Nat2Z.id, Htake. rewrite take_ge in Ht by lia. split_and!; try done; lia. }
  set (rates := match fresh_rates fresh with None => _ | Some _ => _ end).
  edestruct (groups_update g k _ _ _ rates Hg Hk Hok) as (Hg' & Hl' & Ho').
  rewrite (list_insert_id (current_vms g)) in * by done.
  eexists. split; [reflexivity|]. split; [exact Hg'|]. split_and!; [|done|].
  - intros k'. destruct (decide (k' = k)) as [->|]; [|by apply Ho'].
    etrans; [apply Hl'|]. rewrite Hlive, Nat2Z.id, Htake, take_ge by lia. done.
  - exists slots'. cbn [vm_data_set]. rewrite list_lookup_insert_eq by lia. split; [done|lia].
Qed.

Definition entry (c : client) (f : system_features) (stored : Z) : vm_data :=
  VmData (c_socket c) (c_ip c) (c_port c) (c_service c) f stored.

Lemma assign_slot_spec c g k slots n :
  groups_ok g → (k < 3)%nat → service (c_service c) = Z.of_nat k →
  vm_data_set g !! k = Some slots → current_vms g !! k = Some n → (Z.to_nat n < length slots)%nat →
  ∃ g' f stored, assign_slot c g = Val (g', n) ∧ groups_ok g' ∧ n = Z.of_nat (length (live g k)) ∧
    live g' k = live g k ++ [entry c f stored] ∧ same_but k g g'.
Proof.
  intros Hg Hk Hc Es En Hlt.
  destruct (groups_ok_lookup g k Hg Hk) as (slots' & n' & a & Es' & En' & Ea & (Hl & Hs & Hmin & Hn & Ht) & Hlive).
  simplify_eq. unfold assign_slot. rewrite Hc. rewrite (arr_get_nat _ _ _ En). cbn [mbind outcome_bind].
  rewrite (arr_get_nat _ _ _ Es). cbn [mbind outcome_bind].
  destruct (lookup_lt_is_Some_2 slots (Z.to_nat n) Hlt) as [old Hold].
  rewrite (proj2 (arr_get_Val slots n old)) by (split; [lia|done]). cbn [mbind outcome_bind].
  replace (set_slot g (Z.of_nat k) n) with (set_slot g (Z.of_nat k) (Z.of_nat (Z.to_nat n))) by (f_equal; lia).
  rewrite (set_slot_val _ _ slots) by done. cbn [mbind outcome_bind].
  rewrite (set_current_val _ _ n) by done. cbn [mbind outcome_bind mret outcome_ret].
  set (v := VmData _ _ _ _ _ _).
  assert (Htake : take (Z.to_nat (n + 1)) (<[Z.to_nat n := v]> slots) = take (Z.to_nat n) slots ++ [v]).
  { replace (Z.to_nat (n + 1)) with (S (Z.to_nat n)) by lia.
    erewrite take_S_r by (apply list_lookup_insert_eq; done). by rewrite take_insert_ge by lia. }
  assert (Hok : group_ok k (<[Z.to_nat n := v]> slots) (n + 1) (Z.of_nat (length slots))).
  { unfold group_ok. rewrite length_insert, Htake. split_and!; try done; try lia.
    apply Forall_app. split; [done|by apply Forall_singleton]. }
  edestruct (groups_update g k _ _ _ (rej_rate g) Hg Hk Hok) as (Hg' & Hl' & Ho').
  rewrite (list_insert_id (allocated_vms g)) in * by done.
  eexists _, (last_features old), (last_system_features_stored old). split; [reflexivity|].
  rewrite Hlive. split_and!; try done.
  - rewrite length_take. lia.
  - etrans; [apply Hl'|]. by rewrite Htake.
Qed.

(** What a registration comes to. *)
Lemma register_spec c fresh g k :
  groups_ok g → (k < 3)%nat → service (c_service c) = Z.of_nat k →
  (∃ g' f stored, register c fresh g = Val (g', Z.of_nat (length (live g k))) ∧ groups_ok g' ∧
     live g' k = live g k ++ [entry c f stored] ∧ same_but k g g') ∨
  register c fresh g = Fault NullDeref ∧ fresh_slots fresh = None ∨
  register c fresh g = Fault SignedOverflow ∧ 2 ^ 30 <= Z.of_nat (length (live g k)).
Proof.
  intros Hg Hk Hc.
  destruct (groups_ok_lookup g k Hg Hk) as (slots & n & a & Es & En & Ea & (Hl & Hs & Hmin & Hn & Ht) & Hlive).
  unfold register. rewrite Hc, (arr_get_nat _ _ _ En), (arr_get_nat _ _ _ Ea). cbn [mbind outcome_bind].
  case_decide as Hfull; cbn [mret outcome_ret mbind outcome_bind].
  - subst a. assert (Hn' : Z.to_nat n = length (live g k)) by (rewrite Hlive, length_take; lia).
    destruct (grow_spec fresh g k n Hg Hk En ltac:(congruence))
      as [(g1 & -> & Hg1 & Hlv & Hcur & slots1 & Es1 & Hlt)|[[-> ?]|[-> ?]]]; cbn [mbind outcome_bind].
    + destruct (assign_slot_spec c g1 k slots1 n Hg1 Hk Hc Es1 ltac:(congruence) Hlt)
        as (g' & f & st & -> & Hg' & Hlen & Hl' & Ho'). left.
      exists g', f, st. rewrite <-Hlv, Hlen. split_and!; try done.
      intros k' Hk'. by rewrite (Ho' _ Hk').
    + by right; left.
    + right; right. split; [done|lia].
  - destruct (assign_slot_spec c g k slots n Hg Hk Hc Es En ltac:(lia)) as (g' & f & st & -> & Hg' & Hlen & Hl' & Ho').
    left. exists g', f, st. by rewrite Hlen.
Qed.

Lemma init_groups_ok fresh rates : groups_ok (init_groups fresh rates).
Proof.
  unfold init_groups, groups_ok. cbn [vm_data_set current_vms allocated_vms]. split_and!; try done.
  intros k slots n a Hs Hn Ha. apply lookup_replicate in Hn as [-> ?]. apply lookup_replicate in Ha as [-> ?].
  rewrite list_lookup_fmap in Hs. apply fmap_Some in Hs as (z & _ & ->).
  unfold group_ok, is_s32, NUMBER_VMs. rewrite length_map, length_seqZ. split_and!; try done; try lia.
Qed.

(** ** Properties of the table *)

(** C30.  [manage_disconnected_vms] on a well-formed table: it never faults,
    keeps the table well-formed and the other groups as they are, and takes out
    exactly one entry with the address of the VM, or nothing when there is none. *)
Theorem disconnect_removes_one vm g k :
  groups_ok g → (k < 3)%nat → group_of vm = Z.of_nat k →
  ∃ g', manage_disconnected_vms vm g = Val g' ∧ groups_ok g' ∧ same_but k g g' ∧
    ((∃ v, ip_address v = ip_address vm ∧ live g k ≡ₚ v :: live g' k) ∨
     Forall (λ v, ip_address v ≠ ip_address vm) (live g k) ∧ live g' k = live g k).
Proof.
  intros Hg Hk Hvm. destruct (manage_disconnected_vms_spec vm g k Hg Hk Hvm) as (g' & E & Hg' & Hl & Hs & _).
  exists g'. split_and!; try done. rewrite Hl. unfold remove_ip.
  destruct (list_find _ (live g k)) as [[i v]|] eqn:Hf.
  - left. apply list_find_Some in Hf as (Hi & Hip & _). exists v. apply bool_decide_eq_true in Hip.
    split; [done|]. by rewrite swap_remove_perm.
  - right. split; [|done]. apply list_find_None in Hf. eapply Forall_impl; [exact Hf|].
    intros v Hv Heq. by apply Hv, bool_decide_eq_true.
Qed.

(** [switch_active_machine] marks the first stand-by VM of the group
    active and touches nothing else of the table: the entry of the VM that is
    sent to rejuvenation stays as it was, its new state is in the callee's copy
    of the struct only. *)
Theorem switch_touches_standby_only vm g k :
  groups_ok g → (k < 3)%nat → group_of vm = Z.of_nat k →
  ∃ g' vm', switch_active_machine vm g = Val (g', vm') ∧ groups_ok g' ∧ same_but k g g' ∧
    vm_state vm' = REJUVENATING ∧
    (∀ i v, live g k !! i = Some v → vm_state v ≠ STAND_BY → live g' k !! i = Some v) ∧
    (Forall (λ v, vm_state v ≠ STAND_BY) (live g k) ∧ live g' k = live g k ∨
     ∃ i v, live g k !! i = Some v ∧ vm_state v = STAND_BY ∧
       Forall (λ w, vm_state w ≠ STAND_BY) (take i (live g k)) ∧ live g' k = <[i := set_state ACTIVE v]> (live g k)).
Proof.
  intros Hg Hk Hvm. destruct (switch_active_machine_spec vm g k Hg Hk Hvm) as (g' & E & Hg' & Hl & Hs & _).
  exists g', (set_stored 0 (set_state REJUVENATING vm)). rewrite Hl. unfold activate_first.
  split_and!; try done; destruct (list_find _ (live g k)) as [[i v]|] eqn:Hf.
  - apply list_find_Some in Hf as (Hi & Hst%Z.eqb_eq & _). intros j w Hj Hw.
    rewrite list_lookup_insert_ne; [done|]. intros ->. congruence.
  - done.
  - right. exists i, v. apply list_find_Some in Hf as (Hi & Hst%Z.eqb_eq & Hbefore). split_and!; try done.
    apply Forall_lookup. intros j w Hj Hw. rewrite lookup_take_Some in Hj. destruct Hj as [Hj Hlt].
    apply (Hbefore j w Hj Hlt). by apply Z.eqb_eq.
  - left. split; [|done]. apply list_find_None in Hf. eapply Forall_impl; [exact Hf|].
    intros v Hv Heq. by apply Hv, Z.eqb_eq.
Qed.

(** C29.  Registering a client of an existing service: the table stays
    well-formed, growing when it is full, the other groups are untouched and the
    client is the last live entry of its group; the only ways out are a [NULL]
    from [realloc] and 2^30 registered VMs. *)
Theorem register_appends c fresh g k :
  groups_ok g → (k < 3)%nat → service (c_service c) = Z.of_nat k →
  (∃ g' f stored, register c fresh g = Val (g', Z.of_nat (length (live g k))) ∧ groups_ok g' ∧ same_but k g g' ∧
     live g' k = live g k ++ [entry c f stored]) ∨
  register c fresh g = Fault NullDeref ∧ fresh_slots fresh = None ∨
  register c fresh g = Fault SignedOverflow ∧ 2 ^ 30 <= Z.of_nat (length (live g k)).
Proof.
  intros Hg Hk Hc. destruct (register_spec c fresh g k Hg Hk Hc) as [(g' & f & st & ? & ? & ? & ?)|[?|?]]; [|tauto..].
  left. by exists g', f, st.
Qed.

(** A registration leaves [last_features] and
    [last_system_features_stored] as the memory of the slot holds them: the
    flag that decides whether the first datapoint of a VM is compared with a
    previous one is whatever [malloc] returned. *)
Theorem first_flag_uninitialised c fresh mem rates k :
  (k < 3)%nat → service (c_service c) = Z.of_nat k →
  ∃ g', register c mem (init_groups fresh rates) = Val (g', 0) ∧
    live g' k = [entry c (last_features (fresh (Z.of_nat k) 0)) (last_system_features_stored (fresh (Z.of_nat k) 0))].
Proof.
  intros Hk Hc. unfold register, assign_slot. rewrite !Hc. destruct k as [|[|[|k]]]; [| | |lia]; eexists; split; reflexivity.
Qed.

(** ** Properties of the handshake *)
Lemma handshake_loop_service turns mem closes s n :
  handshake_loop turns mem closes = HsClient s n → 0 <= service s < NUMBER_GROUPS.
Proof.
  revert mem closes. induction turns as [|[ok answer] turns IH]; intros mem closes; cbn [handshake_loop]; [done|].
  destruct (NUMBER_GROUPS <=? service (decode_service mem)) eqn:E; [|apply Z.leb_gt in E; intros [= <- _]; split; [apply u32_range|done]].
  destruct answer as [[|b bs]|e]; eauto.
Qed.

Lemma handshake_valid mem first turns s n :
  handshake mem first turns = HsClient s n → 0 <= service s < NUMBER_GROUPS.
Proof.
  unfold handshake. destruct first as [[|b bs]|e]; [done| |done]. apply handshake_loop_service.
Qed.

(** The other end is gone: every [send] fails, every [recv] fails or reports
    the end of the stream. *)
Definition gone (turn : bool * rres) : Prop := turn.1 = false ∧ (turn.2 = RData [] ∨ ∃ e, turn.2 = RFail e).

Lemma handshake_loop_gone turns mem closes :
  NUMBER_GROUPS <= service (decode_service mem) → Forall gone turns →
  ∃ n, handshake_loop turns mem closes = HsLooping n ∧ (closes + length turns <= n)%nat.
Proof.
  intros Hs Ht. revert closes. induction Ht as [|[ok ans] turns [Hok Ha] _ IH]; intros closes; simpl in *.
  - exists closes. split; [done|lia].
  - subst ok. rewrite (proj2 (Z.leb_le _ _) Hs).
    destruct Ha as [->|[e ->]].
    + destruct (IH (S (S closes))) as (n & -> & Hn). exists n. split; [done|lia].
    + destruct (e =? EWOULDBLOCK); [destruct (IH (S (S closes))) as (n & -> & Hn)|destruct (IH (S closes)) as (n & -> & Hn)];
        (exists n; split; [done|lia]).
Qed.

(** A client that asks for a service that does not exist and disconnects
    keeps the only accepting thread in the handshake for ever: after any number
    of turns the loop is still running, having closed the descriptor once more
    in each of them. *)
Theorem handshake_never_returns mem bs turns :
  bs ≠ [] → NUMBER_GROUPS <= service (decode_service (recv_into (take 12 bs) mem)) → Forall gone turns →
  ∃ n, handshake mem (RData bs) turns = HsLooping n ∧ (length turns <= n)%nat.
Proof.
  intros Hbs Hs Ht. unfold handshake. destruct bs as [|b bs]; [done|].
  destruct (handshake_loop_gone turns _ 0 Hs Ht) as (n & -> & Hn). by exists n.
Qed.

(** Only clients of an existing service get to the registration; but one
    whose acknowledgement could not be sent gets there too, with its
    descriptor closed. *)
Theorem handshake_admits_valid_services :
  (∀ mem first turns s n, handshake mem first turns = HsClient s n → 0 <= service s < NUMBER_GROUPS) ∧
  (∀ mem bs turns answer, bs ≠ [] → service (decode_service (recv_into (take 12 bs) mem)) < NUMBER_GROUPS →
     handshake mem (RData bs) ((false, answer) :: turns)
       = HsClient (decode_service (recv_into (take 12 bs) mem)) 1).
Proof.
  split.
  - exact handshake_valid.
  - intros mem bs turns answer Hbs Hs. unfold handshake. destruct bs as [|b bs]; [done|]. cbn [handshake_loop].
    by rewrite (proj2 (Z.leb_gt _ _) Hs).
Qed.

(** ** Witnesses *)
Definition blank (stored : Z) : vm_data := VmData 0 [] 0 (VmService 0 0 0) quiet stored.
Definition a_client (sock : Z) (addr : list Z) (srv st : Z) : client := Client sock addr 40000 (VmService srv st 0).
Definition empty_groups : groups := init_groups (λ _ _, blank 7) (λ _, zero).
Definition no_memory : fresh_memory := FreshMemory (Some (λ _, blank 9)) (Some (λ _, zero)) false.

(** Registrations one after the other. *)
Fixpoint register_all (cs : list client) (g : groups) : outcome groups :=
  match cs with
  | [] => mret g
  | c :: cs => r ← register c no_memory g; register_all cs r.1
  end.

Lemma register_all_ok cs g g' :
  groups_ok g → Forall (λ c, ∃ k : nat, (k < 3)%nat ∧ service (c_service c) = Z.of_nat k) cs →
  register_all cs g = Val g' → groups_ok g'.
Proof.
  intros Hg Hcs. revert g Hg. induction Hcs as [|c cs (k & Hk & Hc) _ IH]; intros g Hg; cbn [register_all].
  - by intros [= <-].
  - intros ((g1 & i) & E & H)%outcome_bind_Val. apply (IH g1); [|done].
    destruct (register_spec c no_memory g k Hg Hk Hc) as [(g2 & f & st & E2 & Hg2 & _)|[[E2 _]|[E2 _]]]; congruence.
Qed.

Definition three_clients : list client :=
  [a_client 10 [49] 1 ACTIVE; a_client 11 [50] 1 STAND_BY; a_client 12 [51] 1 ACTIVE].
Definition three_registered : groups :=
  match register_all three_clients empty_groups with Val g => g | _ => empty_groups end.

Lemma three_registered_ok : groups_ok three_registered.
Proof.
  apply (register_all_ok three_clients empty_groups); [apply init_groups_ok| |reflexivity].
  repeat constructor; exists 1%nat; (split; [lia|reflexivity]).
Qed.

Lemma disconnect_removes_one_witness :
  ∃ g', manage_disconnected_vms (entry (a_client 10 [49] 1 ACTIVE) quiet 7) three_registered = Val g' ∧
    map ip_address (live g' 1) = [[51]; [50]] ∧ groups_ok g'.
Proof.
  destruct (disconnect_removes_one (entry (a_client 10 [49] 1 ACTIVE) quiet 7) three_registered 1
              three_registered_ok ltac:(lia) eq_refl) as (g' & E & Hg' & _).
  exists g'. split; [exact E|]. split; [|exact Hg']. vm_compute in E. injection E as <-. reflexivity.
Defined.

Lemma switch_touches_standby_only_witness :
  ∃ g' vm', switch_active_machine (entry (a_client 10 [49] 1 ACTIVE) quiet 7) three_registered = Val (g', vm') ∧
    map vm_state (live g' 1) = [ACTIVE; ACTIVE; ACTIVE] ∧ vm_state vm' = REJUVENATING.
Proof.
  destruct (switch_touches_standby_only (entry (a_client 10 [49] 1 ACTIVE) quiet 7) three_registered 1
              three_registered_ok ltac:(lia) eq_refl) as (g' & vm' & E & _ & _ & Hs & _).
  exists g', vm'. split; [exact E|]. split; [|exact Hs]. vm_compute in E. injection E as <- <-. reflexivity.
Defined.

Lemma register_appends_witness :
  ∃ g', register (a_client 13 [52] 1 ACTIVE) no_memory three_registered = Val (g', 3) ∧ groups_ok g' ∧
    map ip_address (live g' 1) = [[49]; [50]; [51]; [52]].
Proof.
  destruct (register_appends (a_client 13 [52] 1 ACTIVE) no_memory three_registered 1
              three_registered_ok ltac:(lia) eq_refl) as [(g' & f & st & E & Hg' & _)|[[_ ?]|[E _]]].
  - exists g'. split; [exact E|]. split; [exact Hg'|]. vm_compute in E. injection E as <-. reflexivity.
  - discriminate.
  - vm_compute in E. discriminate.
Defined.

Lemma first_flag_uninitialised_witness :
  ∃ g', register (a_client 13 [52] 2 ACTIVE) no_memory empty_groups = Val (g', 0) ∧
    live g' 2 = [entry (a_client 13 [52] 2 ACTIVE) quiet 7].
Proof. apply (first_flag_uninitialised (a_client 13 [52] 2 ACTIVE) (λ _ _, blank 7) no_memory (λ _, zero) 2); [lia|reflexivity]. Defined.

Lemma handshake_never_returns_witness :
  ∃ n, handshake (replicate 12 0) (RData (client_service 3 ACTIVE)) (replicate 50 (false, RFail 9)) = HsLooping n ∧
    (50 <= n)%nat.
Proof.
  apply (handshake_never_returns (replicate 12 0) (client_service 3 ACTIVE) (replicate 50 (false, RFail 9))).
  - discriminate.
  - vm_compute. discriminate.
  - apply Forall_replicate. split; [reflexivity|right; by eexists].
Defined.
