(* ===== verification/Server.v ===== *)
(** * controller/server.c: the threads of the controller

    The accepting thread ([main] and [accept_new_client]), one
    [communication_thread] per VM, [balancer_thread] and [mttf_thread], on the
    globals they share.  A thread is its program counter and its locals; a step
    of a thread is one system call, one lock operation, or the code between two
    of them.  The sections under [mutex] in [manage_disconnected_vms] and
    [switch_active_machine], and the growth and the assignment of
    [accept_new_client], are one step each: nobody else looks at the table.  The
    array of rates, which [accept_new_client] reallocates under [mutex] while the
    other threads use it under [mttf_mutex], is modelled to its single accesses, a
    load of the pointer and the use of the element apart; so is
    [manage_vm_mutex], which the threads that take it never release.  Memory is
    sequentially consistent. *)
From Stdlib Require Import Floats.SpecFloat.
From S2P Require Import Prelude CFloat Scanf MlModel Protocol SockHelp Groups.
Open Scope Z_scope.

(** ** get_feature, store_last_system_features *)

(** [network] values of the scanned items, or what the member held. *)
Definition item_f (vs : list scanned) (i : nat) (old : f32) : f32 :=
  match vs !! i with Some (SFloat x) => x | _ => old end.
Definition item_i (vs : list scanned) (i : nat) (old : Z) : Z :=
  match vs !! i with Some (SInt z) => z | _ => old end.

Definition feature_format : list directive :=
  lit "Datapoint: " ++ [Df] ++ lit " " ++ [DInt] ++
  [DSpace] ++ lit "Memory: " ++ [DInt] ++ lit " " ++ [DInt] ++ lit " " ++ [DInt] ++ lit " " ++ [DInt] ++ lit " " ++ [DInt] ++ lit " " ++ [DInt] ++
  [DSpace] ++ lit "Swap: " ++ [DInt] ++ lit " " ++ [DInt] ++ lit " " ++ [DInt] ++
  [DSpace] ++ lit "CPU: " ++ [Df] ++ lit " " ++ [Df] ++ lit " " ++ [Df] ++ lit " " ++ [Df] ++ lit " " ++ [Df] ++ lit " " ++ [Df].

(** The callee's copy of [current_features] when [get_feature] returns. *)
Definition get_feature (features : list Z) (current_features : system_features) : system_features :=
  let vs := sscanf feature_format (get_string features) in
  let c := current_features in
  SystemFeatures (item_f vs 0 (time c)) (item_i vs 1 (n_th c))
    (item_i vs 2 (mem_total c)) (item_i vs 3 (mem_used c)) (item_i vs 4 (mem_free c))
    (item_i vs 5 (mem_shared c)) (item_i vs 6 (mem_buffers c)) (item_i vs 7 (mem_cached c))
    (item_i vs 8 (swap_total c)) (item_i vs 9 (swap_used c)) (item_i vs 10 (swap_free c))
    (item_f vs 11 (cpu_user c)) (item_f vs 12 (cpu_nice c)) (item_f vs 13 (cpu_system c))
    (item_f vs 14 (cpu_iowait c)) (item_f vs 15 (cpu_steal c)) (item_f vs 16 (cpu_idle c)).

(** [memcpy(last_features, &current_features, ...)] *)
Definition store_last_system_features (vm : vm_data) (current_features : system_features) : vm_data :=
  set_last_features current_features vm.

(** ** Threads *)

(** The observable actions of the controller. *)
Inductive obs :=
  | OToVm (sock command : Z) (sent : bool)
  | OClose (sock : Z)
  | OPost (m : virtual_machine)              (* [state_man_vm = 1] with this in [virt_machine] *)
  | OToBalancer (m : virtual_machine) (sent : bool)
  | OAvg (avg : f32).

(** Where a [communication_thread] is. *)
Inductive comm_pc :=
  | CStart (group index : Z)   (* created with [&vm_data_set[group][index]] *)
  | CLoop                      (* head of the loop *)
  | CMttf                      (* a datapoint is in; the first prediction *)
  | CRateLock (rate : f32) | CRateLoad (rate : f32) | CRateStore (rate : f32) (p : nat) | CRateUnlock
                               (* rej_rate[index_rej_rate++] = rate, under mttf_mutex *)
  | CRttc                      (* the second prediction *)
  | CContinue                  (* the send of CONTINUE *)
  | CSwitch | CSwitchSend | CSwitchDisc | CSwitchClose   (* in switch_active_machine *)
  | CPost (o : Z) | CWrite (o : Z) | CFlag (o : Z)       (* lock, struct, flag; [o] is REJ or DELETE *)
  | CDisc | CClose | CDone.

Record comm := Comm {
  c_pc : comm_pc;
  c_vm : vm_data;                       (* the local [vm] *)
  c_current : system_features;          (* the local [current_features] *)
  c_init : system_features;             (* the local [init_features] *)
  c_flag : Z                            (* the local [flag_init_features] *)
}.

(** Where the accepting thread is. *)
Inductive main_pc :=
  | MAccept
  | MLock (c : client)
  | MAdd (c : client)
  | MPost (c : client) (index : Z) | MWrite (c : client) (index : Z) | MFlag (c : client) (index : Z)
  | MCreate (c : client) (index : Z).

(** Where [balancer_thread] is. *)
Inductive bal_pc := BTest | BSend | BClear | BUnlock.

(** Where [mttf_thread] is: [n] is [thread_index_rej_rate], [acc] is
    [avg_rej_rate]; [p], as in [CRateStore], is the block of rates that the
    pointer [rej_rate] pointed to when it was loaded. *)
Inductive mttf_pc :=
  | TTest | TLock
  | TSum (n index : Z) (acc : f32) | TRead (n index : Z) (acc : f32) (p : nat)
  | TUnlock (n : Z) (acc : f32).

Record server := Server {
  tbl : groups;
  index_rej_rate : Z;
  mutex : bool;              (* true: locked *)
  manage_vm_mutex : bool;
  state_man_vm : Z;
  virt_machine : virtual_machine;
  main : main_pc;
  bal : bal_pc;
  comms : list comm;
  trace : list obs;
  mttf_mutex : bool;
  rates_epoch : nat;         (* how often the block of rates has moved *)
  mttf : mttf_pc
}.

(** [htons(8080)] *)
Definition vm_port : Z := 36895.

(** *** State updates *)
Definition set_tbl (g : groups) (s : server) : server :=
  Server g (index_rej_rate s) (mutex s) (manage_vm_mutex s) (state_man_vm s) (virt_machine s) (main s) (bal s) (comms s) (trace s) (mttf_mutex s) (rates_epoch s) (mttf s).
Definition set_index (i : Z) (s : server) : server :=
  Server (tbl s) i (mutex s) (manage_vm_mutex s) (state_man_vm s) (virt_machine s) (main s) (bal s) (comms s) (trace s) (mttf_mutex s) (rates_epoch s) (mttf s).
Definition set_mutex (b : bool) (s : server) : server :=
  Server (tbl s) (index_rej_rate s) b (manage_vm_mutex s) (state_man_vm s) (virt_machine s) (main s) (bal s) (comms s) (trace s) (mttf_mutex s) (rates_epoch s) (mttf s).
Definition set_manage (b : bool) (s : server) : server :=
  Server (tbl s) (index_rej_rate s) (mutex s) b (state_man_vm s) (virt_machine s) (main s) (bal s) (comms s) (trace s) (mttf_mutex s) (rates_epoch s) (mttf s).
Definition set_flag (z : Z) (s : server) : server :=
  Server (tbl s) (index_rej_rate s) (mutex s) (manage_vm_mutex s) z (virt_machine s) (main s) (bal s) (comms s) (trace s) (mttf_mutex s) (rates_epoch s) (mttf s).
Definition set_virt (m : virtual_machine) (s : server) : server :=
  Server (tbl s) (index_rej_rate s) (mutex s) (manage_vm_mutex s) (state_man_vm s) m (main s) (bal s) (comms s) (trace s) (mttf_mutex s) (rates_epoch s) (mttf s).
Definition set_main (p : main_pc) (s : server) : server :=
  Server (tbl s) (index_rej_rate s) (mutex s) (manage_vm_mutex s) (state_man_vm s) (virt_machine s) p (bal s) (comms s) (trace s) (mttf_mutex s) (rates_epoch s) (mttf s).
Definition set_bal (p : bal_pc) (s : server) : server :=
  Server (tbl s) (index_rej_rate s) (mutex s) (manage_vm_mutex s) (state_man_vm s) (virt_machine s) (main s) p (comms s) (trace s) (mttf_mutex s) (rates_epoch s) (mttf s).
Definition set_comms (l : list comm) (s : server) : server :=
  Server (tbl s) (index_rej_rate s) (mutex s) (manage_vm_mutex s) (state_man_vm s) (virt_machine s) (main s) (bal s) l (trace s) (mttf_mutex s) (rates_epoch s) (mttf s).
Definition observe (o : obs) (s : server) : server :=
  Server (tbl s) (index_rej_rate s) (mutex s) (manage_vm_mutex s) (state_man_vm s) (virt_machine s) (main s) (bal s) (comms s) (trace s ++ [o]) (mttf_mutex s) (rates_epoch s) (mttf s).
Definition set_mttf_mutex (b : bool) (s : server) : server :=
  Server (tbl s) (index_rej_rate s) (mutex s) (manage_vm_mutex s) (state_man_vm s) (virt_machine s) (main s) (bal s) (comms s) (trace s) b (rates_epoch s) (mttf s).
Definition set_epoch (n : nat) (s : server) : server :=
  Server (tbl s) (index_rej_rate s) (mutex s) (manage_vm_mutex s) (state_man_vm s) (virt_machine s) (main s) (bal s) (comms s) (trace s) (mttf_mutex s) n (mttf s).
Definition set_mttf (p : mttf_pc) (s : server) : server :=
  Server (tbl s) (index_rej_rate s) (mutex s) (manage_vm_mutex s) (state_man_vm s) (virt_machine s) (main s) (bal s) (comms s) (trace s) (mttf_mutex s) (rates_epoch s) p.

(** ** The steps

    A step is given what the environment answers; [Val None] means that the
    thread cannot take it (it is blocked, or the answer is for another call). *)
Inductive answer :=
  | ATau                                       (* nothing is asked *)
  | ARecv (r : rres)
  | ASend (ok : bool)
  | APredict (mem : system_features_with_slopes)  (* the predictor's uninitialised local *)
  | AClient (first : rres) (turns : list (bool * rres)) (mem addr : list Z) (sock prt : Z)
  | ANoBuffer (first : rres)                   (* the [malloc] of the buffer of the handshake fails *)
  | ARealloc (mem : fresh_memory)
  | ACreate (ok : bool) (mem : vm_data) (f1 f2 : system_features)  (* and the new thread's uninitialised locals *).

Notation res := (outcome (option server)).

(** *** communication_thread *)
Definition with_pc (p : comm_pc) (c : comm) : comm := Comm p (c_vm c) (c_current c) (c_init c) (c_flag c).
Definition with_vm (v : vm_data) (c : comm) : comm := Comm (c_pc c) v (c_current c) (c_init c) (c_flag c).

(** The struct posted for the balancer. *)
Definition message (v : vm_data) (o : Z) : virtual_machine := VirtualMachine (ip_address v) vm_port (group_of v) o.

(** [recv_buff] after a [recv], which is printed and scanned as a string: it was
    zeroed before, so that it is terminated unless [BUFSIZE] bytes have come and
    none of them is 0. *)
Definition recv_string (bs : list Z) : outcome (list Z) :=
  let buf := take (Z.to_nat BUFSIZE) bs in
  if decide (Z.of_nat (length bs) < BUFSIZE ∨ 0 ∈ buf) then Val buf else Fault OutOfBounds.

(** After a datapoint has been received: [get_feature] fills its own copy, the
    caller's [current_features] stays as it was. *)
Definition with_datapoint (buf : list Z) (c : comm) : comm :=
  let _ := get_feature buf (c_current c) in
  let '(init, flag) := if c_flag c =? 0 then (c_current c, 1) else (c_init c, c_flag c) in
  let c := Comm (c_pc c) (c_vm c) (c_current c) init flag in
  if last_system_features_stored (c_vm c) =? 0
  then with_pc CContinue (with_vm (set_stored 1 (store_last_system_features (c_vm c) (c_current c))) c)
  else with_pc CMttf c.

Definition on_datapoint (bs : list Z) (c : comm) : outcome comm :=
  buf ← recv_string bs; mret (with_datapoint buf c).

(** One step of thread [t]; [ml_model] is the global of that name. *)
Definition comm_step (ml_model : Z) (t : nat) (c : comm) (a : answer) (s : server) : res :=
  let stay c' s := Val (Some (set_comms (<[t := c']> (comms s)) s)) in
  let goto p s := stay (with_pc p c) s in
  let vm := c_vm c in
  match c_pc c, a with
  | CStart group index, ATau =>                     (* vm = *v; unlock *)
      slots ← arr_get (vm_data_set (tbl s)) group;
      v ← arr_get slots index;
      stay (with_pc CLoop (with_vm v c)) (set_mutex false s)
  | CLoop, ATau => if vm_state vm =? ACTIVE then Val None else goto CLoop s
  | CLoop, ARecv r =>
      if vm_state vm =? ACTIVE then
        match r with
        | RFail _ => goto (CPost DELETE) s
        | RData [] => goto (CPost DELETE) s
        | RData bs => c' ← on_datapoint bs c; stay c' s
        end
      else Val None
  | CMttf, APredict mem =>
      let mean_time_to_fail := get_predicted_mttf mem ml_model (last_features vm) (c_current c) (c_init c) in
      goto (CRateLock (div32 (f32_of_Z 1) mean_time_to_fail)) s
  | CRateLock rate, ATau => if mttf_mutex s then Val None else goto (CRateLoad rate) (set_mttf_mutex true s)
  | CRateLoad rate, ATau => goto (CRateStore rate (rates_epoch s)) s
  | CRateStore rate p, ATau =>
      if decide (p = rates_epoch s) then
        rates ← arr_set (rej_rate (tbl s)) (index_rej_rate s) rate;
        goto CRateUnlock (set_index (index_rej_rate s + 1)
                           (set_tbl (Groups (vm_data_set (tbl s)) (current_vms (tbl s)) (allocated_vms (tbl s)) rates) s))
      else Fault UseAfterFree
  | CRateUnlock, ATau => goto CRttc (set_mttf_mutex false s)
  | CRttc, APredict mem =>
      let predicted_time_to_crash := get_predicted_rttc mem ml_model (last_features vm) (c_current c) in
      if flt predicted_time_to_crash (f32_of_Z TTC_THRESHOLD) then goto CSwitch s
      else stay (with_pc CContinue (with_vm (set_stored 1 (store_last_system_features vm (c_current c))) c)) s
  | CContinue, ASend ok =>
      goto (if ok then CLoop else CPost DELETE) (observe (OToVm (socket vm) CONTINUE ok) s)
  | CSwitch, ATau =>
      if mutex s then Val None
      else r ← switch_active_machine vm (tbl s); goto CSwitchSend (set_tbl r.1 s)
  | CSwitchSend, ASend ok =>
      goto (if ok then CPost REJ else CSwitchDisc) (observe (OToVm (socket vm) REJUVENATE ok) s)
  | CSwitchDisc, ATau =>
      if mutex s then Val None
      else g ← manage_disconnected_vms vm (tbl s); goto CSwitchClose (set_tbl g s)
  | CSwitchClose, ATau => goto (CPost REJ) (observe (OClose (socket vm)) s)
  | CPost o, ATau => if manage_vm_mutex s then Val None else goto (CWrite o) (set_manage true s)
  | CWrite o, ATau => goto (CFlag o) (set_virt (message vm o) s)
  | CFlag o, ATau =>
      goto (if o =? DELETE then CDisc else CLoop) (observe (OPost (virt_machine s)) (set_flag 1 s))
  | CDisc, ATau =>
      if mutex s then Val None
      else g ← manage_disconnected_vms vm (tbl s); goto CClose (set_tbl g s)
  | CClose, ATau => goto CDone (observe (OClose (socket vm)) s)
  | _, _ => Val None
  end.

(** *** The accepting thread *)

(** [close(socket)], [n] times. *)
Fixpoint closes (sock : Z) (n : nat) (s : server) : server :=
  match n with O => s | S n => closes sock n (observe (OClose sock) s) end.

(** The block of rates is reallocated with the group. *)
Definition epoch_after (c : client) (mem : fresh_memory) (g : groups) (epoch : nat) : nat :=
  match arr_get (current_vms g) (service (c_service c)), arr_get (allocated_vms g) (service (c_service c)) with
  | Val n, Val allocated => if (n =? allocated) && rates_move mem then S epoch else epoch
  | _, _ => epoch
  end.

Definition main_step (a : answer) (s : server) : res :=
  match main s, a with
  | MAccept, AClient first turns mem addr sock prt =>
      match handshake mem first turns with
      | HsReturn n => Val (Some (closes sock n s))
      | HsClient srv n => Val (Some (set_main (MLock (Client sock addr prt srv)) (closes sock n s)))
      | HsLooping _ => Val None
      end
  | MAccept, ANoBuffer (RData (_ :: _)) => Fault NullDeref   (* bzero(buffer, BUFSIZE) *)
  | MLock c, ATau => if mutex s then Val None else Val (Some (set_main (MAdd c) (set_mutex true s)))
  | MAdd c, ARealloc mem =>
      r ← register c mem (tbl s);
      let s := set_epoch (epoch_after c mem (tbl s) (rates_epoch s)) (set_tbl r.1 s) in
      Val (Some (set_main (if state (c_service c) =? ACTIVE then MPost c r.2 else MCreate c r.2) s))
  | MPost c index, ATau =>
      if manage_vm_mutex s then Val None else Val (Some (set_main (MWrite c index) (set_manage true s)))
  | MWrite c index, ATau =>
      Val (Some (set_main (MFlag c index) (set_virt (VirtualMachine (c_ip c) vm_port (service (c_service c)) ADD) s)))
  | MFlag c index, ATau => Val (Some (set_main (MCreate c index) (observe (OPost (virt_machine s)) (set_flag 1 s))))
  | MCreate c index, ACreate true mem f1 f2 =>
      Val (Some (set_main MAccept
        (set_comms (comms s ++ [Comm (CStart (service (c_service c)) index) mem f1 f2 0]) s)))
  | MCreate c index, ACreate false _ _ _ => Val (Some (set_main MAccept (set_manage false (set_mutex false s))))
  | _, _ => Val None
  end.

(** *** balancer_thread *)
Definition bal_step (a : answer) (s : server) : res :=
  match bal s, a with
  | BTest, ATau => Val (Some (if state_man_vm s =? 1 then set_bal BSend s else s))
  | BSend, ASend ok => Val (Some (set_bal BClear (observe (OToBalancer (virt_machine s) ok) s)))
  | BClear, ATau => Val (Some (set_bal BUnlock (set_flag 0 s)))
  | BUnlock, ATau => Val (Some (set_bal BTest (set_manage false s)))
  | _, _ => Val None
  end.

(** *** mttf_thread, without the sleep *)
Definition mttf_step (s : server) : res :=
  match mttf s with
  | TTest => Val (Some (if index_rej_rate s =? 0 then s else set_mttf TLock s))
  | TLock => if mttf_mutex s then Val None else Val (Some (set_mttf (TSum (index_rej_rate s) 0 zero) (set_mttf_mutex true s)))
  | TSum n index acc =>
      if decide (index < n) then Val (Some (set_mttf (TRead n index acc (rates_epoch s)) s))
      else Val (Some (set_mttf (TUnlock n acc) (set_index 0 s)))
  | TRead n index acc p =>
      if decide (p = rates_epoch s) then
        r ← arr_get (rej_rate (tbl s)) index;
        Val (Some (set_mttf (TSum n (index + 1) (add32 acc r)) s))
      else Fault UseAfterFree
  | TUnlock n acc => Val (Some (set_mttf TTest (observe (OAvg (div32 acc (f32_of_Z n))) (set_mttf_mutex false s))))
  end.

(** *** Everything *)
Inductive event := EMain (a : answer) | EComm (t : nat) (a : answer) | EBal (a : answer) | EMttf.

Definition server_step (ml_model : Z) (e : event) (s : server) : res :=
  match e with
  | EMain a => main_step a s
  | EComm t a => match comms s !! t with Some c => comm_step ml_model t c a s | None => Val None end
  | EBal a => bal_step a s
  | EMttf => mttf_step s
  end.

(** *** accept_load_balancer

    What [main] does with the result; [eax] is the register the result is taken
    from, which the success path, that has no [return], does not set. *)
Definition accept_load_balancer (accept_ok create_ok : bool) (eax : Z) : Z :=
  if accept_ok then if create_ok then eax else -1 else -1.

Definition main_balancer (accept_ok create_ok : bool) (eax : Z) : outcome unit :=
  if accept_load_balancer accept_ok create_ok eax <? 0 then Exit 1 else mret tt.

(** [main] after its initialisation. *)
Definition server_init (fresh : Z → Z → vm_data) (rates : Z → f32) : server :=
  Server (init_groups fresh rates) 0 false false 0 (VirtualMachine [] 0 0 0) MAccept BTest [] [] false 0 TTest.

(** An event in which [pthread_create] does not fail. *)
Definition creates (e : event) : Prop := match e with EMain (ACreate false _ _ _) => False | _ => True end.

(** Steps of the whole program, for a class of events. *)
Definition sstep (ml_model : Z) (P : event → Prop) (s s' : server) : Prop :=
  ∃ e, P e ∧ server_step ml_model e s = Val (Some s').

(** Proofs do not compute with the values a step handles. *)
#[global] Opaque recv_string get_predicted_mttf get_predicted_rttc.

(** ** The invariant of the locks and of the mailbox *)

Definition starting (c : comm) : nat := match c_pc c with CStart _ _ => 1 | _ => 0 end.
Definition posting (c : comm) : nat := match c_pc c with CWrite _ | CFlag _ => 1 | _ => 0 end.
Definition main_locks (p : main_pc) : nat := match p with MAccept | MLock _ => 0 | _ => 1 end.
Definition main_posts (p : main_pc) : nat := match p with MWrite _ _ | MFlag _ _ => 1 | _ => 0 end.
Definition bal_holds (s : server) : nat :=
  match bal s with BUnlock => 1 | _ => if state_man_vm s =? 1 then 1 else 0 end.

(** The flag agrees with where the balancer thread is. *)
Definition flag_ok (s : server) : Prop :=
  match bal s with
  | BTest => state_man_vm s = 0 ∨ state_man_vm s = 1
  | BSend | BClear => state_man_vm s = 1
  | BUnlock => state_man_vm s = 0
  end.

Definition posts : list obs → list virtual_machine := omap (λ o, match o with OPost m => Some m | _ => None end).
Definition sends : list obs → list virtual_machine := omap (λ o, match o with OToBalancer m _ => Some m | _ => None end).

(** What has been posted and not sent yet. *)
Definition pending (s : server) : list virtual_machine :=
  match bal s with
  | BTest | BSend => if state_man_vm s =? 1 then [virt_machine s] else []
  | _ => []
  end.

Definition lock_inv (s : server) : Prop :=
  Nat.b2n (mutex s) = (main_locks (main s) + sum_list_with starting (comms s))%nat ∧
  Nat.b2n (manage_vm_mutex s) = (main_posts (main s) + sum_list_with posting (comms s) + bal_holds s)%nat ∧
  flag_ok s ∧
  posts (trace s) = sends (trace s) ++ pending s.

Lemma posts_app t1 t2 : posts (t1 ++ t2) = posts t1 ++ posts t2.
Proof. apply omap_app. Qed.
Lemma sends_app t1 t2 : sends (t1 ++ t2) = sends t1 ++ sends t2.
Proof. apply omap_app. Qed.

Lemma closes_same sock n s :
  let s' := closes sock n s in
  tbl s' = tbl s ∧ index_rej_rate s' = index_rej_rate s ∧ mutex s' = mutex s ∧ manage_vm_mutex s' = manage_vm_mutex s ∧
  state_man_vm s' = state_man_vm s ∧ virt_machine s' = virt_machine s ∧ main s' = main s ∧ bal s' = bal s ∧
  comms s' = comms s ∧ posts (trace s') = posts (trace s) ∧ sends (trace s') = sends (trace s).
Proof.
  revert s. induction n as [|n IH]; intros s; cbn [closes]; [split_and!; done|].
  destruct (IH (observe (OClose sock) s)) as (-> & -> & -> & -> & -> & -> & -> & -> & -> & -> & ->).
  cbn. rewrite posts_app, sends_app. cbn. by rewrite !app_nil_r.
Qed.

Lemma closes_mttf sock n s :
  mttf_mutex (closes sock n s) = mttf_mutex s ∧ mttf (closes sock n s) = mttf s.
Proof. revert s. induction n as [|n IH]; intros s; [done|]. cbn [closes]. by destruct (IH (observe (OClose sock) s)) as [-> ->]. Qed.

Ltac state_simpl := cbn [set_tbl set_index set_mutex set_manage set_flag set_virt set_main set_bal set_comms observe
  set_mttf_mutex set_epoch set_mttf
  tbl index_rej_rate mutex manage_vm_mutex state_man_vm virt_machine main bal comms trace mttf_mutex rates_epoch mttf
  c_pc c_vm c_current c_init c_flag with_pc with_vm] in *.

(** Splits a step of a thread into the paths of its code. *)
Ltac step_cases H := repeat first
  [ discriminate H
  | match type of H with context [match ?x with _ => _ end] => destruct x eqn:?; try discriminate H end
  | apply outcome_bind_Val in H; destruct H as (? & ? & H) ].

Lemma comm_step_shape m t c a s s' :
  comm_step m t c a s = Val (Some s') →
  ∃ c', comms s' = <[t := c']> (comms s) ∧ main s' = main s ∧ bal s' = bal s.
Proof.
  unfold comm_step. intros H. destruct (c_pc c), a; try discriminate H; step_cases H; injection H as <-;
    (eexists; split; [reflexivity|split; reflexivity]).
Qed.

Lemma datapoint_pc bs c c' : on_datapoint bs c = Val c' → c_pc c' = CContinue ∨ c_pc c' = CMttf.
Proof.
  unfold on_datapoint. intros (buf & _ & H)%outcome_bind_Val. injection H as <-. unfold with_datapoint.
  destruct (c_flag c =? 0), (_ =? 0); cbn; tauto.
Qed.

Lemma datapoint_counts bs c c' : on_datapoint bs c = Val c' → starting c' = 0%nat ∧ posting c' = 0%nat.
Proof. unfold starting, posting. by intros [-> | ->]%datapoint_pc. Qed.

Ltac lock_case :=
  unfold bal_holds, flag_ok, pending in *; state_simpl;
  rewrite ?posts_app, ?sends_app in *; cbn [posts sends omap list_omap] in *; rewrite ?app_nil_r in *;
  repeat match goal with
    | |- context [match bal ?s with _ => _ end] => destruct (bal s) eqn:?
    | _ : context [match bal ?s with _ => _ end] |- _ => destruct (bal s) eqn:?
    | _ : context [state_man_vm ?s =? 1] |- _ => destruct (Z.eqb_spec (state_man_vm s) 1)
    | |- context [state_man_vm ?s =? 1] => destruct (Z.eqb_spec (state_man_vm s) 1)
    end;
  try match goal with E : mutex _ = _ |- _ => rewrite E in * end;
  try match goal with E : manage_vm_mutex _ = _ |- _ => rewrite E in * end;
  cbn [Z.eqb Pos.eqb Nat.b2n] in *; split_and!; try done; try (cbn in *; lia); try (exfalso; cbn in *; lia); rewrite ?app_nil_r in *; try congruence.

(** A step that only moves a thread, neither in nor out of a section. *)
Lemma lock_inv_same s s' t c c' :
  comms s !! t = Some c → comms s' = <[t := c']> (comms s) → starting c' = starting c → posting c' = posting c →
  mutex s' = mutex s → manage_vm_mutex s' = manage_vm_mutex s → state_man_vm s' = state_man_vm s →
  virt_machine s' = virt_machine s → main s' = main s → bal s' = bal s →
  posts (trace s') = posts (trace s) → sends (trace s') = sends (trace s) → lock_inv s → lock_inv s'.
Proof.
  intros Ht Hc Hs Hp E1 E2 E3 E4 E5 E6 E7 E8 (I1 & I2 & I3 & I4).
  pose proof (sum_list_with_insert starting (comms s) t c' c Ht).
  pose proof (sum_list_with_insert posting (comms s) t c' c Ht).
  unfold lock_inv, bal_holds, flag_ok, pending in *. rewrite Hc, E1, E2, E3, E4, E5, E6, E7, E8.
  split_and!; [lia|lia|done|done].
Qed.

Lemma lock_inv_comm m t c a s s' :
  comms s !! t = Some c → comm_step m t c a s = Val (Some s') → lock_inv s → lock_inv s'.
Proof.
  intros Ht H HI. unfold comm_step in H.
  destruct (c_pc c) eqn:Hpc, a; try discriminate H; step_cases H; injection H as <-;
    try (eapply lock_inv_same; [exact Ht|reflexivity|..|exact HI]; state_simpl;
         first [reflexivity | (etrans; [eapply datapoint_counts; eassumption|unfold starting, posting; rewrite Hpc; reflexivity]) | unfold starting, posting; rewrite Hpc; reflexivity
               | rewrite ?posts_app, ?sends_app; apply app_nil_r]; fail).
  all: destruct HI as (I1 & I2 & I3 & I4);
    assert (∀ b, Nat.b2n b <= 1)%nat as Hb by (intros []; cbn; lia);
    pose proof (Hb (mutex s)) as Hb1; pose proof (Hb (manage_vm_mutex s)) as Hb2;
    match goal with |- context [<[_ := ?x]> _] =>
      pose proof (sum_list_with_insert starting _ _ x _ Ht) as Hs;
      pose proof (sum_list_with_insert posting _ _ x _ Ht) as Hp end;
    pose proof (sum_list_with_lookup posting _ _ _ Ht) as Hlow;
    unfold lock_inv, starting, posting in *; state_simpl; rewrite ?Hpc in *; cbn [Nat.b2n] in *; lock_case.
Qed.

Lemma lock_inv_main a s s' :
  creates (EMain a) → main_step a s = Val (Some s') → lock_inv s → lock_inv s'.
Proof.
  intros Hc H (I1 & I2 & I3 & I4).
  assert (∀ b, Nat.b2n b <= 1)%nat as Hb by (intros []; cbn; lia).
  pose proof (Hb (mutex s)) as Hb1. pose proof (Hb (manage_vm_mutex s)) as Hb2.
  unfold main_step in H.
  destruct (main s) eqn:Hpc, a; try discriminate H; step_cases H; try done; injection H as <-; unfold lock_inv.
  1, 2: match goal with |- context [closes ?k ?n ?st] =>
      destruct (closes_same k n st) as (_ & _ & E1 & E2 & E3 & E4 & E5 & E6 & E7 & E8 & E9) end;
    unfold bal_holds, flag_ok, pending in *; state_simpl;
    rewrite ?E1, ?E2, ?E3, ?E4, ?E5, ?E6, ?E7, ?E8, ?E9, ?Hpc; done.
  all: state_simpl; rewrite ?sum_list_with_app; cbn [main_locks main_posts sum_list_with] in *;
    rewrite ?(eq_refl : starting (Comm (CStart _ _) _ _ _ _) = 1%nat), ?(eq_refl : posting (Comm (CStart _ _) _ _ _ _) = 0%nat);
    lock_case.
Qed.

Lemma lock_inv_bal a s s' : bal_step a s = Val (Some s') → lock_inv s → lock_inv s'.
Proof.
  intros H (I1 & I2 & I3 & I4).
  assert (∀ b, Nat.b2n b <= 1)%nat as Hb by (intros []; cbn; lia).
  pose proof (Hb (manage_vm_mutex s)) as Hb2.
  unfold bal_step in H. destruct (bal s) eqn:Hpc, a; try discriminate H; injection H as <-; unfold lock_inv.
  - unfold bal_holds, flag_ok, pending in *. rewrite Hpc in *.
    destruct (Z.eqb_spec (state_man_vm s) 1) as [e|e]; state_simpl; rewrite ?Hpc;
      rewrite ?(proj2 (Z.eqb_eq _ _) e), ?(proj2 (Z.eqb_neq _ _) e); split_and!; try done.
  - unfold bal_holds, flag_ok, pending in *. rewrite Hpc in *. state_simpl. rewrite I3 in *.
    rewrite posts_app, sends_app. cbn. rewrite app_nil_r, app_nil_r. split_and!; done.
  - unfold bal_holds, flag_ok, pending in *. rewrite Hpc in *. state_simpl. rewrite I3 in *. split_and!; done.
  - unfold bal_holds, flag_ok, pending in *. rewrite Hpc in *. state_simpl. rewrite I3 in *.
    split_and!; try done; [|by left]. cbn in *. lia.
Qed.

(** What the mttf thread leaves alone. *)
Lemma mttf_same s s' :
  mttf_step s = Val (Some s') →
  tbl s' = tbl s ∧ mutex s' = mutex s ∧ manage_vm_mutex s' = manage_vm_mutex s ∧ state_man_vm s' = state_man_vm s ∧
  virt_machine s' = virt_machine s ∧ main s' = main s ∧ bal s' = bal s ∧ comms s' = comms s ∧
  rates_epoch s' = rates_epoch s ∧ (index_rej_rate s' = index_rej_rate s ∨ index_rej_rate s' = 0) ∧
  posts (trace s') = posts (trace s) ∧ sends (trace s') = sends (trace s).
Proof.
  unfold mttf_step. intros H. destruct (mttf s) as [| |n i acc|n i acc p|n acc]; step_cases H; injection H as <-;
    try destruct (index_rej_rate s =? 0); split_and!; try done; state_simpl; rewrite ?posts_app, ?sends_app, ?app_nil_r; auto.
Qed.

Lemma lock_inv_mttf s s' : mttf_step s = Val (Some s') → lock_inv s → lock_inv s'.
Proof.
  intros (_ & E1 & E2 & E3 & E4 & E5 & E6 & E7 & _ & _ & E8 & E9)%mttf_same.
  unfold lock_inv, flag_ok, bal_holds, pending. by rewrite E1, E2, E3, E4, E5, E6, E7, E8, E9.
Qed.

Lemma lock_inv_step m s s' : sstep m creates s s' → lock_inv s → lock_inv s'.
Proof.
  intros ([a|t a|a|] & Hc & H); cbn [server_step] in H.
  - by eapply lock_inv_main.
  - destruct (comms s !! t) as [c|] eqn:Ht; [|discriminate]. by eapply lock_inv_comm.
  - by eapply lock_inv_bal.
  - by eapply lock_inv_mttf.
Qed.

Lemma lock_inv_reachable m fresh rates s :
  rtc (sstep m creates) (server_init fresh rates) s → lock_inv s.
Proof.
  intros Hr. eapply rtc_invariant; [|split_and!; [..|]|exact Hr].
  - intros x y Hx Hxy. by eapply lock_inv_step.
  - done.
  - done.
  - by left.
  - done.
Qed.

(** ** The invariant of the table *)

Definition client_ok (c : client) : Prop := ∃ k : nat, (k < 3)%nat ∧ service (c_service c) = Z.of_nat k.

(** [&vm_data_set[group][index]] is a live entry. *)
Definition slot_ok (g : groups) (group index : Z) : Prop :=
  ∃ k n : nat, (k < 3)%nat ∧ group = Z.of_nat k ∧ index = Z.of_nat n ∧ (n < length (live g k))%nat.

Definition main_ok (g : groups) (p : main_pc) : Prop :=
  match p with
  | MAccept => True
  | MLock c | MAdd c => client_ok c
  | MPost c index | MWrite c index | MFlag c index | MCreate c index => slot_ok g (service (c_service c)) index
  end.

Definition comm_ok (g : groups) (c : comm) : Prop :=
  match c_pc c with
  | CStart group index => slot_ok g group index
  | _ => ∃ k : nat, (k < 3)%nat ∧ group_of (c_vm c) = Z.of_nat k
  end.

Definition table_inv (s : server) : Prop :=
  groups_ok (tbl s) ∧ 0 <= index_rej_rate s ∧ main_ok (tbl s) (main s) ∧ Forall (comm_ok (tbl s)) (comms s).

(** Two tables with the same live entries. *)
Lemma slot_ok_live g g' group index :
  (∀ k, live g' k = live g k) → slot_ok g group index → slot_ok g' group index.
Proof. intros Hl (k & n & ?). exists k, n. by rewrite Hl. Qed.
Lemma comm_ok_live g g' c : (∀ k, live g' k = live g k) → comm_ok g c → comm_ok g' c.
Proof. unfold comm_ok. intros Hl. case_match; eauto using slot_ok_live. Qed.
Lemma main_ok_live g g' p : (∀ k, live g' k = live g k) → main_ok g p → main_ok g' p.
Proof. unfold main_ok. intros Hl. case_match; eauto using slot_ok_live. Qed.

(** With nobody inside a section of [mutex], no thread depends on the slots. *)
Lemma unlocked_ok s g' :
  lock_inv s → mutex s = false → main_ok (tbl s) (main s) → Forall (comm_ok (tbl s)) (comms s) →
  main_ok g' (main s) ∧ Forall (comm_ok g') (comms s).
Proof.
  intros (I1 & _) Hm Hmain Hc. rewrite Hm in I1. cbn in I1. split.
  - destruct (main s); cbn in *; try done; lia.
  - apply Forall_lookup. intros t c Ht. pose proof (Forall_lookup_1 _ _ _ _ Hc Ht) as H.
    pose proof (sum_list_with_lookup starting _ _ _ Ht) as Hs. unfold comm_ok, starting in *.
    destruct (c_pc c); done || lia.
Qed.

Lemma group_ok_rates g rates :
  groups_ok g → groups_ok (Groups (vm_data_set g) (current_vms g) (allocated_vms g) rates).
Proof. done. Qed.

(** A new thread reads a live entry of its group. *)
Lemma slot_ok_read g group index :
  groups_ok g → slot_ok g group index →
  ∃ slots v, arr_get (vm_data_set g) group = Val slots ∧ arr_get slots index = Val v ∧
    ∃ k : nat, (k < 3)%nat ∧ group = Z.of_nat k ∧ group_of v = Z.of_nat k ∧ v ∈ live g k.
Proof.
  intros Hg (k & n & Hk & -> & -> & Hn).
  destruct (groups_ok_lookup g k Hg Hk) as (slots & m & a & Es & En & Ea & _ & Hlive).
  destruct (lookup_lt_is_Some_2 _ _ Hn) as [v Hv]. pose proof (live_tagged g k Hg) as Ht.
  exists slots, v. rewrite (arr_get_nat _ _ _ Es). split; [done|]. split.
  - rewrite Hlive in Hv. apply lookup_take_Some in Hv as [Hv _]. by apply arr_get_nat.
  - exists k. split_and!; try done; [by apply (Forall_lookup_1 _ _ _ _ Ht Hv)|by eapply list_elem_of_lookup_2].
Qed.

Lemma datapoint_group bs c c' : on_datapoint bs c = Val c' → group_of (c_vm c') = group_of (c_vm c).
Proof.
  unfold on_datapoint. intros (buf & _ & H)%outcome_bind_Val. injection H as <-. unfold with_datapoint.
  by destruct (c_flag c =? 0), (_ =? 0).
Qed.

Lemma datapoint_ok g bs c c' :
  on_datapoint bs c = Val c' → (∃ k : nat, (k < 3)%nat ∧ group_of (c_vm c) = Z.of_nat k) → comm_ok g c'.
Proof. intros E. unfold comm_ok. rewrite (datapoint_group _ _ _ E). by destruct (datapoint_pc _ _ _ E) as [-> | ->]. Qed.

Lemma table_inv_comm m t c a s s' :
  comms s !! t = Some c → comm_step m t c a s = Val (Some s') → lock_inv s → table_inv s → table_inv s'.
Proof.
  intros Ht H Hl (T1 & T2 & T3 & T4). pose proof (Forall_lookup_1 _ _ _ _ T4 Ht) as Hc.
  unfold comm_ok in Hc. unfold comm_step in H.
  assert (Hsimple : ∀ g' c', groups_ok g' → (∀ k, live g' k = live (tbl s) k) → comm_ok g' c' →
    main_ok g' (main s) ∧ Forall (comm_ok g') (<[t := c']> (comms s))).
  { intros g' c' Hg' Hlv Hc'. split; [by eapply main_ok_live|]. apply Forall_insert; [|done].
    eapply Forall_impl; [exact T4|]. intros. by eapply comm_ok_live. }
  assert (Hlocked : ∀ g' c', mutex s = false → groups_ok g' → comm_ok g' c' →
    main_ok g' (main s) ∧ Forall (comm_ok g') (<[t := c']> (comms s))).
  { intros g' c' Hm Hg' Hc'. destruct (unlocked_ok s g' Hl Hm T3 T4). split; [done|]. by apply Forall_insert. }
  destruct (c_pc c) eqn:Hpc, a; try discriminate H.
  1: { destruct (slot_ok_read _ _ _ T1 Hc) as (slots & v & Hs & Hv & k & Hk & _ & Hgv & _). rewrite Hs in H. cbn [mbind outcome_bind] in H. rewrite Hv in H.
       injection H as <-. split; [done|]. split; [done|]. apply Hsimple; [done..|]. by exists k. }
  all: step_cases H; injection H as <-; unfold table_inv; state_simpl.
  all: try (split; [done|]; split; [lia|]; apply Hsimple; [done..|]; first [exact Hc | by eapply datapoint_ok]).
  all: destruct Hc as (k & Hk & Hg).
  1: { destruct (switch_active_machine_spec (c_vm c) (tbl s) k T1 Hk Hg) as (g' & E & Hg' & _).
       rewrite E in H0. injection H0 as <-. split; [done|]. split; [done|]. apply Hlocked; [done..|]. by exists k. }
  all: destruct (manage_disconnected_vms_spec (c_vm c) (tbl s) k T1 Hk Hg) as (g' & E & Hg' & _);
    rewrite E in H0; injection H0 as <-; split; [done|]; split; [done|]; apply Hlocked; [done..|]; by exists k.
Qed.

(** While the accepting thread is inside its section no thread is starting. *)
Lemma in_section_ok s g' :
  lock_inv s → main_locks (main s) = 1%nat → Forall (comm_ok (tbl s)) (comms s) → Forall (comm_ok g') (comms s).
Proof.
  intros (I1 & _) Hm Hc. rewrite Hm in I1. apply Forall_lookup. intros t c Ht.
  pose proof (Forall_lookup_1 _ _ _ _ Hc Ht) as H.
  pose proof (sum_list_with_lookup starting _ _ _ Ht) as Hs. unfold comm_ok, starting in *.
  destruct (mutex s); cbn in I1; destruct (c_pc c); done || lia.
Qed.

Lemma register_slot c mem g g' index k :
  groups_ok g → (k < 3)%nat → service (c_service c) = Z.of_nat k → register c mem g = Val (g', index) →
  groups_ok g' ∧ slot_ok g' (service (c_service c)) index.
Proof.
  intros Hg Hk Hc H.
  destruct (register_spec c mem g k Hg Hk Hc) as [(g1 & f & st & E & Hg1 & Hl1 & _)|[[E _]|[E _]]]; [|congruence..].
  rewrite E in H. injection H as <- <-. split; [done|]. exists k, (length (live g k)). rewrite Hl1, length_app. cbn.
  split_and!; try done. lia.
Qed.

Lemma table_inv_main a s s' :
  main_step a s = Val (Some s') → lock_inv s → table_inv s → table_inv s'.
Proof.
  intros H Hl (T1 & T2 & T3 & T4). unfold main_step in H.
  destruct (main s) as [|c|c|c i|c i|c i|c i] eqn:Hpc, a; try discriminate H; step_cases H; injection H as <-; unfold table_inv.
  1, 2: match goal with |- context [closes ?k ?n ?st] =>
      destruct (closes_same k n st) as (E1 & E2 & E3 & _ & _ & _ & E4 & _ & E5 & _) end;
    state_simpl; rewrite ?E1, ?E2, ?E4, ?E5, ?Hpc; split_and!; try done.
  1: { destruct (handshake_valid _ _ _ _ _ Heqh) as [? ?]. exists (Z.to_nat (service s0)).
       unfold NUMBER_GROUPS in *. split; cbn; lia. }
  all: state_simpl; try (split_and!; done).
  - destruct T3 as (k & Hk & Hc). destruct x as [g' index]. cbn [fst snd].
    destruct (register_slot _ _ _ _ _ _ T1 Hk Hc H0) as [Hg' Hs]. split; [done|]. split; [done|]. split.
    + exact Hs.
    + eapply in_section_ok; [done|by rewrite Hpc|done].
  - destruct T3 as (k & Hk & Hc). destruct x as [g' index]. cbn [fst snd].
    destruct (register_slot _ _ _ _ _ _ T1 Hk Hc H0) as [Hg' Hs]. split; [done|]. split; [done|]. split.
    + exact Hs.
    + eapply in_section_ok; [done|by rewrite Hpc|done].
  - split; [done|]. split; [done|]. split; [done|]. apply Forall_app. split; [done|]. by apply Forall_singleton.
Qed.

Lemma table_inv_step m s s' : sstep m creates s s' → lock_inv s → table_inv s → table_inv s'.
Proof.
  intros ([a|t a|a|] & Hc & H) Hl Ht; cbn [server_step] in H.
  - by eapply table_inv_main.
  - destruct (comms s !! t) as [c|] eqn:E; [|discriminate]. by eapply table_inv_comm.
  - unfold bal_step in H. destruct (bal s), a; try discriminate H; injection H as <-; try case_match; done.
  - apply mttf_same in H as (E1 & _ & _ & _ & _ & E2 & _ & E3 & _ & E4 & _). unfold table_inv in *. rewrite E1, E2, E3.
    destruct Ht as (T1 & T2 & T3 & T4). split; [done|]. split; [destruct E4 as [-> | ->]; done || lia|]. by split.
Qed.

Lemma inv_reachable m fresh rates s :
  rtc (sstep m creates) (server_init fresh rates) s → lock_inv s ∧ table_inv s.
Proof.
  intros Hr.
  apply (rtc_invariant (sstep m creates) (λ s, lock_inv s ∧ table_inv s) (server_init fresh rates) s); [|split|exact Hr].
  - intros x y [Hx Hx'] Hxy. split; [by eapply lock_inv_step|by eapply table_inv_step].
  - by apply (lock_inv_reachable m fresh rates (server_init fresh rates)).
  - split; [apply init_groups_ok|]. split; [done|]. split; [done|constructor].
Qed.

(** ** Progress *)
Section Progress.
Variable m : Z.

Lemma do_step e s s' : creates e → server_step m e s = Val (Some s') → rtc (sstep m creates) s s'.
Proof. intros Hc H. apply rtc_once. by exists e. Qed.

(** The balancer thread sends what is posted and releases [manage_vm_mutex]. *)
Lemma balancer_releases s :
  flag_ok s → bal_holds s = 1%nat →
  ∃ s', rtc (sstep m creates) s s' ∧ manage_vm_mutex s' = false ∧ mutex s' = mutex s ∧ tbl s' = tbl s ∧ main s' = main s.
Proof.
  assert (Hu : ∀ s, bal s = BUnlock → ∃ s', rtc (sstep m creates) s s' ∧ manage_vm_mutex s' = false ∧
    mutex s' = mutex s ∧ tbl s' = tbl s ∧ main s' = main s).
  { intros s0 E. eexists. split; [by apply (do_step (EBal ATau)); [|cbn; unfold bal_step; rewrite E]|done]. }
  assert (Hc : ∀ s, bal s = BClear → ∃ s', rtc (sstep m creates) s s' ∧ manage_vm_mutex s' = false ∧
    mutex s' = mutex s ∧ tbl s' = tbl s ∧ main s' = main s).
  { intros s0 E. destruct (Hu (set_bal BUnlock (set_flag 0 s0)) eq_refl) as (s' & Hr & H). exists s'. split; [|exact H].
    etrans; [|exact Hr]. by apply (do_step (EBal ATau)); [|cbn; unfold bal_step; rewrite E]. }
  assert (Hs : ∀ s, bal s = BSend → ∃ s', rtc (sstep m creates) s s' ∧ manage_vm_mutex s' = false ∧
    mutex s' = mutex s ∧ tbl s' = tbl s ∧ main s' = main s).
  { intros s0 E. destruct (Hc (set_bal BClear (observe (OToBalancer (virt_machine s0) true) s0)) eq_refl) as (s' & Hr & H).
    exists s'. split; [|exact H].
    etrans; [|exact Hr]. by apply (do_step (EBal (ASend true))); [|cbn; unfold bal_step; rewrite E]. }
  intros Hf Hh. unfold bal_holds, flag_ok in *. destruct (bal s) eqn:E; [|by apply Hs|by apply Hc|by apply Hu].
  destruct (Z.eqb_spec (state_man_vm s) 1) as [e|]; [|done].
  destruct (Hs (set_bal BSend s) eq_refl) as (s' & Hr & H). exists s'. split; [|exact H]. etrans; [|exact Hr].
  apply (do_step (EBal ATau)); [done|]. cbn. unfold bal_step. by rewrite E, e.
Qed.

Lemma posting_releases s t c :
  comms s !! t = Some c → posting c = 1%nat → flag_ok s → bal_holds s = 0%nat →
  ∃ s', rtc (sstep m creates) s s' ∧ manage_vm_mutex s' = false ∧ mutex s' = mutex s ∧ tbl s' = tbl s ∧ main s' = main s.
Proof.
  assert (Hflag : ∀ s c o, comms s !! t = Some c → c_pc c = CFlag o → flag_ok s → bal_holds s = 0%nat →
    ∃ s', rtc (sstep m creates) s s' ∧ manage_vm_mutex s' = false ∧ mutex s' = mutex s ∧ tbl s' = tbl s ∧ main s' = main s).
  { intros s0 c0 o Ht E Hf Hb. unfold flag_ok, bal_holds in *. destruct (bal s0) eqn:Eb; try done; [|by rewrite Hf in Hb..].
    destruct (balancer_releases (set_comms (<[t := with_pc (if o =? DELETE then CDisc else CLoop) c0]> (comms s0))
        (observe (OPost (virt_machine s0)) (set_flag 1 s0)))) as (s' & Hr & H).
    - unfold flag_ok. cbn. rewrite Eb. by right.
    - unfold bal_holds. cbn. by rewrite Eb.
    - exists s'. split; [|exact H]. etrans; [|exact Hr].
      apply (do_step (EComm t ATau)); [done|]. cbn. rewrite Ht. unfold comm_step. by rewrite E. }
  intros Ht Hp Hf Hb. unfold posting in Hp. destruct (c_pc c) as [| | | | | | | | | | | | | |o|o| | |] eqn:E; try done; [|by eauto].
  destruct (Hflag (set_comms (<[t := with_pc (CFlag o) c]> (comms s)) (set_virt (message (c_vm c) o) s))
              (with_pc (CFlag o) c) o) as (s' & Hr & H); [|done..|].
  - cbn. apply list_lookup_insert_eq. by eapply lookup_lt_Some.
  - exists s'. split; [|exact H]. etrans; [|exact Hr].
    apply (do_step (EComm t ATau)); [done|]. cbn. rewrite Ht. unfold comm_step. by rewrite E.
Qed.

(** Whoever holds [manage_vm_mutex], it can be released, without touching
    [mutex] or the table. *)
Lemma manage_released s :
  lock_inv s →
  ∃ s', rtc (sstep m creates) s s' ∧ manage_vm_mutex s' = false ∧ mutex s' = mutex s ∧ tbl s' = tbl s ∧
    main_locks (main s') = main_locks (main s).
Proof.
  intros (_ & I2 & Hf & _). destruct (manage_vm_mutex s) eqn:Em; [|by exists s]. cbn in I2.
  destruct (bal_holds s) as [|[|n]] eqn:Eb; [| |lia].
  - destruct (main_posts (main s)) eqn:Emp.
    + destruct (sum_list_with_pos posting (comms s)) as (t & c & Ht & Hp); [lia|].
      destruct (posting_releases s t c Ht) as (s' & ? & ? & ? & ? & E); [|done..|exists s'; by rewrite E].
      pose proof (sum_list_with_lookup posting _ _ _ Ht). lia.
    + assert (Hflag : ∀ s c i, main s = MFlag c i → flag_ok s → bal_holds s = 0%nat →
        ∃ s', rtc (sstep m creates) s s' ∧ manage_vm_mutex s' = false ∧ mutex s' = mutex s ∧ tbl s' = tbl s ∧
          main_locks (main s') = 1%nat).
      { intros s0 c i E Hf0 Hb0. unfold flag_ok, bal_holds in *. destruct (bal s0) eqn:Eb0; try done; [|by rewrite Hf0 in Hb0..].
        destruct (balancer_releases (set_main (MCreate c i) (observe (OPost (virt_machine s0)) (set_flag 1 s0))))
          as (s' & Hr & ? & ? & ? & E').
        - unfold flag_ok. cbn. rewrite Eb0. by right.
        - unfold bal_holds. cbn. by rewrite Eb0.
        - exists s'. rewrite E'. split_and!; try done. etrans; [|exact Hr].
          apply (do_step (EMain ATau)); [done|]. cbn. unfold main_step. by rewrite E. }
      destruct (main s) as [| | |c i|c i|c i|c i] eqn:E; try discriminate Emp.
      * destruct (Hflag (set_main (MFlag c i) (set_virt (VirtualMachine (c_ip c) vm_port (service (c_service c)) ADD) s))
                    c i) as (s' & Hr & H); [done..|].
        exists s'. split; [|exact H]. etrans; [|exact Hr].
        apply (do_step (EMain ATau)); [done|]. cbn. unfold main_step. by rewrite E.
      * destruct (Hflag s c i) as (s' & Hr & H); [done..|]. by exists s'.
  - destruct (balancer_releases s Hf Eb) as (s' & ? & ? & ? & ? & E). exists s'. by rewrite E.
Qed.

Lemma create_releases s c i :
  main s = MCreate c i → groups_ok (tbl s) → slot_ok (tbl s) (service (c_service c)) i →
  ∃ s', rtc (sstep m creates) s s' ∧ mutex s' = false.
Proof.
  intros E Hg Hs. destruct (slot_ok_read _ _ _ Hg Hs) as (slots & v & E1 & E2 & _).
  set (c' := Comm (CStart (service (c_service c)) i) v quiet quiet 0).
  set (s1 := set_main MAccept (set_comms (comms s ++ [c']) s)).
  assert (Ht : comms s1 !! length (comms s) = Some c') by (cbn; by rewrite list_lookup_middle).
  exists (set_comms (<[length (comms s) := with_pc CLoop (with_vm v c')]> (comms s1)) (set_mutex false s1)).
  split; [|done]. etrans.
  - apply (do_step (EMain (ACreate true v quiet quiet)) s s1); [done|]. cbn. unfold main_step. by rewrite E.
  - apply (do_step (EComm (length (comms s)) ATau)); [done|]. cbn [server_step]. rewrite Ht.
    unfold comm_step. cbn [c' c_pc s1 tbl set_main set_comms]. rewrite E1. cbn [mbind outcome_bind]. by rewrite E2.
Qed.

Lemma post_releases s c i :
  main s = MPost c i → manage_vm_mutex s = false → groups_ok (tbl s) → slot_ok (tbl s) (service (c_service c)) i →
  ∃ s', rtc (sstep m creates) s s' ∧ mutex s' = false.
Proof.
  intros E Em Hg Hs.
  set (msg := VirtualMachine (c_ip c) vm_port (service (c_service c)) ADD).
  set (s1 := set_main (MWrite c i) (set_manage true s)).
  set (s2 := set_main (MFlag c i) (set_virt msg s1)).
  set (s3 := set_main (MCreate c i) (observe (OPost msg) (set_flag 1 s2))).
  destruct (create_releases s3 c i eq_refl Hg Hs) as (s' & Hr & H). exists s'. split; [|exact H].
  etrans; [|etrans; [|etrans; [|exact Hr]]].
  - apply (do_step (EMain ATau) s s1); [done|]. cbn. unfold main_step. by rewrite E, Em.
  - by apply (do_step (EMain ATau) s1 s2).
  - by apply (do_step (EMain ATau) s2 s3).
Qed.

Lemma mutex_released s :
  lock_inv s → table_inv s → manage_vm_mutex s = false →
  (∀ k, Z.of_nat (length (live (tbl s) k)) < 2 ^ 30) →
  ∃ s', rtc (sstep m creates) s s' ∧ mutex s' = false.
Proof.
  intros (I1 & I2 & _) (Hg & _ & Hm & Hc) Em Hsmall. rewrite Em in I2. cbn in I2.
  destruct (mutex s) eqn:Emx; [|by exists s]. cbn in I1.
  destruct (main s) as [|c|c|c i|c i|c i|c i] eqn:E; cbn in I1, I2, Hm; try lia.
  1, 2: destruct (sum_list_with_pos starting (comms s)) as (t & c0 & Ht & Hp); [lia|];
    pose proof (Forall_lookup_1 _ _ _ _ Hc Ht) as H0; unfold comm_ok, starting in *;
    destruct (c_pc c0) as [group index| | | | | | | | | | | | | | | | | |] eqn:Epc; try lia;
    destruct (slot_ok_read _ _ _ Hg H0) as (slots & v & E1 & E2 & _);
    exists (set_comms (<[t := with_pc CLoop (with_vm v c0)]> (comms s)) (set_mutex false s)); (split; [|done]);
    apply (do_step (EComm t ATau)); [done|]; cbn [server_step]; rewrite Ht; unfold comm_step; rewrite Epc, E1;
    cbn [mbind outcome_bind]; by rewrite E2.
  - destruct Hm as (k & Hk & Hck).
    destruct (register_spec c no_memory (tbl s) k Hg Hk Hck) as [(g' & f & st & Er & _)|[[_ ?]|[_ Hbig]]];
      [|done|specialize (Hsmall k); lia].
    destruct (register_slot _ _ _ _ _ _ Hg Hk Hck Er) as [Hg' Hs'].
    set (i := Z.of_nat (length (live (tbl s) k))) in *.
    set (s1 := set_epoch (epoch_after c no_memory (tbl s) (rates_epoch s)) (set_tbl g' s)).
    destruct (state (c_service c) =? ACTIVE) eqn:Est.
    + destruct (post_releases (set_main (MPost c i) s1) c i eq_refl Em Hg' Hs') as (s' & Hr & H).
      exists s'. split; [|exact H]. etrans; [|exact Hr].
      apply (do_step (EMain (ARealloc no_memory))); [done|]. cbn. unfold main_step. rewrite E, Er. cbn. by rewrite Est.
    + destruct (create_releases (set_main (MCreate c i) s1) c i eq_refl Hg' Hs') as (s' & Hr & H).
      exists s'. split; [|exact H]. etrans; [|exact Hr].
      apply (do_step (EMain (ARealloc no_memory))); [done|]. cbn. unfold main_step. rewrite E, Er. cbn. by rewrite Est.
  - by apply (post_releases s c i).
  - by apply (create_releases s c i).
Qed.
End Progress.

(** ** What is posted *)
Definition leaving (o : Z) : Prop := o = REJ ∨ o = DELETE.
Definition announcement (c : client) : virtual_machine :=
  VirtualMachine (c_ip c) vm_port (service (c_service c)) ADD.

Definition comm_mail (v : virtual_machine) (c : comm) : Prop :=
  match c_pc c with
  | CPost o | CWrite o => leaving o
  | CFlag o => leaving o ∧ v = message (c_vm c) o
  | _ => True
  end.
Definition main_mail (v : virtual_machine) (p : main_pc) : Prop :=
  match p with
  | MPost c _ | MWrite c _ => state (c_service c) = ACTIVE
  | MFlag c _ => state (c_service c) = ACTIVE ∧ v = announcement c
  | _ => True
  end.
Definition mail_inv (s : server) : Prop :=
  main_mail (virt_machine s) (main s) ∧ Forall (comm_mail (virt_machine s)) (comms s).

Lemma main_mail_virt v v' p : main_posts p = 0%nat → main_mail v p → main_mail v' p.
Proof. by destruct p. Qed.
Lemma comm_mail_virt v v' c : posting c = 0%nat → comm_mail v c → comm_mail v' c.
Proof. unfold posting, comm_mail. by destruct (c_pc c). Qed.

(** Only the thread that holds [manage_vm_mutex] to post can write the struct. *)
Lemma posting_alone s t c v :
  lock_inv s → comms s !! t = Some c → posting c = 1%nat → mail_inv s →
  main_mail v (main s) ∧ ∀ t' c', t' ≠ t → comms s !! t' = Some c' → comm_mail v c'.
Proof.
  intros (_ & I2 & _) Ht Hp (Hm & Hc). pose proof (sum_list_with_lookup posting _ _ _ Ht) as Hs.
  destruct (manage_vm_mutex s); cbn in I2; [|lia]. split.
  - apply (main_mail_virt (virt_machine s)); [lia|done].
  - intros t' c' Hne Ht'. pose proof (sum_list_with_two posting _ _ _ _ _ Hne Ht' Ht).
    apply (comm_mail_virt (virt_machine s)); [lia|]. by apply (Forall_lookup_1 _ _ _ _ Hc Ht').
Qed.

Lemma mail_inv_comm m t c a s s' :
  comms s !! t = Some c → comm_step m t c a s = Val (Some s') → lock_inv s → mail_inv s → mail_inv s'.
Proof.
  intros Ht H Hl Hmail. pose proof Hmail as (Hm & Hc). pose proof (Forall_lookup_1 _ _ _ _ Hc Ht) as H0.
  unfold comm_mail in H0. unfold comm_step in H.
  assert (Hsame : ∀ c', comm_mail (virt_machine s) c' → main_mail (virt_machine s) (main s) ∧
    Forall (comm_mail (virt_machine s)) (<[t := c']> (comms s))).
  { intros c' Hc'. split; [done|]. by apply Forall_insert. }
  destruct (c_pc c) eqn:Hpc, a; try discriminate H; step_cases H; injection H as <-; unfold mail_inv; state_simpl;
    try (apply Hsame; cbn; unfold leaving; tauto).
  - apply Hsame. match goal with E : on_datapoint _ _ = Val _ |- _ =>
      unfold comm_mail; by destruct (datapoint_pc _ _ _ E) as [-> | ->] end.
  - destruct (posting_alone s t c (message (c_vm c) o) Hl Ht) as [Hm' Hc']; [by unfold posting; rewrite Hpc|done|].
    split; [done|]. by apply Forall_insert_others.
Qed.

Lemma mail_inv_main a s s' :
  main_step a s = Val (Some s') → lock_inv s → mail_inv s → mail_inv s'.
Proof.
  intros H (_ & I2 & _) (Hm & Hc). unfold main_step in H.
  destruct (main s) as [|c|c|c i|c i|c i|c i] eqn:Hpc, a; try discriminate H; step_cases H; injection H as <-; unfold mail_inv.
  1, 2: match goal with |- context [closes ?k ?n ?st] =>
      destruct (closes_same k n st) as (_ & _ & _ & _ & _ & E1 & E2 & _ & E3 & _) end;
    state_simpl; rewrite ?E1, ?E2, ?E3, ?Hpc; split_and!; done.
  all: state_simpl; try (split; done).
  - split; [|done]. by apply Z.eqb_eq.
  - split; [done|]. apply Forall_lookup. intros t c' Ht. pose proof (sum_list_with_lookup posting _ _ _ Ht).
    destruct (manage_vm_mutex s); cbn in I2; [|lia].
    apply (comm_mail_virt (virt_machine s)); [lia|]. by apply (Forall_lookup_1 _ _ _ _ Hc Ht).
  - split; [done|]. apply Forall_app. split; [done|]. by apply Forall_singleton.
Qed.

Lemma mail_inv_step m s s' : sstep m creates s s' → lock_inv s → mail_inv s → mail_inv s'.
Proof.
  intros ([a|t a|a|] & Hcr & H) Hl Ht; cbn [server_step] in H.
  - by eapply mail_inv_main.
  - destruct (comms s !! t) as [c|] eqn:E; [|discriminate]. by eapply mail_inv_comm.
  - unfold bal_step in H. destruct (bal s), a; try discriminate H; injection H as <-; try case_match; done.
  - apply mttf_same in H as (_ & _ & _ & _ & E1 & E2 & _ & E3 & _). unfold mail_inv in *. by rewrite E1, E2, E3.
Qed.

Lemma mail_inv_reachable m fresh rates s :
  rtc (sstep m creates) (server_init fresh rates) s → mail_inv s.
Proof.
  intros Hr.
  apply (rtc_invariant (sstep m creates) (λ s, lock_inv s ∧ mail_inv s) (server_init fresh rates) s); [|split|exact Hr].
  - intros x y [Hx Hx'] Hxy. split; [by eapply lock_inv_step|by eapply mail_inv_step].
  - by apply (lock_inv_reachable m fresh rates (server_init fresh rates)).
  - split; [done|constructor].
Qed.

(** ** The invariant of the rates *)
Definition rating (c : comm) : nat := match c_pc c with CRateLoad _ | CRateStore _ _ | CRateUnlock => 1 | _ => 0 end.
Definition mttf_holds (p : mttf_pc) : nat := match p with TTest | TLock => 0 | _ => 1 end.

(** [mttf_mutex] has one holder, and while the mttf thread has it the number of
    rates is the one it has read. *)
Definition rate_inv (s : server) : Prop :=
  Nat.b2n (mttf_mutex s) = (sum_list_with rating (comms s) + mttf_holds (mttf s))%nat ∧ 0 <= index_rej_rate s ∧
  match mttf s with
  | TSum n i _ => n = index_rej_rate s ∧ 0 <= i
  | TRead n i _ _ => n = index_rej_rate s ∧ 0 <= i < n
  | _ => True
  end.

Lemma rate_inv_comm m t c a s s' :
  comms s !! t = Some c → comm_step m t c a s = Val (Some s') → rate_inv s → rate_inv s'.
Proof.
  intros Ht H (I1 & I2 & I3).
  assert (Hsame : ∀ st c', comms st = <[t := c']> (comms s) → rating c' = rating c → mttf_mutex st = mttf_mutex s →
    index_rej_rate st = index_rej_rate s → mttf st = mttf s → rate_inv st).
  { intros st c' E1 E2 E3 E4 E5. unfold rate_inv. rewrite E1, E3, E4, E5.
    pose proof (sum_list_with_insert rating (comms s) t c' c Ht). split; [lia|by split]. }
  unfold comm_step in H.
  destruct (c_pc c) eqn:Hpc, a; try discriminate H; step_cases H; injection H as <-;
    try (eapply Hsame; [reflexivity|unfold rating; cbn; rewrite Hpc; reflexivity|reflexivity..]; fail).
  1: { eapply Hsame; [reflexivity| |reflexivity..]. unfold rating. rewrite Hpc.
       match goal with E : on_datapoint _ _ = Val _ |- _ => by destruct (datapoint_pc _ _ _ E) as [-> | ->] end. }
  all: match goal with |- context [<[_ := ?x]> _] => pose proof (sum_list_with_insert rating _ _ x _ Ht) as Hs end;
    pose proof (sum_list_with_lookup rating _ _ _ Ht) as Hlow;
    assert (Nat.b2n (mttf_mutex s) <= 1)%nat as Hb by (destruct (mttf_mutex s); cbn; lia);
    unfold rate_inv, rating in *; state_simpl; rewrite ?Hpc in *; cbn [Nat.b2n] in *;
    try match goal with E : mttf_mutex _ = _ |- _ => rewrite E in *; cbn [Nat.b2n] in * end;
    destruct (mttf s); cbn [mttf_holds] in *; split_and!; done || lia.
Qed.

Lemma rate_inv_mttf s s' : mttf_step s = Val (Some s') → rate_inv s → rate_inv s'.
Proof.
  unfold mttf_step, rate_inv. intros H (I1 & I2 & I3).
  destruct (mttf s) as [| |n i acc|n i acc p|n acc] eqn:E; step_cases H; injection H as <-; try destruct (index_rej_rate s =? 0);
    state_simpl; rewrite ?E; try match goal with E : mttf_mutex _ = _ |- _ => rewrite E in * end;
    destruct (mttf_mutex s); cbn [mttf_holds Nat.b2n] in *; split_and!; done || lia.
Qed.

Lemma rate_inv_step m P s s' : sstep m P s s' → rate_inv s → rate_inv s'.
Proof.
  intros ([a|t a|a|] & Hc & H) Hi; cbn [server_step] in H.
  - unfold main_step in H. destruct (main s), a; try discriminate H; step_cases H; injection H as <-; try done.
    1, 2: match goal with |- context [closes ?k ?n ?st] =>
      destruct (closes_same k n st) as (_ & E1 & _ & _ & _ & _ & _ & _ & E2 & _ & _);
      destruct (closes_mttf k n st) as (E3 & E4) end; unfold rate_inv in *; state_simpl; by rewrite E1, E2, E3, E4.
    unfold rate_inv in *. state_simpl. rewrite sum_list_with_app. cbn. by rewrite Nat.add_0_r.
  - destruct (comms s !! t) as [c|] eqn:Ht; [|discriminate]. by eapply rate_inv_comm.
  - unfold bal_step in H. destruct (bal s), a; try discriminate H; injection H as <-; try case_match; done.
  - by eapply rate_inv_mttf.
Qed.

Lemma rate_inv_reachable m P fresh rates s : rtc (sstep m P) (server_init fresh rates) s → rate_inv s.
Proof. apply rtc_invariant; [|by split_and!]. intros x y Hx Hxy. by eapply rate_inv_step. Qed.

(** ** Properties *)

(** C1.  As long as [pthread_create] does not fail the mailbox loses and repeats
    nothing: in every state that is reached without such a failure the structs
    handed to the balancer's socket are the ones posted, in the order of the posts,
    and at most one post, the one in [virt_machine], is outstanding.
    [manage_vm_mutex] is taken by the poster and released by the other thread.
    After a failure a post can be lost ([failed_create_loses_message]). *)
Theorem mailbox_fifo m fresh rates s :
  rtc (sstep m creates) (server_init fresh rates) s →
  posts (trace s) = sends (trace s) ++ pending s ∧ (length (pending s) <= 1)%nat ∧
  (pending s ≠ [] → pending s = [virt_machine s] ∧ manage_vm_mutex s = true).
Proof.
  intros Hr. destruct (lock_inv_reachable m fresh rates s Hr) as (_ & I2 & Hf & Hp).
  split; [done|]. unfold pending, bal_holds, flag_ok in *.
  destruct (bal s), (Z.eqb_spec (state_man_vm s) 1); cbn; split; try lia; try done;
    intros _; (split; [done|]); destruct (manage_vm_mutex s); cbn in I2; done || lia.
Qed.

(** What a step posts. *)
Lemma step_posts m s e s' :
  mail_inv s → server_step m e s = Val (Some s') →
  posts (trace s') = posts (trace s) ∨
  ∃ msg, posts (trace s') = posts (trace s) ++ [msg] ∧
    ((∃ t c o, e = EComm t ATau ∧ comms s !! t = Some c ∧ leaving o ∧ msg = message (c_vm c) o) ∨
     (∃ c i, e = EMain ATau ∧ main s = MFlag c i ∧ state (c_service c) = ACTIVE ∧ msg = announcement c)).
Proof.
  intros (Hm & Hcs) H.
  assert (Hpost : ∀ o : obs, match o with OPost _ => False | _ => True end →
    posts (trace s ++ [o]) = posts (trace s)).
  { intros o Ho. rewrite posts_app. by destruct o; cbn; rewrite ?app_nil_r. }
  destruct e as [a|t a|a|]; cbn [server_step] in H.
  - unfold main_step in H. destruct (main s) as [|c|c|c i|c i|c i|c i] eqn:E, a; try discriminate H; step_cases H;
      injection H as <-; state_simpl; try (by left).
    1, 2: match goal with |- context [closes ?k ?n ?st] =>
      destruct (closes_same k n st) as (_ & _ & _ & _ & _ & _ & _ & _ & _ & -> & _); by left end.
    right. exists (virt_machine s). rewrite posts_app. split; [done|]. right. exists c, i. destruct Hm. done.
  - destruct (comms s !! t) as [c|] eqn:Ht; [|discriminate]. pose proof (Forall_lookup_1 _ _ _ _ Hcs Ht) as H0.
    unfold comm_mail in H0. unfold comm_step in H.
    destruct (c_pc c) eqn:Hpc, a; try discriminate H; step_cases H; injection H as <-; state_simpl;
      try (left; first [done | by apply Hpost]).
    all: right; exists (virt_machine s); rewrite posts_app; (split; [done|]); left; exists t, c, o; by destruct H0.
  - unfold bal_step in H. destruct (bal s), a; try discriminate H; injection H as <-; try case_match; state_simpl; left;
      first [done | by apply Hpost].
  - left. apply (mttf_same s s' H).
Qed.

(** C31.  As long as [pthread_create] does not fail (when it does, a thread can
    post another one's message, [failed_create_loses_message]) a thread posts its
    own message, no other thread's: a communication
    thread a REJ or DELETE of its VM, the accepting thread an ADD of the client
    it has just registered as active.  So a VM that registered on stand-by is
    never announced to the balancer, also when it takes over from a VM that is
    rejuvenating. *)
Theorem posts_are_own_messages m fresh rates s e s' :
  rtc (sstep m creates) (server_init fresh rates) s → creates e → server_step m e s = Val (Some s') →
  posts (trace s') = posts (trace s) ∨
  ∃ msg, posts (trace s') = posts (trace s) ++ [msg] ∧
    ((∃ t c o, e = EComm t ATau ∧ comms s !! t = Some c ∧ leaving o ∧ msg = message (c_vm c) o) ∨
     (∃ c i, e = EMain ATau ∧ main s = MFlag c i ∧ state (c_service c) = ACTIVE ∧ msg = announcement c)).
Proof. intros Hr _. by apply step_posts, (mail_inv_reachable m fresh rates). Qed.

(** C25.  The table of VMs is well typed in every state that is reached without a
    failure of [pthread_create]: in each group
    as many slots as allocated, no fewer of them than are live, every live one
    tagged with its group; the pointer into the table that a new thread has been
    given, or the accepting thread is about to give, is to a live slot, and the VM
    each thread has copied is of an existing service. *)
Theorem table_well_typed m fresh rates s :
  rtc (sstep m creates) (server_init fresh rates) s →
  groups_ok (tbl s) ∧ main_ok (tbl s) (main s) ∧ Forall (comm_ok (tbl s)) (comms s).
Proof. intros Hr. by destruct (inv_reachable m fresh rates s Hr) as (_ & ? & _ & ? & ?). Qed.

(** The thread of the event is about to use an element of the rates through a
    pointer to the block of epoch [p]. *)
Definition uses_rates (e : event) (s : server) (p : nat) : Prop :=
  (∃ t c rate, e = EComm t ATau ∧ comms s !! t = Some c ∧ c_pc c = CRateStore rate p) ∨
  (e = EMttf ∧ ∃ n i acc, mttf s = TRead n i acc p).

(** What a step that faults can be. *)
Definition main_fault (s : server) (a : answer) (f : fault) : Prop :=
  (f = NullDeref ∧ ∃ first, a = ANoBuffer first) ∨
  ∃ mem, a = ARealloc mem ∧
    (f = NullDeref ∧ fresh_slots mem = None ∨
     f = SignedOverflow ∧ ∃ k, 2 ^ 30 <= Z.of_nat (length (live (tbl s) k))).
Definition string_fault (bs : list Z) (f : fault) : Prop :=
  f = OutOfBounds ∧ BUFSIZE <= Z.of_nat (length bs) ∧ 0 ∉ take (Z.to_nat BUFSIZE) bs.
Definition rates_fault (s : server) (p : nat) (f : fault) : Prop :=
  f = UseAfterFree ∧ p ≠ rates_epoch s ∨
  f = OutOfBounds ∧ p = rates_epoch s ∧ Z.of_nat (length (rej_rate (tbl s))) <= index_rej_rate s.

Lemma main_step_fault s a f : table_inv s → main_step a s = Fault f → main_fault s a f.
Proof.
  intros (T1 & _ & T3 & _) H. unfold main_step in H.
  destruct (main s) as [|c|c|c i|c i|c i|c i] eqn:E, a; try discriminate H; [step_cases H|left|by destruct (mutex s)| |by destruct (manage_vm_mutex s)|step_cases H].
  { destruct first as [[|b bs]|]; try discriminate H. injection H as <-. split; [done|by eexists]. }
  right. exists mem. split; [done|]. destruct T3 as (k & Hk & Hc).
  destruct (register_spec c mem (tbl s) k T1 Hk Hc) as [(g' & f' & st & E' & _)|[[E' ?]|[E' ?]]]; rewrite E' in H; cbn in H; simplify_eq;
    [by left|by right; eauto].
Qed.

Lemma datapoint_fault bs c f : on_datapoint bs c = Fault f → string_fault bs f.
Proof.
  unfold on_datapoint. with_strategy transparent [recv_string] unfold recv_string. case_decide as Hd; [done|].
  intros [= <-]. split; [done|]. split; [lia|tauto].
Qed.

Lemma comm_step_fault m t c a s f :
  comms s !! t = Some c → table_inv s → comm_step m t c a s = Fault f →
  (∃ bs, a = ARecv (RData bs) ∧ string_fault bs f) ∨ ∃ p, uses_rates (EComm t a) s p ∧ rates_fault s p f.
Proof.
  intros Ht (T1 & T2 & T3 & T4) H. pose proof (Forall_lookup_1 _ _ _ _ T4 Ht) as H0. unfold comm_ok in H0. unfold comm_step in H.
  destruct (c_pc c) eqn:Hpc, a; try discriminate H; try (step_cases H; fail).
  - destruct (slot_ok_read _ _ _ T1 H0) as (slots & v & E1 & E2 & _). rewrite E1 in H. cbn [mbind outcome_bind] in H.
    by rewrite E2 in H.
  - left. destruct (vm_state (c_vm c) =? ACTIVE); [|done]. destruct r as [[|b bs]|]; try done. exists (b :: bs). split; [done|].
    destruct (on_datapoint (b :: bs) c) eqn:E; try done. cbn in H. injection H as ->. by eapply datapoint_fault.
  - right. exists p. split; [left; by exists t, c, rate|]. case_decide as Hp; [|injection H as <-; by left].
    right. unfold arr_set in H. case_decide as Hd; [discriminate|]. cbn in H. injection H as <-. split; [done|]. split; [done|lia].
  - destruct H0 as (k & Hk & Hg). destruct (mutex s); [done|].
    destruct (switch_active_machine_spec (c_vm c) (tbl s) k T1 Hk Hg) as (g' & E & _). by rewrite E in H.
  - destruct H0 as (k & Hk & Hg). destruct (mutex s); [done|].
    destruct (manage_disconnected_vms_spec (c_vm c) (tbl s) k T1 Hk Hg) as (g' & E & _). by rewrite E in H.
  - destruct H0 as (k & Hk & Hg). destruct (mutex s); [done|].
    destruct (manage_disconnected_vms_spec (c_vm c) (tbl s) k T1 Hk Hg) as (g' & E & _). by rewrite E in H.
Qed.

Lemma mttf_step_fault s f : rate_inv s → mttf_step s = Fault f → ∃ p, uses_rates EMttf s p ∧ rates_fault s p f.
Proof.
  intros (_ & _ & Hi) H. unfold mttf_step in H. destruct (mttf s) as [| |n i acc|n i acc p|n acc] eqn:E; try (step_cases H; fail).
  exists p. split; [right; by eauto|]. case_decide; [|injection H as <-; by left]. right.
  destruct (decide (i < Z.of_nat (length (rej_rate (tbl s))))).
  - destruct (arr_get_in_bounds (rej_rate (tbl s)) i) as (x & Ex & _); [lia|]. by rewrite Ex in H.
  - rewrite arr_get_oob in H by lia. injection H as <-. split; [done|]. split; [done|lia].
Qed.

(** C14.  Once [main] has its tables and as long as threads can be created, the only
    faults of the controller's threads are these: a [NULL] from the [malloc] of the
    handshake's buffer or the [realloc] of a group's slots, or 2^30 VMs
    in the group; [BUFSIZE] received bytes without a 0, which are printed and
    scanned as a string; and the array of rejuvenation rates, which is used past its
    end once more rates are stored between two rounds of the mttf thread than it
    has elements, and through a stale pointer when the accepting thread's
    [realloc], under the other mutex, moves it between the load of the pointer and
    the use.  No thread reads the table of VMs out of bounds, or a gap of it. *)
Theorem controller_faults_only m fresh rates s e f :
  rtc (sstep m creates) (server_init fresh rates) s → server_step m e s = Fault f →
  (∃ a, e = EMain a ∧ main_fault s a f) ∨
  (∃ t bs, e = EComm t (ARecv (RData bs)) ∧ string_fault bs f) ∨
  (∃ p, uses_rates e s p ∧ rates_fault s p f).
Proof.
  intros Hr H. destruct (inv_reachable m fresh rates s Hr) as (_ & Ht).
  destruct e as [a|t a|a|]; cbn [server_step] in H.
  - left. exists a. split; [done|]. by apply main_step_fault.
  - right. destruct (comms s !! t) as [c|] eqn:E; [|discriminate].
    destruct (comm_step_fault m t c a s f E Ht H) as [(bs & -> & Hb)|Hp]; [left; by exists t, bs|by right].
  - unfold bal_step in H. by destruct (bal s), a.
  - right; right. apply mttf_step_fault; [by eapply rate_inv_reachable|done].
Qed.

(** C5.  No deadlock, although the accepting thread takes [mutex] before
    [manage_vm_mutex] and a terminating communication thread the other way
    round: from every state that is reached without a failure of
    [pthread_create], and in which no group has 2^30 VMs, the threads can go on
    until both locks are free, since [manage_vm_mutex] is never held across a wait for [mutex]
    without the balancer thread being able to release it. *)
Theorem locks_always_released m fresh rates s :
  rtc (sstep m creates) (server_init fresh rates) s →
  (∀ k, Z.of_nat (length (live (tbl s) k)) < 2 ^ 30) →
  ∃ s', rtc (sstep m creates) s s' ∧ mutex s' = false ∧ manage_vm_mutex s' = false.
Proof.
  intros Hr Hsmall. destruct (inv_reachable m fresh rates s Hr) as (Hl & _).
  destruct (manage_released m s Hl) as (s1 & Hr1 & Em1 & _ & Et & _).
  assert (Hr1' : rtc (sstep m creates) (server_init fresh rates) s1) by (by etrans).
  destruct (inv_reachable m fresh rates s1 Hr1') as (Hl1 & Ht1).
  destruct (mutex_released m s1 Hl1 Ht1 Em1) as (s2 & Hr2 & Em2); [by rewrite Et|].
  assert (Hr2' : rtc (sstep m creates) (server_init fresh rates) s2) by (by etrans).
  destruct (inv_reachable m fresh rates s2 Hr2') as (Hl2 & _).
  destruct (manage_released m s2 Hl2) as (s3 & Hr3 & Em3 & E3 & _).
  exists s3. split; [by do 2 (etrans; [eassumption|])|]. by rewrite E3.
Qed.

(** The thread of a VM that registered on stand-by spins without a system
    call for ever: whatever happens to the VM's entry in the table, the thread
    looks at its own copy of the state, never receives a datapoint and never
    notices that the VM goes away. *)
Theorem standby_threads_are_deaf m t c s :
  comms s !! t = Some c → c_pc c = CLoop → vm_state (c_vm c) ≠ ACTIVE →
  (∀ a s', comm_step m t c a s = Val (Some s') → a = ATau ∧ trace s' = trace s ∧ tbl s' = tbl s ∧ comms s' !! t = Some c) ∧
  (∀ a, ∃ r, comm_step m t c a s = Val r) ∧
  (∀ t' c' a s', t' ≠ t → comm_step m t' c' a s = Val (Some s') → comms s' !! t = Some c) ∧
  (∀ e s', server_step m e s = Val (Some s') → (∀ a, e ≠ EComm t a) → comms s' !! t = Some c).
Proof.
  intros Ht Hpc Hst. apply Z.eqb_neq in Hst. assert (Hc : with_pc CLoop c = c) by (destruct c; cbn in *; by subst).
  assert (Hothers : ∀ t' c' a s', t' ≠ t → comm_step m t' c' a s = Val (Some s') → comms s' !! t = Some c).
  { intros t' c' a s' Hne H. apply comm_step_shape in H as (c1 & E & _). rewrite E. by rewrite list_lookup_insert_ne. }
  split_and!; [| |done|].
  - intros a s' H. unfold comm_step in H. rewrite Hpc, Hst in H. destruct a; try discriminate H. injection H as <-.
    rewrite Hc. state_simpl. rewrite list_insert_id by done. done.
  - intros a. unfold comm_step. rewrite Hpc, Hst. destruct a; by eexists.
  - intros [a|t' a|a|] s' H Hne; cbn [server_step] in H.
    + unfold main_step in H. destruct (main s), a; try discriminate H; step_cases H; injection H as <-; state_simpl; try done.
      1, 2: match goal with |- context [closes ?k ?n ?st] =>
        destruct (closes_same k n st) as (_ & _ & _ & _ & _ & _ & _ & _ & -> & _) end; done.
      by apply lookup_app_l_Some.
    + destruct (comms s !! t') as [c'|] eqn:Ht'; [|discriminate].
      destruct (decide (t' = t)) as [->|]; [by destruct (Hne a)|]. by eapply Hothers.
    + unfold bal_step in H. destruct (bal s), a; try discriminate H; injection H as <-; try case_match; done.
    + by apply mttf_same in H as (_ & _ & _ & _ & _ & _ & _ & -> & _).
Qed.

(** [get_feature] fills its own copy of [current_features]: the contents
    of a datapoint have no effect on the controller, whatever is received that is
    a string. *)
Theorem payload_ignored m t c s bs bs' buf buf' :
  bs ≠ [] → bs' ≠ [] → recv_string bs = Val buf → recv_string bs' = Val buf' →
  comm_step m t c (ARecv (RData bs)) s = comm_step m t c (ARecv (RData bs')) s ∧
  ∀ c', on_datapoint bs c = Val c' → c_current c' = c_current c.
Proof.
  intros H H' E E'. split.
  - unfold comm_step, on_datapoint. rewrite E, E'. destruct (c_pc c); try done. destruct (vm_state (c_vm c) =? ACTIVE); [|done].
    destruct bs, bs'; done.
  - unfold on_datapoint. rewrite E. intros c' [= <-]. unfold with_datapoint. by destruct (c_flag c =? 0), (_ =? 0).
Qed.

(** *** Runs *)
Fixpoint run_events (m : Z) (es : list event) (s : server) : option server :=
  match es with
  | [] => Some s
  | e :: es => match server_step m e s with Val (Some s') => run_events m es s' | _ => None end
  end.

Lemma run_events_rtc m (P : event → Prop) es s s' :
  Forall P es → run_events m es s = Some s' → rtc (sstep m P) s s'.
Proof.
  intros H. revert s. induction H as [|e es He _ IH]; intros s; cbn [run_events]; [by intros [= <-]|].
  destruct (server_step m e s) as [[s1|]| | |] eqn:E; try done. intros Hr. eapply rtc_l; [by exists e|by apply IH].
Qed.

(** A client arrives, is registered and gets its thread, number [t]. *)
Definition arrival (srv st : Z) (sock : Z) (addr : list Z) (t : nat) : list event :=
  [EMain (AClient (RData (client_service srv st)) [(true, RFail 0)] (replicate 12 0) addr sock 40000);
   EMain ATau; EMain (ARealloc no_memory)] ++
  (if st =? ACTIVE then [EMain ATau; EMain ATau; EMain ATau] else []) ++
  [EMain (ACreate true (blank 0) quiet quiet); EComm t ATau].

(** The balancer thread sends what is posted. *)
Definition delivery : list event := [EBal ATau; EBal (ASend true); EBal ATau; EBal ATau].

(** The first prediction, of which the inverse is stored. *)
Definition first_prediction (t : nat) (g : Z) : list event := EComm t (APredict (garbage g)) :: replicate 4 (EComm t ATau).

(** A datapoint after the first, with a prediction above the threshold. *)
Definition healthy_datapoint (t : nat) : list event :=
  EComm t (ARecv (RData [68])) :: first_prediction t 1000000 ++ [EComm t (APredict (garbage 1000000)); EComm t (ASend true)].

(** A datapoint with a prediction below the threshold. *)
Definition failing_datapoint (t : nat) : list event :=
  EComm t (ARecv (RData [68])) :: first_prediction t 0 ++
  [EComm t (APredict (garbage 0));
   EComm t ATau; EComm t (ASend true); EComm t ATau; EComm t ATau; EComm t ATau].

Definition start_state : server := server_init (λ _ _, blank 1) (λ _, zero).
Definition after (es : list event) : server := default start_state (run_events 0 es start_state).

Lemma creates_all es : forallb (λ e, match e with EMain (ACreate false _ _ _) => false | _ => true end) es = true →
  Forall creates es.
Proof.
  intros H. induction es as [|e es IH]; [constructor|]. cbn in H.
  apply andb_true_iff in H as [H1 H2]. constructor; [|by apply IH]. by destruct e as [[]| | |]; try destruct ok.
Qed.

Lemma after_reachable es :
  forallb (λ e, match e with EMain (ACreate false _ _ _) => false | _ => true end) es = true →
  rtc (sstep 0 creates) start_state (after es).
Proof.
  intros H. unfold after. destruct (run_events 0 es start_state) as [s|] eqn:E; [|reflexivity].
  apply (run_events_rtc 0 creates es); [by apply creates_all|done].
Qed.

Definition rate_run : list event :=
  arrival 1 ACTIVE 10 [49] 0 ++ concat (replicate 15 (healthy_datapoint 0)) ++
  EComm 0 (ARecv (RData [68])) :: EComm 0 (APredict (garbage 1000000)) :: replicate 2 (EComm 0 ATau).

(** The array of rejuvenation rates has no bound check: one VM that sends
    sixteen datapoints between two rounds of the mttf thread makes the
    controller write past its end. *)
Theorem rates_overrun_reachable :
  ∃ s, rtc (sstep 0 creates) start_state s ∧ length (comms s) = 1%nat ∧
    server_step 0 (EComm 0 ATau) s = Fault OutOfBounds.
Proof.
  exists (after rate_run). split; [exact (after_reachable rate_run eq_refl)|]. split; vm_compute; reflexivity.
Qed.

(** Five VMs of group 1 are registered, and the thread of the first one has loaded
    the pointer to the rates when the sixth arrives: the block moves. *)
Definition moving : fresh_memory := FreshMemory (Some (λ _, blank 9)) (Some (λ _, zero)) true.
Definition moved_rates_run : list event :=
  arrival 1 ACTIVE 10 [49] 0 ++ delivery ++
  concat (map (λ i, arrival 1 STAND_BY (10 + Z.of_nat i) [49 + Z.of_nat i] i) (seq 1 (Z.to_nat NUMBER_VMs - 1))) ++
  healthy_datapoint 0 ++
  EComm 0 (ARecv (RData [68])) :: EComm 0 (APredict (garbage 1000000)) :: replicate 2 (EComm 0 ATau) ++
  [EMain (AClient (RData (client_service 1 STAND_BY)) [(true, RFail 0)] (replicate 12 0) [56] 30 40000);
   EMain ATau; EMain (ARealloc moving)].

(** C39.  The accepting thread's [realloc] of the rates is under [mutex] and the
    stores of the communication threads are under [mttf_mutex]: in a run in which no
    call fails, a thread has loaded the pointer to the rates when the registration of
    a VM moves the block, and stores its rate into the one that was freed. *)
Theorem rates_freed_under_a_store :
  ∃ s, rtc (sstep 0 creates) start_state s ∧ server_step 0 (EComm 0 ATau) s = Fault UseAfterFree.
Proof. exists (after moved_rates_run). split; [exact (after_reachable moved_rates_run eq_refl)|vm_compute; reflexivity]. Qed.

(** The two ends of a lost message: thread 0 is posting a REJ when the creation
    of another thread fails, thread 1 overwrites the struct. *)
Definition lost_message_run : list event :=
  arrival 1 ACTIVE 10 [49] 0 ++ delivery ++ arrival 1 ACTIVE 11 [50] 1 ++ delivery ++
  [EComm 0 (ARecv (RData [])); EComm 0 ATau; EComm 0 ATau;
   EMain (AClient (RData (client_service 1 STAND_BY)) [(true, RFail 0)] (replicate 12 0) [51] 12 40000);
   EMain ATau; EMain (ARealloc no_memory); EMain (ACreate false (blank 0) quiet quiet);
   EComm 1 (ARecv (RData [])); EComm 1 ATau; EComm 1 ATau; EComm 0 ATau; EComm 1 ATau] ++ delivery.

(** When [pthread_create] fails for a client on stand-by,
    [accept_new_client] releases a [manage_vm_mutex] it does not hold, and the
    mailbox breaks: two posts, one message, and the removal of the first VM is
    never sent to the balancer, which goes on forwarding to it. *)
Theorem failed_create_loses_message :
  ∃ s, rtc (sstep 0 (λ _, True)) start_state s ∧ pending s = [] ∧
    map (λ m, (ip m, op m)) (posts (trace s)) = [([49], ADD); ([50], ADD); ([50], DELETE); ([50], DELETE)] ∧
    map (λ m, (ip m, op m)) (sends (trace s)) = [([49], ADD); ([50], ADD); ([50], DELETE)] ∧
    c_pc <$> (comms s !! 0%nat) = Some CDisc.
Proof.
  exists (default start_state (run_events 0 lost_message_run start_state)). split.
  - destruct (run_events 0 lost_message_run start_state) as [s|] eqn:E; [|reflexivity].
    apply (run_events_rtc 0 _ lost_message_run); [|done]. by apply Forall_true.
  - vm_compute. done.
Qed.

(** ** Witnesses *)
Definition busy_run : list event :=
  arrival 1 ACTIVE 10 [49] 0 ++ delivery ++ arrival 1 STAND_BY 11 [50] 1 ++ failing_datapoint 0.

Lemma mailbox_fifo_witness :
  map (λ m, (ip m, op m)) (posts (trace (after busy_run))) = [([49], ADD); ([49], REJ)] ∧
  posts (trace (after busy_run)) = sends (trace (after busy_run)) ++ pending (after busy_run) ∧
  length (pending (after busy_run)) = 1%nat.
Proof.
  split; [vm_compute; reflexivity|]. split; [|vm_compute; reflexivity].
  exact (proj1 (mailbox_fifo 0 (λ _ _, blank 1) (λ _, zero) (after busy_run) (after_reachable busy_run eq_refl))).
Defined.

Lemma posts_are_own_messages_witness :
  ∃ s', server_step 0 (EComm 0 ATau) (after (removelast busy_run)) = Val (Some s') ∧
    posts (trace s') = posts (trace (after (removelast busy_run))) ++ [VirtualMachine [49] vm_port 1 REJ] ∧
    (posts (trace s') = posts (trace (after (removelast busy_run))) ∨ ∃ msg, posts (trace s') = posts (trace (after (removelast busy_run))) ++ [msg]).
Proof.
  destruct (server_step 0 (EComm 0 ATau) (after (removelast busy_run))) as [[s'|]| | |] eqn:E;
    [|by vm_compute in E..].
  exists s'. split; [reflexivity|]. split; [vm_compute in E; injection E as <-; vm_compute; reflexivity|].
  destruct (posts_are_own_messages 0 (λ _ _, blank 1) (λ _, zero) (after (removelast busy_run)) (EComm 0 ATau) s') as [H|(msg & H & _)].
  - exact (after_reachable (removelast busy_run) eq_refl).
  - exact I.
  - exact E.
  - by left.
  - right. by exists msg.
Defined.

Lemma table_well_typed_witness : groups_ok (tbl (after busy_run)) ∧ length (live (tbl (after busy_run)) 1) = 2%nat.
Proof.
  split; [|vm_compute; reflexivity].
  exact (proj1 (table_well_typed 0 (λ _ _, blank 1) (λ _, zero) (after busy_run) (after_reachable busy_run eq_refl))).
Defined.

Lemma controller_faults_only_witness :
  let s := after rate_run in
  Z.of_nat (length (rej_rate (tbl s))) <= index_rej_rate s.
Proof.
  intros s. destruct (controller_faults_only 0 (λ _ _, blank 1) (λ _, zero) s (EComm 0 ATau) OutOfBounds)
    as [(a & H & _)|[(t & bs & H & _)|(p & _ & [[H _]|(_ & _ & H)])]].
  - exact (after_reachable rate_run eq_refl).
  - vm_compute. reflexivity.
  - discriminate H.
  - discriminate H.
  - discriminate H.
  - exact H.
Defined.

Lemma locks_always_released_witness :
  ∃ s', rtc (sstep 0 creates) (after busy_run) s' ∧ mutex s' = false ∧ manage_vm_mutex s' = false.
Proof.
  apply (locks_always_released 0 (λ _ _, blank 1) (λ _, zero) (after busy_run)).
  - exact (after_reachable busy_run eq_refl).
  - intros [|[|[|k]]]; vm_compute; reflexivity.
Defined.

Lemma standby_threads_are_deaf_witness :
  ∃ c, comms (after busy_run) !! 1%nat = Some c ∧ map vm_state (live (tbl (after busy_run)) 1) = [ACTIVE; ACTIVE] ∧
    (∀ a, ∃ r, comm_step 0 1 c a (after busy_run) = Val r).
Proof.
  destruct (comms (after busy_run) !! 1%nat) as [c|] eqn:E; [|by vm_compute in E].
  exists c. split; [reflexivity|]. split; [vm_compute; reflexivity|].
  apply (standby_threads_are_deaf 0 1 c (after busy_run) E); vm_compute in E; injection E as <-;
    [reflexivity|discriminate].
Defined.

Lemma payload_ignored_witness :
  comm_step 0 0 (Comm CLoop (blank 1) quiet quiet 0) (ARecv (RData [1])) start_state
    = comm_step 0 0 (Comm CLoop (blank 1) quiet quiet 0) (ARecv (RData [2])) start_state.
Proof.
  apply (payload_ignored 0 0 (Comm CLoop (blank 1) quiet quiet 0) start_state [1] [2] [1] [2]);
    [discriminate|discriminate|vm_compute; reflexivity..].
Defined.
