(* ===== verification/Client.v ===== *)
(** * controller/client.c: the monitoring client of a VM

    The dialogue with the controller, the sampling of the features, the text
    they are sent as, and the main loop.  Files of /proc are given by their
    contents, a failed [popen], [fopen] or [fscanf] by [None]. *)
From Stdlib Require Import Floats.SpecFloat.
From S2P Require Import Prelude CFloat Scanf Printf Timer SockHelp Protocol MlModel Groups.
Open Scope Z_scope.

(** ** get_features: the samples *)

(** The ten counters of /proc/stat, [unsigned long]s, in the order they are read. *)
Record jiffies := Jiffies {
  j_user : Z; j_nice : Z; j_system : Z; j_idle : Z; j_iowait : Z;
  j_dummyA : Z; j_dummyB : Z; j_steal : Z; j_dummyC : Z; j_dummyD : Z
}.

(** The local integers of [get_features]; those not read keep what the stack held. *)
Record meminfo := Meminfo { m_total : Z; m_free : Z; m_buffers : Z; m_cached : Z }.
Record swapinfo := Swapinfo { w_total : Z; w_free : Z }.

(** A sample of the machine. *)
Record environment := Environment {
  threads : option (list Z);             (* the line of "ps | wc", line feed included *)
  now : timeval;
  meminfo_file : option (list Z);
  stat1 : option (option (list Z));      (* fopen; fscanf: the numbers converted, or EOF *)
  stat2 : option (option (list Z));
  stack_mem : meminfo; stack_swap : swapinfo; stack1 : jiffies; stack2 : jiffies
}.

(** [while ((ch = fgetc(t)) != EOF) aux_buffer[index++] = ch]: [ch] is a [char],
    so a byte 255 ends the loop too; there is no bound. *)
Fixpoint until_eof (file : list Z) : list Z :=
  match file with c :: file => if c =? 255 then [] else c :: until_eof file | [] => [] end.

(** The string in [aux_buffer]: the rest of the array is zero, if there is a rest. *)
Definition aux_buffer (file : list Z) : outcome (list Z) :=
  let bytes := until_eof file in
  if Z.of_nat (length bytes) <? BUFSIZE then Val (get_string bytes) else Fault OutOfBounds.

Definition int_at (vs : list scanned) (i : nat) (old : Z) : Z :=
  match vs !! i with Some (SInt z) => z | _ => old end.

Definition memory_format : list directive :=
  lit "MemTotal: " ++ [DInt] ++ lit " kB MemFree: " ++ [DInt] ++ lit " kB Buffers: " ++ [DInt] ++
  lit " kB Cached: " ++ [DInt] ++ lit " kB".
Definition scan_meminfo (buf : list Z) (old : meminfo) : meminfo :=
  let vs := sscanf memory_format buf in
  Meminfo (int_at vs 0 (m_total old)) (int_at vs 1 (m_free old)) (int_at vs 2 (m_buffers old)) (int_at vs 3 (m_cached old)).

(** [strstr] *)
Fixpoint strip_exact (w l : list Z) : option (list Z) :=
  match w, l with
  | [], _ => Some l
  | a :: w, c :: l => if c =? a then strip_exact w l else None
  | _, [] => None
  end.
Fixpoint strstr (w l : list Z) : option (list Z) :=
  match strip_exact w l with
  | Some _ => Some l
  | None => match l with [] => None | _ :: l => strstr w l end
  end.

Definition swap_format : list directive := lit "SwapTotal: " ++ [DInt] ++ lit " kB SwapFree: " ++ [DInt] ++ lit " kB".
Definition scan_free_swap (buf : list Z) (old : swapinfo) : outcome swapinfo :=
  match strstr (chars "SwapTotal:") buf with
  | None => Fault NullDeref
  | Some p =>
      let vs := sscanf swap_format p in
      Val (Swapinfo (int_at vs 0 (w_total old)) (int_at vs 1 (w_free old)))
  end.

(** [a - b] of two [int]s *)
Definition sub_int (a b : Z) : outcome Z := if decide (is_s32 (a - b)) then Val (a - b) else Fault SignedOverflow.

(** [fopen] and [fscanf]; what is not converted stays as it was. *)
Definition read_stat (r : option (option (list Z))) (old : jiffies) : outcome jiffies :=
  match r with
  | None | Some None => Exit 1
  | Some (Some vs) =>
      let v i d := default d (vs !! i) in
      Val (Jiffies (v 0%nat (j_user old)) (v 1%nat (j_nice old)) (v 2%nat (j_system old)) (v 3%nat (j_idle old))
                   (v 4%nat (j_iowait old)) (v 5%nat (j_dummyA old)) (v 6%nat (j_dummyB old)) (v 7%nat (j_steal old))
                   (v 8%nat (j_dummyC old)) (v 9%nat (j_dummyD old)))
  end.

(** [(float)(user + nice + system + idle + iowait + dummyA + dummyB + steal + dummyC + dummyD)] *)
Definition sum_jiffies (j : jiffies) : f32 :=
  f32_of_Z (u64 (j_user j + j_nice j + j_system j + j_idle j + j_iowait j + j_dummyA j + j_dummyB j + j_steal j +
                 j_dummyC j + j_dummyD j)).

(** [(float)(b - a) * 100.0 / cpu_total]: [100.0] is a [double]. *)
Definition percentage (b a : Z) (cpu_total : f32) : f32 :=
  f32_of_f64 (div64 (mul64 (f64_of_f32 (f32_of_Z (u64 (b - a)))) (f64_of_Z 100)) (f64_of_f32 cpu_total)).

(** The values that are printed. *)
Record sample := Sample {
  s_time : f64; s_threads : list Z;
  s_mem : list Z;      (* total, used, free, shared, buffers, cached *)
  s_swap : list Z;     (* total, used, free *)
  s_cpu : list f32     (* user, nice, system, iowait, steal, idle *)
}.

(** [curr.tv_sec - initial.tv_sec + curr.tv_usec / 1000000 - initial.tv_usec / 1000000] in [double]s *)
Definition elapsed (curr initial : timeval) : f64 :=
  let million := f64_of_Z 1000000 in
  sub64 (add64 (sub64 (f64_of_Z (tv_sec curr)) (f64_of_Z (tv_sec initial))) (div64 (f64_of_Z (tv_usec curr)) million))
        (div64 (f64_of_Z (tv_usec initial)) million).

Definition collect (initial_time : timeval) (e : environment) : outcome sample :=
  match threads e with
  | None => Aborted
  | Some num_th =>
      match meminfo_file e with
      | None => Exit 1
      | Some file =>
          buf ← aux_buffer file;
          let m := scan_meminfo buf (stack_mem e) in
          mem_used ← sub_int (m_total m) (m_free m);
          w ← scan_free_swap buf (stack_swap e);
          swap_used ← sub_int (w_total w) (w_free w);
          a ← read_stat (stat1 e) (stack1 e);
          b ← read_stat (stat2 e) (stack2 e);
          let cpu_total := sub32 (sum_jiffies b) (sum_jiffies a) in
          mret (Sample (elapsed (now e) initial_time) num_th
            [m_total m; mem_used; m_free m; 0; m_buffers m; m_cached m]
            [w_total w; swap_used; w_free w]
            [percentage (j_user b) (j_user a) cpu_total; percentage (j_nice b) (j_nice a) cpu_total;
             percentage (j_system b) (j_system a) cpu_total; percentage (j_iowait b) (j_iowait a) cpu_total;
             percentage (j_steal b) (j_steal a) cpu_total; percentage (j_idle b) (j_idle a) cpu_total])
      end
  end.

(** ** get_features: the text

    The calls [sprintf(output, "%s...", output, ...)] have overlapping objects;
    they append, as glibc implements them.  A [float] is printed as the [double]
    it is converted to. *)
Definition features_text (nan_text : list Z) (s : sample) : list Z :=
  chars "Datapoint: " ++ print_float nan_text (s_time s) ++ 32 :: s_threads s ++
  chars "Memory: " ++ print_ints (s_mem s) ++
  chars "Swap: " ++ print_ints (s_swap s) ++
  chars "CPU: " ++ print_floats nan_text (map f64_of_f32 (s_cpu s)).

Definition get_features (nan_text : list Z) (initial_time : timeval) (e : environment) : outcome (list Z) :=
  s ← collect initial_time e;
  let text := features_text nan_text s in
  if Z.of_nat (length text) <? BUFSIZE
  then mret (text ++ replicate (Z.to_nat BUFSIZE - length text) 0)
  else Fault OutOfBounds.

(** ** connect_to_server

    A turn of the loop has the answer to the [recv], what [scanf("%u")] converts
    and the answer to the [send]; [None] when the script ends in the loop.  The
    global [s] has the two members of [struct vm_service] of client.c. *)
Record client_svc := ClientService { cs_service : Z; cs_state : Z }.

Fixpoint ack_loop (turns : list (rres * option Z * bool)) (s : client_svc) : outcome (option client_svc) :=
  match turns with
  | [] => mret None
  | (r, typed, send_ok) :: turns =>
      let recv_buff := match r with RFail _ => [] | RData bs => take (Z.to_nat BUFSIZE) bs end in
      if bool_decide (get_string recv_buff = chars "ok") then mret (Some s)
      else
        let s := ClientService (match typed with Some z => u32 z | None => cs_service s end) (cs_state s) in
        if send_ok then ack_loop turns s else Exit 1
  end.

Definition connect_to_server (socket_ok connect_ok send_ok : bool) (turns : list (rres * option Z * bool))
    (s : client_svc) : outcome (option client_svc) :=
  if socket_ok then if connect_ok then if send_ok then ack_loop turns s else Exit 1 else Exit 1 else Exit 1.

(** ** main *)

(** [atoi] *)
Definition atoi (arg : list Z) : Z := match scan_int arg with Some (z, _) => z | None => 0 end.

(** The words typed until one of them is a state. *)
Definition state_of (word : list Z) : option Z :=
  if bool_decide (word = chars "STAND_BY") then Some STAND_BY
  else if bool_decide (word = chars "ACTIVE") then Some ACTIVE else None.
Fixpoint ask_state (words : list (list Z)) : option Z :=
  match words with
  | [] => None
  | w :: words => match state_of w with Some st => Some st | None => ask_state words end
  end.

(** The service and state from the command line; [None] waits for input. *)
Definition parse_args (argv : list (list Z)) (typed : list (list Z)) : outcome (option client_svc) :=
  match argv with
  | [_; _; _; srv; st] =>
      mret (match (match state_of st with Some v => Some v | None => ask_state typed end) with
            | Some v => Some (ClientService (u32 (atoi srv)) v)
            | None => None
            end)
  | _ => Exit 1
  end.

(** One turn of the main loop, with the answers to [send] and [recv]. *)
Inductive client_turn_result := CNext (sent : list Z) | CLeave | CReboot (sent : list Z).

Definition client_turn (nan_text : list Z) (initial_time : timeval) (e : environment) (send_ok : bool) (r : rres)
    : outcome client_turn_result :=
  send_buff ← get_features nan_text initial_time e;
  if send_ok then
    match r with
    | RFail _ => mret CLeave
    | RData bs => mret (if match bs with c :: _ => c =? REJUVENATE | [] => false end then CReboot send_buff else CNext send_buff)
    end
  else mret CLeave.

(** The texts sent until the loop ends or the script does. *)
Fixpoint client_loop (nan_text : list Z) (initial_time : timeval) (turns : list (environment * bool * rres))
    : outcome (list (list Z)) :=
  match turns with
  | [] => mret []
  | (e, send_ok, r) :: turns =>
      t ← client_turn nan_text initial_time e send_ok r;
      match t with
      | CNext b => bs ← client_loop nan_text initial_time turns; mret (b :: bs)
      | CReboot b => mret [b]
      | CLeave => mret []
      end
  end.

(** What the process does until it ends, or until it waits for input that does
    not come ([None]): the service and the state it has registered with, and the
    texts sent. *)
Definition client_main (nan_text : list Z) (argv typed : list (list Z)) (socket_ok connect_ok send_ok : bool)
    (acks : list (rres * option Z * bool)) (initial_time : timeval) (turns : list (environment * bool * rres))
    : outcome (option (client_svc * list (list Z))) :=
  asked ← parse_args argv typed;
  match asked with
  | None => mret None
  | Some s =>
      s ←? connect_to_server socket_ok connect_ok send_ok acks s;
      sent ← client_loop nan_text initial_time turns;
      mret (Some (s, sent))
  end.

Lemma get_features_length nan_text t e bs : get_features nan_text t e = Val bs → length bs = Z.to_nat BUFSIZE.
Proof.
  unfold get_features. intros (s & _ & H)%outcome_bind_Val. revert H.
  generalize (features_text nan_text s). intros text. cbv zeta. case_match eqn:Hlt; [|done].
  apply Z.ltb_lt in Hlt. intros [= <-].
  rewrite length_app, length_replicate. unfold BUFSIZE in *. lia.
Qed.

Lemma client_loop_lengths nan_text t turns sent :
  client_loop nan_text t turns = Val sent → Forall (λ bs, length bs = Z.to_nat BUFSIZE) sent ∧ (length sent <= length turns)%nat.
Proof.
  revert sent. induction turns as [|[[e ok] r] turns IH]; intros sent; cbn [client_loop]; [intros [= <-]; by split|].
  intros (res & Hr & H)%outcome_bind_Val. unfold client_turn in Hr.
  apply outcome_bind_Val in Hr as (bs & Hb%get_features_length & Hr).
  assert (res = CLeave ∨ res = CNext bs ∨ res = CReboot bs) as [-> | [-> | ->]].
  { destruct ok; [|injection Hr as <-; by left]. destruct r as [[|c l]|?]; [| |injection Hr as <-; by left].
    - injection Hr as <-. by right; left.
    - destruct (c =? REJUVENATE); injection Hr as <-; [by right; right|by right; left]. }
  - injection H as <-. split; [constructor|cbn; lia].
  - apply outcome_bind_Val in H as (l & Hl & [= <-]). apply IH in Hl as [H1 H2]. split; [by constructor|cbn; lia].
  - injection H as <-. split; [by repeat constructor|cbn; lia].
Qed.

Lemma connect_keeps_state socket_ok connect_ok send_ok acks s s' :
  connect_to_server socket_ok connect_ok send_ok acks s = Val (Some s') → cs_state s' = cs_state s.
Proof.
  unfold connect_to_server. destruct socket_ok, connect_ok, send_ok; try done. revert s.
  induction acks as [|[[r typed] ok] acks IH]; intros s; cbn [ack_loop]; [done|].
  case_bool_decide; [by intros [= <-]|]. destruct ok; [|done]. intros Hr%IH. done.
Qed.

(** A client that gets to the end has registered as active or on stand-by and has
    sent whole buffers only, at most one in each turn. *)
Theorem client_main_sends nan_text argv typed socket_ok connect_ok send_ok acks t turns s sent :
  client_main nan_text argv typed socket_ok connect_ok send_ok acks t turns = Val (Some (s, sent)) →
  (cs_state s = ACTIVE ∨ cs_state s = STAND_BY) ∧ Forall (λ bs, length bs = Z.to_nat BUFSIZE) sent ∧
  (length sent <= length turns)%nat.
Proof.
  unfold client_main, then_. intros ([s0|] & Ha & H)%outcome_bind_Val; [|done].
  apply outcome_bind_Val in H as ([s1|] & Hc & H); [|done].
  apply outcome_bind_Val in H as (l & Hl%client_loop_lengths & [= <- <-]). split; [|done].
  rewrite (connect_keeps_state _ _ _ _ _ _ Hc). clear -Ha.
  assert (Hst : ∀ w v, state_of w = Some v → v = ACTIVE ∨ v = STAND_BY).
  { intros w v. unfold state_of. repeat case_bool_decide; intros [= <-]; tauto. }
  assert (Hask : ∀ v, ask_state typed = Some v → v = ACTIVE ∨ v = STAND_BY).
  { clear Ha. intros v. induction typed as [|w ws IH]; cbn [ask_state]; [done|].
    destruct (state_of w) eqn:E; [intros [= <-]; by apply (Hst w)|done]. }
  unfold parse_args in Ha. do 6 (destruct argv as [|? argv]; try done).
  injection Ha as Ha. destruct (state_of _) as [v|] eqn:E; [injection Ha as <-; by eapply Hst|].
  destruct (ask_state typed) as [v|]; [|done]. injection Ha as <-. by apply Hask.
Qed.
