(* ===== verification/Monitoring.v ===== *)
(** * From the client to the controller

    The handshake and the features, with client.c on one side and server.c on
    the other. *)
From Stdlib Require Import Floats.SpecFloat.
From S2P Require Import Prelude CFloat Scanf Printf Timer SockHelp Protocol MlModel Groups Server Client.
Open Scope Z_scope.

(** ** The text reads back *)

(** The conversions of [%d] are [int]s. *)
Lemma sscanf_ints fmt l z : SInt z ∈ sscanf fmt l → is_s32 z.
Proof.
  revert l. induction fmt as [|[|c| |prec emax] fmt IH]; intros l; cbn [sscanf].
  - by intros ?%not_elem_of_nil.
  - apply IH.
  - destruct l as [|c' l]; [by intros ?%not_elem_of_nil|]. destruct (c =? c'); [apply IH|by intros ?%not_elem_of_nil].
  - unfold scan_int. destruct (sign (skip_space l)) as [neg l1], (digits l1 0 0) as [[m [|k]] rest];
      [by intros ?%not_elem_of_nil|]. intros [[= ->]|H]%elem_of_cons; [apply s32_range|by eapply IH].
  - destruct (scan_float prec emax l) as [[x rest]|]; [|by intros ?%not_elem_of_nil].
    intros [[=]|H]%elem_of_cons. by eapply IH.
Qed.

Lemma int_at_s32 fmt l i old : is_s32 old → is_s32 (int_at (sscanf fmt l) i old).
Proof.
  intros Ho. unfold int_at. destruct (sscanf fmt l !! i) as [[z|x]|] eqn:E; [|done..].
  apply (sscanf_ints fmt l). by eapply list_elem_of_lookup_2.
Qed.

Lemma s32_zero : is_s32 0.
Proof. unfold is_s32. lia. Qed.

(** What the stack holds at the locals of [get_features] are [int]s. *)
Definition stack_ok (e : environment) : Prop :=
  Forall is_s32 [m_total (stack_mem e); m_free (stack_mem e); m_buffers (stack_mem e); m_cached (stack_mem e);
                 w_total (stack_swap e); w_free (stack_swap e)].

Lemma sub_int_Val a b c : sub_int a b = Val c → c = a - b ∧ is_s32 c.
Proof. unfold sub_int. case_decide; [by intros [= <-]|done]. Qed.

Lemma collect_shape init e s :
  collect init e = Val s → stack_ok e →
  ∃ mt mu mf mb mc wt wu wf cu cn cs ci ct cd, s_mem s = [mt; mu; mf; 0; mb; mc] ∧ s_swap s = [wt; wu; wf] ∧
    s_cpu s = [cu; cn; cs; ci; ct; cd] ∧ Forall is_s32 (s_mem s) ∧ Forall is_s32 (s_swap s) ∧
    threads e = Some (s_threads s) ∧ s_time s = elapsed (now e) init.
Proof.
  unfold collect. destruct (threads e) as [th|]; [|done]. destruct (meminfo_file e) as [file|]; [|done].
  intros H Hs. unfold stack_ok in Hs. rewrite !Forall_cons in Hs. destruct Hs as (S1 & S2 & S3 & S4 & S5 & S6 & _).
  apply outcome_bind_Val in H as (buf & _ & H). apply outcome_bind_Val in H as (mu & Hmu & H).
  apply outcome_bind_Val in H as (w & Hw & H). apply outcome_bind_Val in H as (wu & Hwu & H).
  apply outcome_bind_Val in H as (a & _ & H). apply outcome_bind_Val in H as (b & _ & H). injection H as <-.
  apply sub_int_Val in Hmu as [_ Hmu]. apply sub_int_Val in Hwu as [_ Hwu].
  unfold scan_free_swap in Hw. destruct (strstr _ buf) as [p|]; [|done]. injection Hw as <-.
  do 14 eexists. cbn [s_mem s_swap s_cpu s_threads s_time]. do 3 (split; [reflexivity|]). split_and!; try done.
  - exact (Forall_cons_2 _ _ _ (int_at_s32 memory_format buf 0 _ S1) (Forall_cons_2 _ _ _ Hmu
      (Forall_cons_2 _ _ _ (int_at_s32 memory_format buf 1 _ S2) (Forall_cons_2 _ _ _ s32_zero
      (Forall_cons_2 _ _ _ (int_at_s32 memory_format buf 2 _ S3) (Forall_cons_2 _ _ _ (int_at_s32 memory_format buf 3 _ S4) (Forall_nil_2 _))))))).
  - exact (Forall_cons_2 _ _ _ (int_at_s32 swap_format p 0 _ S5) (Forall_cons_2 _ _ _ Hwu
      (Forall_cons_2 _ _ _ (int_at_s32 swap_format p 1 _ S6) (Forall_nil_2 _)))).
Qed.

Lemma get_string_text s n : Forall (λ c, c ≠ 0) s → (0 < n)%nat → get_string (s ++ replicate n 0) = s.
Proof.
  intros H Hn. induction H as [|c s Hc _ IH]; [by destruct n; [lia|]|]. cbn.
  by rewrite (proj2 (Z.eqb_neq c 0)), IH by done.
Qed.

Lemma chars_nonzero s : forallb (λ c, negb (c =? 0)) (chars s) = true → Forall (λ c, c ≠ 0) (chars s).
Proof.
  intros H. apply Forall_forall. intros c Hc. rewrite forallb_forall in H. apply list_elem_of_In in Hc.
  by apply H, negb_true_iff, Z.eqb_neq in Hc.
Qed.

Lemma features_text_nonzero t s n :
  nan_text_ok t → s_threads s = print_int n ++ [10] → Forall (λ c, c ≠ 0) (features_text t s).
Proof.
  intros Ht Hth. unfold features_text. rewrite Hth.
  repeat (apply Forall_app; split); try (by apply chars_nonzero); try (apply Forall_cons; split; [done|]);
    repeat (apply Forall_app; split); try (by apply chars_nonzero);
    try apply print_ints_nonzero;
    try (apply plain_nonzero; first [by apply print_float_plain|apply print_int_plain|by apply print_floats_plain]).
  by repeat constructor.
Qed.

(** *** The format of [get_feature], item by item *)
Definition after_n_th : list directive :=
  DSpace :: lit "Memory: " ++ spaced DInt 6 ++ lit "Swap: " ++ spaced DInt 3 ++ lit "CPU: " ++ separated Df 6.

Lemma feature_format_items : feature_format = lit "Datapoint: " ++ Df :: DSpace :: DInt :: after_n_th.
Proof. reflexivity. Qed.

Lemma sscanf_features t s n :
  nan_text_ok t → s_threads s = print_int n ++ [10] → is_s32 n →
  length (s_mem s) = 6%nat → length (s_swap s) = 3%nat → length (s_cpu s) = 6%nat →
  Forall is_s32 (s_mem s) → Forall is_s32 (s_swap s) →
  sscanf feature_format (features_text t s)
    = SFloat (reread 24 128 (s_time s)) :: SInt n :: map SInt (s_mem s) ++ map SInt (s_swap s) ++
      map (λ x, SFloat (reread 24 128 (f64_of_f32 x))) (s_cpu s).
Proof.
  intros Ht Hth Hn Lm Lw Lc Hm Hw. rewrite feature_format_items. unfold features_text. rewrite Hth.
  set (cpu := chars "CPU: " ++ print_floats t (map f64_of_f32 (s_cpu s))).
  set (swap := chars "Swap: " ++ print_ints (s_swap s) ++ cpu).
  set (mem := chars "Memory: " ++ print_ints (s_mem s) ++ swap).
  (* the first line *)
  change (sscanf (lit "Datapoint: " ++ Df :: DSpace :: DInt :: after_n_th)
      (chars "Datapoint: " ++ print_float t (s_time s) ++ 32 :: (print_int n ++ [10]) ++ mem))
    with (sscanf (Df :: DSpace :: DInt :: after_n_th) (skip_space (print_float t (s_time s) ++ 32 :: (print_int n ++ [10]) ++ mem))).
  rewrite print_float_nonspace by done. cbn [sscanf]. rewrite scan_print_float by done.
  rewrite <-(assoc_L (++)). cbn [sscanf skip_space Scanf.is_space Z.eqb Pos.eqb orb].
  rewrite print_int_nonspace, scan_print_int by done. do 2 f_equal.
  (* the memory line *)
  unfold after_n_th. change (sscanf (DSpace :: lit "Memory: " ++ spaced DInt 6 ++ lit "Swap: " ++ spaced DInt 3 ++ lit "CPU: " ++ separated Df 6) ([10] ++ mem))
    with (sscanf (spaced DInt 6 ++ lit "Swap: " ++ spaced DInt 3 ++ lit "CPU: " ++ separated Df 6) (skip_space (print_ints (s_mem s) ++ swap))).
  assert (Nm : s_mem s ≠ []) by (intros E; by rewrite E in Lm).
  rewrite print_ints_nonspace by done.
  pose proof (sscanf_print_ints_app (s_mem s) (lit "Swap: " ++ spaced DInt 3 ++ lit "CPU: " ++ separated Df 6) swap Hm Nm) as Em.
  rewrite Lm in Em. rewrite Em. clear Em. f_equal.
  (* the swap line *)
  change (sscanf (lit "Swap: " ++ spaced DInt 3 ++ lit "CPU: " ++ separated Df 6) (skip_space swap))
    with (sscanf (spaced DInt 3 ++ lit "CPU: " ++ separated Df 6) (skip_space (print_ints (s_swap s) ++ cpu))).
  assert (Nw : s_swap s ≠ []) by (intros E; by rewrite E in Lw).
  rewrite print_ints_nonspace by done.
  pose proof (sscanf_print_ints_app (s_swap s) (lit "CPU: " ++ separated Df 6) cpu Hw Nw) as Ew.
  rewrite Lw in Ew. rewrite Ew. clear Ew. f_equal.
  (* the processor line *)
  change (sscanf (lit "CPU: " ++ separated Df 6) (skip_space cpu))
    with (sscanf (separated Df 6) (skip_space (print_floats t (map f64_of_f32 (s_cpu s))))).
  rewrite print_floats_nonspace by done.
  pose proof (sscanf_print_floats 24 128 t (map f64_of_f32 (s_cpu s)) [] [] Ht I eq_refl) as Ec.
  rewrite length_map, Lc, !app_nil_r, map_map in Ec. apply Ec.
  intros E. apply map_eq_nil in E. by rewrite E in Lc.
Qed.

Lemma Val_eq {A} (x y : A) : Val x = Val y → x = y.
Proof. by intros [=]. Qed.

(** ** Properties: the features *)

(** C23.  What the client measures is what the controller's parser reads: for
    every sample the client can send, [get_feature] of the 4096 bytes received
    gives the integers as they were measured and every other value as the
    [float] nearest to its six decimals, infinities and NaNs included. *)
Theorem features_roundtrip t init e s n buf c :
  nan_text_ok t → stack_ok e → collect init e = Val s → s_threads s = print_int n ++ [10] → is_s32 n →
  get_features t init e = Val buf →
  length buf = 4096%nat ∧
  ∃ mt mu mf mb mc wt wu wf cu cn cs ci ct cd, s_mem s = [mt; mu; mf; 0; mb; mc] ∧ s_swap s = [wt; wu; wf] ∧
    s_cpu s = [cu; cn; cs; ci; ct; cd] ∧
    let r x := reread 24 128 (f64_of_f32 x) in
    get_feature buf c = SystemFeatures (reread 24 128 (elapsed (now e) init)) n mt mu mf 0 mb mc wt wu wf
                          (r cu) (r cn) (r cs) (r ci) (r ct) (r cd).
Proof.
  intros Ht Hst Hc Hth Hn Hg. unfold get_features in Hg. rewrite Hc in Hg. cbn [mbind outcome_bind] in Hg.
  destruct (Z.ltb_spec (Z.of_nat (length (features_text t s))) BUFSIZE) as [Hlt|]; [|done]. apply Val_eq in Hg as <-.
  unfold BUFSIZE in *. split; [rewrite length_app, length_replicate; lia|].
  destruct (collect_shape init e s Hc Hst)
    as (mt & mu & mf & mb & mc & wt & wu & wf & cu & cn & cs & ci & ct & cd & Em & Ew & Ecpu & Hm & Hw & _ & Htime).
  do 14 eexists. split; [exact Em|]. split; [exact Ew|]. split; [exact Ecpu|]. unfold get_feature.
  rewrite get_string_text by (lia || exact (features_text_nonzero t s n Ht Hth)).
  rewrite (sscanf_features t s n) by (assumption || by rewrite ?Em, ?Ew, ?Ecpu).
  by rewrite Em, Ew, Ecpu, Htime.
Qed.

(** *** The format of /proc/meminfo, item by item *)
Definition after_free : list directive := lit " kB Buffers: " ++ [DInt] ++ lit " kB Cached: " ++ [DInt] ++ lit " kB".
Definition after_total : list directive := lit " kB MemFree: " ++ [DInt] ++ after_free.

(** [n] white-space and literal directives that match. *)
Fixpoint advance (n : nat) (fmt : list directive) (l : list Z) : option (list directive * list Z) :=
  match n, fmt, l with
  | O, _, _ => Some (fmt, l)
  | S n, DSpace :: fmt, _ => advance n fmt (skip_space l)
  | S n, DLit c :: fmt, c' :: l => if c =? c' then advance n fmt l else None
  | _, _, _ => None
  end.

Lemma advance_sscanf n fmt l fmt' l' : advance n fmt l = Some (fmt', l') → sscanf fmt l = sscanf fmt' l'.
Proof.
  revert fmt l. induction n as [|n IH]; intros [|[|c| |] fmt] l; cbn [advance]; try (by intros [= <- <-]); try done.
  - by intros ?%IH.
  - destruct l as [|c' l]; [done|]. destruct (c =? c') eqn:E; [|done]. cbn [sscanf]. rewrite E. by intros ?%IH.
Qed.

Lemma sscanf_total l : sscanf memory_format (chars "MemTotal:       " ++ l) = sscanf (DInt :: after_total) (skip_space l).
Proof. by apply (advance_sscanf 10). Qed.

Lemma sscanf_free l : sscanf after_total (chars " kB
MemFree:        " ++ l) = sscanf (DInt :: after_free) (skip_space l).
Proof. by apply (advance_sscanf 13). Qed.

Lemma sscanf_available l : sscanf after_free (chars " kB
MemAvailable:   " ++ l) = [].
Proof.
  by rewrite (advance_sscanf 4 _ _ (lit "Buffers: " ++ [DInt] ++ lit " kB Cached: " ++ [DInt] ++ lit " kB")
                (chars "MemAvailable:   " ++ l)) by reflexivity.
Qed.

Lemma sscanf_DInt_print fmt z l :
  is_s32 z → stops l → sscanf (DInt :: fmt) (skip_space (print_int z ++ l)) = SInt z :: sscanf fmt l.
Proof. intros Hz Hl. rewrite print_int_nonspace. cbn [sscanf]. by rewrite scan_print_int. Qed.

(** On a kernel whose /proc/meminfo has a MemAvailable line between MemFree
    and Buffers, the [sscanf] of the client stops there: the buffers and the
    cached memory it sends are whatever its stack held. *)
Theorem memavailable_hides_buffers total free avail rest old :
  is_s32 total → is_s32 free →
  scan_meminfo (chars "MemTotal:       " ++ print_int total ++ chars " kB
MemFree:        " ++ print_int free ++ chars " kB
MemAvailable:   " ++ print_int avail ++ rest) old
    = Meminfo total free (m_buffers old) (m_cached old).
Proof.
  intros Ht Hf. unfold scan_meminfo. rewrite sscanf_total, sscanf_DInt_print by done.
  by rewrite sscanf_free, sscanf_DInt_print, sscanf_available by done.
Qed.

(** A number that is neither zero nor finite. *)
Definition degenerate (x : spec_float) : Prop := match x with S754_infinity _ | S754_nan => True | _ => False end.

Lemma sub32_self x : sub32 x x = S754_nan ∨ ∃ s, sub32 x x = S754_zero s.
Proof.
  destruct x as [s|s| |s m e]; cbn.
  - right. by destruct s; eexists.
  - left. by destruct s.
  - by left.
  - right. unfold sub32. cbn. rewrite Z.sub_diag. by eexists.
Qed.

Lemma percentage_degenerate b a tot :
  tot = S754_nan ∨ (∃ s, tot = S754_zero s) → degenerate (percentage b a tot).
Proof.
  intros H. unfold percentage. generalize (mul64 (f64_of_f32 (f32_of_Z (u64 (b - a)))) (f64_of_Z 100)). intros y.
  assert (degenerate (div64 y (f64_of_f32 tot))) as Hd by (destruct H as [->|[s ->]]; by destruct y).
  by destruct (div64 y (f64_of_f32 tot)).
Qed.

(** The totals of the processor times are rounded to [float] before they
    are subtracted.  When the two readings round to the same [float], as they do
    for counters above 2^31 that grow by less than 128 in the second between the
    readings, every processor percentage that is sent is infinite or a NaN. *)
Theorem cpu_total_cancels init e a b s :
  read_stat (stat1 e) (stack1 e) = Val a → read_stat (stat2 e) (stack2 e) = Val b →
  sum_jiffies a = sum_jiffies b → collect init e = Val s → Forall degenerate (s_cpu s).
Proof.
  intros Ha Hb Hab H. unfold collect in H. destruct (threads e); [|done]. destruct (meminfo_file e); [|done].
  apply outcome_bind_Val in H as (buf & _ & H). apply outcome_bind_Val in H as (mu & _ & H).
  apply outcome_bind_Val in H as (w & _ & H). apply outcome_bind_Val in H as (wu & _ & H).
  rewrite Ha, Hb in H. cbn [mbind outcome_bind] in H. rewrite Hab in H. apply Val_eq in H as <-.
  cbn [s_cpu]. repeat (apply Forall_cons; split); try apply Forall_nil_2; apply percentage_degenerate, sub32_self.
Qed.

(** ** Witnesses: the features *)
Definition proc_meminfo : list Z := chars "MemTotal:       1000 kB
MemFree:         400 kB
Buffers:          30 kB
Cached:           20 kB
SwapTotal:       500 kB
SwapFree:        500 kB
".
Definition no_jiffies : jiffies := Jiffies 0 0 0 0 0 0 0 0 0 0.
Definition sampled (before after : list Z) : environment :=
  Environment (Some (print_int 180 ++ [10])) (Timeval 1012 500000) (Some proc_meminfo) (Some (Some before)) (Some (Some after))
    (Meminfo 0 0 0 0) (Swapinfo 0 0) no_jiffies no_jiffies.
Definition busy : environment := sampled [100; 0; 40; 800; 10; 0; 0; 0; 0; 0] [125; 0; 50; 860; 15; 0; 0; 0; 0; 0].

Definition get_val {A} (default : A) (o : outcome A) : A := match o with Val x => x | _ => default end.
Definition busy_sample : sample := Eval vm_compute in
  get_val (Sample (S754_zero false) [] [] [] []) (collect (Timeval 1000 0) busy).
Definition busy_buffer : list Z := get_val [] (get_features (chars "nan") (Timeval 1000 0) busy).

Lemma features_roundtrip_witness :
  get_feature busy_buffer quiet
    = SystemFeatures (f32_of_f64 (div64 (f64_of_Z 125) (f64_of_Z 10))) 180 1000 600 400 0 30 20 500 0 500
        (f32_of_Z 25) (f32_of_Z 0) (f32_of_Z 10) (f32_of_Z 5) (f32_of_Z 0) (f32_of_Z 60).
Proof.
  destruct (features_roundtrip (chars "nan") (Timeval 1000 0) busy busy_sample 180 busy_buffer quiet)
    as (_ & mt & mu & mf & mb & mc & wt & wu & wf & cu & cn & cs & ci & ct & cd & Em & Ew & Ec & ->).
  - by left.
  - repeat constructor; vm_compute; congruence.
  - vm_compute; reflexivity.
  - vm_compute; reflexivity.
  - split; vm_compute; congruence.
  - vm_compute; reflexivity.
  - unfold busy_sample in Em, Ew, Ec. cbn [s_mem s_swap s_cpu] in Em, Ew, Ec.
    injection Em as <- <- <- <- <-. injection Ew as <- <- <-. injection Ec as <- <- <- <- <- <-.
    vm_compute; reflexivity.
Defined.

Lemma memavailable_hides_buffers_witness :
  scan_meminfo (chars "MemTotal:       16384000 kB
MemFree:        8192000 kB
MemAvailable:   12000000 kB
Buffers:          500000 kB
Cached:          3000000 kB
") (Meminfo 7 7 (-559038737) 42) = Meminfo 16384000 8192000 (-559038737) 42.
Proof.
  exact (memavailable_hides_buffers 16384000 8192000 12000000 (chars " kB
Buffers:          500000 kB
Cached:          3000000 kB
") (Meminfo 7 7 (-559038737) 42) ltac:(split; vm_compute; congruence) ltac:(split; vm_compute; congruence)).
Defined.

(** Counters about 2^31, a second apart on one processor. *)
Definition long_up : environment :=
  sampled [2 ^ 31; 0; 0; 0; 0; 0; 0; 0; 0; 0] [2 ^ 31 + 25; 0; 5; 70; 0; 0; 0; 0; 0; 0].
Definition long_up_sample : sample := Eval vm_compute in
  get_val (Sample (S754_zero false) [] [] [] []) (collect (Timeval 1000 0) long_up).

Lemma cpu_total_cancels_witness :
  s_cpu long_up_sample = [S754_infinity false; S754_nan; S754_infinity false; S754_nan; S754_nan; S754_infinity false] ∧
  Forall degenerate (s_cpu long_up_sample).
Proof.
  split; [reflexivity|].
  apply (cpu_total_cancels (Timeval 1000 0) long_up (Jiffies (2 ^ 31) 0 0 0 0 0 0 0 0 0)
           (Jiffies (2 ^ 31 + 25) 0 5 70 0 0 0 0 0 0)); vm_compute; reflexivity.
Defined.

(** ** The handshake, both ends *)

(** What the controller answers to the service it has read: [buffer] of
    [accept_new_client], after its [bzero]. *)
Definition server_answer (s : vm_service) : list Z :=
  let text := if NUMBER_GROUPS <=? service s then chars "groups" else chars "ok" in
  text ++ replicate (Z.to_nat BUFSIZE - length text) 0.

(** The script of each end when nothing fails: the client starts with the
    service [s] and its user then types [next]. *)
Fixpoint dialogue (st : Z) (mem : list Z) (s : Z) (next : list Z) : list (rres * option Z * bool) * list (bool * rres) :=
  let mem := recv_into (take 12 (client_service s st)) mem in
  let answer := RData (server_answer (decode_service mem)) in
  match next with
  | [] => ([(answer, None, true)], [(true, RFail 0)])
  | s' :: next =>
      let scripts := dialogue st mem s' next in
      ((answer, Some s', true) :: scripts.1, (true, RData (client_service s' st)) :: scripts.2)
  end.

Lemma server_answer_text s : get_string (take (Z.to_nat BUFSIZE) (server_answer s)) =
  if NUMBER_GROUPS <=? service s then chars "groups" else chars "ok".
Proof. unfold server_answer. by destruct (NUMBER_GROUPS <=? service s). Qed.

Lemma client_struct s st mem :
  length mem = 12%nat → is_u32 s → is_u32 st →
  let mem' := recv_into (take 12 (client_service s st)) mem in
  length mem' = 12%nat ∧ drop 8 mem' = drop 8 mem ∧
  decode_service mem' = VmService s st (s32 (of_le32 (drop 8 mem))).
Proof.
  intros Hm Hs Hst mem'. subst mem'. rewrite take_ge by (unfold client_service; rewrite length_app, !length_le32; lia).
  split_and!.
  - unfold recv_into, client_service. rewrite !length_app, !length_le32, length_drop. lia.
  - done.
  - by apply client_service_layout.
Qed.

Lemma dialogue_agrees st next s mem closes :
  length mem = 12%nat → is_u32 st → Forall is_u32 (s :: next) →
  Forall (λ z, NUMBER_GROUPS <= z) (removelast (s :: next)) → List.last (s :: next) 0 < NUMBER_GROUPS →
  let good := List.last (s :: next) 0 in
  ack_loop (dialogue st mem s next).1 (ClientService s st) = Val (Some (ClientService good st)) ∧
  handshake_loop (dialogue st mem s next).2 (recv_into (take 12 (client_service s st)) mem) closes
    = HsClient (VmService good st (s32 (of_le32 (drop 8 mem)))) closes.
Proof.
  intros Hm Hst. revert s mem Hm. induction next as [|s' next IH]; intros s mem Hm Hu Hb Hg good; subst good;
    apply Forall_cons in Hu as [Hs Hu]; destruct (client_struct s st mem Hm Hs Hst) as (Hm' & Hd & Hdec).
  - cbn [dialogue fst snd ack_loop handshake_loop]. rewrite server_answer_text, Hdec. cbn [service List.last] in *.
    rewrite (proj2 (Z.leb_gt _ _) Hg). by rewrite bool_decide_true.
  - cbn [dialogue fst snd ack_loop handshake_loop]. rewrite server_answer_text, Hdec. cbn [service].
    change (removelast (s :: s' :: next)) with (s :: removelast (s' :: next)) in Hb.
    change (List.last (s :: s' :: next) 0) with (List.last (s' :: next) 0) in *.
    apply Forall_cons in Hb as [Hbs Hb]. rewrite (proj2 (Z.leb_le _ _) Hbs).
    rewrite bool_decide_false by discriminate. cbn [cs_state]. rewrite (u32_id s') by by apply Forall_cons in Hu as [? _].
    destruct (IH s' _ Hm' Hu Hb Hg) as [H1 H2]. split; [exact H1|]. rewrite <-Hd. exact H2.
Qed.

(** C24.  The two ends of the handshake agree: when no call fails and each [recv]
    gets what one [send] gave, whole ([dialogue]), a client whose
    user ends up with an existing service leaves [connect_to_server] with the
    service and the state under which the controller goes on to register it,
    however many wrong services were tried before; only [provided_port], which
    the client's struct lacks, is what the controller's stack held. *)
Theorem handshake_agreement st mem s next :
  length mem = 12%nat → is_u32 st → Forall is_u32 (s :: next) →
  Forall (λ z, NUMBER_GROUPS <= z) (removelast (s :: next)) → List.last (s :: next) 0 < NUMBER_GROUPS →
  let good := List.last (s :: next) 0 in
  connect_to_server true true true (dialogue st mem s next).1 (ClientService s st)
    = Val (Some (ClientService good st)) ∧
  handshake mem (RData (client_service s st)) (dialogue st mem s next).2
    = HsClient (VmService good st (s32 (of_le32 (drop 8 mem)))) 0.
Proof. intros Hm Hst Hu Hb Hg. exact (dialogue_agrees st next s mem 0 Hm Hst Hu Hb Hg). Qed.

Lemma handshake_agreement_witness :
  let mem := replicate 12 255 in
  connect_to_server true true true (dialogue ACTIVE mem 9 [3; 2]).1 (ClientService 9 ACTIVE)
    = Val (Some (ClientService 2 ACTIVE)) ∧
  handshake mem (RData (client_service 9 ACTIVE)) (dialogue ACTIVE mem 9 [3; 2]).2 = HsClient (VmService 2 ACTIVE (-1)) 0.
Proof.
  apply (handshake_agreement ACTIVE (replicate 12 255) 9 [3; 2]).
  - reflexivity.
  - split; vm_compute; congruence.
  - repeat constructor; vm_compute; congruence.
  - repeat constructor; vm_compute; congruence.
  - reflexivity.
Defined.
