(* ===== verification/Balancer.v ===== *)
(** * controller/balancer.c: the load balancer's table of VMs

    The table the controller's messages maintain ([controller_thread]) and the
    choice of the VM a client is forwarded to ([get_current_socket]).  The
    strings of [connected_clients] live in a heap of blocks that are never
    freed, so that copying a slot copies pointers.  The forwarding itself is in
    Relay.v. *)
From S2P Require Import Prelude Protocol SockHelp.
Open Scope Z_scope.

Definition MAX_CONNECTED_CLIENTS : Z := 5.

(** A block of the heap. *)
Notation ptr := nat (only parsing).

(** [struct vm_data] of balancer.c *)
Record lb_vm := LbVm { lb_ip : list Z; lb_port : Z; connected_clients : list ptr }.

(** The globals; [strings] is the heap, a block is its index. *)
Record lb := Lb {
  lb_set : list (list lb_vm);
  lb_current : list Z;
  lb_allocated : list Z;
  actual_index : list Z;
  strings : list (list Z)
}.

Definition set_lb_set (l : list (list lb_vm)) (b : lb) : lb := Lb l (lb_current b) (lb_allocated b) (actual_index b) (strings b).
Definition set_lb_current (l : list Z) (b : lb) : lb := Lb (lb_set b) l (lb_allocated b) (actual_index b) (strings b).
Definition set_actual_index (l : list Z) (b : lb) : lb := Lb (lb_set b) (lb_current b) (lb_allocated b) l (strings b).
Definition set_strings (l : list (list Z)) (b : lb) : lb := Lb (lb_set b) (lb_current b) (lb_allocated b) (actual_index b) l.

(** Stores through [vm_data_set[service][index]]. *)
Definition set_lb_slot (b : lb) (srv index : Z) (v : lb_vm) : outcome lb :=
  slots ← arr_get (lb_set b) srv;
  slots' ← arr_set slots index v;
  sets ← arr_set (lb_set b) srv slots';
  mret (set_lb_set sets b).

(** [strcmp] and [strcpy] through a pointer; a pointer that was never assigned is no block. *)
Definition load (b : lb) (p : ptr) : outcome (list Z) :=
  match strings b !! p with Some s => Val s | None => Fault UninitRead end.
Definition store (b : lb) (p : ptr) (s : list Z) : outcome lb :=
  match strings b !! p with Some _ => Val (set_strings (<[p := s]> (strings b)) b) | None => Fault UninitRead end.

(** "0.0.0.0" *)
Definition no_ip : list Z := [48; 46; 48; 46; 48; 46; 48].

(** A string in a [char[16]], with its terminator: printing the [ip] of a struct
    that was received, and [strcpy] into an [ip_address].  The [ip] of a struct
    that holds no terminator is a string of sixteen characters at least. *)
Definition string16 (s : list Z) : outcome (list Z) :=
  if decide (length s < 16)%nat then Val s else Fault OutOfBounds.

(** ** The memory that is found while a message is handled

    The new part of the block that [realloc] returns, [None] for a [NULL], and how
    many of the five [malloc]s of [create_empty_list] return a block. *)
Record lb_memory := LbMemory { lb_realloc : option (Z → lb_vm); lb_mallocs : nat }.
Definition plenty (f : Z → lb_vm) : lb_memory := LbMemory (Some f) (Z.to_nat MAX_CONNECTED_CLIENTS).

(** ** check_vm_data_set_size *)
Definition check_vm_data_set_size (fresh : option (Z → lb_vm)) (srv : Z) (b : lb) : outcome lb :=
  current ← arr_get (lb_current b) srv;
  allocated ← arr_get (lb_allocated b) srv;
  if decide (current = allocated) then
    if decide (is_s32 (2 * allocated)) then
      slots ← arr_get (lb_set b) srv;
      match fresh with
      | None => Fault NullDeref
      | Some f =>
          sets ← arr_set (lb_set b) srv (slots ++ map f (seqZ allocated allocated));
          alloc ← arr_set (lb_allocated b) srv (2 * allocated);
          mret (Lb sets (lb_current b) alloc (actual_index b) (strings b))
      end
    else Fault SignedOverflow
  else mret b.

(** ** delete_vm *)
Definition delete_vm (ip_address : list Z) (srv prt : Z) (b : lb) : outcome lb :=
  ip ← string16 ip_address;
  n ← arr_get (lb_current b) srv;
  slots ← arr_get (lb_set b) srv;
  found ← find_slot (λ v, bool_decide (lb_ip v = ip) && (lb_port v =? prt)) slots 0 (Z.to_nat n);
  match found with
  | None => mret b
  | Some index =>
      current ← arr_set (lb_current b) srv (n - 1);
      last ← arr_get slots (n - 1);
      set_lb_slot (set_lb_current current b) srv index last
  end.

(** ** create_empty_list: fresh blocks for the slot's clients

    [mallocs] of the five [malloc]s find memory; the [NULL] of the next one is
    given to [strcpy]. *)
Definition create_empty_list (mallocs : nat) (srv index : Z) (b : lb) : outcome lb :=
  slots ← arr_get (lb_set b) srv;
  v ← arr_get slots index;
  let n := Z.to_nat MAX_CONNECTED_CLIENTS in
  if decide (mallocs < n)%nat then Fault NullDeref else
  set_lb_slot (set_strings (strings b ++ replicate n no_ip) b) srv index
    (LbVm (lb_ip v) (lb_port v) (seq (length (strings b)) n)).

(** ** controller_thread: one message *)
Definition add_vm (vm : virtual_machine) (b : lb) : outcome lb :=
  n ← arr_get (lb_current b) (vm_srv vm);
  slots ← arr_get (lb_set b) (vm_srv vm);
  temp ← arr_get slots n;
  s ← string16 (ip vm);
  b ← set_lb_slot b (vm_srv vm) n (LbVm s (port vm) (connected_clients temp));
  current ← arr_set (lb_current b) (vm_srv vm) (n + 1);
  mret (set_lb_current current b).

Definition controller_message (fresh : lb_memory) (vm : virtual_machine) (b : lb) : outcome lb :=
  b ← check_vm_data_set_size (lb_realloc fresh) (vm_srv vm) b;
  n ← arr_get (lb_current b) (vm_srv vm);
  b ← create_empty_list (lb_mallocs fresh) (vm_srv vm) n b;
  if op vm =? ADD then add_vm vm b
  else if op vm =? DELETE then delete_vm (ip vm) (vm_srv vm) (port vm) b
  else if op vm =? REJ then delete_vm (ip vm) (vm_srv vm) (port vm) b
  else mret b.

(** One turn of the thread: [mem] is the local struct [vm], which a failing
    [recv] and the end of the stream leave as it is. *)
Definition controller_turn (fresh : lb_memory) (r : rres) (st : list Z * lb) : outcome (list Z * lb) :=
  let '(mem, b) := st in
  let mem := match r with RFail _ => mem | RData bs => recv_into (take 28 bs) mem end in
  _ ← string16 (ip (decode_vm mem));       (* it is printed *)
  b ← controller_message fresh (decode_vm mem) b;
  mret (mem, b).

(** ** search_ip: 1 + the place of the address, or 0 *)
Fixpoint search_places (b : lb) (ps : list ptr) (addr : list Z) (index : Z) (n : nat) : outcome Z :=
  match n with
  | O => Val 0
  | S n =>
      p ← arr_get ps index;
      s ← load b p;
      if bool_decide (s = addr) then Val (index + 1) else search_places b ps addr (index + 1) n
  end.
Definition search_ip (b : lb) (v : lb_vm) (addr : list Z) : outcome Z :=
  search_places b (connected_clients v) addr 0 (Z.to_nat MAX_CONNECTED_CLIENTS).

(** ** check_already_connected

    The address and port a client is sent to, and the state after. *)
Fixpoint search_vms (b : lb) (slots : list lb_vm) (addr : list Z) (index : Z) (n : nat) : outcome (option lb_vm) :=
  match n with
  | O => Val None
  | S n =>
      v ← arr_get slots index;
      place ← search_ip b v addr;
      if 0 <? place then Val (Some v) else search_vms b slots addr (index + 1) n
  end.

Definition check_already_connected (addr : list Z) (b : lb) : outcome (list Z * Z * lb) :=
  n ← arr_get (lb_current b) 0;
  slots ← arr_get (lb_set b) 0;
  found ← search_vms b slots addr 0 (Z.to_nat n);
  match found with
  | Some v => mret (lb_ip v, lb_port v, b)
  | None =>
      i ← arr_get (actual_index b) 0;
      v ← arr_get slots i;
      place ← search_ip b v no_ip;
      p ← arr_get (connected_clients v) (place - 1);
      b ← store b p addr;
      index ← arr_set (actual_index b) 0 (i + 1);
      mret (lb_ip v, lb_port v, set_actual_index index b)
  end.

(** ** get_current_socket, with the calls on the socket: each of them may fail,
    which ends the process. *)
Definition get_current_socket (addr : list Z) (socket_ok connect_ok : bool) (b : lb) : outcome (list Z * Z * lb) :=
  i ← arr_get (actual_index b) 0;
  n ← arr_get (lb_current b) 0;
  b ← (if decide (i = n) then index ← arr_set (actual_index b) 0 0; mret (set_actual_index index b) else mret b);
  if socket_ok then
    r ← check_already_connected addr b;
    if connect_ok then mret r else Exit 1
  else Exit 1.

(** ** create_system_image *)
Definition create_system_image (fresh : option (Z → Z → lb_vm)) : outcome lb :=
  match fresh with
  | None => Exit 1
  | Some f => Val (Lb (map (λ k, map (f k) (seqZ 0 NUMBER_VMs)) (seqZ 0 NUMBER_GROUPS))
                      (replicate (Z.to_nat NUMBER_GROUPS) 0) (replicate (Z.to_nat NUMBER_GROUPS) NUMBER_VMs)
                      (replicate (Z.to_nat NUMBER_GROUPS) 0) [])
  end.

(** ** The invariant *)

Definition llive (b : lb) (k : nat) : list lb_vm :=
  match lb_set b !! k, lb_current b !! k with
  | Some slots, Some n => take (Z.to_nat n) slots
  | _, _ => []
  end.

(** The blocks the live entries own. *)
Definition lives (b : lb) : list lb_vm := llive b 0 ++ llive b 1 ++ llive b 2.
Definition owned (l : list lb_vm) : list ptr := concat (map connected_clients l).

Definition lgroup_ok (slots : list lb_vm) (n allocated : Z) : Prop :=
  Z.of_nat (length slots) = allocated ∧ is_s32 allocated ∧ NUMBER_VMs <= allocated ∧ 0 <= n <= allocated.

Definition sizes_ok (b : lb) : Prop :=
  length (lb_set b) = 3%nat ∧ length (lb_current b) = 3%nat ∧ length (lb_allocated b) = 3%nat ∧
  length (actual_index b) = 3%nat ∧
  ∀ k slots n a, lb_set b !! k = Some slots → lb_current b !! k = Some n → lb_allocated b !! k = Some a →
    lgroup_ok slots n a.

(** No two places of the entries share a block, and every place has one of the
    first [n] blocks. *)
Definition places (l : list lb_vm) (n : nat) : Prop :=
  NoDup (owned l) ∧ Forall (λ p, (p < n)%nat) (owned l) ∧ Forall (λ v, length (connected_clients v) = 5%nat) l.

Definition lb_ok (b : lb) : Prop := sizes_ok b ∧ places (lives b) (length (strings b)).

Definition lsame_but (k : nat) (b b' : lb) : Prop := ∀ k', k' ≠ k → llive b' k' = llive b k'.

Lemma sizes_ok_lookup b k :
  sizes_ok b → (k < 3)%nat →
  ∃ slots n a, lb_set b !! k = Some slots ∧ lb_current b !! k = Some n ∧ lb_allocated b !! k = Some a ∧
    lgroup_ok slots n a ∧ llive b k = take (Z.to_nat n) slots.
Proof.
  intros (H1 & H2 & H3 & _ & H) Hk.
  destruct (lookup_lt_is_Some_2 (lb_set b) k) as [slots Es]; [lia|].
  destruct (lookup_lt_is_Some_2 (lb_current b) k) as [n En]; [lia|].
  destruct (lookup_lt_is_Some_2 (lb_allocated b) k) as [a Ea]; [lia|].
  exists slots, n, a. split_and!; try done; [by eapply H|]. unfold llive. by rewrite Es, En.
Qed.

Lemma sizes_update b k slots n a ai st :
  sizes_ok b → (k < 3)%nat → lgroup_ok slots n a → length ai = 3%nat →
  let b' := Lb (<[k := slots]> (lb_set b)) (<[k := n]> (lb_current b)) (<[k := a]> (lb_allocated b)) ai st in
  sizes_ok b' ∧ llive b' k = take (Z.to_nat n) slots ∧ lsame_but k b b'.
Proof.
  intros (H1 & H2 & H3 & H4 & H) Hk Hok Hai b'. split_and!.
  - unfold sizes_ok. cbn [b' lb_set lb_current lb_allocated actual_index]. rewrite !length_insert. split_and!; try done.
    intros k' s' n' a'. destruct (decide (k' = k)) as [->|Hne].
    + rewrite !list_lookup_insert_eq by lia. naive_solver.
    + rewrite !list_lookup_insert_ne by done. apply H.
  - unfold llive. cbn [b' lb_set lb_current]. by rewrite !list_lookup_insert_eq by lia.
  - intros k' Hne. unfold llive. cbn [b' lb_set lb_current]. by rewrite !list_lookup_insert_ne by done.
Qed.

(** The whole table, when one group changes. *)
Lemma lives_same b b' : (∀ k, llive b' k = llive b k) → lives b' = lives b.
Proof. intros H. unfold lives. by rewrite !H. Qed.

Lemma lives_group b k : (k < 3)%nat → ∃ l, ∀ b', lsame_but k b b' → lives b' ≡ₚ llive b' k ++ l.
Proof.
  intros Hk. destruct k as [|[|[|k]]]; [| | |lia].
  - exists (llive b 1 ++ llive b 2). intros b' H. unfold lives. by rewrite (H 1%nat), (H 2%nat).
  - exists (llive b 0 ++ llive b 2). intros b' H. unfold lives. rewrite (H 0%nat), (H 2%nat) by done.
    rewrite !(assoc_L (++)). f_equiv. apply Permutation_app_comm.
  - exists (llive b 0 ++ llive b 1). intros b' H. unfold lives. rewrite (H 0%nat), (H 1%nat) by done.
    rewrite (assoc_L (++)). apply Permutation_app_comm.
Qed.

#[export] Instance owned_proper : Proper ((≡ₚ) ==> (≡ₚ)) owned.
Proof.
  intros l l'. unfold owned. induction 1 as [|x l l' _ IH|x y l|l1 l2 l3 _ IH1 _ IH2]; cbn; [done|by f_equiv| |by etrans].
  rewrite !(assoc_L (++)). f_equiv. apply Permutation_app_comm.
Qed.

Lemma owned_cons v l : owned (v :: l) = connected_clients v ++ owned l.
Proof. done. Qed.

(** Forgetting an entry, and adding one with fresh blocks. *)
Lemma places_drop v l n : places (v :: l) n → places l n.
Proof. unfold places. rewrite owned_cons, NoDup_app, Forall_app, Forall_cons. tauto. Qed.

Lemma places_perm l l' n : l ≡ₚ l' → places l n → places l' n.
Proof. intros H. unfold places. by rewrite H. Qed.

Lemma places_more l n n' : (n <= n')%nat → places l n → places l n'.
Proof.
  intros Hn (H1 & H2 & H3). split_and!; try done. eapply Forall_impl; [exact H2|]. intros p Hp. cbn in *. lia.
Qed.

Lemma places_add v l n : connected_clients v = seq n 5 → places l n → places (v :: l) (n + 5).
Proof.
  intros Hv (H1 & H2 & H3). unfold places. rewrite owned_cons, Hv, NoDup_app, Forall_app, Forall_cons, Hv.
  rewrite Forall_forall in H2.
  split_and!; try done.
  - apply NoDup_ListNoDup, seq_NoDup.
  - intros p Hp Hp'. apply elem_of_seq in Hp. specialize (H2 p Hp'). cbn in H2. lia.
  - apply Forall_forall. intros p Hp. apply elem_of_seq in Hp. lia.
  - apply Forall_forall. intros p Hp. specialize (H2 p Hp). cbn in H2. lia.
Qed.

(** ** What a message does *)
Lemma set_lb_slot_val b k slots (i : nat) v :
  lb_set b !! k = Some slots → (i < length slots)%nat →
  set_lb_slot b (Z.of_nat k) (Z.of_nat i) v
    = Val (set_lb_set (<[k := <[i := v]> slots]> (lb_set b)) b).
Proof.
  intros Es Hi. unfold set_lb_slot. rewrite (arr_get_nat _ _ _ Es). cbn [mbind outcome_bind].
  rewrite arr_set_in_bounds, Nat2Z.id by lia. cbn [mbind outcome_bind].
  apply lookup_lt_Some in Es. by rewrite arr_set_in_bounds, Nat2Z.id by lia.
Qed.

(** There is a slot above the live ones after [check_vm_data_set_size]. *)
Lemma check_size_spec fresh b k n :
  lb_ok b → (k < 3)%nat → lb_current b !! k = Some n →
  (∃ b' slots, check_vm_data_set_size fresh (Z.of_nat k) b = Val b' ∧ lb_ok b' ∧ (∀ k', llive b' k' = llive b k') ∧
     lb_current b' = lb_current b ∧ strings b' = strings b ∧ actual_index b' = actual_index b ∧
     lb_set b' !! k = Some slots ∧ (Z.to_nat n < length slots)%nat) ∨
  check_vm_data_set_size fresh (Z.of_nat k) b = Fault NullDeref ∧ fresh = None ∨
  check_vm_data_set_size fresh (Z.of_nat k) b = Fault SignedOverflow ∧ 2 ^ 30 <= n.
Proof.
  intros [Hb Hp] Hk En.
  destruct (sizes_ok_lookup b k Hb Hk) as (slots & n' & a & Es & En' & Ea & (Hl & Hs & Hmin & Hn) & Hlive).
  simplify_eq. unfold check_vm_data_set_size. rewrite (arr_get_nat _ _ _ En), (arr_get_nat _ _ _ Ea).
  cbn [mbind outcome_bind]. unfold NUMBER_VMs, is_s32 in *.
  case_decide as Hfull; [|left; exists b, slots; split_and!; try done; lia].
  case_decide; [|right; right; split; [done|lia]].
  rewrite (arr_get_nat _ _ _ Es). cbn [mbind outcome_bind].
  destruct fresh as [f|]; [|right; left; done]. left.
  pose proof Hb as (H1 & H2 & H3 & H4 & _).
  rewrite !arr_set_in_bounds, Nat2Z.id by lia. cbn [mbind outcome_bind mret outcome_ret].
  set (slots' := slots ++ map f (seqZ _ _)).
  assert (Hlen : length slots' = Z.to_nat (2 * Z.of_nat (length slots))).
  { unfold slots'. rewrite length_app, length_map, length_seqZ. lia. }
  assert (Htake : take (Z.to_nat n) slots' = take (Z.to_nat n) slots) by (unfold slots'; by rewrite take_app_le by lia).
  destruct (sizes_update b k slots' n (2 * Z.of_nat (length slots)) (actual_index b) (strings b) Hb Hk)
    as (Hb' & Hl' & Ho'); [unfold lgroup_ok, is_s32, NUMBER_VMs; lia|done|].
  rewrite (list_insert_id (lb_current b)) in * by done.
  assert (Hsame : ∀ k', llive (Lb (<[k:=slots']> (lb_set b)) (lb_current b)
                (<[k:=2 * Z.of_nat (length slots)]> (lb_allocated b)) (actual_index b) (strings b)) k' = llive b k').
  { intros k'. destruct (decide (k' = k)) as [->|]; [|by apply Ho']. by rewrite Hl', Hlive, Htake. }
  eexists _, slots'. split; [reflexivity|]. split; [split; [done|by rewrite (lives_same _ _ Hsame)]|].
  split; [done|]. split_and!; try done; [|lia]. cbn [lb_set]. by rewrite list_lookup_insert_eq by lia.
Qed.

(** The slot above the live ones gets five fresh blocks; nothing live changes. *)
Lemma create_list_spec mallocs b k n slots :
  (5 <= mallocs)%nat → lb_ok b → (k < 3)%nat → lb_current b !! k = Some n → lb_set b !! k = Some slots → (Z.to_nat n < length slots)%nat →
  ∃ b' slots' temp, create_empty_list mallocs (Z.of_nat k) n b = Val b' ∧ lb_ok b' ∧ (∀ k', llive b' k' = llive b k') ∧
    lb_current b' = lb_current b ∧ strings b' = strings b ++ replicate 5 no_ip ∧ actual_index b' = actual_index b ∧
    lb_set b' !! k = Some slots' ∧ slots' !! Z.to_nat n = Some temp ∧ connected_clients temp = seq (length (strings b)) 5 ∧
    places (lives b) (length (strings b)).
Proof.
  intros Hmem [Hb Hp] Hk En Es Hlt.
  destruct (sizes_ok_lookup b k Hb Hk) as (slots' & n' & a & Es' & En' & Ea & (Hl & Hs & Hmin & Hn) & Hlive).
  simplify_eq. unfold create_empty_list. rewrite (arr_get_nat _ _ _ Es). cbn [mbind outcome_bind].
  destruct (lookup_lt_is_Some_2 slots (Z.to_nat n) Hlt) as [v Hv].
  rewrite (proj2 (arr_get_Val slots n v)) by (split; [lia|done]). cbn [mbind outcome_bind].
  rewrite decide_False by (change (Z.to_nat MAX_CONNECTED_CLIENTS) with 5%nat; lia).
  set (temp := LbVm _ _ _).
  replace (set_lb_slot _ (Z.of_nat k) n) with
    (set_lb_slot (set_strings (strings b ++ replicate (Z.to_nat MAX_CONNECTED_CLIENTS) no_ip) b) (Z.of_nat k) (Z.of_nat (Z.to_nat n)))
    by (f_equal; lia).
  rewrite (set_lb_slot_val _ _ slots) by done.
  assert (Htake : take (Z.to_nat n) (<[Z.to_nat n := temp]> slots) = take (Z.to_nat n) slots) by by rewrite take_insert_ge by lia.
  pose proof Hb as (_ & _ & _ & H4 & _).
  destruct (sizes_update b k (<[Z.to_nat n := temp]> slots) n (Z.of_nat (length slots)) (actual_index b)
     (strings b ++ replicate (Z.to_nat MAX_CONNECTED_CLIENTS) no_ip) Hb Hk) as (Hb' & Hl' & Ho');
    [unfold lgroup_ok; rewrite length_insert; split_and!; try done; lia|done|].
  rewrite (list_insert_id (lb_current b)), (list_insert_id (lb_allocated b)) in * by done.
  eexists _, (<[Z.to_nat n := temp]> slots), temp. split; [reflexivity|].
  unfold set_lb_set, set_strings in *. cbn [lb_set lb_current lb_allocated actual_index strings] in *.
  match goal with |- lb_ok ?b' ∧ _ => assert (Hsame : ∀ k', llive b' k' = llive b k') end.
  { intros k'. destruct (decide (k' = k)) as [->|]; [|by apply Ho']. by rewrite Hl', Hlive, Htake. }
  split; [split; [done|]|].
  - rewrite (lives_same _ _ Hsame). apply (places_more _ (length (strings b))); [|done].
    cbn [strings]. rewrite length_app. lia.
  - split; [done|]. split_and!; try done.
    + by rewrite list_lookup_insert_eq by (by eapply lookup_lt_Some).
    + by rewrite list_lookup_insert_eq by lia.
Qed.

(** A [malloc] that returns [NULL]. *)
Lemma create_list_null mallocs b k n slots :
  (mallocs < 5)%nat → 0 <= n → lb_set b !! k = Some slots → (Z.to_nat n < length slots)%nat →
  create_empty_list mallocs (Z.of_nat k) n b = Fault NullDeref.
Proof.
  intros Hmem Hn Es Hlt. unfold create_empty_list. rewrite (arr_get_nat _ _ _ Es). cbn [mbind outcome_bind].
  destruct (lookup_lt_is_Some_2 slots (Z.to_nat n) Hlt) as [v Hv].
  rewrite (proj2 (arr_get_Val slots n v)) by done. cbn [mbind outcome_bind]. cbv zeta. by rewrite decide_True.
Qed.

Lemma set_lb_current_val b k n n' :
  lb_current b !! k = Some n → arr_set (lb_current b) (Z.of_nat k) n' = Val (<[k := n']> (lb_current b)).
Proof. intros En. apply lookup_lt_Some in En. by rewrite arr_set_in_bounds, Nat2Z.id by lia. Qed.

(** A table that agrees with [b] but for the live entries of group [k]. *)
Lemma lb_ok_group b b' k l' n :
  lb_ok b → sizes_ok b' → (k < 3)%nat → lsame_but k b b' →
  (∀ l, places (llive b k ++ l) (length (strings b)) → places (l' ++ l) n) →
  llive b' k = l' → (n <= length (strings b'))%nat → lb_ok b'.
Proof.
  intros [Hb Hp] Hb' Hk Ho Hpl Hl Hn. split; [done|].
  destruct (lives_group b k Hk) as (l & Hperm).
  apply (places_more _ n); [done|]. apply (places_perm (l' ++ l)).
  - symmetry. rewrite <-Hl. by apply Hperm.
  - apply Hpl. apply (places_perm (lives b)); [by apply Hperm|done].
Qed.

Lemma add_vm_spec vm b k n slots temp m :
  lb_ok b → (k < 3)%nat → vm_srv vm = Z.of_nat k → lb_current b !! k = Some n → lb_set b !! k = Some slots →
  slots !! Z.to_nat n = Some temp → connected_clients temp = seq m 5 → (m + 5 <= length (strings b))%nat →
  places (lives b) m → (length (ip vm) < 16)%nat →
  ∃ b', add_vm vm b = Val b' ∧ lb_ok b' ∧ llive b' k = llive b k ++ [LbVm (ip vm) (port vm) (seq m 5)] ∧
    lsame_but k b b' ∧ strings b' = strings b ∧ actual_index b' = actual_index b.
Proof.
  intros Hok Hk Hvm En Es Ht Hc Hm Hplaces Hip. pose proof Hok as [Hb Hp].
  destruct (sizes_ok_lookup b k Hb Hk) as (slots' & n' & a & Es' & En' & Ea & (Hl & Hs & Hmin & Hn) & Hlive).
  simplify_eq. apply lookup_lt_Some in Ht as Hlt. unfold add_vm. rewrite Hvm, (arr_get_nat _ _ _ En). cbn [mbind outcome_bind].
  rewrite (arr_get_nat _ _ _ Es). cbn [mbind outcome_bind].
  rewrite (proj2 (arr_get_Val slots n temp)) by (split; [lia|done]). cbn [mbind outcome_bind].
  unfold string16. rewrite decide_True by done. cbn [mbind outcome_bind].
  replace (set_lb_slot b (Z.of_nat k) n) with (set_lb_slot b (Z.of_nat k) (Z.of_nat (Z.to_nat n))) by (f_equal; lia).
  rewrite (set_lb_slot_val _ _ slots) by done. cbn [mbind outcome_bind set_lb_set lb_current].
  rewrite (set_lb_current_val b k n) by done. cbn [mbind outcome_bind mret outcome_ret].
  rewrite Hc. set (v := LbVm _ _ _).
  assert (Htake : take (Z.to_nat (n + 1)) (<[Z.to_nat n := v]> slots) = take (Z.to_nat n) slots ++ [v]).
  { replace (Z.to_nat (n + 1)) with (S (Z.to_nat n)) by lia.
    erewrite take_S_r by (apply list_lookup_insert_eq; done). by rewrite take_insert_ge by lia. }
  pose proof Hb as (_ & _ & _ & H4 & _).
  destruct (sizes_update b k (<[Z.to_nat n := v]> slots) (n + 1) (Z.of_nat (length slots)) (actual_index b) (strings b) Hb Hk)
    as (Hb' & Hl' & Ho'); [unfold lgroup_ok; rewrite length_insert; split_and!; try done; lia|done|].
  rewrite (list_insert_id (lb_allocated b)) in * by done.
  eexists. split; [reflexivity|].
  match goal with |- lb_ok ?b' ∧ _ => assert (Hl2 : llive b' k = llive b k ++ [v]) by (etrans; [apply Hl'|]; by rewrite Htake, Hlive) end.
  split; [|split_and!; done].
  split; [done|]. destruct (lives_group b k Hk) as (l & Hperm).
  apply (places_more _ (m + 5)); [done|]. apply (places_perm (v :: (llive b k ++ l))).
  - etrans; [|symmetry; apply Hperm; exact Ho']. rewrite Hl2, <-(assoc_L (++)). cbn [app]. by rewrite Permutation_middle.
  - apply places_add; [done|]. apply (places_perm (lives b)); [by apply Hperm|done].
Qed.

(** An address with no terminator in its [char[16]]. *)
Lemma long_ip_faults vm b k n slots temp :
  vm_srv vm = Z.of_nat k → lb_current b !! k = Some n → lb_set b !! k = Some slots → 0 <= n →
  slots !! Z.to_nat n = Some temp → (16 <= length (ip vm))%nat →
  add_vm vm b = Fault OutOfBounds ∧ delete_vm (ip vm) (vm_srv vm) (port vm) b = Fault OutOfBounds.
Proof.
  intros Hvm En Es Hn Ht Hip. unfold delete_vm, add_vm, string16. rewrite decide_False by lia. split; [|done].
  rewrite Hvm, (arr_get_nat _ _ _ En). cbn [mbind outcome_bind]. rewrite (arr_get_nat _ _ _ Es). cbn [mbind outcome_bind].
  by rewrite (proj2 (arr_get_Val slots n temp)).
Qed.

(** What a deletion does to the entries of a group. *)
Definition remove_vm (addr : list Z) (prt : Z) (l : list lb_vm) : list lb_vm :=
  match list_find (λ v, bool_decide (lb_ip v = addr) && (lb_port v =? prt) = true) l with
  | Some (i, _) => swap_remove i l
  | None => l
  end.

Lemma delete_vm_spec addr prt b k :
  (length addr < 16)%nat → lb_ok b → (k < 3)%nat →
  ∃ b', delete_vm addr (Z.of_nat k) prt b = Val b' ∧ lb_ok b' ∧ llive b' k = remove_vm addr prt (llive b k) ∧
    lsame_but k b b' ∧ strings b' = strings b ∧ actual_index b' = actual_index b.
Proof.
  intros Hip Hok Hk. pose proof Hok as [Hb Hp].
  destruct (sizes_ok_lookup b k Hb Hk) as (slots & n & a & Es & En & Ea & (Hl & Hs & Hmin & Hn) & Hlive).
  unfold delete_vm, remove_vm, string16. rewrite decide_True by done. cbn [mbind outcome_bind]. rewrite (arr_get_nat _ _ _ En), (arr_get_nat _ _ _ Es). cbn [mbind outcome_bind].
  change 0 with (Z.of_nat 0) at 1. rewrite find_slot_list_find by lia. cbn [mbind outcome_bind]. rewrite drop_0, <-Hlive.
  destruct (list_find _ (llive b k)) as [[i v]|] eqn:Hf; cbn [fmap option_fmap option_map fst Nat.add]; [|by exists b].
  apply list_find_Some in Hf as (Hi & _ & _). rewrite Hlive in Hi |- *.
  apply lookup_lt_Some in Hi as Hlt. rewrite length_take in Hlt.
  rewrite (set_lb_current_val b k n) by done. cbn [mbind outcome_bind].
  destruct (lookup_lt_is_Some_2 slots (Z.to_nat (n - 1))) as [w Hw]; [lia|].
  rewrite (proj2 (arr_get_Val slots (n - 1) w)) by (split; [lia|done]). cbn [mbind outcome_bind].
  rewrite (set_lb_slot_val _ _ slots) by (done || lia). cbn [set_lb_current set_lb_set lb_set].
  assert (Hrm : take (Z.to_nat (n - 1)) (<[i := w]> slots) = swap_remove i (take (Z.to_nat n) slots))
    by (apply take_swap_remove; [lia|done]).
  pose proof Hb as (_ & _ & _ & H4 & _).
  destruct (sizes_update b k (<[i := w]> slots) (n - 1) a (actual_index b) (strings b) Hb Hk)
    as (Hb' & Hl' & Ho'); [unfold lgroup_ok; rewrite length_insert; split_and!; try done; lia|done|].
  rewrite (list_insert_id (lb_allocated b)) in * by done.
  eexists. split; [reflexivity|].
  match goal with |- lb_ok ?b' ∧ _ => assert (Hl2 : llive b' k = swap_remove i (take (Z.to_nat n) slots)) by (etrans; [apply Hl'|]; done) end.
  split; [|by split_and!].
  eapply (lb_ok_group b _ k _ (length (strings b)) Hok Hb' Hk Ho'); [|exact Hl2|done].
  intros l Hl3. apply (places_drop v). change (v :: swap_remove i (take (Z.to_nat n) slots) ++ l)
    with ((v :: swap_remove i (take (Z.to_nat n) slots)) ++ l).
  eapply places_perm; [|exact Hl3]. rewrite Hlive. by rewrite swap_remove_perm.
Qed.

Lemma remove_vm_cases addr prt l :
  (∃ v, lb_ip v = addr ∧ lb_port v = prt ∧ l ≡ₚ v :: remove_vm addr prt l) ∨
  Forall (λ v, ¬ (lb_ip v = addr ∧ lb_port v = prt)) l ∧ remove_vm addr prt l = l.
Proof.
  unfold remove_vm. destruct (list_find _ l) as [[i v]|] eqn:Hf.
  - left. apply list_find_Some in Hf as (Hi & [Hip%bool_decide_eq_true Hpr%Z.eqb_eq]%andb_true_iff & _).
    exists v. by rewrite swap_remove_perm.
  - right. split; [|done]. apply list_find_None in Hf. eapply Forall_impl; [exact Hf|].
    intros v Hv [H1 H2]. apply Hv. by rewrite bool_decide_eq_true_2, (proj2 (Z.eqb_eq _ _) H2).
Qed.

Lemma controller_message_spec fresh vm b k :
  lb_ok b → (k < 3)%nat → vm_srv vm = Z.of_nat k →
  (∃ b', controller_message fresh vm b = Val b' ∧ lb_ok b' ∧ lsame_but k b b' ∧
     strings b' = strings b ++ replicate 5 no_ip ∧ actual_index b' = actual_index b ∧
     (op vm = ADD → llive b' k = llive b k ++ [LbVm (ip vm) (port vm) (seq (length (strings b)) 5)]) ∧
     (op vm = DELETE ∨ op vm = REJ →
        (∃ v, lb_ip v = ip vm ∧ lb_port v = port vm ∧ llive b k ≡ₚ v :: llive b' k) ∨
        Forall (λ v, ¬ (lb_ip v = ip vm ∧ lb_port v = port vm)) (llive b k) ∧ llive b' k = llive b k) ∧
     (op vm ≠ ADD → op vm ≠ DELETE → op vm ≠ REJ → llive b' k = llive b k)) ∨
  controller_message fresh vm b = Fault NullDeref ∧ (lb_realloc fresh = None ∨ (lb_mallocs fresh < 5)%nat) ∨
  controller_message fresh vm b = Fault OutOfBounds ∧ (16 <= length (ip vm))%nat ∧ (op vm = ADD ∨ op vm = DELETE ∨ op vm = REJ) ∨
  controller_message fresh vm b = Fault SignedOverflow ∧ 2 ^ 30 <= Z.of_nat (length (llive b k)).
Proof.
  intros Hok Hk Hvm. pose proof Hok as [Hb _].
  destruct (sizes_ok_lookup b k Hb Hk) as (slots & n & a & Es & En & Ea & (Hl & _ & _ & Hn) & Hlive).
  unfold controller_message. rewrite Hvm.
  destruct (check_size_spec (lb_realloc fresh) b k n Hok Hk En)
    as [(b1 & slots1 & -> & Hok1 & Hl1 & Hc1 & Hs1 & Ha1 & Es1 & Hlt)|[[-> ?]|[-> ?]]]; cbn [mbind outcome_bind].
  2: by right; left; split; [|left].
  2: { right; right; right. split; [done|]. rewrite Hlive, length_take. lia. }
  assert (En1 : lb_current b1 !! k = Some n) by (by rewrite Hc1).
  rewrite (arr_get_nat _ _ _ En1). cbn [mbind outcome_bind].
  destruct (decide (lb_mallocs fresh < 5)%nat) as [Hmem|Hmem].
  { right; left. split; [|by right]. rewrite (create_list_null _ b1 k n slots1); try done. lia. }
  destruct (create_list_spec (lb_mallocs fresh) b1 k n slots1 ltac:(lia) Hok1 Hk En1 Es1 Hlt)
    as (b2 & slots2 & temp & -> & Hok2 & Hl2 & Hc2 & Hs2 & Ha2 & Es2 & Ht & Hpt & Hp2).
  cbn [mbind outcome_bind].
  assert (Hlv : ∀ k', llive b2 k' = llive b k') by (intros k'; by rewrite Hl2, Hl1).
  assert (Hst : strings b2 = strings b ++ replicate 5 no_ip) by by rewrite Hs2, Hs1.
  rewrite Hs1 in Hpt, Hp2.
  destruct (decide ((16 <= length (ip vm))%nat ∧ (op vm = ADD ∨ op vm = DELETE ∨ op vm = REJ))) as [[Hip Ho]|Hip].
  { right; right; left. split; [|done]. destruct (long_ip_faults vm b2 k n slots2 temp) as [Ea' Ed']; rewrite ?Hc2, ?Hc1; try done; [lia|].
    rewrite <-Hvm, Ea', Ed'. by destruct Ho as [->|[->| ->]]. }
  left.
  assert (Hdel : op vm = DELETE ∨ op vm = REJ → ∃ b', delete_vm (ip vm) (Z.of_nat k) (port vm) b2 = Val b' ∧ lb_ok b' ∧ lsame_but k b b' ∧
    strings b' = strings b ++ replicate 5 no_ip ∧ actual_index b' = actual_index b ∧
    llive b' k = remove_vm (ip vm) (port vm) (llive b k)).
  { intros Ho. destruct (delete_vm_spec (ip vm) (port vm) b2 k ltac:(lia) Hok2 Hk) as (b' & E & H1 & H2 & H3 & H4 & H5).
    exists b'. split_and!; try done; [|by rewrite H4|by rewrite H5, Ha2, Ha1|by rewrite H2, Hlv].
    intros k' Hk'. by rewrite (H3 _ Hk'). }
  destruct (Z.eqb_spec (op vm) ADD) as [Eop|Eop].
  { destruct (add_vm_spec vm b2 k n slots2 temp (length (strings b)) Hok2 Hk Hvm) as (b3 & -> & H1 & H2 & H3 & H4 & H5).
    - by rewrite Hc2, Hc1.
    - done.
    - done.
    - done.
    - rewrite Hst, length_app, length_replicate. done.
    - by rewrite (lives_same _ _ Hlv), <-(lives_same _ _ Hl1).
    - lia.
    - exists b3. rewrite Eop. split_and!; try done; [|by rewrite H4|by rewrite H5, Ha2, Ha1|intros _; by rewrite H2, Hlv|by intros [?|?]].
      intros k' Hk'. by rewrite (H3 _ Hk'). }
  destruct (Z.eqb_spec (op vm) DELETE) as [Ed|Ed]; [|destruct (Z.eqb_spec (op vm) REJ) as [Er|Er]].
  1, 2: destruct Hdel as (b' & Edel & D1 & D2 & D3 & D4 & D5); [by (left + right)|]; exists b';
    rewrite Edel, D5; split_and!; try done; intros _; apply remove_vm_cases.
  - exists b2. split_and!; try done; [by intros k' _; apply Hlv|by rewrite Ha2, Ha1|by intros [?|?]].
Qed.

(** With memory and room, a message with a terminated address is handled. *)
Lemma plenty_no_fault f b k vm :
  (length (ip vm) < 16)%nat → Z.of_nat (length (llive b k)) < 2 ^ 30 →
  ¬ (controller_message (plenty f) vm b = Fault NullDeref ∧ (lb_realloc (plenty f) = None ∨ (lb_mallocs (plenty f) < 5)%nat) ∨
     controller_message (plenty f) vm b = Fault OutOfBounds ∧ (16 <= length (ip vm))%nat ∧ (op vm = ADD ∨ op vm = DELETE ∨ op vm = REJ) ∨
     controller_message (plenty f) vm b = Fault SignedOverflow ∧ 2 ^ 30 <= Z.of_nat (length (llive b k))).
Proof.
  intros Hip Hlt. change (lb_mallocs (plenty f)) with 5%nat. intros [[_ [H|H]]|[(_ & H & _)|[_ H]]]; [discriminate H|lia..].
Qed.

(** ** controller_thread: properties *)

(** C10.  One message of the controller, for an existing service: the table
    stays well-formed, with no string shared between two live entries and
    no string of a client touched; ADD appends the VM with five empty places, DELETE
    and REJ take out one entry with the address and port, if there is one, and
    anything else leaves the entries alone.  The only faults are a [NULL] from
    [realloc] or [malloc], an address without a terminator, which [strcpy] writes
    past its array, and 2^30 VMs. *)
Theorem controller_message_correct fresh vm b k :
  lb_ok b → (k < 3)%nat → vm_srv vm = Z.of_nat k →
  (∃ b', controller_message fresh vm b = Val b' ∧ lb_ok b' ∧ lsame_but k b b' ∧
     strings b' = strings b ++ replicate 5 no_ip ∧ actual_index b' = actual_index b ∧
     (op vm = ADD → llive b' k = llive b k ++ [LbVm (ip vm) (port vm) (seq (length (strings b)) 5)]) ∧
     (op vm = DELETE ∨ op vm = REJ →
        (∃ v, lb_ip v = ip vm ∧ lb_port v = port vm ∧ llive b k ≡ₚ v :: llive b' k) ∨
        Forall (λ v, ¬ (lb_ip v = ip vm ∧ lb_port v = port vm)) (llive b k) ∧ llive b' k = llive b k) ∧
     (op vm ≠ ADD → op vm ≠ DELETE → op vm ≠ REJ → llive b' k = llive b k)) ∨
  controller_message fresh vm b = Fault NullDeref ∧ (lb_realloc fresh = None ∨ (lb_mallocs fresh < 5)%nat) ∨
  controller_message fresh vm b = Fault OutOfBounds ∧ (16 <= length (ip vm))%nat ∧ (op vm = ADD ∨ op vm = DELETE ∨ op vm = REJ) ∨
  controller_message fresh vm b = Fault SignedOverflow ∧ 2 ^ 30 <= Z.of_nat (length (llive b k)).
Proof. apply controller_message_spec. Qed.

(** ** The places of a VM *)

Definition clients_of (b : lb) (v : lb_vm) : list (list Z) :=
  map (λ p, default [] (strings b !! p)) (connected_clients v).

(** [v] owns five blocks of the heap. *)
Definition vm_ok (b : lb) (v : lb_vm) : Prop :=
  length (connected_clients v) = 5%nat ∧ Forall (λ p, (p < length (strings b))%nat) (connected_clients v).

Lemma lives_elem b k v : (k < 3)%nat → v ∈ llive b k → v ∈ lives b.
Proof. intros Hk Hv. unfold lives. rewrite !elem_of_app. destruct k as [|[|[|k]]]; [tauto..|lia]. Qed.

Lemma owned_elem v l p : v ∈ l → p ∈ connected_clients v → p ∈ owned l.
Proof. intros Hv Hp. unfold owned. apply list_elem_of_In, in_concat. exists (connected_clients v).
  split; [apply in_map_iff; exists v; split; [done|by apply list_elem_of_In]|by apply list_elem_of_In]. Qed.

Lemma lb_ok_vm b k v : lb_ok b → (k < 3)%nat → v ∈ llive b k → vm_ok b v.
Proof.
  intros [_ (_ & H2 & H3)] Hk Hv. pose proof (lives_elem b k v Hk Hv) as Hv'. split.
  - rewrite Forall_forall in H3. by apply H3.
  - apply Forall_forall. intros p Hp. rewrite Forall_forall in H2. apply H2. by eapply owned_elem.
Qed.

Lemma load_place b v i p : vm_ok b v → connected_clients v !! i = Some p →
  ∃ s, load b p = Val s ∧ clients_of b v !! i = Some s.
Proof.
  intros [_ Hf] Hp. pose proof (Forall_lookup_1 _ _ _ _ Hf Hp) as Hlt. cbn in Hlt.
  destruct (lookup_lt_is_Some_2 (strings b) p Hlt) as [s Hs]. exists s. unfold load, clients_of. rewrite Hs.
  split; [done|]. rewrite list_lookup_fmap, Hp. change (Some (default [] (strings b !! p)) = Some s). by rewrite Hs.
Qed.

Lemma search_places_spec b v addr i n :
  vm_ok b v → (i + n = 5)%nat →
  search_places b (connected_clients v) addr (Z.of_nat i) n
    = Val (match list_find (λ s, s = addr) (drop i (clients_of b v)) with
           | Some (j, _) => Z.of_nat (i + j) + 1 | None => 0 end).
Proof.
  intros Hv. revert i. induction n as [|n IH]; intros i Hi; cbn [search_places].
  - rewrite drop_ge; [done|]. unfold clients_of. rewrite length_map. destruct Hv. lia.
  - destruct (lookup_lt_is_Some_2 (connected_clients v) i) as [p Hp]; [destruct Hv; lia|].
    rewrite (arr_get_nat _ _ _ Hp). cbn [mbind outcome_bind].
    destruct (load_place b v i p Hv Hp) as (s & -> & Hs). cbn [mbind outcome_bind].
    erewrite drop_S by done. cbn [list_find].
    case_bool_decide as E; [rewrite decide_True by done; by rewrite Nat.add_0_r|].
    rewrite decide_False by done. replace (Z.of_nat i + 1) with (Z.of_nat (S i)) by lia. rewrite IH by lia.
    destruct (list_find _ (drop (S i) _)) as [[j s']|]; cbn; [|done]. do 2 f_equal. lia.
Qed.

Lemma search_ip_spec b v addr :
  vm_ok b v →
  search_ip b v addr = Val (match list_find (λ s, s = addr) (clients_of b v) with Some (j, _) => Z.of_nat j + 1 | None => 0 end).
Proof. intros Hv. unfold search_ip. change 0 with (Z.of_nat 0) at 1. by rewrite search_places_spec by done. Qed.

Lemma search_ip_found b v addr :
  vm_ok b v → ∃ place, search_ip b v addr = Val place ∧ (0 <? place = true ↔ addr ∈ clients_of b v).
Proof.
  intros Hv. rewrite search_ip_spec by done. eexists. split; [done|]. rewrite Z.ltb_lt.
  destruct (list_find _ _) as [[j s]|] eqn:E.
  - apply list_find_Some in E as (Hj & -> & _). split; [intros _; by eapply list_elem_of_lookup_2|lia].
  - apply list_find_None in E. rewrite Forall_forall in E. split; [lia|]. intros H. by destruct (E _ H).
Qed.

Lemma search_vms_spec b slots addr i n :
  (i + n <= length slots)%nat → (∀ v, v ∈ take n (drop i slots) → vm_ok b v) →
  search_vms b slots addr (Z.of_nat i) n
    = Val (snd <$> list_find (λ v, addr ∈ clients_of b v) (take n (drop i slots))).
Proof.
  revert i. induction n as [|n IH]; intros i Hl Hv; [done|].
  destruct (lookup_lt_is_Some_2 slots i) as [v Hi]; [lia|].
  erewrite drop_S in Hv |- * by done. cbn [take search_vms list_find] in *.
  rewrite (arr_get_nat _ _ _ Hi). cbn [mbind outcome_bind].
  destruct (search_ip_found b v addr) as (place & -> & Hp); [apply Hv; left|]. cbn [mbind outcome_bind].
  destruct (0 <? place) eqn:Ep.
  - rewrite decide_True by (by apply Hp). done.
  - rewrite decide_False by (intros H; by apply Hp in H).
    replace (Z.of_nat i + 1) with (Z.of_nat (S i)) by lia. rewrite IH; [|lia|intros w Hw; apply Hv; by right].
    by destruct (list_find _ _) as [[j w]|].
Qed.

(** The first live VM of service 0 that a client is recorded with. *)
Definition home (b : lb) (addr : list Z) : option lb_vm :=
  snd <$> list_find (λ v, addr ∈ clients_of b v) (llive b 0).

Lemma check_home b addr :
  lb_ok b → ∃ slots n, lb_current b !! 0%nat = Some n ∧ lb_set b !! 0%nat = Some slots ∧
    llive b 0 = take (Z.to_nat n) slots ∧ 0 <= n ∧ (Z.to_nat n <= length slots)%nat ∧
    check_already_connected addr b =
      match home b addr with
      | Some v => Val (lb_ip v, lb_port v, b)
      | None =>
          i ← arr_get (actual_index b) 0; v ← arr_get slots i; place ← search_ip b v no_ip;
          p ← arr_get (connected_clients v) (place - 1); b ← store b p addr;
          index ← arr_set (actual_index b) 0 (i + 1); mret (lb_ip v, lb_port v, set_actual_index index b)
      end.
Proof.
  intros Hok. pose proof Hok as [Hb _].
  destruct (sizes_ok_lookup b 0 Hb ltac:(lia)) as (slots & n & a & Es & En & Ea & (Hl & _ & _ & Hn) & Hlive).
  exists slots, n. split_and!; try done; try lia. unfold check_already_connected, home.
  rewrite (arr_get_nat (lb_current b) 0 n En : arr_get (lb_current b) 0 = _).
  rewrite (arr_get_nat (lb_set b) 0 slots Es : arr_get (lb_set b) 0 = _). cbn [mbind outcome_bind].
  pose proof (search_vms_spec b slots addr 0 (Z.to_nat n)) as Hs. change (Z.of_nat 0) with 0 in Hs. rewrite Hs.
  - rewrite drop_0, <-Hlive. cbn [mbind outcome_bind]. by destruct (list_find _ _) as [[j v]|].
  - lia.
  - rewrite drop_0, <-Hlive. intros v Hv. by apply (lb_ok_vm b 0); [|lia|].
Qed.

(** ** Recording a new client *)
Lemma owned_disjoint l i j v w p :
  NoDup (owned l) → i ≠ j → l !! i = Some v → l !! j = Some w → p ∈ connected_clients v → p ∈ connected_clients w → False.
Proof.
  revert i j. induction l as [|x l IH]; intros i j Hn Hne Hi Hj Hp Hq; [done|].
  rewrite owned_cons, NoDup_app in Hn. destruct Hn as (_ & Hd & Hn).
  destruct i as [|i], j as [|j]; simplify_eq/=.
  - apply (Hd p Hp). eapply owned_elem; [by eapply list_elem_of_lookup_2|done].
  - apply (Hd p Hq). eapply owned_elem; [by eapply list_elem_of_lookup_2|done].
  - by apply (IH i j Hn ltac:(congruence) Hi Hj Hp Hq).
Qed.

Lemma owned_nodup l i v : NoDup (owned l) → l !! i = Some v → NoDup (connected_clients v).
Proof.
  revert i. induction l as [|x l IH]; intros [|i] Hn Hi; simplify_eq/=; rewrite owned_cons, NoDup_app in Hn.
  - by destruct Hn.
  - apply (IH i); tauto.
Qed.

Lemma lb_ok_nodup b : lb_ok b → NoDup (owned (llive b 0)).
Proof.
  intros [_ (H & _)]. unfold lives, owned in *. rewrite map_app, concat_app, NoDup_app in H. tauto.
Qed.

(** Writing one block of a live VM's places. *)
Lemma store_place b j v i p addr :
  lb_ok b → llive b 0 !! j = Some v → connected_clients v !! i = Some p →
  let b' := set_strings (<[p := addr]> (strings b)) b in
  store b p addr = Val b' ∧ clients_of b' v = <[i := addr]> (clients_of b v) ∧
  ∀ j' w, j' ≠ j → llive b 0 !! j' = Some w → clients_of b' w = clients_of b w.
Proof.
  intros Hok Hv Hp b'. pose proof (lb_ok_nodup b Hok) as Hn.
  destruct (lb_ok_vm b 0 v Hok ltac:(lia)) as [Hlen Hbound]; [by eapply list_elem_of_lookup_2|].
  pose proof (Forall_lookup_1 _ _ _ _ Hbound Hp) as Hlt. cbn in Hlt. split_and!.
  - unfold store. destruct (lookup_lt_is_Some_2 (strings b) p Hlt) as [s ->]. done.
  - apply list_eq. intros i'. unfold clients_of. destruct (decide (i' = i)) as [->|Hne].
    + rewrite list_lookup_insert_eq by (rewrite length_map; by eapply lookup_lt_Some).
      rewrite list_lookup_fmap, Hp. change (Some (default [] (strings b' !! p)) = Some addr).
      unfold b'. cbn [strings set_strings]. by rewrite list_lookup_insert_eq.
    + rewrite list_lookup_insert_ne by done. rewrite !list_lookup_fmap.
      destruct (connected_clients v !! i') as [p'|] eqn:Hp'; [|done].
      change (Some (default [] (strings b' !! p')) = Some (default [] (strings b !! p'))).
      unfold b'. cbn [strings set_strings]. rewrite list_lookup_insert_ne; [done|]. intros ->. apply Hne.
      eapply NoDup_lookup; [by eapply owned_nodup|done|done].
  - intros j' w Hne Hw. unfold clients_of. apply map_ext_in. intros p' Hp'.
    unfold b'. cbn [strings set_strings]. rewrite list_lookup_insert_ne; [done|]. intros <-.
    eapply (owned_disjoint _ j' j w v p Hn Hne Hw Hv); [by apply list_elem_of_In|by eapply list_elem_of_lookup_2].
Qed.

Lemma lb_ok_strings b st : lb_ok b → length st = length (strings b) → lb_ok (set_strings st b).
Proof. intros [H1 H2] Hl. split; [done|]. cbn [strings set_strings]. by rewrite Hl. Qed.

Lemma list_find_no_ip used rest :
  no_ip ∉ used → list_find (λ s, s = no_ip) (used ++ no_ip :: rest) = Some (length used, no_ip).
Proof.
  intros H. apply list_find_Some. split_and!; [by apply list_lookup_middle|done|].
  intros i s Hs Hlt. rewrite lookup_app_l in Hs by done. intros ->. apply H. by eapply list_elem_of_lookup_2.
Qed.

Lemma assign_client b addr j v used rest :
  lb_ok b → home b addr = None → actual_index b !! 0%nat = Some (Z.of_nat j) → llive b 0 !! j = Some v →
  clients_of b v = used ++ no_ip :: rest → no_ip ∉ used →
  ∃ b', check_already_connected addr b = Val (lb_ip v, lb_port v, b') ∧ lb_ok b' ∧
    (∀ k, llive b' k = llive b k) ∧ lb_current b' = lb_current b ∧ actual_index b' !! 0%nat = Some (Z.of_nat (S j)) ∧
    clients_of b' v = used ++ addr :: rest ∧
    ∀ j' w, j' ≠ j → llive b 0 !! j' = Some w → clients_of b' w = clients_of b w.
Proof.
  intros Hok Hh Ha Hv Hc Hu. destruct (check_home b addr Hok) as (slots & n & En & Es & Hlive & Hn & Hlen & ->).
  rewrite Hh, (arr_get_nat (actual_index b) 0 _ Ha : arr_get (actual_index b) 0 = _). cbn [mbind outcome_bind].
  assert (Hj : slots !! j = Some v) by (rewrite Hlive in Hv; by apply lookup_take_Some in Hv as [? _]).
  rewrite (arr_get_nat _ _ _ Hj). cbn [mbind outcome_bind].
  pose proof (lb_ok_vm b 0 v Hok ltac:(lia) ltac:(by eapply list_elem_of_lookup_2)) as Hvm.
  rewrite search_ip_spec, Hc, list_find_no_ip by done. cbn [mbind outcome_bind].
  assert (Hlt : (length used < 5)%nat).
  { destruct Hvm as [H5 _]. assert (length (clients_of b v) = 5%nat) as Hl by (unfold clients_of; by rewrite length_map).
    rewrite Hc, length_app in Hl. cbn in Hl. lia. }
  destruct (lookup_lt_is_Some_2 (connected_clients v) (length used)) as [p Hp]; [destruct Hvm; lia|].
  replace (Z.of_nat (length used) + 1 - 1) with (Z.of_nat (length used)) by lia.
  rewrite (arr_get_nat _ _ _ Hp). cbn [mbind outcome_bind].
  destruct (store_place b j v (length used) p addr Hok Hv Hp) as (-> & Hc' & Ho'). cbn [mbind outcome_bind].
  assert (Hidx : length (actual_index b) = 3%nat) by (destruct Hok as [(_ & _ & _ & ? & _) _]; done).
  rewrite arr_set_in_bounds by (cbn [set_strings actual_index]; lia). cbn [mbind outcome_bind mret outcome_ret].
  eexists. split; [reflexivity|]. split_and!; try done.
  - assert (lb_ok (set_strings (<[p:=addr]> (strings b)) b)) as [(S1 & S2 & S3 & S4 & S5) S6]
      by (apply lb_ok_strings; [done|by rewrite length_insert]).
    split; [|done]. split_and!; try done. cbn [set_actual_index set_strings actual_index]. by rewrite length_insert.
  - cbn [set_actual_index set_strings actual_index]. change (Z.to_nat 0) with 0%nat. rewrite list_lookup_insert_eq by lia.
    f_equal. lia.
  - change (clients_of (set_strings (<[p:=addr]> (strings b)) b) v = used ++ addr :: rest).
    rewrite Hc', Hc. by rewrite insert_app_r_alt, Nat.sub_diag by lia.
Qed.

(** ** The choice of the VM: properties *)

(** A client that has been given a VM keeps it: its next connection goes
    to the same address and port, and changes nothing. *)
Theorem clients_are_sticky b addr j v used rest :
  lb_ok b → home b addr = None → actual_index b !! 0%nat = Some (Z.of_nat j) → llive b 0 !! j = Some v →
  clients_of b v = used ++ no_ip :: rest → no_ip ∉ used →
  ∃ b', check_already_connected addr b = Val (lb_ip v, lb_port v, b') ∧ lb_ok b' ∧
    check_already_connected addr b' = Val (lb_ip v, lb_port v, b').
Proof.
  intros Hok Hh Ha Hv Hc Hu.
  destruct (assign_client b addr j v used rest Hok Hh Ha Hv Hc Hu) as (b' & E & Hok' & Hl & _ & _ & Hcv & Ho).
  exists b'. split; [done|]. split; [done|]. destruct (check_home b' addr Hok') as (slots & n & _ & _ & _ & _ & _ & ->).
  assert (Hhome : home b' addr = Some v).
  { unfold home in *. rewrite Hl. apply fmap_None in Hh. rewrite list_find_None, Forall_lookup in Hh.
    assert (list_find (λ w, addr ∈ clients_of b' w) (llive b 0) = Some (j, v)) as ->; [|done].
    apply list_find_Some. split_and!; [done|rewrite Hcv; set_solver|].
    intros i w Hw Hlt. rewrite (Ho i w) by (done || lia). by apply (Hh i w Hw). }
  by rewrite Hhome.
Qed.

Lemma full_vm_faults b addr j v :
  lb_ok b → home b addr = None → actual_index b !! 0%nat = Some (Z.of_nat j) → llive b 0 !! j = Some v →
  no_ip ∉ clients_of b v → check_already_connected addr b = Fault OutOfBounds.
Proof.
  intros Hok Hh Ha Hv Hc. destruct (check_home b addr Hok) as (slots & n & En & Es & Hlive & Hn & Hlen & ->).
  rewrite Hh, (arr_get_nat (actual_index b) 0 _ Ha : arr_get (actual_index b) 0 = _). cbn [mbind outcome_bind].
  assert (Hj : slots !! j = Some v) by (rewrite Hlive in Hv; by apply lookup_take_Some in Hv as [? _]).
  rewrite (arr_get_nat _ _ _ Hj). cbn [mbind outcome_bind].
  pose proof (lb_ok_vm b 0 v Hok ltac:(lia) ltac:(by eapply list_elem_of_lookup_2)) as Hvm.
  rewrite search_ip_spec by done.
  assert (list_find (λ s, s = no_ip) (clients_of b v) = None) as ->.
  { apply list_find_None, Forall_forall. intros s Hs ->. done. }
  done.
Qed.

(** C40.  A VM has five places and clients never give theirs back: when the VM
    in turn has five, a new client makes the balancer write through
    [connected_clients[-1]]. *)
Theorem sixth_client_faults b addr j v :
  lb_ok b → home b addr = None → actual_index b !! 0%nat = Some (Z.of_nat j) → llive b 0 !! j = Some v →
  no_ip ∉ clients_of b v → check_already_connected addr b = Fault OutOfBounds.
Proof. apply full_vm_faults. Qed.

(** ** Round robin *)

(** Connections one after the other. *)
Fixpoint route (cs : list (list Z)) (b : lb) : outcome (list (list Z * Z) * lb) :=
  match cs with
  | [] => mret ([], b)
  | c :: cs =>
      r ← get_current_socket c true true b;
      rs ← route cs r.2;
      mret (r.1 :: rs.1, rs.2)
  end.

(** After [q] full rounds and [r] clients of the next: the VMs before [r] have
    [q + 1] clients, the others [q]. *)
Definition rr_inv (b : lb) (vms : list lb_vm) (known : list (list Z)) (q r : nat) : Prop :=
  lb_ok b ∧ llive b 0 = vms ∧ (r < length vms)%nat ∧
  (∃ a, actual_index b !! 0%nat = Some (Z.of_nat a) ∧ (a = r ∨ r = 0%nat ∧ a = length vms)) ∧
  ∀ i v, vms !! i = Some v → ∃ used, clients_of b v = used ++ replicate (5 - length used) no_ip ∧
    no_ip ∉ used ∧ (∀ s, s ∈ used → s ∈ known) ∧ length used = (q + if decide (i < r)%nat then 1 else 0)%nat.

Lemma lb_ok_index b i : lb_ok b → lb_ok (set_actual_index (<[0%nat := i]> (actual_index b)) b).
Proof.
  intros [(H1 & H2 & H3 & H4 & H5) H6]. split; [|done]. split_and!; try done.
  cbn [set_actual_index actual_index]. by rewrite length_insert.
Qed.

(** [get_current_socket] brings the index into the live range. *)
Lemma get_current_socket_wrap b vms known q r addr :
  rr_inv b vms known q r →
  ∃ b0, rr_inv b0 vms known q r ∧ actual_index b0 !! 0%nat = Some (Z.of_nat r) ∧
    get_current_socket addr true true b = check_already_connected addr b0.
Proof.
  intros Hrr. pose proof Hrr as (Hok & Hl & Hr & (a & Ha & Hcase) & Hv).
  destruct (check_home b addr Hok) as (slots & n & En & Es & Hlive & Hn & Hlen & _).
  assert (Hlen2 : n = Z.of_nat (length vms)) by (rewrite <-Hl, Hlive, length_take; lia).
  assert (Hbind : ∀ (o : outcome (list Z * Z * lb)), (o ≫= λ r, mret r) = o) by by intros [].
  assert (Hai : length (actual_index b) = 3%nat) by (destruct Hok as [(_ & _ & _ & ? & _) _]; done).
  unfold get_current_socket.
  rewrite (arr_get_nat (actual_index b) 0 _ Ha : arr_get (actual_index b) 0 = _),
    (arr_get_nat (lb_current b) 0 _ En : arr_get (lb_current b) 0 = _). cbn [mbind outcome_bind].
  destruct Hcase as [->|[-> ->]].
  - rewrite decide_False by lia. exists b. split; [done|]. split; [done|].
    cbn [mbind outcome_bind mret outcome_ret]. apply Hbind.
  - rewrite decide_True by done. rewrite arr_set_in_bounds by lia. cbn [mbind outcome_bind mret outcome_ret].
    change (Z.to_nat 0) with 0%nat.
    exists (set_actual_index (<[0%nat := 0]> (actual_index b)) b). split_and!.
    + split_and!; try done; [by apply lb_ok_index|]. exists 0%nat. split; [|by left].
      cbn [set_actual_index actual_index]. by rewrite list_lookup_insert_eq by lia.
    + cbn [set_actual_index actual_index]. by rewrite list_lookup_insert_eq by lia.
    + apply Hbind.
Qed.

Lemma round_robin_step b vms known q r addr :
  rr_inv b vms known q r → (q < 5)%nat → addr ∉ known → addr ≠ no_ip →
  ∃ v b', vms !! r = Some v ∧ get_current_socket addr true true b = Val (lb_ip v, lb_port v, b') ∧
    (rr_inv b' vms (addr :: known) q (S r) ∨ S r = length vms ∧ rr_inv b' vms (addr :: known) (S q) 0).
Proof.
  intros Hrr Hq Hnew Hno. destruct (get_current_socket_wrap b vms known q r addr Hrr) as (b0 & Hrr0 & Ha & ->).
  clear b Hrr. destruct Hrr0 as (Hok & Hl & Hr & _ & Hvs).
  destruct (lookup_lt_is_Some_2 vms r Hr) as [v Hv]. destruct (Hvs r v Hv) as (used & Hc & Hu & Hk & Hlu).
  rewrite decide_False, Nat.add_0_r in Hlu by lia.
  destruct (5 - length used)%nat as [|m] eqn:Em; [lia|].
  assert (Hh : home b0 addr = None).
  { unfold home. apply fmap_None, list_find_None, Forall_lookup. rewrite Hl. intros i w Hw.
    destruct (Hvs i w Hw) as (used' & -> & _ & Hk' & _). rewrite elem_of_app, elem_of_replicate.
    intros [H|[H _]]; [by apply Hnew, Hk'|done]. }
  destruct (assign_client b0 addr r v used (replicate m no_ip) Hok Hh Ha) as (b' & E & Hok' & Hl' & Hcur & Ha' & Hcv & Ho);
    [by rewrite Hl|done|done|].
  exists v, b'. split; [done|]. split; [done|].
  assert (Hlen5 : (length used + S m = 5)%nat) by lia.
  assert (Hall : ∀ i w, vms !! i = Some w → ∃ used, clients_of b' w = used ++ replicate (5 - length used) no_ip ∧
    no_ip ∉ used ∧ (∀ s, s ∈ used → s ∈ addr :: known) ∧ length used = (q + if decide (i < S r)%nat then 1 else 0)%nat).
  { intros i w Hw. destruct (decide (i = r)) as [->|Hne].
    - simplify_eq. exists (used ++ [addr]). rewrite Hcv, length_app, <-(assoc_L (++)). cbn [app length].
      split_and!.
      + do 3 f_equal. lia.
      + rewrite elem_of_app, list_elem_of_singleton. naive_solver.
      + intros s. rewrite elem_of_app, list_elem_of_singleton, elem_of_cons. naive_solver.
      + rewrite decide_True by lia. lia.
    - destruct (Hvs i w Hw) as (used' & Hc' & Hu' & Hk' & Hlu'). exists used'.
      rewrite (Ho i w Hne) by (by rewrite Hl). split_and!; try done.
      + intros s Hs. right. by apply Hk'.
      + rewrite Hlu'. repeat case_decide; lia. }
  destruct (decide (S r = length vms)) as [Hlast|Hmore].
  - right. split; [done|]. split_and!; try done; [by rewrite Hl'|lia|exists (S r); split; [done|by right]|].
    intros i w Hw. destruct (Hall i w Hw) as (used' & ? & ? & ? & Hlu'). exists used'. split_and!; try done.
    apply lookup_lt_Some in Hw. rewrite Hlu'. rewrite decide_True by lia. rewrite decide_False by lia. lia.
  - left. split_and!; try done; [by rewrite Hl'|lia|]. exists (S r). split; [done|by left].
Qed.

Lemma round_robin_route cs b vms known q r :
  rr_inv b vms known q r → NoDup cs → (∀ c, c ∈ cs → c ∉ known ∧ c ≠ no_ip) →
  (q * length vms + r + length cs <= 5 * length vms)%nat →
  ∃ res b', route cs b = Val (res, b') ∧ length res = length cs ∧
    ∀ j v, (j < length cs)%nat → vms !! ((q * length vms + r + j) mod length vms)%nat = Some v →
      res !! j = Some (lb_ip v, lb_port v).
Proof.
  revert b known q r. induction cs as [|c cs IH]; intros b known q r Hrr Hn Hk Hlen; cbn [route].
  - exists [], b. split_and!; try done. cbn. lia.
  - apply NoDup_cons in Hn as [Hc Hn]. cbn [length] in Hlen.
    assert (Hr : (r < length vms)%nat) by (destruct Hrr as (_ & _ & ? & _); done).
    destruct (round_robin_step b vms known q r c Hrr) as (v & b' & Hv & -> & Hnext);
      [nia|by apply Hk; left|by apply Hk; left|].
    cbn [mbind outcome_bind snd fst].
    assert (Hk' : ∀ c', c' ∈ cs → c' ∉ c :: known ∧ c' ≠ no_ip).
    { intros c' Hc'. destruct (Hk c') as [H1 H2]; [by right|]. split; [|done]. rewrite elem_of_cons. intros [->|?]; done. }
    assert (∃ q' r', rr_inv b' vms (c :: known) q' r' ∧ (q' * length vms + r' = q * length vms + r + 1)%nat)
      as (q' & r' & Hrr' & Heq).
    { destruct Hnext as [?|[? ?]]; [exists q, (S r)|exists (S q), 0%nat]; (split; [done|]); cbn; lia. }
    destruct (IH b' (c :: known) q' r' Hrr' Hn Hk' ltac:(lia)) as (res & b'' & -> & Hres & Hres').
    cbn [mbind outcome_bind mret outcome_ret fst snd].
    exists ((lb_ip v, lb_port v) :: res), b''. split; [done|]. split; [cbn; lia|].
    intros [|j] w Hj Hw.
    + rewrite Nat.add_0_r, Nat.add_comm, Nat.Div0.mod_add, Nat.mod_small in Hw by done. by simplify_eq/=.
    + cbn. apply Hres'; [cbn in Hj; lia|]. rewrite Heq. rewrite <-Hw. do 2 f_equal. lia.
Qed.


(** ** What goes wrong *)

(** When the controller closes the connection, [recv] returns 0 and the
    thread applies the last message again in every turn: a VM that was the last
    to be added is added once more each time. *)
Theorem end_of_stream_readds f mem b k :
  lb_ok b → (k < 3)%nat → vm_srv (decode_vm mem) = Z.of_nat k → op (decode_vm mem) = ADD →
  Z.of_nat (length (llive b k)) < 2 ^ 30 → (length (ip (decode_vm mem)) < 16)%nat →
  ∃ b' ps, controller_turn (plenty f) (RData []) (mem, b) = Val (mem, b') ∧ lb_ok b' ∧
    llive b' k = llive b k ++ [LbVm (ip (decode_vm mem)) (port (decode_vm mem)) ps].
Proof.
  intros Hok Hk Hs Ho Hlt Hip. unfold controller_turn. change (recv_into (take 28 []) mem) with mem.
  unfold string16 at 1. rewrite decide_True by done. cbn [mbind outcome_bind].
  destruct (controller_message_spec (plenty f) (decode_vm mem) b k Hok Hk Hs)
    as [(b' & -> & Hok' & _ & _ & _ & Hadd & _)|H]; [|by apply plenty_no_fault in H].
  cbn. exists b'. eexists. split; [reflexivity|]. split; [done|]. by apply Hadd.
Qed.

Fixpoint messages (fresh : lb_memory) (ms : list virtual_machine) (b : lb) : outcome lb :=
  match ms with
  | [] => mret b
  | m :: ms => b ← controller_message fresh m b; messages fresh ms b
  end.

Lemma messages_ok fresh ms b b' :
  lb_ok b → Forall (λ m, ∃ k : nat, (k < 3)%nat ∧ vm_srv m = Z.of_nat k) ms → messages fresh ms b = Val b' → lb_ok b'.
Proof.
  intros Hb Hms. revert b Hb. induction Hms as [|m ms (k & Hk & Hm) _ IH]; intros b Hb; cbn [messages].
  - by intros [= <-].
  - intros (b1 & E & H)%outcome_bind_Val. apply (IH b1); [|done].
    destruct (controller_message_spec fresh m b k Hb Hk Hm) as [(b2 & E2 & Hb2 & _)|[[E2 _]|[[E2 _]|[E2 _]]]]; congruence.
Qed.

Lemma create_system_image_ok f b : create_system_image (Some f) = Val b → lb_ok b.
Proof.
  unfold create_system_image. intros [= <-]. split; [split_and!; try done|].
  - intros [|[|[|k]]] slots n a Hs Hn Ha; [| | |done]; cbn in Hs, Hn, Ha; simplify_eq;
      unfold lgroup_ok, is_s32, NUMBER_VMs; cbn [length]; lia.
  - change (places [] 0). split_and!; constructor.
Qed.

Definition vm_msg (last : Z) (o : Z) : virtual_machine := VirtualMachine [49; 48; 46; 48; 46; 48; 46; last] 36895 0 o.
Definition peer (last : Z) : list Z := [57; 46; 57; 46; 57; 46; last].

(** Start-up, messages, and clients. *)
Definition system (f : Z → Z → lb_vm) (ms : list virtual_machine) : outcome lb :=
  b ← create_system_image (Some f); messages (plenty (f 0)) ms b.

(** The index of the VM in turn is reset only when it is equal to the
    number of VMs: when VMs are deleted it can stay above, and the next new
    client is sent to a slot that holds no VM, whose address the program never
    wrote; the one after it to the slot that follows. *)
Theorem index_escapes f :
  (b ← system f [vm_msg 55 ADD; vm_msg 56 ADD];
   r ← route [peer 49; peer 50] b;
   b ← messages (plenty (f 0)) [vm_msg 56 DELETE] r.2;
   r ← get_current_socket (peer 51) true true b;
   mret (r.1, lb_current r.2, actual_index r.2))
  = Val ((lb_ip (f 0 2), lb_port (f 0 2)), [1; 0; 0], [3; 0; 0]).
Proof. reflexivity. Qed.

(** ** Witnesses *)
Definition raw : Z → Z → lb_vm := λ _ _, LbVm [] 0 [].
Definition base (ms : list virtual_machine) : lb :=
  match system raw ms with Val b => b | _ => Lb [] [] [] [] [] end.

Lemma base_ok ms :
  Forall (λ m, ∃ k : nat, (k < 3)%nat ∧ vm_srv m = Z.of_nat k) ms → base ms = Lb [] [] [] [] [] ∨ lb_ok (base ms).
Proof.
  intros H. unfold base, system. destruct (create_system_image (Some raw)) as [b| | |] eqn:E; try (by left).
  cbn. destruct (messages (plenty (raw 0)) ms b) as [b'| | |] eqn:E'; try (by left). right.
  eapply messages_ok; [|exact H|exact E']. by eapply create_system_image_ok.
Qed.

Definition two_vms : lb := base [vm_msg 55 ADD; vm_msg 56 ADD].

Lemma two_vms_ok : lb_ok two_vms.
Proof.
  destruct (base_ok [vm_msg 55 ADD; vm_msg 56 ADD]) as [H|H]; [|discriminate H|exact H].
  repeat constructor; exists 0%nat; (split; [lia|reflexivity]).
Qed.

Definition vm7 : lb_vm := LbVm [49; 48; 46; 48; 46; 48; 46; 55] 36895 [0; 1; 2; 3; 4]%nat.

Lemma controller_message_correct_witness :
  ∃ b', controller_message (plenty (raw 0)) (vm_msg 55 REJ) two_vms = Val b' ∧ lb_ok b' ∧
    map lb_ip (llive b' 0) = [[49; 48; 46; 48; 46; 48; 46; 56]].
Proof.
  destruct (controller_message_correct (plenty (raw 0)) (vm_msg 55 REJ) two_vms 0 two_vms_ok ltac:(lia) eq_refl)
    as [(b' & E & Hok & _)|H];
    [|exfalso; revert H; apply plenty_no_fault; [vm_compute; lia|vm_compute; reflexivity]].
  exists b'. split; [exact E|]. split; [exact Hok|]. vm_compute in E. injection E as <-. reflexivity.
Defined.

Lemma clients_are_sticky_witness :
  ∃ b', check_already_connected (peer 49) two_vms = Val (lb_ip vm7, 36895, b') ∧
    check_already_connected (peer 49) b' = Val (lb_ip vm7, 36895, b').
Proof.
  destruct (clients_are_sticky two_vms (peer 49) 0 vm7 [] (replicate 4 no_ip) two_vms_ok) as (b' & E & _ & E');
    [reflexivity..|apply not_elem_of_nil|].
  exists b'. split; [exact E|exact E'].
Defined.

Lemma sixth_client_faults_witness :
  ∃ rs b, route [peer 49; peer 50; peer 51; peer 52; peer 53] (base [vm_msg 55 ADD]) = Val (rs, b) ∧
    get_current_socket (peer 54) true true b = Fault OutOfBounds ∧
    check_already_connected (peer 54) (set_actual_index [0; 0; 0] (set_strings (map peer [49; 50; 51; 52; 53]) (base [vm_msg 55 ADD]))) = Fault OutOfBounds.
Proof.
  eexists _, _. split; [vm_compute; reflexivity|]. split; [vm_compute; reflexivity|].
  apply (sixth_client_faults _ (peer 54) 0 vm7); [|reflexivity..|].
  - assert (lb_ok (base [vm_msg 55 ADD])) as [(S1 & S2 & S3 & S4 & S5) S6].
    { destruct (base_ok [vm_msg 55 ADD]) as [H|H]; [|discriminate H|exact H].
      repeat constructor; exists 0%nat; (split; [lia|reflexivity]). }
    split; [by split_and!|exact S6].
  - vm_compute. intros H. repeat (apply elem_of_cons in H as [H|H]; [discriminate H|]). by apply not_elem_of_nil in H.
Defined.


Lemma end_of_stream_readds_witness :
  ∃ b' ps, controller_turn (plenty (raw 0)) (RData []) (encode_vm (replicate 16 0) (vm_msg 56 ADD), two_vms)
      = Val (encode_vm (replicate 16 0) (vm_msg 56 ADD), b') ∧ lb_ok b' ∧
    llive b' 0 = llive two_vms 0 ++ [LbVm [49; 48; 46; 48; 46; 48; 46; 56] 36895 ps].
Proof.
  apply (end_of_stream_readds (raw 0) (encode_vm (replicate 16 0) (vm_msg 56 ADD)) two_vms 0 two_vms_ok);
    [lia|reflexivity..|vm_compute; lia].
Defined.
