(* ===== verification/Relay.v ===== *)
(** * controller/balancer.c: the forwarding of a connection

    [append_buffer] and the loop of [deal_with_data], with [build_select_list]
    and the [printf]s of the buffers, on a heap of blocks in which [realloc] may
    move, grow in place or fail.  The four buffers of a thread have been
    allocated. *)
From S2P Require Import Prelude SockHelp Protocol.
Open Scope Z_scope.

Definition FORWARD_BUFFER_SIZE : Z := 1024 * 1024.

(** A block: its size in bytes, how many of them, from the first one, have been
    written, and these up to the trailing zeros. *)
Record block := Block { size : Z; contents : list Z; defined : Z }.
(** Freed blocks are [None]. *)
Notation heap := (list (option block)).

Definition get_block (h : heap) (p : nat) : outcome block :=
  match h !! p with Some (Some b) => Val b | _ => Fault UseAfterFree end.

(** The first [n] bytes. *)
Definition bytes_of (b : block) (n : Z) : list Z :=
  take (Z.to_nat n) (contents b ++ replicate (Z.to_nat n) 0).

(** [memcpy(&block[off], src, length src)] *)
Definition write_at (b : block) (off : Z) (src : list Z) : outcome block :=
  if decide (0 <= off ∧ off + Z.of_nat (length src) <= size b)
  then Val (Block (size b) (bytes_of b off ++ src ++ drop (Z.to_nat off + length src) (contents b))
              (if decide (off <= defined b) then Z.max (defined b) (off + Z.of_nat (length src)) else defined b))
  else Fault OutOfBounds.

(** [bzero(block, n)] *)
Definition bzero_block (b : block) (n : Z) : outcome block :=
  if decide (n <= size b)
  then Val (Block (size b) (if decide (Z.of_nat (length (contents b)) <= n) then []
                            else replicate (Z.to_nat n) 0 ++ drop (Z.to_nat n) (contents b))
              (Z.max (defined b) n))
  else Fault OutOfBounds.

(** [printf("%s", block)]: up to the first zero.  Without one among the bytes that
    have been written it goes on into those that have not, or out of the block. *)
Definition print_string (b : block) : outcome (list Z) :=
  let written := take (Z.to_nat (defined b)) (contents b) in
  if decide (0 ∈ written) then Val (get_string written)
  else if decide (Z.of_nat (length written) < defined b) then Val written
  else if decide (defined b < size b) then Fault UninitRead
  else Fault OutOfBounds.

Definition set_block (h : heap) (p : nat) (b : block) : heap := <[p := Some b]> h.

(** What [realloc] does. *)
Inductive realloc_result := RNull | RInPlace | RMoved.

Definition resized (b : block) (n : Z) : block := Block n (take (Z.to_nat n) (contents b)) (Z.min (defined b) n).

(** The new heap and the pointer [realloc] returns. *)
Definition realloc (r : realloc_result) (h : heap) (p : nat) (n : Z) : outcome (heap * option nat) :=
  b ← get_block h p;
  match r with
  | RNull => mret (h, None)
  | RInPlace => mret (set_block h p (resized b n), Some p)
  | RMoved => mret (<[p := None]> h ++ [Some (resized b n)], Some (length h))
  end.

(** [free(p)]: freeing a block that is not live is undefined. *)
Definition free_block (h : heap) (p : nat) : outcome heap :=
  _ ← get_block h p; mret (<[p := None]> h).

(** ** append_buffer

    [original_buffer] is the callee's: the caller's pointer is not updated.  The
    auxiliary buffer is cleared by the [bzero] at the end and is not modelled.
    Returns the heap, [*bytes_original] and [*times]. *)
Definition append_buffer (r : realloc_result) (h : heap) (original_buffer : nat) (aux_buffer : list Z)
    (bytes_original times : Z) : outcome (heap * Z * Z) :=
  let bytes_aux := Z.of_nat (length aux_buffer) in
  '(h, buf, times) ←
    (if FORWARD_BUFFER_SIZE <=? bytes_original + bytes_aux then
       if decide (is_s32 (times * FORWARD_BUFFER_SIZE)) then
         '(h, buf) ← realloc r h original_buffer (times * FORWARD_BUFFER_SIZE);
         mret (h, buf, times + 1)
       else Fault SignedOverflow
     else mret (h, Some original_buffer, times));
  match buf with
  | None => Fault NullDeref
  | Some p =>
      b ← get_block h p;
      b ← write_at b bytes_original aux_buffer;
      mret (set_block h p b, bytes_original + bytes_aux, times)
  end.

(** ** build_select_list: the sockets to watch, and the highest so far

    [FD_SET] writes in an array of [FD_SETSIZE] bits. *)
Definition FD_SETSIZE : Z := 1024.

Fixpoint build_select_list (connectlist socks : list Z) (highsock : Z) : outcome (list Z * Z) :=
  match connectlist with
  | [] => mret (socks, highsock)
  | s :: connectlist =>
      if s =? 0 then build_select_list connectlist socks highsock
      else if decide (0 <= s < FD_SETSIZE) then
        build_select_list connectlist (socks ++ [s]) (if highsock <? s then s else highsock)
      else Fault OutOfBounds
  end.

(** ** deal_with_data *)

(** One direction of the relay: the buffer, [bytes_ready], and, for the
    statements, what has been read into it, what has been sent from it and
    whether a write came short. *)
Record lane := Lane { buffer : nat; bytes_ready : Z; received : list Z; sent : list Z; short : bool }.

Record relay := Relay { blocks : heap; from_client : lane; to_client : lane; times : Z }.

Inductive turn_result := Continue (st : relay) | Finished (st : relay) | Stuck.

(** The buffer is printed when something is ready. *)
Definition show (h : heap) (l : lane) : outcome unit :=
  if 0 <? bytes_ready l then b ← get_block h (buffer l); _ ← print_string b; mret tt else mret tt.

(** Sends what is ready and clears the buffer, whatever the write returned. *)
Definition flush (rs : list wres) (h : heap) (l : lane) : outcome (option (heap * lane)) :=
  if 0 <? bytes_ready l then
    b ← get_block h (buffer l);
    _ ← print_string b;
    match sock_write rs (bytes_of b (bytes_ready l)) (bytes_ready l) with
    | Blocked _ => mret None
    | Returned ret data _ =>
        b ← bzero_block b FORWARD_BUFFER_SIZE;
        mret (Some (set_block h (buffer l) b,
                    Lane (buffer l) 0 (received l) (sent l ++ data) (short l || negb (ret =? bytes_ready l))))
    end
  else mret (Some (h, l)).

(** What a socket that is ready does: [out] is the lane that is sent to it,
    [inp] the one that is read from it. *)
Record socket_answers := Answers { writes : list wres; reads : list rres; reallocs : realloc_result }.

Inductive side_result := SideContinue (h : heap) (out inp : lane) (times : Z) | SideFinished (h : heap) (out inp : lane) | SideStuck.

Definition serve_side (a : socket_answers) (h : heap) (out inp : lane) (times : Z) : outcome side_result :=
  flushed ← flush (writes a) h out;
  match flushed with
  | None => mret SideStuck
  | Some (h, out) =>
      match sock_read (reads a) FORWARD_BUFFER_SIZE with
      | Blocked _ => mret SideStuck
      | Returned transferred_bytes data _ =>
          if transferred_bytes =? 0 then mret (SideFinished h out inp)
          else if 0 <? transferred_bytes then
            '(h, n, times) ← append_buffer (reallocs a) h (buffer inp) data (bytes_ready inp) times;
            let inp := Lane (buffer inp) n (received inp ++ data) (sent inp) (short inp) in
            _ ← show h inp;
            mret (SideContinue h out inp times)
          else
            _ ← show h inp;
            mret (SideContinue h out inp times)
      end
  end.

(** A peer has closed its connection: the buffers are freed and the thread ends. *)
Definition finish_relay (h : heap) (fromc toc : lane) (times : Z) : outcome turn_result :=
  h ← free_block h (buffer fromc);
  h ← free_block h (buffer toc);
  mret (Finished (Relay h fromc toc times)).

(** One turn of the loop, for the two sockets of [connectlist]: which of them
    [select] reports. *)
Definition relay_turn (connectlist : list Z) (client vm : option socket_answers) (st : relay) : outcome turn_result :=
  _ ← build_select_list connectlist [] 0;
  s1 ← match client with
       | None => mret (SideContinue (blocks st) (to_client st) (from_client st) (times st))
       | Some a => serve_side a (blocks st) (to_client st) (from_client st) (times st)
       end;
  match s1 with
  | SideStuck => mret Stuck
  | SideFinished h toc fromc => finish_relay h fromc toc (times st)
  | SideContinue h toc fromc t =>
      s2 ← match vm with
           | None => mret (SideContinue h fromc toc t)
           | Some a => serve_side a h fromc toc t
           end;
      match s2 with
      | SideStuck => mret Stuck
      | SideFinished h fromc toc => finish_relay h fromc toc t
      | SideContinue h fromc toc t => mret (Continue (Relay h fromc toc t))
      end
  end.

Definition relay_init : relay :=
  Relay [Some (Block FORWARD_BUFFER_SIZE [] FORWARD_BUFFER_SIZE); Some (Block FORWARD_BUFFER_SIZE [] FORWARD_BUFFER_SIZE)]
        (Lane 0 0 [] [] false) (Lane 1 0 [] [] false) 2.

Fixpoint relay_run (connectlist : list Z) (turns : list (option socket_answers * option socket_answers)) (st : relay)
    : outcome turn_result :=
  match turns with
  | [] => mret (Continue st)
  | (c, v) :: turns =>
      r ← relay_turn connectlist c v st;
      match r with Continue st => relay_run connectlist turns st | r => mret r end
  end.

(** ** setnonblocking: the flags that are set, or the end of the process *)
Definition O_NONBLOCK : Z := 2048.
Definition setnonblocking (getfl : Z) (setfl_ok : bool) : outcome Z :=
  if getfl <? 0 then Exit 1
  else if setfl_ok then mret (Z.lor getfl O_NONBLOCK) else Exit 1.

(** ** Blocks *)
Lemma length_bytes_of b n : 0 <= n → length (bytes_of b n) = Z.to_nat n.
Proof. intros H. unfold bytes_of. rewrite length_take, length_app, length_replicate. lia. Qed.

Lemma bytes_of_0 b : bytes_of b 0 = [].
Proof. done. Qed.

Lemma write_at_spec b off src :
  0 <= off → off + Z.of_nat (length src) <= size b →
  ∃ b', write_at b off src = Val b' ∧ size b' = size b ∧
    bytes_of b' (off + Z.of_nat (length src)) = bytes_of b off ++ src.
Proof.
  intros H0 Hl. unfold write_at. rewrite decide_True by done. eexists. split; [done|]. split; [done|].
  unfold bytes_of at 1. cbn [contents]. rewrite <-!(assoc_L (++)), (assoc_L (++) (bytes_of b off)).
  apply take_app_length'. rewrite length_app, length_bytes_of by done. lia.
Qed.

Lemma resized_bytes b n off : 0 <= off <= n → bytes_of (resized b n) off = bytes_of b off.
Proof.
  intros H. unfold bytes_of, resized. cbn [contents]. rewrite !take_app, take_take, length_take.
  rewrite Nat.min_l by lia. f_equal. destruct (decide (length (contents b) <= Z.to_nat off)%nat).
  - rewrite Nat.min_r by lia. done.
  - rewrite (proj2 (Nat.sub_0_le (Z.to_nat off) (Z.to_nat n `min` length (contents b)))) by lia.
    by rewrite (proj2 (Nat.sub_0_le (Z.to_nat off) (length (contents b)))) by lia.
Qed.

Lemma bzero_spec b n : n <= size b → ∃ b', bzero_block b n = Val b' ∧ size b' = size b.
Proof. intros H. unfold bzero_block. rewrite decide_True by done. by eexists. Qed.

#[local] Instance Val_inj {A} : Inj (=) (=) (@Val A).
Proof. by intros a b [= ->]. Qed.

Lemma megabyte_pos : 0 < FORWARD_BUFFER_SIZE.
Proof. reflexivity. Qed.

(** *** What has been written to a block in which [n] bytes are ready

    The first megabyte was cleared, and only a block that has grown has bytes
    that were never written. *)
Definition written_ok (b : block) (n : Z) : Prop :=
  0 <= n < size b ∧ n <= defined b ∧ FORWARD_BUFFER_SIZE <= defined b <= size b ∧
  (FORWARD_BUFFER_SIZE <= n → defined b < size b) ∧
  ∀ i, (Z.to_nat n <= i < Z.to_nat FORWARD_BUFFER_SIZE)%nat → nth i (contents b) 0 = 0.

Lemma print_string_spec b n :
  written_ok b n → (∃ s, print_string b = Val s) ∨ print_string b = Fault UninitRead ∧ FORWARD_BUFFER_SIZE <= n.
Proof.
  intros (Hn & Hd & Hs & Hg & Hz). unfold print_string. case_decide as Hin; [left; by eexists|].
  case_decide as Hl; [left; by eexists|]. right.
  assert (FORWARD_BUFFER_SIZE <= n) as Hbig; [|split; [|done]; rewrite decide_True; [done|by apply Hg]].
  apply Z.nlt_ge. intros Hlt. rewrite length_take in Hl. apply Hin.
  assert (Z.to_nat n < length (contents b))%nat as Hlen by (unfold FORWARD_BUFFER_SIZE in *; lia).
  apply (list_elem_of_lookup_2 _ (Z.to_nat n)). rewrite lookup_take_lt by (unfold FORWARD_BUFFER_SIZE in *; lia).
  destruct (lookup_lt_is_Some_2 (contents b) (Z.to_nat n) Hlen) as [x Hx]. rewrite Hx. f_equal.
  rewrite <-(Hz (Z.to_nat n)) by lia. symmetry. by apply nth_lookup_Some.
Qed.

Lemma written_resized b n m : written_ok b n → size b < m → written_ok (resized b m) n ∧ defined (resized b m) < m.
Proof.
  intros (Hn & Hd & Hs & Hg & Hz) Hm. unfold written_ok, resized. cbn [size contents defined]. split; [|lia]. split_and!; try lia.
  intros i Hi. rewrite nth_lookup, lookup_take_lt, <-nth_lookup by lia. by apply Hz.
Qed.

Lemma written_write_at b off src b' :
  write_at b off src = Val b' → written_ok b off →
  off + Z.of_nat (length src) < size b → (FORWARD_BUFFER_SIZE <= off + Z.of_nat (length src) → defined b < size b) →
  written_ok b' (off + Z.of_nat (length src)).
Proof.
  unfold write_at. case_decide; [|done]. intros [= <-] (Hn & Hd & Hs & Hg & Hz) Hl Hg'. unfold written_ok.
  cbn [size contents defined]. rewrite decide_True by lia. split_and!; try lia.
  intros i Hi. assert (length (bytes_of b off) = Z.to_nat off) as Ho by (apply length_bytes_of; lia).
  rewrite app_nth2, Ho by lia. rewrite app_nth2 by lia.
  etrans; [|apply (Hz i); lia]. rewrite !nth_lookup, lookup_drop. do 2 f_equal. lia.
Qed.

Lemma written_bzero b n b' : bzero_block b FORWARD_BUFFER_SIZE = Val b' → written_ok b n → written_ok b' 0.
Proof.
  unfold bzero_block. case_decide; [|done]. intros <-%(inj Val) (Hn & Hd & Hs & Hg & Hz). unfold written_ok.
  cbn [size contents defined]. pose proof megabyte_pos. split_and!; try lia.
  generalize (Z.to_nat FORWARD_BUFFER_SIZE). intros k i Hi. case_decide; [by destruct i|].
  rewrite nth_lookup, lookup_app_l by (rewrite length_replicate; lia). by rewrite lookup_replicate_2 by lia.
Qed.

(** What [sock_read] stores is no more than the kernel gives. *)
Definition read_size (r : rres) : nat := match r with RData d => length d | RFail _ => 0 end.
Definition offered (a : socket_answers) : nat := sum_list_with read_size (reads a).

Lemma sock_read_offered rs count ret data rest :
  sock_read rs count = Returned ret data rest → (length data <= sum_list_with read_size rs)%nat.
Proof.
  induction rs as [|r rs IH]; cbn [sock_read sum_list_with]; [done|].
  destruct (sys_read r count) as [[n d] e] eqn:E.
  assert (Hd : (length d <= read_size r)%nat).
  { unfold sys_read in E. destruct r; injection E as <- <- <-; cbn; [|lia]. rewrite length_take. lia. }
  repeat case_match; try (intros [= _ <- _]; cbn; lia). intros Hl%IH. lia.
Qed.

(** What [sock_read] stores is what it says. *)
Lemma sock_read_bytes rs count ret data rest :
  0 <= count < 2 ^ 31 → sock_read rs count = Returned ret data rest → 0 < ret →
  ret = Z.of_nat (length data) ∧ Z.of_nat (length data) <= count.
Proof.
  intros Hc. induction rs as [|r rs IH]; cbn [sock_read]; [done|].
  destruct (sys_read r count) as [[n d] e] eqn:E.
  assert (Hn : n = -1 ∧ d = [] ∨ n = Z.of_nat (length d) ∧ Z.of_nat (length d) <= count).
  { unfold sys_read in E. destruct r; injection E as <- <- <-; [right|by left].
    rewrite length_take. split; lia. }
  assert (Hs : s32 n = n) by (apply s32_id; unfold is_s32; lia). rewrite Hs.
  destruct ((n <? 0) && (e =? EINTR)); [done|].
  destruct ((n <? 0) && (e =? EWOULDBLOCK)); [intros [= <- _ _]; unfold NOT_AVAILABLE; lia|].
  destruct (Z.ltb_spec n 0); [intros [= <- _ _]; lia|].
  destruct (Z.eqb_spec n 0); [intros [= <- _ _]; lia|].
  intros [= <- <- _] _. rewrite u64_id, s32_id by (unfold is_u64, is_s32; lia). lia.
Qed.

(** ** The invariant of a lane

    Its buffer is live, large enough for what is ready and for one more read
    after the next [realloc]; [pend] is what has been read and not sent. *)
Definition lane_ok (h : heap) (t : Z) (l : lane) : Prop :=
  ∃ b, h !! buffer l = Some (Some b) ∧ FORWARD_BUFFER_SIZE <= size b <= (t - 1) * FORWARD_BUFFER_SIZE ∧
    written_ok b (bytes_ready l) ∧
    (sent l ++ bytes_of b (bytes_ready l)) `sublist_of` received l ∧
    (short l = false → received l = sent l ++ bytes_of b (bytes_ready l)).

(** What is ready was received. *)
Lemma lane_ready h t l : lane_ok h t l → bytes_ready l <= Z.of_nat (length (received l)).
Proof.
  intros (b & _ & _ & (Hn & _) & Hsub & _). apply sublist_length in Hsub.
  rewrite length_app, length_bytes_of in Hsub by lia. lia.
Qed.

(** Printing a buffer fails only when it has grown. *)
Lemma show_spec h t l :
  lane_ok h t l → show h l = Val tt ∨ show h l = Fault UninitRead ∧ FORWARD_BUFFER_SIZE <= Z.of_nat (length (received l)).
Proof.
  intros Hl. pose proof (lane_ready h t l Hl). destruct Hl as (b & Hb & _ & Hw & _). unfold show, get_block.
  destruct (0 <? bytes_ready l); [|by left]. rewrite Hb. cbn [mbind outcome_bind].
  destruct (print_string_spec b _ Hw) as [[s ->]|[-> Hbig]]; [by left|right]. split; [done|lia].
Qed.

Definition in_order (l : lane) : Prop :=
  ∃ pend, (sent l ++ pend) `sublist_of` received l ∧ (short l = false → received l = sent l ++ pend).

Lemma lane_ok_in_order h t l : lane_ok h t l → in_order l.
Proof. intros (b & _ & _ & _ & H1 & H2). by exists (bytes_of b (bytes_ready l)). Qed.

(** Another block changes, or [times] grows. *)
Lemma lane_ok_other h t t' l p b : lane_ok h t l → buffer l ≠ p → t <= t' → lane_ok (set_block h p b) t' l.
Proof.
  intros (b0 & Hb & Hs & H) Hne Ht. exists b0. unfold set_block. rewrite list_lookup_insert_ne by done.
  split; [done|]. split; [|done]. unfold FORWARD_BUFFER_SIZE in *. lia.
Qed.

Lemma flush_spec rs h t l other :
  lane_ok h t l → lane_ok h t other → buffer l ≠ buffer other → t <= 2048 →
  flush rs h l = Fault UninitRead ∧ FORWARD_BUFFER_SIZE <= Z.of_nat (length (received l)) ∨
  flush rs h l = Val None ∨
  ∃ h' l', flush rs h l = Val (Some (h', l')) ∧ lane_ok h' t l' ∧ lane_ok h' t other ∧ buffer l' = buffer l ∧
    received l' = received l.
Proof.
  intros Hl Ho Hne Ht. pose proof (lane_ready h t l Hl) as Hready. unfold flush.
  destruct (Z.ltb_spec 0 (bytes_ready l)); [|right; right; by exists h, l].
  pose proof Hl as (b & Hb & Hs & Hw & Hsub & Heq). unfold get_block. rewrite Hb. cbn [mbind outcome_bind].
  destruct (print_string_spec b _ Hw) as [[s ->]|[-> Hbig]]; [|left; split; [done|lia]]. right. cbn [mbind outcome_bind].
  pose proof Hw as (Hr & _). assert (Hlt : bytes_ready l < 2 ^ 31) by (unfold FORWARD_BUFFER_SIZE in *; lia).
  pose proof (sock_write_loop_outcome rs (bytes_of b (bytes_ready l)) (bytes_ready l) 0 [] ltac:(lia)
    ltac:(rewrite length_bytes_of; lia) Hlt) as Hwr.
  unfold sock_write. destruct (sock_write_loop rs _ _ 0 []) as [ret data rest|data]; [|by left]. right.
  destruct (bzero_spec b FORWARD_BUFFER_SIZE ltac:(lia)) as (b' & Eb & Hs'). rewrite Eb. cbn [mbind outcome_bind mret outcome_ret].
  eexists _, _. split; [reflexivity|]. split; [|split; [by apply (lane_ok_other h t)|done]].
  exists b'. cbn [buffer bytes_ready sent received short]. unfold set_block.
  rewrite list_lookup_insert_eq by (by eapply lookup_lt_Some). split; [done|]. split; [by rewrite Hs'|].
  split; [by eapply written_bzero|].
  rewrite bytes_of_0, app_nil_r. cbn [write_outcome] in Hwr.
  assert (Hpre : ∃ k, data = take k (bytes_of b (bytes_ready l))).
  { destruct Hwr as [[_ ->]|(_ & k & _ & -> & _)]; [|by exists k]. exists (length (bytes_of b (bytes_ready l))).
    cbn. by rewrite take_ge. }
  split.
  - destruct Hpre as [k ->]. etrans; [|exact Hsub]. apply sublist_app; [done|]. apply sublist_take.
  - intros [Hsh Hret]%orb_false_iff. apply negb_false_iff, Z.eqb_eq in Hret.
    destruct Hwr as [[_ ->]|(Hle & _)]; [by apply Heq|lia].
Qed.

(** The end of [append_buffer], on a block that is large enough. *)
Lemma append_writes h b t l other data :
  h !! buffer l = Some (Some b) → FORWARD_BUFFER_SIZE <= size b <= (t - 1) * FORWARD_BUFFER_SIZE →
  written_ok b (bytes_ready l) → bytes_ready l + Z.of_nat (length data) < size b →
  (FORWARD_BUFFER_SIZE <= bytes_ready l + Z.of_nat (length data) → defined b < size b) →
  (sent l ++ bytes_of b (bytes_ready l)) `sublist_of` received l →
  (short l = false → received l = sent l ++ bytes_of b (bytes_ready l)) →
  lane_ok h t other → buffer l ≠ buffer other →
  ∃ h', (b0 ← get_block h (buffer l); b0 ← write_at b0 (bytes_ready l) data;
         mret (set_block h (buffer l) b0, bytes_ready l + Z.of_nat (length data), t))
      = Val (h', bytes_ready l + Z.of_nat (length data), t) ∧
    lane_ok h' t (Lane (buffer l) (bytes_ready l + Z.of_nat (length data)) (received l ++ data) (sent l) (short l)) ∧
    lane_ok h' t other.
Proof.
  intros Hb Hs Hw Hfit Hgrown Hsub Heq Ho Hne. unfold get_block. rewrite Hb. cbn [mbind outcome_bind].
  pose proof Hw as (Hr & _). destruct (write_at_spec b (bytes_ready l) data ltac:(lia) ltac:(lia)) as (b2 & E2 & Hs2 & Hb2).
  rewrite E2. cbn [mbind outcome_bind mret outcome_ret]. eexists. split; [reflexivity|].
  split; [|apply (lane_ok_other h t); [done|congruence|lia]].
  exists b2. cbn [buffer bytes_ready sent received short]. unfold set_block.
  rewrite list_lookup_insert_eq by (by eapply lookup_lt_Some). split; [done|]. rewrite Hs2. split; [done|].
  split; [by eapply written_write_at|].
  rewrite Hb2, (assoc_L (++)). split; [by apply sublist_app|]. intros Hsh. by rewrite (Heq Hsh).
Qed.

Lemma append_spec h t l other data :
  lane_ok h t l → lane_ok h t other → buffer l ≠ buffer other → 2 <= t <= 2048 →
  Z.of_nat (length data) <= FORWARD_BUFFER_SIZE →
  append_buffer RInPlace h (buffer l) data (bytes_ready l) t = Fault SignedOverflow ∨
  ∃ h' t', append_buffer RInPlace h (buffer l) data (bytes_ready l) t
      = Val (h', bytes_ready l + Z.of_nat (length data), t') ∧ 2 <= t' <= 2048 ∧
    lane_ok h' t' (Lane (buffer l) (bytes_ready l + Z.of_nat (length data)) (received l ++ data) (sent l) (short l)) ∧
    lane_ok h' t' other.
Proof.
  intros (b & Hb & Hs & Hw & Hsub & Heq) Ho Hne Ht Hd. unfold append_buffer. pose proof Hw as (Hr & _ & Hdef & _).
  destruct (Z.leb_spec FORWARD_BUFFER_SIZE (bytes_ready l + Z.of_nat (length data))) as [Hbig|Hsmall].
  - case_decide as Hov; [|by left]. right. unfold realloc, get_block. rewrite Hb. cbn [mbind outcome_bind mret outcome_ret].
    set (n := t * FORWARD_BUFFER_SIZE) in *.
    assert (Hn : n < 2 ^ 31) by (unfold is_s32 in Hov; lia).
    destruct (written_resized b (bytes_ready l) n Hw) as [Hw' Hd']; [unfold n, FORWARD_BUFFER_SIZE in *; lia|].
    destruct (append_writes (set_block h (buffer l) (resized b n)) (resized b n) (t + 1) l other data) as (h' & E & H1 & H2);
      try done.
    + unfold set_block. rewrite list_lookup_insert_eq; [done|]. by eapply lookup_lt_Some.
    + unfold n, FORWARD_BUFFER_SIZE in *. cbn [resized size]. lia.
    + unfold n, FORWARD_BUFFER_SIZE in *. cbn [resized size]. lia.
    + rewrite resized_bytes; [done|]. unfold n, FORWARD_BUFFER_SIZE in *. lia.
    + intros Hsh. rewrite resized_bytes; [by apply Heq|]. unfold n, FORWARD_BUFFER_SIZE in *. lia.
    + apply (lane_ok_other h t); [done|congruence|lia].
    + unfold get_block in E. exists h', (t + 1). split; [exact E|]. split; [|done].
      unfold n, FORWARD_BUFFER_SIZE, is_s32 in *. lia.
  - right. cbn [mbind outcome_bind mret outcome_ret].
    destruct (append_writes h b t l other data) as (h' & E & H1 & H2); try done; try lia.
    exists h', t. split; [exact E|]. split; [lia|]. by split.
Qed.

(** [n] bounds what has been received in the two directions. *)
Definition side_ok (t : Z) (r : side_result) (o i n : nat) : Prop :=
  match r with
  | SideContinue h out inp t' => 2 <= t' <= 2048 ∧ lane_ok h t' out ∧ lane_ok h t' inp ∧ buffer out = o ∧ buffer inp = i ∧
      (length (received out) + length (received inp) <= n)%nat
  | SideFinished h out inp => lane_ok h t out ∧ lane_ok h t inp ∧ buffer out = o ∧ buffer inp = i
  | SideStuck => True
  end.

(** The outcome of a part of a turn: an overflow of [times], a buffer of a megabyte
    that is printed, or a result. *)
Definition relays_ok {A} (n : nat) (P : A → Prop) (o : outcome A) : Prop :=
  o = Fault SignedOverflow ∨ o = Fault UninitRead ∧ FORWARD_BUFFER_SIZE <= Z.of_nat n ∨ ∃ r, o = Val r ∧ P r.

Lemma serve_side_spec a h out inp t :
  reallocs a = RInPlace → lane_ok h t out → lane_ok h t inp → buffer out ≠ buffer inp → 2 <= t <= 2048 →
  let n := (length (received out) + length (received inp) + offered a)%nat in
  relays_ok n (λ r, side_ok t r (buffer out) (buffer inp) n) (serve_side a h out inp t).
Proof.
  intros Ha Ho Hi Hne Ht n. unfold serve_side.
  destruct (flush_spec (writes a) h t out inp Ho Hi Hne ltac:(lia)) as [[-> Hbig]|[->|(h1 & out1 & -> & Ho1 & Hi1 & Hb1 & Er1)]];
    cbn [mbind outcome_bind]; [right; left; split; [done|lia]|right; right; by exists SideStuck|].
  destruct (sock_read (reads a) FORWARD_BUFFER_SIZE) as [ret data rest|data] eqn:Er; [|right; right; by exists SideStuck].
  pose proof (sock_read_offered _ _ _ _ _ Er) as Hoff. fold (offered a) in Hoff.
  destruct (Z.eqb_spec ret 0).
  { right; right. eexists. split; [reflexivity|]. cbn [side_ok]. by split_and!. }
  assert (Hend : ∀ h2 inp2 t2, 2 <= t2 <= 2048 → lane_ok h2 t2 out1 → lane_ok h2 t2 inp2 → buffer inp2 = buffer inp →
    (length (received inp2) <= length (received inp) + length data)%nat →
    relays_ok n (λ r, side_ok t r (buffer out) (buffer inp) n) (_ ← show h2 inp2; mret (SideContinue h2 out1 inp2 t2))).
  { intros h2 inp2 t2 Ht2 Ho2 Hi2 Hb2 Hl2. destruct (show_spec h2 t2 inp2 Hi2) as [-> |[-> Hbig]].
    - right; right. eexists. split; [reflexivity|]. cbn [side_ok]. rewrite Er1. split_and!; done || lia.
    - right; left. split; [done|lia]. }
  destruct (Z.ltb_spec 0 ret) as [Hpos|Hneg]; [|by apply Hend; try lia].
  destruct (sock_read_bytes (reads a) FORWARD_BUFFER_SIZE ret data rest ltac:(unfold FORWARD_BUFFER_SIZE; lia) Er Hpos) as [_ Hlen].
  rewrite Ha.
  destruct (append_spec h1 t inp out1 data Hi1 Ho1 ltac:(congruence) Ht Hlen) as [->|(h2 & t2 & -> & Ht2 & Hi2 & Ho2)]; [by left|].
  cbn [mbind outcome_bind]. apply Hend; try done. cbn [received]. rewrite length_app. lia.
Qed.

Lemma finish_relay_spec h t fromc toc n :
  lane_ok h t fromc → lane_ok h t toc → buffer fromc ≠ buffer toc →
  finish_relay h fromc toc n
    = Val (Finished (Relay (<[buffer toc := None]> (<[buffer fromc := None]> h)) fromc toc n)).
Proof.
  intros (b & Hb & _) (b' & Hb' & _) Hne. unfold finish_relay, free_block, get_block. rewrite Hb.
  cbn [mbind outcome_bind mret outcome_ret]. by rewrite list_lookup_insert_ne, Hb' by done.
Qed.

(** Both buffers are freed. *)
Definition all_freed (st : relay) : Prop :=
  blocks st !! buffer (from_client st) = Some None ∧ blocks st !! buffer (to_client st) = Some None.

Lemma all_freed_finish h t fromc toc n :
  lane_ok h t fromc → lane_ok h t toc → buffer fromc ≠ buffer toc →
  all_freed (Relay (<[buffer toc := None]> (<[buffer fromc := None]> h)) fromc toc n).
Proof.
  intros (b & Hb & _) (b' & Hb' & _) Hne. apply lookup_lt_Some in Hb, Hb'. unfold all_freed.
  cbn [blocks from_client to_client]. rewrite list_lookup_insert_ne, !list_lookup_insert_eq; rewrite ?length_insert; done.
Qed.

Definition relay_ok (st : relay) : Prop :=
  2 <= times st <= 2048 ∧ lane_ok (blocks st) (times st) (from_client st) ∧ lane_ok (blocks st) (times st) (to_client st) ∧
  buffer (from_client st) = 0%nat ∧ buffer (to_client st) = 1%nat.

(** [realloc] never moves or fails. *)
Definition in_place (a : option socket_answers) : Prop := match a with Some a => reallocs a = RInPlace | None => True end.

Definition offered_by (a : option socket_answers) : nat := match a with Some a => offered a | None => 0 end.
Definition offered_in (cv : option socket_answers * option socket_answers) : nat := offered_by cv.1 + offered_by cv.2.
Definition volume (st : relay) : nat := length (received (from_client st)) + length (received (to_client st)).

(** The descriptors [FD_SET] can take. *)
Definition selectable (connectlist : list Z) : Prop := Forall (λ s, 0 <= s < FD_SETSIZE) connectlist.

Lemma build_select_list_spec connectlist socks highsock :
  selectable connectlist → ∃ r, build_select_list connectlist socks highsock = Val r.
Proof.
  intros H. revert socks highsock. induction H as [|s connectlist Hs _ IH]; intros; cbn [build_select_list]; [by eexists|].
  rewrite decide_True by done. case_match; apply IH.
Qed.

Lemma side_spec a h out inp t :
  in_place a → lane_ok h t out → lane_ok h t inp → buffer out ≠ buffer inp → 2 <= t <= 2048 →
  let n := (length (received out) + length (received inp) + offered_by a)%nat in
  relays_ok n (λ r, side_ok t r (buffer out) (buffer inp) n)
    (match a with None => mret (SideContinue h out inp t) | Some a => serve_side a h out inp t end).
Proof.
  intros Ha Ho Hi Hne Ht. destruct a as [a|]; [by apply serve_side_spec|]. right; right.
  eexists. split; [reflexivity|]. cbn [side_ok offered_by]. split_and!; done || lia.
Qed.

(** What a turn may come to. *)
Definition turn_ok (n : nat) (r : turn_result) : Prop :=
  match r with
  | Continue st => relay_ok st ∧ (volume st <= n)%nat
  | Finished st => in_order (from_client st) ∧ in_order (to_client st) ∧ all_freed st
  | Stuck => True
  end.

Lemma finish_relay_ok n h t fromc toc m :
  lane_ok h t fromc → lane_ok h t toc → buffer fromc ≠ buffer toc → relays_ok n (turn_ok n) (finish_relay h fromc toc m).
Proof.
  intros Hf Ht Hne. right; right. rewrite (finish_relay_spec h t) by done. eexists. split; [reflexivity|].
  split; [by eapply lane_ok_in_order|]. split; [by eapply lane_ok_in_order|]. by apply (all_freed_finish h t).
Qed.

Lemma relays_mono {A} n n' (P : A → Prop) o : (n <= n')%nat → relays_ok n P o → relays_ok n' P o.
Proof. intros Hn [?|[[? ?]|?]]; [by left|right; left; split; [done|lia]|by right; right]. Qed.

Lemma relay_turn_spec connectlist c v st :
  selectable connectlist → in_place c → in_place v → relay_ok st →
  let n := (volume st + offered_in (c, v))%nat in relays_ok n (turn_ok n) (relay_turn connectlist c v st).
Proof.
  intros Hfd Hc Hv (Ht & Hf & Hto & Bf & Bt) n. unfold relay_turn.
  destruct (build_select_list_spec connectlist [] 0 Hfd) as (r0 & ->). cbn [mbind outcome_bind].
  pose proof (side_spec c (blocks st) (to_client st) (from_client st) (times st) Hc Hto Hf ltac:(congruence) Ht) as H1.
  rewrite Bf, Bt in H1. unfold n, offered_in, volume. cbn [fst snd].
  destruct H1 as [->|[[-> Hb]|(r & -> & Hr)]]; [by left|right; left; split; [done|lia]|]. cbn [mbind outcome_bind].
  destruct r as [h toc fromc t|h toc fromc|]; cbn [side_ok] in Hr.
  - destruct Hr as (Ht2 & Hto2 & Hf2 & Bt2 & Bf2 & Hv2).
    pose proof (side_spec v h fromc toc t Hv Hf2 Hto2 ltac:(congruence) Ht2) as H2. rewrite Bf2, Bt2 in H2.
    destruct H2 as [->|[[-> Hb]|(r & -> & Hr)]]; [by left|right; left; split; [done|lia]|]. cbn [mbind outcome_bind].
    destruct r as [h' fromc' toc' t'|h' fromc' toc'|]; cbn [side_ok] in Hr.
    + destruct Hr as (? & ? & ? & ? & ? & ?). right; right. eexists. split; [reflexivity|]. cbn [turn_ok].
      unfold relay_ok, volume. cbn [times blocks from_client to_client]. split_and!; done || lia.
    + destruct Hr as (? & ? & ? & ?). apply (finish_relay_ok _ h' t); try done. congruence.
    + right; right. by eexists.
  - destruct Hr as (? & ? & ? & ?). apply (finish_relay_ok _ h (times st)); try done. congruence.
  - right; right. by eexists.
Qed.

Lemma relay_init_ok : relay_ok relay_init.
Proof.
  assert (written_ok (Block FORWARD_BUFFER_SIZE [] FORWARD_BUFFER_SIZE) 0) as Hw.
  { pose proof megabyte_pos. unfold written_ok. cbn [size contents defined]. split_and!; try lia. intros [|i] _; reflexivity. }
  unfold relay_ok, lane_ok, relay_init. cbn [times blocks from_client to_client buffer bytes_ready sent received short].
  split; [lia|]. split_and!; try done; eexists; (split; [reflexivity|]); cbn [size]; (split; [unfold FORWARD_BUFFER_SIZE; lia|]);
    (split; [exact Hw|]); done.
Qed.

Lemma relay_run_spec connectlist turns st :
  selectable connectlist → Forall (λ cv, in_place cv.1 ∧ in_place cv.2) turns → relay_ok st →
  relays_ok (volume st + sum_list_with offered_in turns)
    (λ r, r = Stuck ∨ ∃ st', (r = Continue st' ∨ r = Finished st' ∧ all_freed st') ∧
       in_order (from_client st') ∧ in_order (to_client st'))
    (relay_run connectlist turns st).
Proof.
  intros Hfd H. revert st. induction H as [|[c v] turns [Hc Hv] _ IH]; intros st Hst; cbn [relay_run sum_list_with].
  - right; right. eexists. split; [reflexivity|]. right. exists st. destruct Hst as (_ & ? & ? & _).
    split; [by left|]. split; by eapply lane_ok_in_order.
  - destruct (relay_turn_spec connectlist c v st Hfd Hc Hv Hst) as [->|[[-> Hb]|([st'|st'|] & -> & Hr)]];
      cbn [mbind outcome_bind mret outcome_ret turn_ok] in *.
    + by left.
    + right; left. split; [done|lia].
    + destruct Hr as [Hst' Hvol]. eapply relays_mono; [|by apply IH]. lia.
    + right; right. eexists. split; [reflexivity|]. right. exists st'. destruct Hr as (? & ? & ?). split; [by right|done].
    + right; right. eexists. split; [reflexivity|]. by left.
Qed.

(** ** Properties *)

(** C16.  For a thread whose buffers were allocated and whose two descriptors fit in
    an [fd_set], as long as [realloc] can grow the buffers where they are: the relay
    never touches memory it does not own, and in both directions what has been
    sent, with what is still in the buffer, comes from what was received, in
    order; it is all of it unless a write came short.  When a peer closes, both
    buffers are freed, once.  There are two faults: an overflow of the [int] size of
    the buffers, and a [printf] of a buffer that runs into bytes never written,
    which takes at least a megabyte received. *)
Theorem relay_in_order connectlist turns :
  selectable connectlist → Forall (λ cv, in_place cv.1 ∧ in_place cv.2) turns →
  relay_run connectlist turns relay_init = Fault SignedOverflow ∨
  relay_run connectlist turns relay_init = Fault UninitRead ∧
    FORWARD_BUFFER_SIZE <= Z.of_nat (sum_list_with offered_in turns) ∨
  relay_run connectlist turns relay_init = Val Stuck ∨
  ∃ st', (relay_run connectlist turns relay_init = Val (Continue st') ∨
         relay_run connectlist turns relay_init = Val (Finished st') ∧ all_freed st') ∧
    in_order (from_client st') ∧ in_order (to_client st').
Proof.
  intros Hfd H. destruct (relay_run_spec connectlist turns relay_init Hfd H relay_init_ok)
    as [->|[[-> Hb]|(r & -> & [->|(st' & [->|[-> ?]] & ?)])]].
  - by left.
  - by right; left.
  - by right; right; left.
  - right; right; right. exists st'. by split; [left|].
  - right; right; right. exists st'. by split; [right|].
Qed.

(** [append_buffer] does not give its caller the address [realloc]
    returns: when the block moves, the data are in a block nobody points to and
    the caller's pointer is dangling, so its next flush is a use after free. *)
Theorem moved_buffer_dangles h l b data t rs :
  h !! buffer l = Some (Some b) → 0 <= bytes_ready l → let n := bytes_ready l + Z.of_nat (length data) in
  FORWARD_BUFFER_SIZE <= n <= t * FORWARD_BUFFER_SIZE → is_s32 (t * FORWARD_BUFFER_SIZE) →
  ∃ h', append_buffer RMoved h (buffer l) data (bytes_ready l) t = Val (h', n, t + 1) ∧
    flush rs h' (Lane (buffer l) n (received l ++ data) (sent l) (short l)) = Fault UseAfterFree.
Proof.
  intros Hb Hr n [Hbig Hfit] Hov. apply lookup_lt_Some in Hb as Hlt. unfold append_buffer. fold n.
  rewrite (proj2 (Z.leb_le _ _) Hbig), decide_True by done. unfold realloc, get_block. rewrite Hb.
  cbn [mbind outcome_bind mret outcome_ret].
  rewrite lookup_app_r, length_insert, Nat.sub_diag by (rewrite length_insert; lia).
  cbn [lookup list_lookup mbind outcome_bind].
  destruct (write_at_spec (resized b (t * FORWARD_BUFFER_SIZE)) (bytes_ready l) data Hr Hfit) as (b' & -> & _).
  cbn [mbind outcome_bind mret outcome_ret]. eexists. split; [reflexivity|].
  unfold flush. cbn [bytes_ready buffer]. rewrite (proj2 (Z.ltb_lt 0 n)) by (unfold FORWARD_BUFFER_SIZE in *; lia).
  unfold get_block, set_block. rewrite list_lookup_insert_ne by lia.
  rewrite lookup_app_l by (by rewrite length_insert). by rewrite list_lookup_insert_eq.
Qed.

(** The sockets are non-blocking and a write that fails, or comes short,
    is not taken up again: everything that was ready is dropped. *)
Theorem failed_write_drops h l b errno rs :
  h !! buffer l = Some (Some b) → FORWARD_BUFFER_SIZE <= size b → 0 < bytes_ready l < 2 ^ 31 → errno ≠ EINTR →
  (∃ s, print_string b = Val s) →
  ∃ h', flush (WFail errno :: rs) h l = Val (Some (h', Lane (buffer l) 0 (received l) (sent l) true)).
Proof.
  intros Hb Hs Hr He [s Es]. unfold flush. rewrite (proj2 (Z.ltb_lt _ _)) by lia. unfold get_block. rewrite Hb.
  cbn [mbind outcome_bind]. rewrite Es. cbn [mbind outcome_bind]. unfold sock_write. cbn [sock_write_loop sys_write].
  rewrite (proj2 (Z.ltb_lt 0 (bytes_ready l))) by lia.
  change (s32 (-1)) with (-1). rewrite (proj2 (Z.eqb_neq errno EINTR)) by done. cbn [Z.ltb Z.leb Z.compare andb].
  destruct (bzero_spec b FORWARD_BUFFER_SIZE Hs) as (b' & -> & _). cbn [mbind outcome_bind mret outcome_ret].
  rewrite app_nil_r. rewrite (proj2 (Z.eqb_neq (-1) (bytes_ready l))) by lia. cbn [negb].
  rewrite orb_true_r. by eexists.
Qed.

(** ** Witnesses *)
Definition chat : list (option socket_answers * option socket_answers) :=
  [(Some (Answers [] [RData [1; 2; 3]] RInPlace), None);
   (None, Some (Answers [WAccept 2; WAccept 9] [RData [7; 8]] RInPlace));
   (Some (Answers [WFail 11] [RData [4]] RInPlace), Some (Answers [WAccept 9] [RFail 11] RInPlace))].

Lemma relay_in_order_witness :
  ∃ st, relay_run [4; 5] chat relay_init = Val (Continue st) ∧ sent (from_client st) = [1; 2; 3; 4] ∧
    sent (to_client st) = [] ∧ short (to_client st) = true ∧ in_order (from_client st).
Proof.
  destruct (relay_run [4; 5] chat relay_init) as [[st| |]| | |] eqn:E; try (vm_compute in E; discriminate E).
  exists st. split; [reflexivity|].
  destruct (relay_in_order [4; 5] chat) as [H|[[H _]|[H|(st' & [H|[H _]] & Hf & _)]]].
  - unfold selectable, FD_SETSIZE. repeat constructor; lia.
  - repeat constructor.
  - rewrite E in H. discriminate H.
  - rewrite E in H. discriminate H.
  - rewrite E in H. discriminate H.
  - rewrite E in H. injection H as <-. vm_compute in E. injection E as <-. split_and!; try reflexivity. exact Hf.
  - rewrite E in H. discriminate H.
Defined.

Lemma failed_write_drops_witness :
  ∃ h', flush [WFail 11] [Some (Block FORWARD_BUFFER_SIZE [5; 6] FORWARD_BUFFER_SIZE)] (Lane 0 2 [5; 6] [] false)
    = Val (Some (h', Lane 0 0 [5; 6] [] true)).
Proof.
  apply (failed_write_drops [Some (Block FORWARD_BUFFER_SIZE [5; 6] FORWARD_BUFFER_SIZE)] (Lane 0 2 [5; 6] [] false)
    (Block FORWARD_BUFFER_SIZE [5; 6] FORWARD_BUFFER_SIZE) 11 []);
    [reflexivity|vm_compute; discriminate|simpl; lia|discriminate|]. exists [5; 6]. vm_compute. reflexivity.
Defined.

Lemma moved_buffer_dangles_witness :
  ∃ h', append_buffer RMoved (blocks relay_init) 0 [9] 1048575 2 = Val (h', 1048576, 3) ∧
    flush [WAccept 9] h' (Lane 0 1048576 [9] [] false) = Fault UseAfterFree.
Proof.
  apply (moved_buffer_dangles (blocks relay_init) (Lane 0 1048575 [] [] false)
    (Block FORWARD_BUFFER_SIZE [] FORWARD_BUFFER_SIZE) [9] 2 [WAccept 9]);
    [reflexivity|simpl; lia|unfold FORWARD_BUFFER_SIZE; simpl; lia|unfold is_s32, FORWARD_BUFFER_SIZE; lia].
Defined.
