(* ===== verification/CList.v ===== *)
(** * model_build/list.c, model_build/list.h

    The singly linked list the aggregation works on, on a heap of nodes.  A
    pointer that nobody initialised is [Undef]; following it, or following
    [NULL] or a freed node, is a fault.  A node's payload is a parameter. *)
From Stdlib Require Import Floats.SpecFloat.
From S2P Require Import Prelude CFloat.
Open Scope Z_scope.

Inductive link := Null | Ptr (p : nat) | Undef.

#[export] Instance link_eq_dec : EqDecision link.
Proof. solve_decision. Defined.

Section CList.
Context {A : Type}.

Record node := Node { key : f64; payload : A; next : link }.
Notation heap := (gmap nat node).

(** [list] of list.h *)
Record clist := CList { head : link; tail : link }.

Definition deref (h : heap) (l : link) : outcome node :=
  match l with
  | Null => Fault NullDeref
  | Undef => Fault UninitRead
  | Ptr p => match h !! p with Some n => Val n | None => Fault UseAfterFree end
  end.

(** [l->next = v] *)
Definition set_next (h : heap) (l v : link) : outcome heap :=
  n ← deref h l;
  match l with Ptr p => Val (<[p := Node (key n) (payload n) v]> h) | _ => Fault NullDeref end.

Definition free_node (h : heap) (l : link) : outcome heap :=
  match l with
  | Ptr p => match h !! p with Some _ => Val (delete p h) | None => Fault UseAfterFree end
  | Null => Val h
  | Undef => Fault UninitRead
  end.

(** ** initList, insertFront, insertRear *)
Definition initList : clist := CList Null Null.

Definition insertFront (h : heap) (l : clist) (temp : link) : outcome (heap * clist) :=
  if decide (head l = Null) then mret (h, CList temp temp)
  else h ← set_next h temp (head l); mret (h, CList temp (tail l)).

Definition insertRear (h : heap) (l : clist) (temp : link) : outcome (heap * clist) :=
  if decide (head l = Null) then mret (h, CList temp temp)
  else h ← set_next h (tail l) temp; mret (h, CList (head l) temp).

(** ** The search loop: [t] is the node with the key, [tp] the one before

    [fuel] bounds the number of nodes visited. *)
Fixpoint search (fuel : nat) (h : heap) (t tp : link) (x : Z) : outcome (option (link * link)) :=
  if decide (t = Null) then Val None
  else match fuel with
  | O => Val None
  | S fuel =>
      n ← deref h t;
      if SFeqb (key n) (f64_of_Z x) then Val (Some (t, tp)) else search fuel h (next n) t x
  end.

(** ** insertNext *)
Definition insertNext (fuel : nat) (h : heap) (l : clist) (temp : link) (x : Z) : outcome (heap * clist) :=
  found ← search fuel h (head l) (head l) x;
  match found with
  | None => mret (h, l)
  | Some (t, _) =>
      n ← deref h t;
      if decide (next n = Null) then h ← set_next h t temp; mret (h, CList (head l) temp)
      else
        h ← set_next h temp (next n);
        h ← set_next h t temp;
        mret (h, l)
  end.

(** ** deleteNode *)
Definition deleteNode (fuel : nat) (h : heap) (l : clist) (x : Z) : outcome (heap * clist) :=
  found ← search fuel h (head l) (head l) x;
  match found with
  | None => mret (h, l)
  | Some (t, tp) =>
      n ← deref h t;
      '(h, l) ←
        (if decide (t = tp) then
           hd ← deref h (head l);
           if decide (next hd = Null) then mret (h, CList Null Null) else mret (h, CList (next n) (tail l))
         else if decide (next n = Null) then
           h ← set_next h tp Null; mret (h, CList (head l) tp)
         else h ← set_next h tp (next n); mret (h, l));
      h ← free_node h t;
      mret (h, l)
  end.

(** ** What the list represents *)

(** [ns] are the nodes, with their addresses, from [l] up to the link [v]. *)
Fixpoint lseg (h : heap) (l : link) (ns : list (nat * (f64 * A))) (v : link) : Prop :=
  match ns with
  | [] => l = v
  | (p, (k, a)) :: ns => l = Ptr p ∧ ∃ w, h !! p = Some (Node k a w) ∧ lseg h w ns v
  end.

Definition last_link (ns : list (nat * (f64 * A))) : link :=
  match last ns with Some (p, _) => Ptr p | None => Null end.

Definition repr (h : heap) (l : clist) (ns : list (nat * (f64 * A))) : Prop :=
  lseg h (head l) ns Null ∧ NoDup ns.*1 ∧ tail l = last_link ns.

Lemma lseg_app h l n1 n2 v : lseg h l (n1 ++ n2) v ↔ ∃ w, lseg h l n1 w ∧ lseg h w n2 v.
Proof.
  revert l. induction n1 as [|[p [k a]] n1 IH]; intros l; cbn [app lseg].
  - split; [by exists l|by intros (w & -> & ?)].
  - split.
    + intros (-> & w & Hp & (u & ? & ?)%IH). exists u. split; [|done]. split; [done|]. by exists w.
    + intros (u & (-> & w & Hp & ?) & ?). split; [done|]. exists w. split; [done|]. apply IH. by exists u.
Qed.

(** Stores outside a segment leave it alone. *)
Lemma lseg_insert h l ns v p n : lseg h l ns v → p ∉ ns.*1 → lseg (<[p := n]> h) l ns v.
Proof.
  revert l. induction ns as [|[q [k a]] ns IH]; intros l; cbn; [done|].
  intros (-> & w & Hq & Hc) Hp. apply not_elem_of_cons in Hp as [Hne Hp].
  split; [done|]. exists w. rewrite lookup_insert_ne by congruence. split; [done|]. by apply IH.
Qed.

Lemma lseg_delete h l ns v p : lseg h l ns v → p ∉ ns.*1 → lseg (delete p h) l ns v.
Proof.
  revert l. induction ns as [|[q [k a]] ns IH]; intros l; cbn; [done|].
  intros (-> & w & Hq & Hc) Hp. apply not_elem_of_cons in Hp as [Hne Hp].
  split; [done|]. exists w. rewrite lookup_delete_ne by congruence. split; [done|]. by apply IH.
Qed.

(** Redirecting the last node of a segment. *)
Lemma lseg_redirect h l ns p k a v w :
  lseg h l (ns ++ [(p, (k, a))]) v → p ∉ ns.*1 → lseg (<[p := Node k a w]> h) l (ns ++ [(p, (k, a))]) w.
Proof.
  rewrite !lseg_app. intros (u & H1 & (-> & z & Hz & _)) Hp. exists (Ptr p). split; [by apply lseg_insert|].
  cbn. split; [done|]. exists w. by rewrite lookup_insert_eq.
Qed.

Lemma lseg_last h l ns p k a v : lseg h l (ns ++ [(p, (k, a))]) v → h !! p = Some (Node k a v).
Proof. rewrite lseg_app. by intros (u & _ & (-> & z & Hz & ->)). Qed.

Lemma deref_val h p n : h !! p = Some n → deref h (Ptr p) = Val n.
Proof. intros H. unfold deref. by rewrite H. Qed.

Lemma set_next_val h p k a v w : h !! p = Some (Node k a v) → set_next h (Ptr p) w = Val (<[p := Node k a w]> h).
Proof. intros H. unfold set_next, deref. by rewrite H. Qed.

Lemma last_link_snoc ns p x : last_link (ns ++ [(p, x)]) = Ptr p.
Proof. unfold last_link. by rewrite last_snoc. Qed.

Lemma last_link_app ns1 ns2 : ns2 ≠ [] → last_link (ns1 ++ ns2) = last_link ns2.
Proof. intros H. unfold last_link. rewrite last_app. by destruct (last ns2) eqn:E; [|apply last_None in E]. Qed.

Lemma last_link_cons x ns : ns ≠ [] → last_link (x :: ns) = last_link ns.
Proof. apply (last_link_app [x]). Qed.

(** The snoc view of the addresses. *)
Lemma nodup_snoc (ns : list (nat * (f64 * A))) p x : NoDup (ns ++ [(p, x)]).*1 ↔ p ∉ ns.*1 ∧ NoDup ns.*1.
Proof.
  rewrite fmap_app, NoDup_app. cbn. split.
  - intros (? & H & _). split; [|done]. intros Hp. apply (H p Hp). by apply list_elem_of_singleton.
  - intros (Hp & ?). split; [done|]. split; [|apply NoDup_singleton].
    intros q Hq Hq'. by apply list_elem_of_singleton in Hq' as ->.
Qed.

(** ** Searching *)
Definition has_key (x : Z) (n : nat * (f64 * A)) : Prop := SFeqb n.2.1 (f64_of_Z x) = true.
#[local] Instance has_key_dec x n : Decision (has_key x n).
Proof. unfold has_key. apply _. Defined.

Lemma search_spec fuel h l tp ns x :
  lseg h l ns Null → (length ns <= fuel)%nat →
  search fuel h l tp x = Val (match list_find (has_key x) ns with
    | Some (i, (p, _)) => Some (Ptr p, match i with O => tp | S j => last_link (take i ns) end)
    | None => None end).
Proof.
  revert fuel l tp. induction ns as [|[p [k a]] ns IH]; intros fuel l tp Hl Hf.
  - cbn in Hl. subst l. by destruct fuel.
  - destruct Hl as (-> & w & Hp & Hl). destruct fuel as [|fuel]; [cbn in Hf; lia|]. cbn [search].
    rewrite decide_False by done. unfold deref. rewrite Hp. cbn [mbind outcome_bind key]. cbn [list_find].
    destruct (decide (has_key x (p, (k, a)))) as [E|E]; unfold has_key in E; cbn [fst snd] in E; [by rewrite E|].
    apply not_true_is_false in E. rewrite E. cbn [next]. rewrite (IH fuel w (Ptr p) Hl) by (cbn in Hf; lia).
    destruct (list_find (has_key x) ns) as [[i [q y]]|] eqn:Ei; cbn; [|done].
    do 3 f_equal. destruct i as [|i]; [done|]. apply list_find_Some in Ei as (Ei & _).
    apply lookup_lt_Some in Ei. unfold last_link. destruct ns as [|n ns]; [cbn in Ei; lia|]. cbn [take]. done.
Qed.

(** ** Properties *)
Lemma repr_cases h l ns : repr h l ns →
  ns = [] ∧ head l = Null ∨ ∃ ns' p k a, ns = ns' ++ [(p, (k, a))] ∧ head l ≠ Null ∧ tail l = Ptr p ∧ p ∉ ns'.*1.
Proof.
  intros (Hc & Hn & Ht). destruct (last ns) as [[p [k a]]|] eqn:E.
  - right. apply last_Some in E as [ns' ->]. exists ns', p, k, a. split_and!; [done| | |].
    + by destruct ns' as [|[q [k' a']] ns']; destruct Hc as [-> _].
    + by rewrite Ht, last_link_snoc.
    + by apply nodup_snoc in Hn as [? _].
  - left. apply last_None in E as ->. done.
Qed.

(** [insertRear] of a fresh node whose [next] is [NULL] appends it; the
    other nodes keep their addresses and contents. *)
Theorem insertRear_appends h l ns q k a :
  repr h l ns → h !! q = Some (Node k a Null) → q ∉ ns.*1 →
  ∃ h' l', insertRear h l (Ptr q) = Val (h', l') ∧ repr h' l' (ns ++ [(q, (k, a))]) ∧ dom h' = dom h.
Proof.
  intros Hr Hq Hf. pose proof Hr as (Hc & Hn & Ht). unfold insertRear.
  destruct (repr_cases h l ns Hr) as [[-> Hh]|(ns' & p & k' & a' & -> & Hh & Htl & Hp)].
  - rewrite decide_True by done. eexists _, _. split; [reflexivity|]. split; [|done]. split_and!; [|apply NoDup_singleton|done].
    cbn. split; [done|]. by exists Null.
  - rewrite decide_False by done. rewrite Htl.
    pose proof (lseg_last _ _ _ _ _ _ _ Hc) as Hl. rewrite (set_next_val _ _ _ _ _ _ Hl).
    cbn [mbind outcome_bind mret outcome_ret]. eexists _, _. split; [reflexivity|]. split.
    + split_and!; cbn [head tail]; [|by apply nodup_snoc|by rewrite last_link_snoc].
      apply lseg_app. exists (Ptr q). split; [by eapply lseg_redirect|]. cbn. split; [done|]. exists Null.
      rewrite lookup_insert_ne; [done|]. intros ->. apply Hf. rewrite fmap_app. set_solver.
    + rewrite dom_insert_L. apply elem_of_dom_2 in Hl. set_solver.
Qed.

(** [insertFront] prepends a fresh node to a list that is not empty,
    whatever its [next] was; in an empty list the node must bring its [NULL]. *)
Theorem insertFront_prepends h l ns q k a v :
  repr h l ns → h !! q = Some (Node k a v) → q ∉ ns.*1 → (ns = [] → v = Null) →
  ∃ h' l', insertFront h l (Ptr q) = Val (h', l') ∧ repr h' l' ((q, (k, a)) :: ns).
Proof.
  intros Hr Hq Hf Hv. pose proof Hr as (Hc & Hn & Ht). unfold insertFront.
  destruct (repr_cases h l ns Hr) as [[-> Hh]|(ns' & p & k' & a' & -> & Hh & Htl & Hp)].
  - rewrite decide_True by done. eexists _, _. split; [reflexivity|]. split_and!; [|apply NoDup_singleton|done].
    cbn. split; [done|]. exists v. split; [done|]. by apply Hv.
  - rewrite decide_False by done. rewrite (set_next_val _ _ _ _ _ _ Hq). cbn [mbind outcome_bind mret outcome_ret].
    eexists _, _. split; [reflexivity|]. split_and!; cbn [head tail].
    + cbn. split; [done|]. exists (head l). rewrite lookup_insert_eq. split; [done|]. by apply lseg_insert.
    + cbn. by constructor.
    + rewrite Ht. symmetry. apply (last_link_app [(q, (k, a))]). by destruct ns'.
Qed.

Lemma lseg_first h l ns v p x rest : ns = (p, x) :: rest → lseg h l ns v → l = Ptr p.
Proof. intros -> H. destruct x. by destruct H. Qed.

(** The list around the node that is found. *)
Lemma repr_middle h l n1 p k a n2 :
  repr h l (n1 ++ (p, (k, a)) :: n2) →
  ∃ w, lseg h (head l) n1 (Ptr p) ∧ h !! p = Some (Node k a w) ∧ lseg h w n2 Null ∧
    NoDup n1.*1 ∧ NoDup n2.*1 ∧ p ∉ n1.*1 ∧ p ∉ n2.*1 ∧ (∀ x, x ∈ n1.*1 → x ∉ n2.*1).
Proof.
  intros (Hl & Hn & _). apply lseg_app in Hl as (u & H1 & (-> & w & Hp & H2)). exists w.
  rewrite fmap_app in Hn. cbn in Hn. apply NoDup_app in Hn as (N1 & Hd & N2). apply NoDup_cons in N2 as [Hp2 N2].
  split_and!; try done.
  - intros Hin. apply (Hd p Hin). by left.
  - intros x Hx Hx2. apply (Hd x Hx). by right.
Qed.

Lemma search_middle fuel h l n1 p k a n2 x :
  repr h l (n1 ++ (p, (k, a)) :: n2) → (length (n1 ++ (p, (k, a)) :: n2) <= fuel)%nat →
  has_key x (p, (k, a)) → Forall (λ n, ¬ has_key x n) n1 →
  search fuel h (head l) (head l) x = Val (Some (Ptr p, match n1 with [] => Ptr p | _ => last_link n1 end)).
Proof.
  intros (Hl & _) Hf Hk Hbefore. rewrite (search_spec _ _ _ _ _ _ Hl Hf).
  assert (list_find (has_key x) (n1 ++ (p, (k, a)) :: n2) = Some (length n1, (p, (k, a)))) as ->.
  { apply list_find_Some. split_and!; [by apply list_lookup_middle|done|].
    intros j y Hj Hlt. rewrite lookup_app_l in Hj by done. by apply (Forall_lookup_1 _ _ _ _ Hbefore Hj). }
  destruct n1 as [|[q [k1 a1]] n1]; cbn [length].
  - destruct Hl as [-> _]. done.
  - change (S (length n1)) with (length ((q, (k1, a1)) :: n1)). by rewrite take_app_length.
Qed.

Lemma free_node_val h p n : h !! p = Some n → free_node h (Ptr p) = Val (delete p h).
Proof. intros H. unfold free_node. by rewrite H. Qed.

(** Taking out the node that [search] found: the first one, or one with a predecessor. *)
Lemma deleteNode_front fuel h l p k a n2 x :
  repr h l ((p, (k, a)) :: n2) → search fuel h (head l) (head l) x = Val (Some (Ptr p, Ptr p)) →
  ∃ h' l', deleteNode fuel h l x = Val (h', l') ∧ repr h' l' n2 ∧ dom h' = dom h ∖ {[p]}.
Proof.
  intros Hr Es. destruct (repr_middle h l [] p k a n2 Hr) as (w & H1 & Hp & H2 & _ & N2 & _ & P2 & _).
  pose proof Hr as (_ & _ & Htail). unfold deleteNode. rewrite Es.
  cbn [mbind outcome_bind]. rewrite (deref_val _ _ _ Hp). cbn [mbind outcome_bind next].
  rewrite decide_True by done. cbn in H1. rewrite H1, (deref_val _ _ _ Hp). cbn [mbind outcome_bind next].
  destruct n2 as [|[q [k2 a2]] n2].
  - cbn in H2. subst w. rewrite decide_True by done. cbn [mbind outcome_bind mret outcome_ret].
    rewrite (free_node_val h _ _ Hp). eexists _, _. split; [reflexivity|].
    split; [|apply dom_delete_L]. split_and!; [done|constructor|done].
  - destruct H2 as (-> & z & Hq & H2). rewrite decide_False by done. cbn [mbind outcome_bind mret outcome_ret].
    rewrite (free_node_val h _ _ Hp). eexists _, _. split; [reflexivity|].
    split; [|apply dom_delete_L]. split_and!; [|done|].
    + cbn [head app]. apply lseg_delete; [|done]. cbn. split; [done|]. by exists z.
    + cbn [tail app]. rewrite Htail. apply (last_link_app [(p, (k, a))]). done.
Qed.

Lemma deleteNode_inner fuel h l n1 r kr ar p k a n2 x :
  repr h l ((n1 ++ [(r, (kr, ar))]) ++ (p, (k, a)) :: n2) → search fuel h (head l) (head l) x = Val (Some (Ptr p, Ptr r)) →
  ∃ h' l', deleteNode fuel h l x = Val (h', l') ∧ repr h' l' ((n1 ++ [(r, (kr, ar))]) ++ n2) ∧ dom h' = dom h ∖ {[p]}.
Proof.
  intros Hr Es. destruct (repr_middle h l _ p k a n2 Hr) as (w & H1 & Hp & H2 & N1 & N2 & P1 & P2 & Hd).
  pose proof Hr as (_ & _ & Htail). unfold deleteNode. rewrite Es.
  cbn [mbind outcome_bind]. rewrite (deref_val _ _ _ Hp). cbn [mbind outcome_bind next].
  rewrite fmap_app in P1, Hd. apply nodup_snoc in N1 as [Nr N1]. cbn in P1, Hd.
  assert (Hrp : r ≠ p) by (intros ->; apply P1; set_solver).
  assert (Hr2 : r ∉ n2.*1) by (apply Hd; set_solver).
  rewrite decide_False by congruence. pose proof (lseg_last _ _ _ _ _ _ _ H1) as Hlast.
  assert (Hdom : ∀ v, dom (delete p (<[r := Node kr ar v]> h)) = dom h ∖ {[p]}).
  { intros v. rewrite dom_delete_L, dom_insert_L. apply elem_of_dom_2 in Hlast. set_solver. }
  destruct n2 as [|[q [k2 a2]] n2].
  - cbn in H2. subst w. rewrite decide_True by done. rewrite (set_next_val _ _ _ _ _ _ Hlast).
    cbn [mbind outcome_bind mret outcome_ret]. rewrite (free_node_val _ _ (Node k a Null)) by (by rewrite lookup_insert_ne).
    eexists _, _. split; [reflexivity|]. split; [|done].
    split_and!; cbn [head tail]; rewrite app_nil_r; [|by apply nodup_snoc|by rewrite last_link_snoc].
    apply lseg_delete; [|rewrite fmap_app; cbn; set_solver]. by eapply lseg_redirect.
  - destruct H2 as (-> & z & Hq & H2). rewrite decide_False by done. rewrite (set_next_val _ _ _ _ _ _ Hlast).
    cbn [mbind outcome_bind mret outcome_ret]. rewrite (free_node_val _ _ (Node k a (Ptr q))) by (by rewrite lookup_insert_ne).
    eexists _, _. split; [reflexivity|]. split; [|done]. split_and!; cbn [head tail].
    + apply lseg_app. exists (Ptr q). split.
      * apply lseg_delete; [|rewrite fmap_app; cbn; set_solver]. by eapply lseg_redirect.
      * apply lseg_delete; [|done]. apply lseg_insert; [|done]. cbn. split; [done|]. by exists z.
    + rewrite fmap_app. apply NoDup_app. split; [by apply nodup_snoc|]. split; [|done].
      intros y Hy. apply Hd. by rewrite fmap_app in Hy.
    + rewrite Htail, !(last_link_app _ ((q, (k2, a2)) :: n2)) by done.
      rewrite last_link_app by done. apply (last_link_app [(p, (k, a))]). done.
Qed.

(** C34.  [deleteNode] takes the first node with the key out of the list, frees
    it and nothing else, and leaves the list alone when there is none; the
    search visits each node at most once. *)
Theorem deleteNode_removes fuel h l ns x :
  repr h l ns → (length ns <= fuel)%nat →
  (Forall (λ n, ¬ has_key x n) ns ∧ deleteNode fuel h l x = Val (h, l)) ∨
  ∃ n1 p k a n2 h' l', ns = n1 ++ (p, (k, a)) :: n2 ∧ Forall (λ n, ¬ has_key x n) n1 ∧ has_key x (p, (k, a)) ∧
    deleteNode fuel h l x = Val (h', l') ∧ repr h' l' (n1 ++ n2) ∧ dom h' = dom h ∖ {[p]}.
Proof.
  intros Hr Hf. destruct (list_find (has_key x) ns) as [[i [p [k a]]]|] eqn:Ei.
  2: { left. apply list_find_None in Ei as Hno. split; [done|]. unfold deleteNode. destruct Hr as (Hl & _).
       rewrite (search_spec _ _ _ _ _ _ Hl Hf), Ei. done. }
  right. apply list_find_Some in Ei as (Hi & Hk & Hbefore).
  assert (∃ n1 n2, ns = n1 ++ (p, (k, a)) :: n2 ∧ Forall (λ n, ¬ has_key x n) n1) as (n1 & n2 & -> & Hb).
  { exists (take i ns), (drop (S i) ns). split; [by rewrite take_drop_middle|].
    apply Forall_lookup. intros j y Hj. apply lookup_take_Some in Hj as [Hj Hlt]. by apply (Hbefore j y). }
  pose proof (search_middle fuel h l n1 p k a n2 x Hr Hf Hk Hb) as Es. exists n1, p, k, a, n2.
  assert (∃ h' l', deleteNode fuel h l x = Val (h', l') ∧ repr h' l' (n1 ++ n2) ∧ dom h' = dom h ∖ {[p]}) as (h' & l' & ?).
  2: by exists h', l'.
  destruct n1 as [|y n1'] eqn:En1; [by apply (deleteNode_front fuel h l p k a)|]. rewrite <-En1 in *.
  destruct (exists_last (l := n1)) as (n1'' & [r [kr ar]] & E); [by rewrite En1|].
  clear En1. subst n1. rewrite last_link_snoc in Es. by eapply deleteNode_inner.
Qed.

(** [insertNext] puts a fresh node after the first node with the key, and
    drops it when there is none. *)
Theorem insertNext_inserts fuel h l ns x q kq aq v :
  repr h l ns → (length ns <= fuel)%nat → h !! q = Some (Node kq aq v) → q ∉ ns.*1 → v = Null →
  (Forall (λ n, ¬ has_key x n) ns ∧ insertNext fuel h l (Ptr q) x = Val (h, l)) ∨
  ∃ n1 p k a n2 h' l', ns = n1 ++ (p, (k, a)) :: n2 ∧ Forall (λ n, ¬ has_key x n) n1 ∧ has_key x (p, (k, a)) ∧
    insertNext fuel h l (Ptr q) x = Val (h', l') ∧ repr h' l' (n1 ++ (p, (k, a)) :: (q, (kq, aq)) :: n2).
Proof.
  intros Hr Hf Hq Hnew ->. destruct (list_find (has_key x) ns) as [[i [p [k a]]]|] eqn:Ei.
  2: { left. apply list_find_None in Ei as Hno. split; [done|]. unfold insertNext. destruct Hr as (Hl & _).
       rewrite (search_spec _ _ _ _ _ _ Hl Hf), Ei. done. }
  right. apply list_find_Some in Ei as (Hi & Hk & Hbefore).
  assert (∃ n1 n2, ns = n1 ++ (p, (k, a)) :: n2 ∧ Forall (λ n, ¬ has_key x n) n1) as (n1 & n2 & -> & Hb).
  { exists (take i ns), (drop (S i) ns). split; [by rewrite take_drop_middle|].
    apply Forall_lookup. intros j y Hj. apply lookup_take_Some in Hj as [Hj Hlt]. by apply (Hbefore j y). }
  clear Hi Hbefore. destruct (repr_middle h l n1 p k a n2 Hr) as (w & H1 & Hp & H2 & N1 & N2 & P1 & P2 & Hd).
  pose proof Hr as (_ & Hnd & Htail). rewrite fmap_app in Hnew, Hnd. cbn in Hnew, Hnd.
  assert (Q1 : q ∉ n1.*1) by set_solver. assert (Q2 : q ∉ n2.*1) by set_solver. assert (Qp : q ≠ p) by set_solver.
  exists n1, p, k, a, n2. unfold insertNext. rewrite (search_middle fuel h l n1 p k a n2 x Hr Hf Hk Hb).
  cbn [mbind outcome_bind]. rewrite (deref_val _ _ _ Hp). cbn [mbind outcome_bind next].
  assert (Hnodup : NoDup (n1 ++ (p, (k, a)) :: (q, (kq, aq)) :: n2).*1).
  { rewrite fmap_app. cbn. apply NoDup_app. split; [done|]. split; [set_solver|].
    apply NoDup_cons. split; [set_solver|]. apply NoDup_cons. split; [set_solver|done]. }
  destruct n2 as [|[r [kr ar]] n2].
  - cbn in H2. subst w. rewrite decide_True by done. rewrite (set_next_val _ _ _ _ _ _ Hp).
    cbn [mbind outcome_bind mret outcome_ret]. eexists _, _. do 3 (split; [done|]). split; [reflexivity|].
    split_and!; [|done|].
    + cbn [head]. apply lseg_app. exists (Ptr p). split; [by apply lseg_insert|]. cbn. split; [done|].
      exists (Ptr q). rewrite lookup_insert_eq. split; [done|]. split; [done|]. exists Null.
      by rewrite lookup_insert_ne by congruence.
    + cbn [tail]. by rewrite (last_link_app n1).
  - destruct H2 as (-> & z & Hz & H2). rewrite decide_False by done. rewrite (set_next_val _ _ _ _ _ _ Hq).
    cbn [mbind outcome_bind mret outcome_ret].
    rewrite (set_next_val _ p k a (Ptr r)) by (by rewrite lookup_insert_ne by congruence).
    cbn [mbind outcome_bind mret outcome_ret]. eexists _, _. do 3 (split; [done|]). split; [reflexivity|].
    cbn in P2, Q2, Hd. apply not_elem_of_cons in P2 as [P2 P2']. apply not_elem_of_cons in Q2 as [Q2 Q2'].
    split_and!; [|done|].
    + apply lseg_app. exists (Ptr p). split; [do 2 (apply lseg_insert; [|done]); done|]. cbn. split; [done|].
      exists (Ptr q). rewrite lookup_insert_eq. split; [done|]. split; [done|]. exists (Ptr r).
      rewrite lookup_insert_ne, lookup_insert_eq by congruence. split; [done|]. split; [done|]. exists z.
      rewrite !lookup_insert_ne by congruence. split; [done|]. do 2 (apply lseg_insert; [|done]). done.
    + rewrite Htail, !(last_link_app n1) by done.
      etrans; [by apply (last_link_app [(p, (k, a))] ((r, (kr, ar)) :: n2))|].
      symmetry. by apply (last_link_app [(p, (k, a)); (q, (kq, aq))] ((r, (kr, ar)) :: n2)).
Qed.
(** *** A list whose last node has not been told that it is the last

    A node is appended with the [next] it comes with; [v] is the link that ends
    the list. *)
Definition orepr (h : heap) (l : clist) (ns : list (nat * (f64 * A))) (v : link) : Prop :=
  match ns with [] => head l = Null | _ => lseg h (head l) ns v end ∧ NoDup ns.*1 ∧ tail l = last_link ns.

Lemma orepr_repr h l ns : orepr h l ns Null ↔ repr h l ns.
Proof. by destruct ns. Qed.

(** Only the nodes of a segment matter. *)
Lemma lseg_ext h h' l ns v : lseg h l ns v → (∀ p, p ∈ ns.*1 → h' !! p = h !! p) → lseg h' l ns v.
Proof.
  revert l. induction ns as [|[p [k a]] ns IH]; intros l; cbn; [done|]. intros (-> & w & Hp & Hl) He.
  split; [done|]. exists w. rewrite He by (by left). split; [done|]. apply IH; [done|]. intros q Hq. apply He. by right.
Qed.

Lemma orepr_ext h h' l ns v : orepr h l ns v → (∀ p, p ∈ ns.*1 → h' !! p = h !! p) → orepr h' l ns v.
Proof. intros (Hl & Hn & Ht) He. split_and!; try done. destruct ns; [done|]. by eapply lseg_ext. Qed.

(** [insertRear] ends the list with the link of the new node, and stores to
    nodes of the list only. *)
Lemma insertRear_open h l ns v q k a w :
  orepr h l ns v → h !! q = Some (Node k a w) → q ∉ ns.*1 →
  ∃ h' l', insertRear h l (Ptr q) = Val (h', l') ∧ orepr h' l' (ns ++ [(q, (k, a))]) w ∧
    ∀ p, p ∉ ns.*1 → h' !! p = h !! p.
Proof.
  intros (Hl & Hn & Ht) Hq Hf. unfold insertRear. destruct ns as [|n0 ns0] eqn:En; [|rewrite <-En in *].
  - rewrite decide_True by done. eexists _, _. split; [reflexivity|]. split; [|done]. split_and!; [|apply NoDup_singleton|done].
    cbn. split; [done|]. by exists w.
  - assert (∃ ns' p k' a', ns = ns' ++ [(p, (k', a'))]) as (ns' & p & k' & a' & ->).
    { destruct (exists_last (l := ns)) as (ns' & [p [k' a']] & E); [by rewrite En|]. by exists ns', p, k', a'. }
    clear En n0 ns0. assert (Hh : head l ≠ Null) by (destruct ns' as [|[q' [k1 a1]] ns']; by destruct Hl as [-> _]).
    rewrite decide_False by done. rewrite Ht, last_link_snoc. apply nodup_snoc in Hn as [Hp Hn].
    pose proof (lseg_last _ _ _ _ _ _ _ Hl) as Hlast. rewrite (set_next_val _ _ _ _ _ _ Hlast).
    cbn [mbind outcome_bind mret outcome_ret]. rewrite fmap_app in Hf. cbn in Hf.
    eexists _, _. split; [reflexivity|]. split.
    + split_and!; cbn [head tail].
      * assert (lseg (<[p := Node k' a' (Ptr q)]> h) (head l) ((ns' ++ [(p, (k', a'))]) ++ [(q, (k, a))]) w) as Hl'.
        { apply lseg_app. exists (Ptr q). split; [by eapply lseg_redirect|]. cbn. split; [done|]. exists w.
          rewrite lookup_insert_ne by set_solver. by split. }
        by destruct ns'.
      * apply nodup_snoc. split; [rewrite fmap_app; cbn; set_solver|]. by apply nodup_snoc.
      * by rewrite last_link_snoc.
    + intros r Hr. rewrite fmap_app in Hr. cbn in Hr. by rewrite lookup_insert_ne by set_solver.
Qed.
End CList.

(** ** Witnesses *)
Definition key_of (z : Z) : f64 := f64_of_Z z.
Definition three_nodes : gmap nat (node (A := unit)) :=
  <[1%nat := Node (key_of 10) tt (Ptr 2)]> (<[2%nat := Node (key_of 20) tt (Ptr 3)]> (<[3%nat := Node (key_of 30) tt Null]>
    (<[4%nat := Node (key_of 40) tt Null]> ∅))).
Definition three_list : clist := CList (Ptr 1) (Ptr 3).
Definition three : list (nat * (f64 * unit)) := [(1%nat, (key_of 10, tt)); (2%nat, (key_of 20, tt)); (3%nat, (key_of 30, tt))].

Lemma three_repr : repr three_nodes three_list three.
Proof.
  split_and!; [|apply (bool_decide_unpack _); vm_compute; exact I|reflexivity].
  cbn [lseg three head three_list]. split; [done|]. exists (Ptr 2). split; [reflexivity|]. split; [done|].
  exists (Ptr 3). split; [reflexivity|]. split; [done|]. exists Null. split; reflexivity.
Qed.

Lemma insertRear_appends_witness :
  ∃ h' l', insertRear three_nodes three_list (Ptr 4) = Val (h', l') ∧ repr h' l' (three ++ [(4%nat, (key_of 40, tt))]).
Proof.
  destruct (insertRear_appends three_nodes three_list three 4 (key_of 40) tt three_repr eq_refl) as (h' & l' & E & H & _).
  - apply (bool_decide_unpack _). vm_compute. exact I.
  - exists h', l'. split; [exact E|exact H].
Defined.

Lemma deleteNode_removes_witness :
  ∃ h' l', deleteNode 3 three_nodes three_list 20 = Val (h', l') ∧ head l' = Ptr 1 ∧ h' !! 2%nat = None.
Proof.
  destruct (deleteNode_removes 3 three_nodes three_list three 20 three_repr) as [[H _]|(n1 & p & k & a & n2 & h' & l' & En & _ & Hk & E & _)].
  - simpl. lia.
  - exfalso. apply Forall_cons in H as [_ H]. apply Forall_cons in H as [H _]. apply H. vm_compute. reflexivity.
  - exists h', l'. split; [exact E|]. vm_compute in E. injection E as <- <-. split; reflexivity.
Defined.
