(* ===== verification/Aggregate.v ===== *)
(** * model_build/aggregate.c

    The feature database is parsed into runs, each run into a list of
    datapoints, and the datapoints of a window of more than 15 seconds into one
    aggregated point. *)
From Stdlib Require Import Floats.SpecFloat.
From S2P Require Import Prelude CFloat Scanf Printf CList.
Open Scope Z_scope.

(** ** struct node of list.h

    The fourteen features; [I] is the type of the first eight, [D] of the
    others. *)
Record features (I D : Type) := Features {
  n_th : I; mem_used : I; mem_free : I; mem_shared : I; mem_buffers : I; mem_cached : I; swap_used : I; swap_free : I;
  cpu_user : D; cpu_nice : D; cpu_system : D; cpu_iowait : D; cpu_steal : D; cpu_idle : D
}.
Arguments Features {I D}.
Arguments n_th {I D}. Arguments mem_used {I D}. Arguments mem_free {I D}. Arguments mem_shared {I D}.
Arguments mem_buffers {I D}. Arguments mem_cached {I D}. Arguments swap_used {I D}. Arguments swap_free {I D}.
Arguments cpu_user {I D}. Arguments cpu_nice {I D}. Arguments cpu_system {I D}. Arguments cpu_iowait {I D}.
Arguments cpu_steal {I D}. Arguments cpu_idle {I D}.

(** The same statement for every feature. *)
Definition fmap2 {I1 D1 I2 D2 I D} (f : I1 → I2 → I) (g : D1 → D2 → D) (x : features I1 D1) (y : features I2 D2) : features I D :=
  Features (f (n_th x) (n_th y)) (f (mem_used x) (mem_used y)) (f (mem_free x) (mem_free y)) (f (mem_shared x) (mem_shared y))
    (f (mem_buffers x) (mem_buffers y)) (f (mem_cached x) (mem_cached y)) (f (swap_used x) (swap_used y)) (f (swap_free x) (swap_free y))
    (g (cpu_user x) (cpu_user y)) (g (cpu_nice x) (cpu_nice y)) (g (cpu_system x) (cpu_system y))
    (g (cpu_iowait x) (cpu_iowait y)) (g (cpu_steal x) (cpu_steal y)) (g (cpu_idle x) (cpu_idle y)).
Definition fmap1 {I1 D1 I D} (f : I1 → I) (g : D1 → D) (x : features I1 D1) : features I D :=
  fmap2 (λ a _, f a) (λ a _, g a) x x.
Definition fall {I D} (P : I → Prop) (x : features I D) : Prop :=
  P (n_th x) ∧ P (mem_used x) ∧ P (mem_free x) ∧ P (mem_shared x) ∧ P (mem_buffers x) ∧ P (mem_cached x) ∧
  P (swap_used x) ∧ P (swap_free x).

(** A node without its [next]; the key of the list is [key], the rest is the payload. *)
Record datapoint := Datapoint {
  key : f64;                        (* elapsed time in the input, remaining time in the output *)
  generation_time : f64;
  slopes : features f64 f64;
  values : features Z f64
}.

(** [bzero] of a node. *)
Definition zero_features : features Z f64 := Features 0 0 0 0 0 0 0 0 zero zero zero zero zero zero.
Definition zero_slopes : features f64 f64 := Features zero zero zero zero zero zero zero zero zero zero zero zero zero zero.
Definition zero_point : datapoint := Datapoint zero zero zero_slopes zero_features.

(** ** aggregate *)
Definition AGGREGATION_STEP : Z := 15.
Definition MAX_RUNS : Z := 1024.
Definition MAX_LINE_LENGTH : Z := 1024.

(** [int /= unsigned int]: the quotient is unsigned, and converted back. *)
Definition div_int (a num_nodes : Z) : Z := s32 (u32 a / num_nodes).

(** [int += int] on all the integer features; an overflow is undefined. *)
Definition add_values (a b : features Z f64) : outcome (features Z f64) :=
  let s := fmap2 Z.add add64 a b in
  if decide (fall is_s32 s) then Val s else Fault SignedOverflow.

(** The values of a point as [double]s. *)
Definition as_doubles (v : features Z f64) : features f64 f64 := fmap1 f64_of_Z (λ x, x) v.

(** [x /= -1.0 * num_nodes] *)
Definition minus_num (num_nodes : Z) : f64 := mul64 (SFopp (f64_of_Z 1)) (f64_of_Z num_nodes).

(** The averages and slopes of a window that [curr] closes. *)
Definition finish (aggregated : datapoint) (num_nodes : Z) (curr : datapoint) : outcome datapoint :=
  if num_nodes =? 0 then Fault DivByZero
  else
    let n := f64_of_Z num_nodes in
    let m := minus_num num_nodes in
    Val (Datapoint (key aggregated)
      (div64 (sub64 (key curr) (generation_time aggregated)) n)
      (fmap2 (λ s v, div64 (sub64 s v) m) (λ s v, div64 (sub64 s v) m) (slopes aggregated) (as_doubles (values curr)))
      (fmap1 (λ a, div_int a num_nodes) (λ x, div64 x n) (values aggregated))).

(** [malloc] succeeds a number of times, and is not checked: the next one gives a
    [NULL] that the program writes through. *)
Definition malloc (m : nat) : outcome nat := match m with O => Fault NullDeref | S m => Val m end.

(** The state of the inner loop; [agg_mallocs] more calls of [malloc] succeed. *)
Record agg_state := AggState {
  aggregated : datapoint;
  num_nodes : Z;
  compute_RTTC : bool;
  init_time : f64;
  output : list datapoint;
  agg_mallocs : nat
}.

(** [fabs(curr_node->key - init_time) > AGGREGATION_STEP] *)
Definition beyond (k init : f64) : bool := flt (f64_of_Z AGGREGATION_STEP) (SFabs (sub64 k init)).

(** The first datapoint of a window: its time to crash, and its values as the
    starting point of the slopes. *)
Definition open_window (tail_key : f64) (curr : datapoint) (st : agg_state) : agg_state :=
  if compute_RTTC st then
    AggState (Datapoint (sub64 tail_key (key curr)) (key curr) (as_doubles (values curr)) (values (aggregated st)))
             (num_nodes st) false (init_time st) (output st) (agg_mallocs st)
  else st.

(** One node: [is_tail] is [curr_node == input_datapoints[curr_list]->tail],
    [tail_key] the key of that node. *)
Definition aggregate_node (tail_key : f64) (is_tail : bool) (curr : datapoint) (st : agg_state) : outcome agg_state :=
  st ← (if beyond (key curr) (init_time st) || is_tail then
          p ← finish (aggregated st) (num_nodes st) curr;
          m ← malloc (agg_mallocs st);
          mret (AggState zero_point 0 true (key curr) (output st ++ [p]) m)
        else mret st);
  let st := open_window tail_key curr st in
  vs ← add_values (values (aggregated st)) (values curr);
  mret (AggState (Datapoint (key (aggregated st)) (generation_time (aggregated st)) (slopes (aggregated st)) vs)
                 (u32 (num_nodes st + 1)) (compute_RTTC st) (init_time st) (output st) (agg_mallocs st)).

(** The traversal of a run in the heap: [fuel] bounds the nodes visited. *)
Notation point_heap := (gmap nat (node (A := datapoint))).

Fixpoint aggregate_nodes (fuel : nat) (h : point_heap) (curr tl : link) (tail_key : f64) (st : agg_state) : outcome (option agg_state) :=
  if decide (curr = Null) then Val (Some st)
  else match fuel with
  | O => Val None
  | S fuel =>
      n ← deref h curr;
      st ← aggregate_node tail_key (bool_decide (curr = tl)) (payload n) st;
      aggregate_nodes fuel h (next n) tl tail_key st
  end.

(** One run: the key of the first node is read before the loop. *)
Definition aggregate_run (fuel : nat) (h : point_heap) (l : clist) (m : nat) (out : list datapoint)
    : outcome (option (nat * list datapoint)) :=
  hd ← deref h (head l);
  tl ← deref h (tail l);
  st ← aggregate_nodes fuel h (head l) (tail l) (key (payload tl)) (AggState zero_point 0 true (key (payload hd)) out m);
  mret (option_map (λ st, (agg_mallocs st, output st)) st).

(** ** Reference: windows and their summaries *)

(** The windows of a run and the point that closes each: [w] is the window so
    far, [start] its first point.  A point closes the window when it is more
    than 15 seconds after the start, or when it is the last one. *)
Fixpoint windows (start : datapoint) (w rest : list datapoint) : list (list datapoint * datapoint) :=
  match rest with
  | [] => []
  | p :: rest =>
      if beyond (key p) (key start) || bool_decide (rest = []) then (w, p) :: windows p [p] rest
      else windows start (w ++ [p]) rest
  end.

Definition sum_values (w : list datapoint) : features Z f64 :=
  foldl (λ a p, fmap2 Z.add add64 a (values p)) zero_features w.

Definition summary (tail_key : f64) (wb : list datapoint * datapoint) : datapoint :=
  let '(w, b) := wb in
  let start := default zero_point (list.head w) in
  let n := f64_of_Z (Z.of_nat (length w)) in
  let slope s v := div64 (sub64 s v) (minus_num (Z.of_nat (length w))) in
  Datapoint (sub64 tail_key (key start))
    (div64 (sub64 (key b) (key start)) n)
    (fmap2 slope slope (as_doubles (values start)) (as_doubles (values b)))
    (fmap1 (λ a, div_int a (Z.of_nat (length w))) (λ x, div64 x n) (sum_values w)).

Definition aggregate_spec (pts : list datapoint) : list datapoint :=
  match pts with
  | [] => []
  | p :: rest => map (summary (key (default p (last rest)))) (windows p [p] rest)
  end.

(** ** Lemmas *)
Lemma sub64_self_abs x : SFabs (sub64 x x) = S754_nan ∨ SFabs (sub64 x x) = S754_zero false.
Proof.
  destruct x as [s|s| |s m e]; cbn.
  - right. by destruct s.
  - left. by destruct s.
  - by left.
  - right. unfold sub64. cbn. rewrite Z.sub_diag. done.
Qed.

Lemma beyond_self k : beyond k k = false.
Proof. unfold beyond. by destruct (sub64_self_abs k) as [-> | ->]. Qed.

(** The state in the middle of a window. *)
Definition mid_window (tail_key : f64) (start : datapoint) (w : list datapoint) (m : nat) (out : list datapoint) : agg_state :=
  AggState (Datapoint (sub64 tail_key (key start)) (key start) (as_doubles (values start)) (sum_values w))
           (Z.of_nat (length w)) false (key start) out m.

Lemma sum_values_snoc w p : sum_values (w ++ [p]) = fmap2 Z.add add64 (sum_values w) (values p).
Proof. unfold sum_values. by rewrite foldl_app. Qed.

Lemma add_values_cases a b :
  add_values a b = Val (fmap2 Z.add add64 a b) ∨
  add_values a b = Fault SignedOverflow ∧ ¬ fall is_s32 (fmap2 Z.add add64 a b).
Proof. unfold add_values. case_decide; tauto. Qed.

(** The sums of a window do not fit in an [int]. *)
Definition too_large (w : list datapoint) : Prop := ¬ fall is_s32 (sum_values w).

(** Opening a window with [p]. *)
Lemma aggregate_node_first tail_key p m out :
  aggregate_node tail_key false p (AggState zero_point 0 true (key p) out m) = Val (mid_window tail_key p [p] m out) ∨
  aggregate_node tail_key false p (AggState zero_point 0 true (key p) out m) = Fault SignedOverflow ∧ too_large [p].
Proof.
  unfold aggregate_node, open_window. cbn [init_time]. rewrite beyond_self. cbn [orb mret outcome_ret mbind outcome_bind compute_RTTC aggregated values zero_point].
  destruct (add_values_cases zero_features (values p)) as [-> | [-> ?]]; [by left|by right].
Qed.

Lemma aggregate_node_inside tail_key p start w m out :
  beyond (key p) (key start) = false → Z.of_nat (length w) + 1 < 2 ^ 32 →
  aggregate_node tail_key false p (mid_window tail_key start w m out) = Val (mid_window tail_key start (w ++ [p]) m out) ∨
  aggregate_node tail_key false p (mid_window tail_key start w m out) = Fault SignedOverflow ∧ too_large (w ++ [p]).
Proof.
  intros Hb Hl. unfold aggregate_node, open_window, mid_window. cbn [init_time]. rewrite Hb.
  cbn [orb mret outcome_ret mbind outcome_bind compute_RTTC aggregated values].
  destruct (add_values_cases (sum_values w) (values p)) as [-> | [-> Ho]]; cbn [mbind outcome_bind mret outcome_ret];
    [left|right; split; [done|]; unfold too_large; by rewrite sum_values_snoc].
  cbn [num_nodes key generation_time slopes init_time output agg_mallocs]. rewrite u32_id by (unfold is_u32; lia). rewrite sum_values_snoc, length_app. cbn [length].
  do 2 f_equal. lia.
Qed.

Lemma aggregate_node_close tail_key is_tail p start w m out :
  beyond (key p) (key start) || is_tail = true → (0 < length w)%nat → list.head w = Some start →
  (∃ m', m = S m' ∧ aggregate_node tail_key is_tail p (mid_window tail_key start w m out)
    = Val (mid_window tail_key p [p] m' (out ++ [summary tail_key (w, p)]))) ∨
  aggregate_node tail_key is_tail p (mid_window tail_key start w m out) = Fault SignedOverflow ∧ too_large [p] ∨
  aggregate_node tail_key is_tail p (mid_window tail_key start w m out) = Fault NullDeref ∧ m = 0%nat.
Proof.
  intros Hb Hl Hh. unfold aggregate_node, open_window, finish, mid_window.
  cbn [init_time num_nodes]. rewrite Hb, (proj2 (Z.eqb_neq _ _)) by lia.
  destruct m as [|m]; [by right; right|].
  cbn [mret outcome_ret mbind outcome_bind compute_RTTC aggregated values zero_point output agg_mallocs malloc].
  destruct (add_values_cases zero_features (values p)) as [-> | [-> ?]]; [left|by right; left].
  exists m. split; [done|]. cbn [mret outcome_ret mbind outcome_bind]. unfold summary. rewrite Hh. reflexivity.
Qed.

(** The points of a list of nodes. *)
Definition points (ns : list (nat * (f64 * datapoint))) : list datapoint := map (λ n, n.2.2) ns.

Lemma last_points p ns : last (points (p :: ns)) = Some (default p.2.2 (last (points ns))).
Proof.
  unfold points. cbn [map]. rewrite last_cons. by destruct (last (map _ ns)).
Qed.

Lemma aggregate_nodes_spec fuel h l tl tail_key ns start w m out :
  lseg h l ns Null → NoDup ns.*1 → (ns ≠ [] → tl = last_link ns) → (length ns <= fuel)%nat →
  list.head w = Some start → Z.of_nat (length w) + Z.of_nat (length ns) + 1 < 2 ^ 32 →
  aggregate_nodes fuel h l tl tail_key (mid_window tail_key start w m out) = Fault SignedOverflow ∧
    (∃ a v b, w ++ points ns = a ++ v ++ b ∧ too_large v) ∨
  aggregate_nodes fuel h l tl tail_key (mid_window tail_key start w m out) = Fault NullDeref ∧
    (m < length (windows start w (points ns)))%nat ∨
  ∃ st, aggregate_nodes fuel h l tl tail_key (mid_window tail_key start w m out) = Val (Some st) ∧
    output st = out ++ map (summary tail_key) (windows start w (points ns)) ∧
    m = (length (windows start w (points ns)) + agg_mallocs st)%nat.
Proof.
  revert fuel l start w m out. induction ns as [|[p [k pt]] ns IH]; intros fuel l start w m out Hl Hn Ht Hf Hw Hlen.
  - cbn in Hl. subst l. right; right. eexists. split; [by destruct fuel|]. cbn. by rewrite app_nil_r.
  - destruct Hl as (-> & v & Hp & Hl). destruct fuel as [|fuel]; [cbn in Hf; lia|]. cbn [aggregate_nodes].
    rewrite decide_False by done. rewrite (deref_val _ _ _ Hp). cbn [mbind outcome_bind payload next].
    cbn [fmap list_fmap fst] in Hn. apply NoDup_cons in Hn as [Hp' Hn].
    assert (Htail : bool_decide (Ptr p = tl) = bool_decide (points ns = [])).
    { rewrite Ht by done. destruct ns as [|n ns]; [by rewrite !bool_decide_eq_true_2|]. rewrite (last_link_cons _ (n :: ns)) by done.
      rewrite !bool_decide_eq_false_2; [done|done|]. unfold last_link.
      destruct (last (n :: ns)) as [[q y]|] eqn:E; [|done]. intros [= ->]. apply Hp'.
      apply last_Some in E as [ns' ->]. rewrite fmap_app. cbn. set_solver. }
    rewrite Htail. cbn [points map windows snd]. fold (points ns). cbn [length] in Hlen, Hf.
    assert (Ht' : ns ≠ [] → tl = last_link ns).
    { intros Hne. rewrite Ht by done. by apply last_link_cons. }
    assert (Hlw : (0 < length w)%nat) by (destruct w; [done|cbn; lia]).
    destruct (beyond (key pt) (key start) || bool_decide (points ns = [])) eqn:Eb.
    + destruct (aggregate_node_close tail_key (bool_decide (points ns = [])) pt start w m out Eb Hlw Hw)
        as [(m' & -> & ->)|[[-> Hbig]|[-> ->]]]; cbn [mbind outcome_bind];
        [|left; split; [done|]; by exists w, [pt], (points ns)|right; left; cbn; split; [done|lia]].
      destruct (IH fuel v pt [pt] m' (out ++ [summary tail_key (w, pt)]) Hl Hn Ht' ltac:(lia) eq_refl ltac:(cbn; lia))
        as [[? (a & u & b & Eq & Hbig)]|[[? Hm]|(st & E & Ho & Hm)]]; [left|right; left|right; right].
      * split; [done|]. exists (w ++ a), u, b. split; [|done]. rewrite <-(assoc_L (++)). f_equal. exact Eq.
      * split; [done|]. cbn. lia.
      * exists st. split; [done|]. rewrite Ho, <-(assoc_L (++)). split; [done|]. cbn. lia.
    + apply orb_false_iff in Eb as [Eb Etl].  rewrite Etl.
      destruct (aggregate_node_inside tail_key pt start w m out Eb ltac:(lia)) as [-> | [-> Hbig]];
        cbn [mbind outcome_bind].
      2: { left. split; [done|]. exists [], (w ++ [pt]), (points ns). split; [|done]. by rewrite <-(assoc_L (++)). }
      destruct (IH fuel v start (w ++ [pt]) m out Hl Hn Ht' ltac:(lia) ltac:(by destruct w) ltac:(rewrite length_app; cbn; lia))
        as [[? (a & u & b & Eq & Hbig)]|[?|?]]; [left|by right; left|by right; right].
      split; [done|]. exists a, u, b. split; [|done]. rewrite <-Eq, <-(assoc_L (++)). done.
Qed.

Lemma repr_head_tail h l (ns : list (nat * (f64 * datapoint))) n rest :
  repr h l ns → ns = n :: rest →
  ∃ v w, deref h (head l) = Val (Node n.2.1 n.2.2 v) ∧ lseg h v rest Null ∧ head l = Ptr n.1 ∧
    deref h (tail l) = Val (Node (default n (last rest)).2.1 (default n (last rest)).2.2 w).
Proof.
  intros (Hl & Hn & Ht) ->. destruct n as [p [k a]]. destruct Hl as (Hh & v & Hp & Hl). exists v.
  rewrite Hh, (deref_val _ _ _ Hp), Ht. destruct (last rest) as [[q [kq aq]]|] eqn:E.
  - apply last_Some in E as [rest' ->]. exists Null. split; [done|]. split; [done|]. split; [done|].
    rewrite last_link_cons, last_link_snoc by (by destruct rest').
    apply deref_val. by eapply lseg_last.
  - apply last_None in E as ->. exists v. split; [done|]. split; [done|]. split; [done|]. by apply deref_val.
Qed.

Lemma aggregate_run_spec fuel h l ns m out :
  repr h l ns → (length ns <= fuel)%nat → (2 <= length ns)%nat → Z.of_nat (length ns) + 2 < 2 ^ 32 →
  aggregate_run fuel h l m out = Fault SignedOverflow ∧
    (∃ a v b, points ns = a ++ v ++ b ∧ too_large v) ∨
  aggregate_run fuel h l m out = Fault NullDeref ∧ (m < length (aggregate_spec (points ns)))%nat ∨
  ∃ m', aggregate_run fuel h l m out = Val (Some (m', out ++ aggregate_spec (points ns))) ∧
    m = (length (aggregate_spec (points ns)) + m')%nat.
Proof.
  intros Hr Hf H2 Hlen. destruct ns as [|[p [k pt]] ns]; [cbn in H2; lia|].
  destruct (repr_head_tail h l _ _ _ Hr eq_refl) as (v & w & Hd & Hl & Hh & Hdt). cbn [fst snd] in *.
  destruct Hr as (_ & Hn & Ht). unfold aggregate_run. rewrite Hd, Hdt. cbn [mbind outcome_bind payload].
  assert (Hns : ns ≠ []) by (intros ->; cbn in H2; lia).
  assert (Htk : key (default (p, (k, pt)) (last ns)).2.2 = key (default pt (last (points ns)))).
  { unfold points. rewrite fmap_last. by destruct (last ns). }
  rewrite Htk. set (tk := key _). destruct fuel as [|fuel]; [cbn in Hf; lia|]. cbn [aggregate_nodes].
  rewrite Hh. rewrite decide_False by done. rewrite Hh in Hd. rewrite Hd. cbn [mbind outcome_bind payload next].
  cbn [fmap list_fmap fst] in Hn. apply NoDup_cons in Hn as [Hp Hn].
  assert (tail l = last_link ns) as Htl by (rewrite Ht; by apply last_link_cons).
  rewrite bool_decide_eq_false_2.
  2: { rewrite Htl. unfold last_link. destruct (last ns) as [[q y]|] eqn:E; [|done]. intros [= ->]. apply Hp.
       apply last_Some in E as [ns' ->]. rewrite fmap_app. cbn. set_solver. }
  destruct (aggregate_node_first tk pt m out) as [-> | [-> Hbig]]; cbn [mbind outcome_bind];
    [|left; split; [done|]; by exists [], [pt], (points ns)].
  assert (Hlw : length (aggregate_spec (points ((p, (k, pt)) :: ns))) = length (windows pt [pt] (points ns)))
    by apply length_map.
  destruct (aggregate_nodes_spec fuel h v (tail l) tk ns pt [pt] m out Hl Hn) as [[-> Hbig]|[[-> Hm]|(st & -> & Ho & Hm)]]; try done;
    [cbn in Hf; lia|cbn in *; lia|by left|by right; left; rewrite Hlw|].
  right; right. cbn [mbind outcome_bind mret outcome_ret option_map]. exists (agg_mallocs st). rewrite Ho, Hlw. by split.
Qed.

(** ** Properties of the aggregation *)

(** C17.  Aggregating a run of at least two datapoints (and fewer than 2^32 - 2),
    when [m] more calls of [malloc] succeed, gives one point for each window:
    remaining time and slopes from its first point and from the one that closes it,
    averages over the points in between; the last datapoint closes a window and
    opens one that is dropped.  The only faults are an overflow of a sum of [int]s,
    over consecutive datapoints of the run, and a [NULL] from [malloc] when there
    are more windows than [m].  A run of one datapoint divides by zero and an empty
    one follows a [NULL] ([single_datapoint_divides_by_zero], [empty_run_crashes]). *)
Theorem aggregate_run_windows fuel h l ns m out :
  repr h l ns → (length ns <= fuel)%nat → (2 <= length ns)%nat → Z.of_nat (length ns) + 2 < 2 ^ 32 →
  aggregate_run fuel h l m out = Fault SignedOverflow ∧
    (∃ a v b, points ns = a ++ v ++ b ∧ too_large v) ∨
  aggregate_run fuel h l m out = Fault NullDeref ∧ (m < length (aggregate_spec (points ns)))%nat ∨
  ∃ m', aggregate_run fuel h l m out = Val (Some (m', out ++ aggregate_spec (points ns))) ∧
    m = (length (aggregate_spec (points ns)) + m')%nat.
Proof. apply aggregate_run_spec. Qed.

(** A run with a single datapoint divides the integer sums by the zero
    points of its window. *)
Theorem single_datapoint_divides_by_zero fuel h l p k pt m out :
  repr h l [(p, (k, pt))] → (1 <= fuel)%nat → aggregate_run fuel h l m out = Fault DivByZero.
Proof.
  intros Hr Hf. destruct (repr_head_tail h l _ _ _ Hr eq_refl) as (v & w & Hd & Hl & Hh & Hdt). cbn [fst snd last default] in *.
  destruct Hr as (_ & _ & Ht). unfold aggregate_run. rewrite Hd, Hdt. cbn [mbind outcome_bind payload].
  destruct fuel as [|fuel]; [lia|]. cbn [aggregate_nodes]. rewrite Hh in *. rewrite decide_False by done.
  rewrite Hd. cbn [mbind outcome_bind payload].
  rewrite bool_decide_eq_true_2 by done. unfold aggregate_node, open_window. by rewrite orb_true_r.
Qed.

(** A run announced and never filled makes the aggregation follow a
    [NULL]. *)
Theorem empty_run_crashes fuel h l m out : repr h l [] → aggregate_run fuel h l m out = Fault NullDeref.
Proof. intros (Hl & _). cbn in Hl. unfold aggregate_run. by rewrite Hl. Qed.

(** ** aggregate: all the runs *)
Fixpoint aggregate (fuel : nat) (h : point_heap) (runs : list clist) (m : nat) (out : list datapoint)
    : outcome (option (list datapoint)) :=
  match runs with
  | [] => mret (Some out)
  | l :: runs =>
      r ← aggregate_run fuel h l m out;
      match r with
      | Some (m, out) => aggregate fuel h runs m out
      | None => mret None
      end
  end.

(** ** read_db_file *)

(** [strtok(s, ":")]: the first token and what [strtok(NULL, ":")] goes on with. *)
Fixpoint skip_colons (s : list Z) : list Z :=
  match s with c :: s' => if c =? 58 then skip_colons s' else s | [] => [] end.
Fixpoint until_colon (s : list Z) : list Z * list Z :=
  match s with
  | c :: s' => if c =? 58 then ([], s') else let '(t, r) := until_colon s' in (c :: t, r)
  | [] => ([], [])
  end.
Definition strtok (s : list Z) : option (list Z * list Z) :=
  match skip_colons s with [] => None | s => Some (until_colon s) end.

(** The line that starts a run. *)
Definition new_machine_line : list Z := chars "------------NEW ACTIVE MACHINE:----------
".

(** The state of the loop: the nodes, the address the next [malloc] returns, the
    runs (the last one is [curr_list]), [a_new_point] with its [next], which
    holds garbage up to the first [bzero], and how many calls of [malloc] succeed. *)
Record db_state := DbState {
  db_heap : point_heap;
  fresh : nat;
  input_datapoints : list clist;
  a_new_point : datapoint;
  new_next : link;
  db_mallocs : nat
}.

Definition set_point (p : datapoint) (st : db_state) : db_state :=
  DbState (db_heap st) (fresh st) (input_datapoints st) p (new_next st) (db_mallocs st).
Definition with_values (v : features Z f64) (p : datapoint) : datapoint := Datapoint (key p) (generation_time p) (slopes p) v.

(** The scanned items; a conversion that failed leaves the member alone. *)
Definition got_i (vs : list scanned) (i : nat) (old : Z) : Z := match vs !! i with Some (SInt z) => z | _ => old end.
Definition got_f (vs : list scanned) (i : nat) (old : f64) : f64 := match vs !! i with Some (SFloat x) => x | _ => old end.

Definition scan_datapoint (text : list Z) (p : datapoint) : datapoint :=
  let vs := sscanf [Dlf; DSpace; DInt; DSpace] text in
  let v := values p in
  Datapoint (got_f vs 0 (key p)) (generation_time p) (slopes p)
    (Features (got_i vs 1 (n_th v)) (mem_used v) (mem_free v) (mem_shared v) (mem_buffers v) (mem_cached v) (swap_used v) (swap_free v)
              (cpu_user v) (cpu_nice v) (cpu_system v) (cpu_iowait v) (cpu_steal v) (cpu_idle v)).

Definition scan_memory (text : list Z) (p : datapoint) : datapoint :=
  let vs := sscanf (spaced DInt 6) text in
  let v := values p in
  with_values
    (Features (n_th v) (got_i vs 1 (got_i vs 0 (mem_used v))) (got_i vs 2 (mem_free v)) (got_i vs 3 (mem_shared v))
              (got_i vs 4 (mem_buffers v)) (got_i vs 5 (mem_cached v)) (swap_used v) (swap_free v)
              (cpu_user v) (cpu_nice v) (cpu_system v) (cpu_iowait v) (cpu_steal v) (cpu_idle v)) p.

Definition scan_swap (text : list Z) (p : datapoint) : datapoint :=
  let vs := sscanf (spaced DInt 3) text in
  let v := values p in
  with_values
    (Features (n_th v) (mem_used v) (mem_free v) (mem_shared v) (mem_buffers v) (mem_cached v)
              (got_i vs 1 (got_i vs 0 (swap_used v))) (got_i vs 2 (swap_free v))
              (cpu_user v) (cpu_nice v) (cpu_system v) (cpu_iowait v) (cpu_steal v) (cpu_idle v)) p.

Definition scan_cpu (text : list Z) (p : datapoint) : datapoint :=
  let vs := sscanf (spaced Dlf 6) text in
  let v := values p in
  with_values
    (Features (n_th v) (mem_used v) (mem_free v) (mem_shared v) (mem_buffers v) (mem_cached v) (swap_used v) (swap_free v)
              (got_f vs 0 (cpu_user v)) (got_f vs 1 (cpu_nice v)) (got_f vs 2 (cpu_system v))
              (got_f vs 3 (cpu_iowait v)) (got_f vs 4 (cpu_steal v)) (got_f vs 5 (cpu_idle v))) p.

(** A complete datapoint: a new node at the rear of the current run. *)
Definition complete_point (st : db_state) : outcome db_state :=
  match last (input_datapoints st) with
  | None => Aborted
  | Some curr_list =>
      m ← malloc (db_mallocs st);
      let p := a_new_point st in
      let h := <[fresh st := Node (key p) p (new_next st)]> (db_heap st) in
      '(h, l) ← insertRear h curr_list (Ptr (fresh st));
      mret (DbState h (S (fresh st)) (<[pred (length (input_datapoints st)) := l]> (input_datapoints st)) zero_point Null m)
  end.

(** One line as [fgets] returns it. *)
Definition read_line (line : list Z) (st : db_state) : outcome db_state :=
  if bool_decide (line = new_machine_line) then
    if MAX_RUNS <=? Z.of_nat (length (input_datapoints st)) then Fault OutOfBounds
    else m ← malloc (db_mallocs st);
         mret (DbState (db_heap st) (fresh st) (input_datapoints st ++ [initList]) (a_new_point st) (new_next st) m)
  else
    match strtok line with
    | None => Fault NullDeref
    | Some (token, rest) =>
        let second (f : list Z → datapoint → datapoint) : outcome db_state :=
          match strtok rest with
          | None => Fault NullDeref
          | Some (text, _) => mret (set_point (f text (a_new_point st)) st)
          end in
        if bool_decide (token = chars "Datapoint") then second scan_datapoint
        else if bool_decide (token = chars "Memory") then second scan_memory
        else if bool_decide (token = chars "Swap") then second scan_swap
        else if bool_decide (token = chars "CPU") then st ← second scan_cpu; complete_point st
        else Exit 1
    end.

Definition read_db_file (lines : list (list Z)) (st : db_state) : outcome db_state := run read_line lines st.

(** [garbage] is what [a_new_point] holds at the start. *)
Definition db_init (garbage : datapoint) (m : nat) : db_state := DbState ∅ 1 [] garbage Undef m.

(** ** Parsing what was printed *)

Lemma until_colon_all s : 58 ∉ s → until_colon s = (s, []).
Proof.
  induction s as [|c s IH]; [done|]. rewrite not_elem_of_cons. intros [Hc Hs]. cbn [until_colon].
  rewrite (proj2 (Z.eqb_neq c 58)) by congruence. by rewrite IH.
Qed.

Lemma strtok_text s c : 58 ∉ (c :: s) → strtok (c :: s) = Some (c :: s, []).
Proof.
  intros H. unfold strtok. cbn [skip_colons]. rewrite (proj2 (Z.eqb_neq c 58)) by (intros ->; apply H; by left).
  by rewrite until_colon_all.
Qed.

(** A "Memory" line as client.c prints it sets the five memory values, dropping
    the total; the rest of the point is as before. *)
Definition memory_line (total used free shared buffers cached : Z) : list Z :=
  chars "Memory: " ++ print_ints [total; used; free; shared; buffers; cached].

(** Parsing a printed "Memory" line gives back the values that were
    printed, whatever they are; the total is read and dropped. *)
Theorem memory_line_roundtrip total used free shared buffers cached st :
  Forall is_s32 [total; used; free; shared; buffers; cached] →
  let v := values (a_new_point st) in
  read_line (memory_line total used free shared buffers cached) st
    = Val (set_point (with_values (Features (n_th v) used free shared buffers cached (swap_used v) (swap_free v)
             (cpu_user v) (cpu_nice v) (cpu_system v) (cpu_iowait v) (cpu_steal v) (cpu_idle v)) (a_new_point st)) st).
Proof.
  intros Hz v. unfold memory_line, read_line.
  set (t := print_ints [total; used; free; shared; buffers; cached]).
  rewrite bool_decide_eq_false_2 by done.
  change (strtok (chars "Memory: " ++ t)) with (Some (chars "Memory", 32 :: t)).
  cbv beta iota zeta. rewrite strtok_text by (rewrite elem_of_cons; intros [?|H]; [done|by apply print_ints_no_colon in H]).
  rewrite bool_decide_eq_false_2 by done. rewrite bool_decide_eq_true_2 by done. unfold mret, outcome_ret, scan_memory.
  assert (sscanf (spaced DInt 6) (32 :: t) = map SInt [total; used; free; shared; buffers; cached]) as ->.
  { rewrite <-sscanf_print_ints by done. reflexivity. }
  reflexivity.
Qed.

(** ** Witnesses *)
Definition sample_point (t mem : Z) : datapoint :=
  Datapoint (f64_of_Z t) zero zero_slopes (Features 4 mem 0 0 0 0 0 0 zero zero zero zero zero zero).
Definition sample_nodes : list (nat * (f64 * datapoint)) :=
  [(1%nat, (f64_of_Z 0, sample_point 0 100)); (2%nat, (f64_of_Z 10, sample_point 10 200)); (3%nat, (f64_of_Z 20, sample_point 20 600));
   (4%nat, (f64_of_Z 30, sample_point 30 900))].
Definition sample_heap : point_heap :=
  <[1%nat := Node (f64_of_Z 0) (sample_point 0 100) (Ptr 2)]> (<[2%nat := Node (f64_of_Z 10) (sample_point 10 200) (Ptr 3)]>
    (<[3%nat := Node (f64_of_Z 20) (sample_point 20 600) (Ptr 4)]> (<[4%nat := Node (f64_of_Z 30) (sample_point 30 900) Null]> ∅))).
Definition sample_list : clist := CList (Ptr 1) (Ptr 4).

Lemma sample_repr : repr sample_heap sample_list sample_nodes.
Proof.
  split_and!; [|apply (bool_decide_unpack _); vm_compute; exact I|reflexivity].
  cbn [lseg sample_nodes CList.head sample_list]. split; [done|]. exists (Ptr 2). split; [reflexivity|]. split; [done|].
  exists (Ptr 3). split; [reflexivity|]. split; [done|]. exists (Ptr 4). split; [reflexivity|]. split; [done|].
  exists Null. split; reflexivity.
Qed.

(** Two windows, of two points and of one; the last datapoint is in none. *)
Lemma aggregate_run_windows_witness :
  ∃ p1 p2, aggregate_run 4 sample_heap sample_list 3 [] = Val (Some (1%nat, [p1; p2])) ∧
    mem_used (values p1) = 150 ∧ mem_used (values p2) = 600 ∧ key p1 = f64_of_Z 30 ∧
    mem_used (slopes p1) = f64_of_Z 250 ∧ mem_used (slopes p2) = f64_of_Z 300.
Proof.
  destruct (aggregate_run_windows 4 sample_heap sample_list sample_nodes 3 [] sample_repr) as [[H _]|[[H _]|(m' & H & Hm)]].
  - simpl; lia.
  - simpl; lia.
  - simpl; lia.
  - vm_compute in H. discriminate H.
  - vm_compute in H. discriminate H.
  - assert (m' = 1%nat) as -> by (vm_compute in Hm; lia). eexists _, _. split; [exact H|]. split_and!; vm_compute; reflexivity.
Defined.

Lemma single_datapoint_divides_by_zero_witness :
  aggregate_run 1 (<[1%nat := Node (f64_of_Z 0) (sample_point 0 100) Null]> ∅) (CList (Ptr 1) (Ptr 1)) 3 [] = Fault DivByZero.
Proof.
  apply (single_datapoint_divides_by_zero 1 _ _ 1 (f64_of_Z 0) (sample_point 0 100)); [|simpl; lia].
  split_and!; [|apply (bool_decide_unpack _); vm_compute; exact I|reflexivity].
  cbn [lseg CList.head]. split; [done|]. exists Null. split; reflexivity.
Defined.

Lemma memory_line_roundtrip_witness :
  ∃ st, read_line (memory_line 2048 1000 1048 0 30 (-7)) (db_init zero_point 0) = Val st ∧
    mem_used (values (a_new_point st)) = 1000 ∧ mem_cached (values (a_new_point st)) = -7.
Proof.
  eexists. split; [|split].
  - apply (memory_line_roundtrip 2048 1000 1048 0 30 (-7) (db_init zero_point 0)).
    repeat constructor; vm_compute; congruence.
  - reflexivity.
  - reflexivity.
Defined.
