(* ===== verification/Database.v ===== *)
(** * model_build/aggregate.c: from the database file to the comma-separated file

    [fgets], [write_aggregated_file] and [main] around the parser and the
    aggregation of Aggregate.v, and what the whole program writes for a database
    of datapoints as client.c prints them. *)
From Stdlib Require Import Floats.SpecFloat.
From S2P Require Import Prelude CFloat Scanf Printf CList Protocol Client Aggregate.
From stdpp Require Import list.
Open Scope Z_scope.

(** ** Input: [fgets(line, MAX_LINE_LENGTH, in_file)] *)
Fixpoint fgets (n : nat) (file : list Z) : list Z * list Z :=
  match n, file with
  | O, _ => ([], file)
  | _, [] => ([], [])
  | S n, c :: file => if c =? 10 then ([c], file) else let '(l, r) := fgets n file in (c :: l, r)
  end.

(** Every call takes a character at least, so that as many calls as the file has
    characters reach its end. *)
Fixpoint fgets_all (fuel : nat) (file : list Z) : list (list Z) :=
  match fuel, file with
  | O, _ | _, [] => []
  | S fuel, _ => let '(l, r) := fgets (Z.to_nat (MAX_LINE_LENGTH - 1)) file in l :: fgets_all fuel r
  end.
Definition file_lines (file : list Z) : list (list Z) := map get_string (fgets_all (length file) file).

(** ** Output *)
Fixpoint comma_separated (fields : list (list Z)) : list Z :=
  match fields with
  | [] => []
  | [x] => x ++ [10]
  | x :: fields => x ++ chars ", " ++ comma_separated fields
  end.

Definition csv_header : list Z := comma_separated (map chars
  ["RTTC"; "GenTime"; "n_th_slope"; "mem_used_slope"; "mem_free_slope"; "mem_shared_slope"; "mem_buffers_slope";
   "mem_cached_slope"; "swap_used_slope"; "swap_free_slope"; "cpu_user_slope"; "cpu_nice_slope"; "cpu_system_slope";
   "cpu_iowait_slope"; "cpu_steal_slope"; "cpu_idle_slope"; "n_th"; "mem_used"; "mem_free"; "mem_shared"; "mem_buffers";
   "mem_cached"; "swap_used"; "swap_free"; "cpu_user"; "cpu_nice"; "cpu_system"; "cpu_iowait"; "cpu_steal"; "cpu_idle"])%string.

Definition csv_row (nan_text : list Z) (p : Aggregate.datapoint) : list Z :=
  let f := print_float nan_text in
  let s := slopes p in
  let v := values p in
  comma_separated
    [f (Aggregate.key p); f (generation_time p);
     f (n_th s); f (mem_used s); f (mem_free s); f (mem_shared s); f (mem_buffers s); f (mem_cached s); f (swap_used s); f (swap_free s);
     f (cpu_user s); f (cpu_nice s); f (cpu_system s); f (cpu_iowait s); f (cpu_steal s); f (cpu_idle s);
     print_int (n_th v); print_int (mem_used v); print_int (mem_free v); print_int (mem_shared v); print_int (mem_buffers v);
     print_int (mem_cached v); print_int (swap_used v); print_int (swap_free v);
     f (cpu_user v); f (cpu_nice v); f (cpu_system v); f (cpu_iowait v); f (cpu_steal v); f (cpu_idle v)].

Definition write_aggregated_file (nan_text : list Z) (aggregated_datapoints : list Aggregate.datapoint) : list Z :=
  csv_header ++ concat (map (csv_row nan_text) aggregated_datapoints).

(** ** main

    [in_file] is the contents of the file named by [argv[1]], [None] when it
    cannot be opened; the result is the name and the contents of the output.
    [m] calls of [malloc] succeed: the first one is for the list of the aggregated
    points.  The traversals visit at most as many nodes as there have been
    [malloc]s. *)
Definition aggregate_file (nan_text : list Z) (garbage : Aggregate.datapoint) (m : nat) (file : list Z) : outcome (option (list Z)) :=
  m ← malloc m;
  st ← read_db_file (file_lines file) (db_init garbage m);
  r ← aggregate (Aggregate.fresh st) (db_heap st) (input_datapoints st) (db_mallocs st) [];
  mret (option_map (write_aggregated_file nan_text) r).

Definition aggregate_main (nan_text : list Z) (garbage : Aggregate.datapoint) (m : nat) (argv : list (list Z))
    (in_file : option (list Z)) (out_ok : bool) : outcome (option (list Z * list Z)) :=
  match argv with
  | _ :: _ :: rest =>
      let out_file_name := match rest with [name] => name | _ => chars "aggregated.csv" end in
      match in_file with
      | None => Exit 1
      | Some file =>
          if out_ok then r ← aggregate_file nan_text garbage m file; mret (option_map (pair out_file_name) r)
          else Exit 1
      end
  | _ => Exit 1
  end.

(** ** The database that is read

    A run is a list of samples with their number of threads, each printed as the
    client prints it and followed by a line feed. *)
Notation measured := (Z * sample)%type (only parsing).

Definition point_text (t : list Z) (m : measured) : list Z := features_text t m.2 ++ [10].
Definition run_text (t : list Z) (run : list measured) : list Z := new_machine_line ++ concat (map (point_text t) run).
Definition database_text (t : list Z) (runs : list (list measured)) : list Z := concat (map (run_text t) runs).

(** The four lines of a point. *)
Definition line1 (t : list Z) (m : measured) : list Z :=
  chars "Datapoint: " ++ print_float t (s_time m.2) ++ 32 :: print_int m.1 ++ [10].
Definition line2 (m : measured) : list Z := chars "Memory: " ++ print_ints (s_mem m.2).
Definition line3 (m : measured) : list Z := chars "Swap: " ++ print_ints (s_swap m.2).
Definition line4 (t : list Z) (m : measured) : list Z := chars "CPU: " ++ print_floats t (map f64_of_f32 (s_cpu m.2)) ++ [10].
Definition point_lines (t : list Z) (m : measured) : list (list Z) := [line1 t m; line2 m; line3 m; line4 t m].

(** A sample of the shape [collect] gives. *)
Definition well_sampled (m : measured) : Prop :=
  s_threads m.2 = print_int m.1 ++ [10] ∧ is_s32 m.1 ∧
  length (s_mem m.2) = 6%nat ∧ length (s_swap m.2) = 3%nat ∧ length (s_cpu m.2) = 6%nat ∧
  Forall is_s32 (s_mem m.2) ∧ Forall is_s32 (s_swap m.2).

(** ... whose lines fit in [line]. *)
Definition short_lines (t : list Z) (m : measured) : Prop :=
  Forall (λ l, Z.of_nat (length l) < MAX_LINE_LENGTH) (point_lines t m).

(** What is read of a sample; the other members of [p] stay as they were. *)
Definition parsed (m : measured) (p : Aggregate.datapoint) : Aggregate.datapoint :=
  let i l k := default 0 (l !! k) in
  let c k := reread 53 1024 (f64_of_f32 (default zero (s_cpu m.2 !! k))) in
  Datapoint (reread 53 1024 (s_time m.2)) (generation_time p) (slopes p)
    (Features m.1 (i (s_mem m.2) 1%nat) (i (s_mem m.2) 2%nat) (i (s_mem m.2) 3%nat) (i (s_mem m.2) 4%nat) (i (s_mem m.2) 5%nat)
       (i (s_swap m.2) 1%nat) (i (s_swap m.2) 2%nat) (c 0%nat) (c 1%nat) (c 2%nat) (c 3%nat) (c 4%nat) (c 5%nat)).

(** The point of a sample. *)
Definition point_of (m : measured) : Aggregate.datapoint := parsed m zero_point.

(** ** Lines *)
Lemma fgets_line n body rest :
  10 ∉ body → (length body < n)%nat → fgets n (body ++ 10 :: rest) = (body ++ [10], rest).
Proof.
  revert n. induction body as [|c body IH]; intros n Hb Hn; (destruct n as [|n]; [cbn in Hn; lia|]); [done|].
  apply not_elem_of_cons in Hb as [Hc Hb]. cbn [app fgets]. rewrite (proj2 (Z.eqb_neq c 10)) by congruence.
  by rewrite IH by (done || cbn in Hn; lia).
Qed.

(** A line as [fgets] takes it whole. *)
Definition file_line (l : list Z) : Prop :=
  Z.of_nat (length l) < MAX_LINE_LENGTH ∧ Forall (λ c, c ≠ 0) l ∧ ∃ body, l = body ++ [10] ∧ 10 ∉ body.

Lemma fgets_all_lines fuel ls :
  Forall file_line ls → (length ls <= fuel)%nat → fgets_all fuel (concat ls) = ls.
Proof.
  intros H. revert fuel. induction H as [|l ls (Hl & _ & body & -> & Hb) _ IH]; intros fuel Hf; [by destruct fuel|].
  destruct fuel as [|fuel]; [cbn in Hf; lia|]. cbn [concat]. rewrite <-(assoc_L (++)). cbn [app].
  assert (body ++ 10 :: concat ls ≠ []) as Hne by (by destruct body).
  cbn [fgets_all]. destruct (body ++ 10 :: concat ls) as [|c file] eqn:E; [done|]. rewrite <-E.
  rewrite fgets_line; [by rewrite IH by (cbn in Hf; lia)|done|].
  unfold MAX_LINE_LENGTH in *. rewrite length_app in Hl. cbn [length] in Hl. lia.
Qed.

Lemma get_string_id l : Forall (λ c, c ≠ 0) l → get_string l = l.
Proof. induction 1 as [|c l Hc _ IH]; cbn; [done|]. by rewrite (proj2 (Z.eqb_neq c 0)), IH by done. Qed.

Lemma file_lines_concat ls : Forall file_line ls → file_lines (concat ls) = ls.
Proof.
  intros H. unfold file_lines. rewrite fgets_all_lines; [|done|].
  - induction H as [|l ls (_ & Hn & _) _ IH]; cbn; [done|]. by rewrite IH, get_string_id.
  - induction H as [|l ls (_ & _ & body & -> & _) _ IH]; cbn; [lia|]. rewrite !length_app. cbn. lia.
Qed.

(** A line that is printed: a name, then numbers. *)
Lemma file_line_printed name body :
  Forall plain name ∨ Forall (λ c, 32 <= c) name → Forall plain body →
  Z.of_nat (length (name ++ body ++ [10])) < MAX_LINE_LENGTH → file_line (name ++ body ++ [10]).
Proof.
  intros Hn Hb Hl. assert (Forall (λ c, 32 <= c) (name ++ body)) as H32.
  { apply Forall_app. split; [destruct Hn as [Hn|Hn]; [|done]|]; (eapply Forall_impl; [eassumption|]); by intros c []. }
  split; [done|]. rewrite (assoc_L (++)). split.
  - apply Forall_app. split; [|by repeat constructor]. eapply Forall_impl; [exact H32|]. cbn. intros; lia.
  - exists (name ++ body). split; [done|]. intros Hin. rewrite Forall_forall in H32. specialize (H32 10 Hin). cbn in H32. lia.
Qed.

Lemma printable_chars w : forallb (λ c, 32 <=? c) w = true → Forall (λ c, 32 <= c) w.
Proof. intros H. apply Forall_forall. intros c Hc. rewrite forallb_forall in H. by apply list_elem_of_In, H, Z.leb_le in Hc. Qed.

Lemma plain_chars w : forallb (λ c, (32 <=? c) && negb (c =? 58)) w = true → Forall plain w.
Proof.
  intros H. apply Forall_forall. intros c Hc. rewrite forallb_forall in H. apply list_elem_of_In, H, andb_true_iff in Hc as [H1 H2].
  apply Z.leb_le in H1. by apply negb_true_iff, Z.eqb_neq in H2.
Qed.

(** ** The four lines of a point *)
Lemma until_colon_plain w s : Forall plain w → until_colon (w ++ 58 :: s) = (w, s).
Proof.
  induction 1 as [|c w [_ Hc] _ IH]; [done|]. cbn [app until_colon]. rewrite (proj2 (Z.eqb_neq c 58)) by done. by rewrite IH.
Qed.

(** [strtok] twice. *)
Lemma strtok_name w text :
  Forall plain w → w ≠ [] → 58 ∉ text →
  strtok (w ++ 58 :: 32 :: text) = Some (w, 32 :: text) ∧ strtok (32 :: text) = Some (32 :: text, []).
Proof.
  intros Hw Hne Ht. split; [|apply strtok_text; by apply not_elem_of_cons].
  unfold strtok. destruct w as [|c w]; [done|]. apply Forall_cons in Hw as [[H1 H2] Hw]. cbn [app skip_colons].
  rewrite (proj2 (Z.eqb_neq c 58)) by done. change (c :: w ++ 58 :: 32 :: text) with ((c :: w) ++ 58 :: 32 :: text).
  rewrite until_colon_plain; [done|]. by constructor.
Qed.

Section Lines.
Variables (t : list Z) (m : measured).
Hypothesis Ht : nan_text_ok t.
Hypothesis Hm : well_sampled m.
Hypothesis Hs : short_lines t m.

Lemma line1_text :
  ∃ body, line1 t m = chars "Datapoint: " ++ body ++ [10] ∧ Forall plain body ∧
    body ++ [10] = print_float t (s_time m.2) ++ 32 :: print_int m.1 ++ [10].
Proof using Ht.
  exists (print_float t (s_time m.2) ++ 32 :: print_int m.1). rewrite <-(assoc_L (++)). split; [done|]. split; [|done].
  apply Forall_app. split; [by apply print_float_plain|]. constructor; [by unfold plain|apply print_int_plain].
Qed.

Lemma line2_text : ∃ body, line2 m = chars "Memory: " ++ body ++ [10] ∧ Forall plain body ∧ body ++ [10] = print_ints (s_mem m.2).
Proof using Hm.
  destruct Hm as (_ & _ & Hl & _). destruct (print_ints_line (s_mem m.2)) as (body & E & Hb); [by intros E; rewrite E in Hl|].
  exists body. unfold line2. by rewrite E.
Qed.

Lemma line3_text : ∃ body, line3 m = chars "Swap: " ++ body ++ [10] ∧ Forall plain body ∧ body ++ [10] = print_ints (s_swap m.2).
Proof using Hm.
  destruct Hm as (_ & _ & _ & Hl & _). destruct (print_ints_line (s_swap m.2)) as (body & E & Hb); [by intros E; rewrite E in Hl|].
  exists body. unfold line3. by rewrite E.
Qed.

Lemma line4_text :
  ∃ body, line4 t m = chars "CPU: " ++ body ++ [10] ∧ Forall plain body ∧
    body = print_floats t (map f64_of_f32 (s_cpu m.2)).
Proof using Ht. eexists. split; [done|]. split; [by apply print_floats_plain|done]. Qed.

Lemma point_lines_ok : Forall file_line (point_lines t m) ∧ concat (point_lines t m) = point_text t m.
Proof using Ht Hm Hs.
  pose proof Hs as HL. unfold short_lines, point_lines in HL. rewrite !Forall_cons in HL. destruct HL as (L1 & L2 & L3 & L4 & _).
  split.
  - destruct line1_text as (b1 & E1 & H1 & _), line2_text as (b2 & E2 & H2 & _), line3_text as (b3 & E3 & H3 & _),
      line4_text as (b4 & E4 & H4 & _). unfold point_lines. rewrite E1, E2, E3, E4 in *.
    repeat (apply Forall_cons; split; [apply file_line_printed; [right; by apply printable_chars|done|done]|]). constructor.
  - unfold point_lines, point_text, features_text, line1, line2, line3, line4. destruct Hm as (-> & _).
    cbn [concat]. rewrite app_nil_r. by repeat (rewrite <-(assoc_L (++)); cbn [app]).
Qed.

(** *** What the parser does with each of them *)
Lemma read_named (st : db_state) name body :
  Forall plain name → name ≠ [] → Forall plain body →
  bool_decide (name ++ 58 :: 32 :: body ++ [10] = new_machine_line) = false →
  read_line (name ++ 58 :: 32 :: body ++ [10]) st
    = let text := 32 :: body ++ [10] in
      if bool_decide (name = chars "Datapoint") then Val (set_point (scan_datapoint text (a_new_point st)) st)
      else if bool_decide (name = chars "Memory") then Val (set_point (Aggregate.scan_memory text (a_new_point st)) st)
      else if bool_decide (name = chars "Swap") then Val (set_point (Aggregate.scan_swap text (a_new_point st)) st)
      else if bool_decide (name = chars "CPU") then complete_point (set_point (scan_cpu text (a_new_point st)) st)
      else Exit 1.
Proof using Type.
  intros Hn Hne Hb Hl. unfold read_line. rewrite Hl.
  destruct (strtok_name name (body ++ [10]) Hn Hne) as [-> ->].
  { rewrite elem_of_app, list_elem_of_singleton. intros [H|?]; [by apply plain_no_colon in H|done]. }
  by repeat case_bool_decide.
Qed.

Lemma spaced_separated d n : spaced d (S n) = separated d (S n) ++ [DSpace].
Proof using Type. induction n as [|n IH]; [done|]. change (spaced d (S (S n))) with (d :: DSpace :: spaced d (S n)). by rewrite IH. Qed.

Lemma scan_float_space prec emax l : scan_float prec emax (32 :: l) = scan_float prec emax l.
Proof using Type. done. Qed.

Lemma sscanf_line1 :
  sscanf [Dlf; DSpace; DInt; DSpace] (32 :: print_float t (s_time m.2) ++ 32 :: print_int m.1 ++ [10])
    = [SFloat (reread 53 1024 (s_time m.2)); SInt m.1].
Proof using Ht Hm.
  destruct Hm as (_ & Hn & _). cbn [sscanf]. rewrite scan_float_space, scan_print_float by done.
  cbn [skip_space Scanf.is_space Z.eqb Pos.eqb orb]. rewrite print_int_nonspace. by rewrite scan_print_int.
Qed.

Lemma sscanf_ints_line zs :
  Forall is_s32 zs → zs ≠ [] → sscanf (spaced DInt (length zs)) (32 :: print_ints zs) = map SInt zs.
Proof using Type.
  intros Hz Hne. rewrite <-sscanf_print_ints by done. destruct zs as [|z [|z' zs]]; [done|reflexivity..].
Qed.

Lemma sscanf_line4 :
  sscanf (spaced Dlf 6) (32 :: print_floats t (map f64_of_f32 (s_cpu m.2)) ++ [10])
    = map (λ x, SFloat (reread 53 1024 (f64_of_f32 x))) (s_cpu m.2).
Proof using Ht Hm.
  destruct Hm as (_ & _ & _ & _ & Hl & _).
  transitivity (sscanf (spaced Dlf 6) (print_floats t (map f64_of_f32 (s_cpu m.2)) ++ [10])); [reflexivity|].
  pose proof (sscanf_print_floats 53 1024 t (map f64_of_f32 (s_cpu m.2)) [DSpace] [10] Ht) as E.
  rewrite length_map, Hl, map_map, <-spaced_separated in E. rewrite E; [by rewrite app_nil_r|done|done|].
  intros E'. apply map_eq_nil in E'. by rewrite E' in Hl.
Qed.

(** The members a scan sets. *)
Definition memory_of (l : list Z) (p : Aggregate.datapoint) : Aggregate.datapoint :=
  let v := values p in
  let i k := default 0 (l !! k) in
  with_values (Features (n_th v) (i 1%nat) (i 2%nat) (i 3%nat) (i 4%nat) (i 5%nat) (swap_used v) (swap_free v)
    (cpu_user v) (cpu_nice v) (cpu_system v) (cpu_iowait v) (cpu_steal v) (cpu_idle v)) p.
Definition swap_of (l : list Z) (p : Aggregate.datapoint) : Aggregate.datapoint :=
  let v := values p in
  let i k := default 0 (l !! k) in
  with_values (Features (n_th v) (mem_used v) (mem_free v) (mem_shared v) (mem_buffers v) (mem_cached v) (i 1%nat) (i 2%nat)
    (cpu_user v) (cpu_nice v) (cpu_system v) (cpu_iowait v) (cpu_steal v) (cpu_idle v)) p.
Definition cpu_of (l : list f32) (p : Aggregate.datapoint) : Aggregate.datapoint :=
  let v := values p in
  let c k := reread 53 1024 (f64_of_f32 (default zero (l !! k))) in
  with_values (Features (n_th v) (mem_used v) (mem_free v) (mem_shared v) (mem_buffers v) (mem_cached v) (swap_used v) (swap_free v)
    (c 0%nat) (c 1%nat) (c 2%nat) (c 3%nat) (c 4%nat) (c 5%nat)) p.

Lemma scan_memory_line p : Aggregate.scan_memory (32 :: print_ints (s_mem m.2)) p = memory_of (s_mem m.2) p.
Proof using Hm.
  destruct Hm as (_ & _ & L & _ & _ & H & _). pose proof (sscanf_ints_line (s_mem m.2) H) as E. rewrite L in E.
  unfold Aggregate.scan_memory. rewrite E by (intros E'; by rewrite E' in L). clear E H.
  destruct (s_mem m.2) as [|? [|? [|? [|? [|? [|? []]]]]]]; try discriminate L. reflexivity.
Qed.

Lemma scan_swap_line p : Aggregate.scan_swap (32 :: print_ints (s_swap m.2)) p = swap_of (s_swap m.2) p.
Proof using Hm.
  destruct Hm as (_ & _ & _ & L & _ & _ & H). pose proof (sscanf_ints_line (s_swap m.2) H) as E. rewrite L in E.
  unfold Aggregate.scan_swap. rewrite E by (intros E'; by rewrite E' in L). clear E H.
  destruct (s_swap m.2) as [|? [|? [|? []]]]; try discriminate L. reflexivity.
Qed.

Lemma scan_cpu_line p : scan_cpu (32 :: print_floats t (map f64_of_f32 (s_cpu m.2)) ++ [10]) p = cpu_of (s_cpu m.2) p.
Proof using Ht Hm.
  unfold scan_cpu. rewrite sscanf_line4. destruct Hm as (_ & _ & _ & _ & L & _).
  destruct (s_cpu m.2) as [|? [|? [|? [|? [|? [|? []]]]]]]; try discriminate L. reflexivity.
Qed.

(** The four scans, one after the other. *)
Lemma scan_point p :
  scan_cpu (32 :: print_floats t (map f64_of_f32 (s_cpu m.2)) ++ [10])
    (Aggregate.scan_swap (32 :: print_ints (s_swap m.2))
      (Aggregate.scan_memory (32 :: print_ints (s_mem m.2))
        (scan_datapoint (32 :: print_float t (s_time m.2) ++ 32 :: print_int m.1 ++ [10]) p))) = parsed m p.
Proof using Ht Hm.
  rewrite scan_cpu_line, scan_swap_line, scan_memory_line. unfold scan_datapoint. by rewrite sscanf_line1.
Qed.

Lemma read_line1 st :
  read_line (line1 t m) st
    = Val (set_point (scan_datapoint (32 :: print_float t (s_time m.2) ++ 32 :: print_int m.1 ++ [10]) (a_new_point st)) st).
Proof using Ht.
  destruct line1_text as (b & -> & H & <-). change (chars "Datapoint: " ++ b ++ [10]) with (chars "Datapoint" ++ 58 :: 32 :: b ++ [10]).
  by rewrite read_named by (done || by apply plain_chars).
Qed.

Lemma read_line2 st :
  read_line (line2 m) st = Val (set_point (Aggregate.scan_memory (32 :: print_ints (s_mem m.2)) (a_new_point st)) st).
Proof using Hm.
  destruct line2_text as (b & -> & H & <-). change (chars "Memory: " ++ b ++ [10]) with (chars "Memory" ++ 58 :: 32 :: b ++ [10]).
  by rewrite read_named by (done || by apply plain_chars).
Qed.

Lemma read_line3 st :
  read_line (line3 m) st = Val (set_point (Aggregate.scan_swap (32 :: print_ints (s_swap m.2)) (a_new_point st)) st).
Proof using Hm.
  destruct line3_text as (b & -> & H & <-). change (chars "Swap: " ++ b ++ [10]) with (chars "Swap" ++ 58 :: 32 :: b ++ [10]).
  by rewrite read_named by (done || by apply plain_chars).
Qed.

Lemma read_line4 st :
  read_line (line4 t m) st
    = complete_point (set_point (scan_cpu (32 :: print_floats t (map f64_of_f32 (s_cpu m.2)) ++ [10]) (a_new_point st)) st).
Proof using Ht.
  destruct line4_text as (b & -> & H & <-). change (chars "CPU: " ++ b ++ [10]) with (chars "CPU" ++ 58 :: 32 :: b ++ [10]).
  by rewrite read_named by (done || by apply plain_chars).
Qed.

Lemma read_point st : run read_line (point_lines t m) st = complete_point (set_point (parsed m (a_new_point st)) st).
Proof using Ht Hm.
  unfold point_lines. cbn [run]. rewrite read_line1. cbn [mbind outcome_bind]. rewrite read_line2.
  cbn [mbind outcome_bind]. rewrite read_line3. cbn [mbind outcome_bind]. rewrite read_line4.
  unfold set_point. cbn [a_new_point db_heap Aggregate.fresh input_datapoints new_next db_mallocs]. rewrite scan_point.
  by destruct (complete_point _).
Qed.
End Lines.

(** ** The nodes that have been read

    [finished] are the runs before the current one, [cur] what the current one has
    so far, [v] the link its last node has. *)
Definition db_holds (st : db_state) (finished : list (list Aggregate.datapoint)) (cur : list Aggregate.datapoint) (v : link) : Prop :=
  ∃ ls l nss ns, input_datapoints st = ls ++ [l] ∧ Forall2 (repr (db_heap st)) ls nss ∧ orepr (db_heap st) l ns v ∧
    map points nss = finished ∧ points ns = cur ∧ NoDup (concat nss ++ ns).*1 ∧
    Forall (λ p, (p < Aggregate.fresh st)%nat) (concat nss ++ ns).*1 ∧ (length (concat nss ++ ns) < Aggregate.fresh st)%nat.

Lemma Forall2_repr_ext h h' (ls : list clist) nss :
  Forall2 (repr h) ls nss → (∀ p, p ∈ (concat nss).*1 → h' !! p = h !! p) →
  Forall2 (repr (A := Aggregate.datapoint) h') ls nss.
Proof.
  induction 1 as [|l ns ls nss Hr _ IH]; intros He; [constructor|]. cbn [concat] in He. rewrite fmap_app in He.
  constructor; [|apply IH; intros p Hp; apply He; rewrite elem_of_app; by right].
  apply orepr_repr, (orepr_ext h); [by apply orepr_repr|]. intros p Hp. apply He. rewrite elem_of_app. by left.
Qed.

(** [k] calls of [malloc]: a [NULL] when there are fewer left, or [k] fewer left
    and [P]. *)
Definition mallocs (k : nat) (P : db_state → Prop) (m : nat) (o : outcome db_state) : Prop :=
  o = Fault NullDeref ∧ (m < k)%nat ∨ ∃ st, o = Val st ∧ m = (k + db_mallocs st)%nat ∧ P st.

Lemma mallocs_bind k k' P Q m o (f : db_state → outcome db_state) :
  mallocs k P m o → (∀ st, P st → mallocs k' Q (db_mallocs st) (f st)) → mallocs (k + k') Q m (mbind f o).
Proof.
  intros [[-> H]|(st & -> & -> & H)] Hf; [left; split; [done|lia]|]. cbn [mbind outcome_bind].
  destruct (Hf st H) as [[-> Hm]|(st' & -> & -> & HQ)]; [left; split; [done|lia]|].
  right. exists st'. split; [done|]. split; [lia|done].
Qed.

Lemma mallocs_weaken k P Q m o : mallocs k P m o → (∀ st, P st → Q st) → mallocs k Q m o.
Proof. intros [H|(st & E & Em & H)] HPQ; [by left|right]. exists st. auto. Qed.

Lemma complete_point_holds st finished cur v p :
  db_holds st finished cur v →
  mallocs 1 (λ st', db_holds st' finished (cur ++ [p]) (new_next st) ∧ a_new_point st' = zero_point ∧ new_next st' = Null)
    (db_mallocs st) (complete_point (set_point p st)).
Proof.
  intros (ls & l & nss & ns & Hin & Hdone & Hcur & <- & <- & Hn & Hlt & Hlen).
  unfold complete_point. cbn [set_point input_datapoints a_new_point new_next db_heap Aggregate.fresh db_mallocs].
  rewrite Hin, last_snoc. destruct (db_mallocs st) as [|k]; [left; split; [done|lia]|right]. cbn [malloc mbind outcome_bind]. set (q := Aggregate.fresh st) in *. set (h1 := <[q := _]> (db_heap st)).
  assert (Hq : q ∉ (concat nss ++ ns).*1) by (intros Hq; rewrite Forall_forall in Hlt; specialize (Hlt q Hq); lia).
  assert (He : ∀ r, r ∈ (concat nss ++ ns).*1 → h1 !! r = db_heap st !! r).
  { intros r Hr. apply lookup_insert_ne. intros <-. by apply Hq. }
  rewrite fmap_app in Hq, He. apply not_elem_of_app in Hq as [Hq1 Hq2].
  assert (Hcur1 : orepr h1 l ns v) by (apply (orepr_ext (db_heap st)); [done|]; intros r Hr; apply He, elem_of_app; by right).
  destruct (insertRear_open h1 l ns v q (Aggregate.key p) p (new_next st) Hcur1) as (h' & l' & -> & Hcur' & Hsame);
    [apply lookup_insert_eq|done|]. cbn [mbind outcome_bind mret outcome_ret]. eexists. split; [reflexivity|].
  split; [done|]. split; [|done]. exists ls, l', nss, (ns ++ [(q, (Aggregate.key p, p))]).
  cbn [input_datapoints db_heap Aggregate.fresh]. split_and!; try done.
  - rewrite length_app. cbn [length]. rewrite Nat.add_1_r. cbn [pred].
    rewrite insert_app_r_alt by lia. by rewrite Nat.sub_diag.
  - apply (Forall2_repr_ext h1); [apply (Forall2_repr_ext (db_heap st)); [done|]; intros r Hr; apply He, elem_of_app; by left|].
    intros r Hr. apply Hsame. rewrite fmap_app in Hn. apply NoDup_app in Hn as (_ & Hd & _). by apply Hd.
  - unfold points. by rewrite map_app.
  - rewrite (assoc_L (++)), fmap_app. apply NoDup_app. split; [done|]. split; [|apply NoDup_singleton].
    intros r Hr. cbn. rewrite list_elem_of_singleton. intros ->. rewrite fmap_app, elem_of_app in Hr. tauto.
  - rewrite (assoc_L (++)), fmap_app. apply Forall_app. split; [|cbn; apply Forall_singleton; unfold q; lia].
    eapply Forall_impl; [exact Hlt|]. cbn. intros; lia.
  - rewrite (assoc_L (++)), length_app. cbn. lia.
Qed.

(** The points of a list of samples when [a_new_point] holds [g]. *)
Definition parsed_list (g : Aggregate.datapoint) (run : list measured) : list Aggregate.datapoint :=
  match run with [] => [] | m :: run => parsed m g :: map point_of run end.


Lemma parsed_list_zero r : parsed_list zero_point r = map point_of r.
Proof. by destruct r. Qed.

Lemma read_points t r st finished cur v :
  nan_text_ok t → Forall well_sampled r → r ≠ [] → db_holds st finished cur v →
  mallocs (length r)
    (λ st', db_holds st' finished (cur ++ parsed_list (a_new_point st) r) (match r with [_] => new_next st | _ => Null end) ∧
       a_new_point st' = zero_point ∧ new_next st' = Null)
    (db_mallocs st) (run read_line (concat (map (point_lines t) r)) st).
Proof.
  intros Ht. revert st cur v. induction r as [|m r IH]; intros st cur v Hw Hne H; [done|].
  apply Forall_cons_1 in Hw as [Hm Hw]. cbn [map concat]. rewrite run_app, read_point by done.
  eapply (mallocs_bind 1 (length r)); [by eapply complete_point_holds|]. cbn beta. intros st1 (H1 & Hz & Hn).
  destruct r as [|m2 r]; [right; exists st1; by repeat split|].
  eapply mallocs_weaken; [exact (IH st1 _ (new_next st) Hw ltac:(done) H1)|]. cbn beta. intros st2 (H2 & Hz2 & Hn2). split; [|done].
  rewrite Hz, Hn, parsed_list_zero, <-(assoc_L (++)) in H2. by destruct r.
Qed.

(** All the runs are complete. *)
Definition db_done (st : db_state) (runs : list (list Aggregate.datapoint)) : Prop :=
  ∃ nss, Forall2 (repr (db_heap st)) (input_datapoints st) nss ∧ map points nss = runs ∧
    NoDup (concat nss).*1 ∧ Forall (λ p, (p < Aggregate.fresh st)%nat) (concat nss).*1 ∧ (length (concat nss) < Aggregate.fresh st)%nat.

Lemma db_done_init g m : db_done (db_init g m) [].
Proof.
  exists []. split; [constructor|]. split; [done|]. split; [apply NoDup_nil_2|]. split; [constructor|cbn; lia].
Qed.

Lemma db_holds_done st finished cur : db_holds st finished cur Null → db_done st (finished ++ [cur]).
Proof.
  intros (ls & l & nss & ns & Hin & Hdone & Hcur & <- & <- & Hn & Hlt & Hlen). exists (nss ++ [ns]).
  rewrite concat_app. cbn [concat]. rewrite app_nil_r, map_app, Hin. split_and!; try done.
  apply Forall2_app; [done|]. constructor; [by apply orepr_repr|constructor].
Qed.

Lemma new_run_holds st runs v :
  db_done st runs → Z.of_nat (length runs) < MAX_RUNS →
  mallocs 1 (λ st', db_holds st' runs [] v ∧ a_new_point st' = a_new_point st ∧ new_next st' = new_next st)
    (db_mallocs st) (read_line new_machine_line st).
Proof.
  intros (nss & Hr & <- & Hn & Hlt & Hlen) Hb. unfold read_line. rewrite bool_decide_eq_true_2 by done.
  apply Forall2_length in Hr as Hl. rewrite length_map in Hb. rewrite (proj2 (Z.leb_gt _ _)) by lia.
  destruct (db_mallocs st) as [|k]; [left; split; [done|lia]|right]. cbn [malloc mbind outcome_bind].
  eexists. split; [reflexivity|]. split; [done|]. split; [|done]. exists (input_datapoints st), initList, nss, [].
  cbn [input_datapoints db_heap Aggregate.fresh]. rewrite app_nil_r. split_and!; try done. split_and!; [done|apply NoDup_nil_2|done].
Qed.

Definition run_lines (t : list Z) (r : list measured) : list (list Z) := new_machine_line :: concat (map (point_lines t) r).

Lemma read_run t r st runs :
  nan_text_ok t → Forall well_sampled r → (2 <= length r)%nat → db_done st runs → Z.of_nat (length runs) < MAX_RUNS →
  mallocs (1 + length r) (λ st', db_done st' (runs ++ [parsed_list (a_new_point st) r]) ∧ a_new_point st' = zero_point)
    (db_mallocs st) (run read_line (run_lines t r) st).
Proof.
  intros Ht Hw Hl Hd Hb. unfold run_lines. cbn [run].
  eapply mallocs_bind; [by apply (new_run_holds st runs Null)|]. cbn beta. intros st1 (H1 & Hz & _).
  assert (r ≠ []) as Hne by (by intros ->; cbn in Hl; lia).
  eapply mallocs_weaken; [by apply (read_points t r st1 runs [] Null)|]. cbn beta. intros st2 (H2 & Hz2 & _).
  rewrite Hz in H2. split; [|done]. destruct r as [|m [|m2 r]]; [cbn in Hl; lia..|]. by apply db_holds_done.
Qed.

(** The points of a database: [g] gets into the first one. *)
Definition parsed_runs (g : Aggregate.datapoint) (runs : list (list measured)) : list (list Aggregate.datapoint) :=
  match runs with [] => [] | r :: runs => parsed_list g r :: map (map point_of) runs end.

Lemma parsed_runs_zero runs : parsed_runs zero_point runs = map (map point_of) runs.
Proof. destruct runs; cbn; [done|]. by rewrite parsed_list_zero. Qed.

Lemma read_runs t runs st before :
  nan_text_ok t → Forall (λ r, Forall well_sampled r ∧ (2 <= length r)%nat) runs → db_done st before →
  Z.of_nat (length before) + Z.of_nat (length runs) <= MAX_RUNS →
  mallocs (length runs + length (concat runs)) (λ st', db_done st' (before ++ parsed_runs (a_new_point st) runs))
    (db_mallocs st) (run read_line (concat (map (run_lines t) runs)) st).
Proof.
  intros Ht. revert st before. induction runs as [|r runs IH]; intros st before Hw Hd Hb.
  - right. exists st. cbn [parsed_runs]. by rewrite app_nil_r.
  - apply Forall_cons_1 in Hw as [[Hr Hl] Hw]. cbn [map concat length] in *. rewrite run_app, length_app.
    replace (S (length runs) + _)%nat with ((1 + length r) + (length runs + length (concat runs)))%nat by lia.
    eapply mallocs_bind; [apply (read_run t r st before Ht Hr Hl Hd); lia|]. cbn beta. intros st1 (H1 & Hz).
    eapply mallocs_weaken; [apply (IH st1 _ Hw H1); rewrite length_app; cbn; lia|]. cbn beta. intros st2 H2.
    by rewrite Hz, parsed_runs_zero, <-(assoc_L (++)) in H2.
Qed.

(** The file that is read is the one that was printed. *)
Definition database_ok (t : list Z) (runs : list (list measured)) : Prop :=
  Z.of_nat (length runs) <= MAX_RUNS ∧
  Forall (λ r, Forall (λ m, well_sampled m ∧ short_lines t m) r ∧ (2 <= length r)%nat ∧ Z.of_nat (length r) + 2 < 2 ^ 32) runs.

Lemma database_lines t runs :
  nan_text_ok t → database_ok t runs → file_lines (database_text t runs) = concat (map (run_lines t) runs).
Proof.
  intros Ht [_ Hok]. assert (H : Forall file_line (concat (map (run_lines t) runs)) ∧
    concat (concat (map (run_lines t) runs)) = database_text t runs).
  { unfold database_text. induction Hok as [|r runs (Hr & _) _ [IH1 IH2]]; [done|]. cbn [map concat].
    rewrite concat_app, IH2. unfold run_lines, run_text. cbn [concat].
    assert (Hp : Forall file_line (concat (map (point_lines t) r)) ∧ concat (concat (map (point_lines t) r)) = concat (map (point_text t) r)).
    { induction Hr as [|m r [Hm Hs] _ [J1 J2]]; [done|]. cbn [map concat]. destruct (point_lines_ok t m Ht Hm Hs) as [K1 K2].
      rewrite concat_app, J2, K2. split; [by apply Forall_app|done]. }
    destruct Hp as [Hp ->]. split; [|done]. apply Forall_app. split; [|done]. constructor; [|done].
    split; [done|]. split; [apply (bool_decide_unpack _); vm_compute; exact I|].
    exists (take 41 new_machine_line). split; [reflexivity|]. apply (bool_decide_unpack _). vm_compute. exact I. }
  destruct H as [H1 H2]. by rewrite <-H2, file_lines_concat.
Qed.

(** ** The aggregation only looks at the times and the values *)
Definition strip (p : Aggregate.datapoint) : Aggregate.datapoint := Datapoint (Aggregate.key p) zero zero_slopes (values p).

Lemma windows_strip start w rest :
  windows (strip start) (map strip w) (map strip rest)
    = map (λ wb, (map strip wb.1, strip wb.2)) (windows start w rest).
Proof.
  revert start w. induction rest as [|p rest IH]; intros start w; [done|]. cbn [map windows Aggregate.key strip].
  replace (bool_decide (map strip rest = [])) with (bool_decide (rest = [])) by (by destruct rest).
  destruct (_ || _); [cbn [map]; f_equal; apply (IH p [p])|].
  rewrite <-IH, map_app. done.
Qed.

Lemma sum_values_strip w : sum_values (map strip w) = sum_values w.
Proof.
  unfold sum_values. generalize zero_features. induction w as [|p w IH]; intros a; [done|]. apply IH.
Qed.

Lemma summary_strip tk w b : summary tk (map strip w, strip b) = summary tk (w, b).
Proof. unfold summary. rewrite sum_values_strip, length_map. by destruct w. Qed.

Lemma aggregate_spec_strip l : aggregate_spec (map strip l) = aggregate_spec l.
Proof.
  destruct l as [|p l]; [done|]. cbn [map aggregate_spec].
  change [strip p] with (map strip [p]). rewrite windows_strip, map_map.
  replace (Aggregate.key (default (strip p) (last (map strip l)))) with (Aggregate.key (default p (last l))).
  - apply map_ext. intros [w b]. apply summary_strip.
  - change (map strip l) with (strip <$> l). rewrite fmap_last. by destruct (last l).
Qed.

Lemma strip_parsed g r : map strip (parsed_list g r) = map strip (map point_of r).
Proof. by destruct r. Qed.

Lemma too_large_strip w : too_large (map strip w) ↔ too_large w.
Proof. unfold too_large. by rewrite sum_values_strip. Qed.

(** Points whose sum is too large come from samples whose sum is. *)
Lemma too_large_samples g r a v b :
  parsed_list g r = a ++ v ++ b → too_large v → ∃ a' v' b', r = a' ++ v' ++ b' ∧ too_large (map point_of v').
Proof.
  intros E Hv. apply (f_equal (map strip)) in E. rewrite strip_parsed, !map_app, map_map in E.
  apply map_eq_app in E as (a' & r' & -> & _ & E). apply map_eq_app in E as (v' & b' & -> & E & _).
  exists a', v', b'. split; [done|]. by rewrite <-too_large_strip, map_map, E, too_large_strip.
Qed.

(** ** All the runs *)
Lemma aggregate_all fuel h lists nss m out :
  Forall2 (repr h) lists nss →
  Forall (λ ns, (length ns <= fuel)%nat ∧ (2 <= length ns)%nat ∧ Z.of_nat (length ns) + 2 < 2 ^ 32) nss →
  aggregate fuel h lists m out = Fault SignedOverflow ∧ (∃ r a v b, r ∈ map points nss ∧ r = a ++ v ++ b ∧ too_large v) ∨
  aggregate fuel h lists m out = Fault NullDeref ∧ (m < length (concat (map aggregate_spec (map points nss))))%nat ∨
  aggregate fuel h lists m out = Val (Some (out ++ concat (map aggregate_spec (map points nss)))) ∧
    (length (concat (map aggregate_spec (map points nss))) <= m)%nat.
Proof.
  intros H. revert m out. induction H as [|l ns lists nss Hr _ IH]; intros m out Hok;
    [right; right; cbn; rewrite app_nil_r; split; [done|lia]|].
  apply Forall_cons_1 in Hok as [(H1 & H2 & H3) Hok]. cbn [aggregate map concat]. rewrite length_app.
  destruct (aggregate_run_spec fuel h l ns m out Hr H1 H2 H3) as [[-> (a & v & b & E & Hv)]|[[-> Hm]|(m' & -> & ->)]];
    cbn [mbind outcome_bind].
  - left. split; [done|]. exists (points ns), a, v, b. split; [by left|done].
  - right; left. split; [done|lia].
  - destruct (IH m' (out ++ aggregate_spec (points ns)) Hok) as [[-> (r & a & v & b & Hin & E & Hv)]|[[-> Hm]|[-> Hm]]].
    + left. split; [done|]. exists r, a, v, b. split; [by right|done].
    + right; left. split; [done|lia].
    + right; right. rewrite <-(assoc_L (++)). split; [done|lia].
Qed.

Lemma parsed_runs_elem g runs r : r ∈ parsed_runs g runs → ∃ g' r0, r0 ∈ runs ∧ r = parsed_list g' r0.
Proof.
  destruct runs as [|r0 runs]; cbn; [by intros ?%not_elem_of_nil|]. intros [->|H]%elem_of_cons; [exists g, r0; split; [by left|done]|].
  change (map (map point_of) runs) with (map point_of <$> runs) in H. apply list_elem_of_fmap in H as (r1 & -> & H1).
  exists zero_point, r1. split; [by right|]. by rewrite parsed_list_zero.
Qed.

Lemma parsed_runs_spec g runs :
  map aggregate_spec (parsed_runs g runs) = map (λ r, aggregate_spec (map point_of r)) runs.
Proof.
  destruct runs as [|r runs]; [done|]. cbn [parsed_runs map]. rewrite map_map. f_equal.
  by rewrite <-aggregate_spec_strip, strip_parsed, aggregate_spec_strip.
Qed.

Lemma length_parsed_list g r : length (parsed_list g r) = length r.
Proof. destruct r; cbn; [done|]. by rewrite length_map. Qed.

Lemma length_points ns : length (points ns) = length ns.
Proof. apply length_map. Qed.

Lemma in_concat_length {A} (ls : list (list A)) l : l ∈ ls → (length l <= length (concat ls))%nat.
Proof. induction ls as [|k ls IH]; [by intros ?%not_elem_of_nil|]. cbn. rewrite length_app. intros [->|H%IH]%elem_of_cons; lia. Qed.

(** ** Properties *)

(** The windows of a database, with the values as they read back. *)
Definition database_windows (runs : list (list measured)) : list Aggregate.datapoint :=
  concat (map (λ r, aggregate_spec (map point_of r)) runs).

(** The calls of [malloc]: for the list of the output, for every run and every
    datapoint that is read, for every window. *)
Definition database_mallocs (runs : list (list measured)) : nat :=
  1 + length runs + length (concat runs) + length (database_windows runs).

(** C8.  The whole program against its reference, when [m] calls of [malloc]
    succeed: on the database the client's texts make, at most 1024 runs of at least
    two datapoints with lines that fit, the output is the header and, run by run, a
    row for each window of [aggregate_spec], for the values as they read back from
    their six decimals; nothing depends on what [a_new_point] held.  The only faults
    are an overflow of a sum of [int]s over consecutive datapoints of a run, and a
    [NULL] from [malloc] when [m] is less than what the list of the output, the
    runs, the datapoints and the windows need.  Without its conditions it is false:
    [single_datapoint_divides_by_zero] and [empty_run_crashes] of Aggregate.v. *)
Theorem database_to_csv t g m runs :
  nan_text_ok t → database_ok t runs →
  aggregate_file t g m (database_text t runs) = Fault SignedOverflow ∧
    (∃ r a v b, r ∈ runs ∧ r = a ++ v ++ b ∧ too_large (map point_of v)) ∨
  aggregate_file t g m (database_text t runs) = Fault NullDeref ∧ (m < database_mallocs runs)%nat ∨
  aggregate_file t g m (database_text t runs) = Val (Some (write_aggregated_file t (database_windows runs))) ∧
    (database_mallocs runs <= m)%nat.
Proof.
  intros Ht Hok. unfold aggregate_file, read_db_file, database_mallocs. rewrite database_lines by done. destruct Hok as [Hb Hok].
  destruct m as [|m]; [right; left; split; [done|lia]|]. cbn [malloc mbind outcome_bind].
  destruct (read_runs t runs (db_init g m) [] Ht) as [[-> Hm]|(st & -> & Hm & nss & Hr & Hp & _ & _ & Hlen)].
  - eapply Forall_impl; [exact Hok|]. intros r (Hr & Hl & _). split; [|done]. eapply Forall_impl; [exact Hr|]. by intros ? [? _].
  - apply db_done_init.
  - done.
  - right; left. split; [done|]. cbn in Hm. lia.
  - cbn [mbind outcome_bind app a_new_point db_init db_mallocs] in *.
    assert (concat (map aggregate_spec (map points nss)) = database_windows runs) as Hw by (by rewrite Hp, parsed_runs_spec).
    destruct (aggregate_all (Aggregate.fresh st) (db_heap st) (input_datapoints st) nss (db_mallocs st) [] Hr)
      as [[-> (r & a & v & b & Hin & E & Hv)]|[[-> Hl]|[-> Hl]]].
    + apply Forall_forall. intros ns Hns. apply in_concat_length in Hns as Hle. split; [lia|].
      assert (points ns ∈ parsed_runs g runs) as Hin by (rewrite <-Hp; by apply (list_elem_of_fmap_2 points)).
      apply parsed_runs_elem in Hin as (g' & r0 & Hr0 & E). rewrite Forall_forall in Hok. destruct (Hok r0 Hr0) as (_ & H2 & H3).
      by rewrite <-length_points, E, length_parsed_list.
    + left. split; [done|]. rewrite Hp in Hin. apply parsed_runs_elem in Hin as (g' & r0 & Hr0 & ->).
      destruct (too_large_samples g' r0 a v b E Hv) as (a' & v' & b' & E' & Hv'). by exists r0, a', v', b'.
    + right; left. split; [done|]. rewrite Hw in Hl. lia.
    + right; right. cbn [mbind outcome_bind mret outcome_ret option_map app]. rewrite Hw in *. split; [done|lia].
Qed.

(** ** Witness: two runs, of four points and of two *)
Definition a_measure (time mem : Z) : measured :=
  (4, Sample (f64_of_Z time) (print_int 4 ++ [10]) [1000; mem; 1000 - mem; 0; 0; 0] [0; 0; 0]
        [f32_of_Z 1; f32_of_Z 0; f32_of_Z 2; f32_of_Z 0; f32_of_Z 0; f32_of_Z 97]).
Definition a_database : list (list measured) :=
  [[a_measure 0 100; a_measure 10 200; a_measure 20 600; a_measure 30 900]; [a_measure 0 50; a_measure 3 60]].

Lemma database_to_csv_witness :
  aggregate_file (chars "nan") zero_point 12 (database_text (chars "nan") a_database)
    = Val (Some (csv_header ++ chars "30.000000, 10.000000, -0.000000, 250.000000, -250.000000, -0.000000, -0.000000, -0.000000, -0.000000, -0.000000, -0.000000, -0.000000, -0.000000, -0.000000, -0.000000, -0.000000, 4, 150, 850, 0, 0, 0, 0, 0, 1.000000, 0.000000, 2.000000, 0.000000, 0.000000, 97.000000
10.000000, 10.000000, -0.000000, 300.000000, -300.000000, -0.000000, -0.000000, -0.000000, -0.000000, -0.000000, -0.000000, -0.000000, -0.000000, -0.000000, -0.000000, -0.000000, 4, 600, 400, 0, 0, 0, 0, 0, 1.000000, 0.000000, 2.000000, 0.000000, 0.000000, 97.000000
3.000000, 3.000000, -0.000000, 10.000000, -10.000000, -0.000000, -0.000000, -0.000000, -0.000000, -0.000000, -0.000000, -0.000000, -0.000000, -0.000000, -0.000000, -0.000000, 4, 50, 950, 0, 0, 0, 0, 0, 1.000000, 0.000000, 2.000000, 0.000000, 0.000000, 97.000000
")).
Proof.
  destruct (database_to_csv (chars "nan") zero_point 12 a_database) as [[H _]|[[H _]|[H _]]].
  - by left.
  - apply (bool_decide_unpack _). vm_compute. exact I.
  - vm_compute in H. discriminate H.
  - vm_compute in H. discriminate H.
  - rewrite H. vm_compute. reflexivity.
Defined.
