(* ===== verification/Repmat.v ===== *)
(** * model_build/lasso/sub/repmatC.c: [memrep] and [repmat]

    Repeating a block of memory by doubling, and an array along each of its
    dimensions.  A memory object is the list of its bytes; [memcpy] outside it,
    or between overlapping ranges, is a fault. *)
From S2P Require Import Prelude.
Open Scope Z_scope.

(** [memcpy(dst, src, n)] between two objects, at offsets *)
Definition copy_between (mem : list Z) (dst : Z) (from : list Z) (src n : Z) : outcome (list Z) :=
  if decide (0 <= dst ∧ 0 <= src ∧ 0 <= n ∧ dst + n <= Z.of_nat (length mem) ∧ src + n <= Z.of_nat (length from)) then
    Val (take (Z.to_nat dst) mem ++ take (Z.to_nat n) (drop (Z.to_nat src) from) ++ drop (Z.to_nat dst + Z.to_nat n) mem)
  else Fault OutOfBounds.

(** ... and inside one *)
Definition memcpy (mem : list Z) (dst src n : Z) : outcome (list Z) :=
  if decide (dst + n <= src ∨ src + n <= dst) then copy_between mem dst mem src n else Fault OutOfBounds.

(** The recursion of the fast version; [fuel] bounds its depth, and [None] is a
    call that has not returned within it. *)
Fixpoint memrep (fuel : nat) (mem : list Z) (dest chunk rep : Z) : outcome (option (list Z)) :=
  match fuel with
  | O => Val None
  | S fuel =>
      if rep =? 1 then mret (Some mem)
      else
        mem ← memcpy mem (dest + chunk) dest chunk;
        '(mem, dest) ← (if Z.testbit rep 0 then
                          let dest := dest + chunk in
                          mem ← memcpy mem (dest + chunk) dest chunk; mret (mem, dest)
                        else mret (mem, dest));
        memrep fuel mem dest (u64 (Z.shiftl chunk 1)) (Z.shiftr rep 1)
  end.

(** The slow version, kept in the source under [#if 0]: [for (i = 1; i < rep; i++)]. *)
Fixpoint memrep_slow_loop (n : nat) (mem : list Z) (dest chunk p : Z) : outcome (list Z) :=
  match n with
  | O => mret mem
  | S n => mem ← memcpy mem (p + chunk) dest chunk; memrep_slow_loop n mem dest chunk (p + chunk)
  end.
Definition memrep_slow (mem : list Z) (dest chunk rep : Z) : outcome (list Z) :=
  memrep_slow_loop (Z.to_nat (rep - 1)) mem dest chunk dest.

(** ** repmat

    [int chunk] becomes a [size_t] in the calls of [memcpy] and [memrep].  The
    recursion of [memrep] halves an [int], so 32 steps are enough for one that
    ends; [None] is a [memrep] that goes on. *)
Definition memrep_fuel : nat := 32.

(** [for (i = 0; i < dims[d]; i++)] over the slices *)
Fixpoint repmat_slices (slice : Z → list Z → outcome (option (list Z))) (n : nat) (i : Z) (mem : list Z)
    : outcome (option (list Z)) :=
  match n with
  | O => mret (Some mem)
  | S n => mem ←? slice i mem; repmat_slices slice n (i + 1) mem
  end.

Section Arrays.
Variables (destdimsize dimsize dims rep : list Z) (from : list Z).

Fixpoint repmat (ndim : nat) (mem : list Z) (dest src : Z) : outcome (option (list Z)) :=
  match ndim with
  | O => Fault OutOfBounds          (* dims[-1] *)
  | S d =>
      st ←? match d with
            | O =>
                chunk ← arr_get dimsize 0;
                mem ← copy_between mem dest from src (u64 chunk);
                mret (Some (mem, chunk))
            | S d' =>
                n ← arr_get dims (Z.of_nat d);
                mem ←? repmat_slices (λ i mem,
                         D ← arr_get destdimsize (Z.of_nat d');
                         S ← arr_get dimsize (Z.of_nat d');
                         i1 ← int_result (i * D);
                         i2 ← int_result (i * S);
                         repmat d mem (dest + i1) (src + i2)) (Z.to_nat n) 0 mem;
                D ← arr_get destdimsize (Z.of_nat d');
                chunk ← int_result (D * n);
                mret (Some (mem, chunk))
            end;
      r ← arr_get rep (Z.of_nat d);
      memrep memrep_fuel st.1 dest (u64 st.2) r
  end.
End Arrays.

(** [n] copies of [b]. *)
Definition copies (n : nat) (b : list Z) : list Z := concat (replicate n b).

Lemma copies_S n b : copies (S n) b = b ++ copies n b.
Proof. done. Qed.
Lemma copies_snoc n b : copies (S n) b = copies n b ++ b.
Proof. induction n as [|n IH]; [by rewrite copies_S, app_nil_r|]. rewrite copies_S, IH at 1. by rewrite (assoc_L (++)). Qed.
Lemma length_copies n b : length (copies n b) = (n * length b)%nat.
Proof. induction n as [|n IH]; [done|]. rewrite copies_S, length_app, IH. lia. Qed.
Lemma copies_double n b : copies n (b ++ b) = copies (2 * n) b.
Proof.
  induction n as [|n IH]; [done|]. replace (2 * S n)%nat with (S (S (2 * n))) by lia.
  by rewrite copies_S, IH, !copies_S, (assoc_L (++)).
Qed.

(** Copying a block to a place after it. *)
Lemma memcpy_block p b q r :
  (length b <= length r)%nat →
  memcpy (p ++ b ++ q ++ r) (Z.of_nat (length (p ++ b ++ q))) (Z.of_nat (length p)) (Z.of_nat (length b))
    = Val (p ++ b ++ q ++ b ++ drop (length b) r).
Proof.
  intros Hl. unfold memcpy, copy_between. rewrite !decide_True by (rewrite !length_app; lia). f_equal.
  rewrite !Nat2Z.id, (drop_app_length p), (take_app_length b).
  replace (p ++ b ++ q ++ r) with ((p ++ b ++ q) ++ r) by by rewrite <-!(assoc_L (++)).
  rewrite take_app_length. rewrite drop_app_add. by rewrite <-!(assoc_L (++)).
Qed.

Lemma memrep_slow_loop_spec n done_ p b r :
  (n * length b <= length r)%nat →
  memrep_slow_loop n (p ++ b ++ copies done_ b ++ r) (Z.of_nat (length p)) (Z.of_nat (length b))
      (Z.of_nat (length p + done_ * length b))
    = Val (p ++ b ++ copies (done_ + n) b ++ drop (n * length b) r).
Proof.
  revert done_ r. induction n as [|n IH]; intros k r Hl; cbn [memrep_slow_loop].
  - by rewrite Nat.add_0_r, drop_0.
  - replace (Z.of_nat (length p + k * length b) + Z.of_nat (length b)) with (Z.of_nat (length (p ++ b ++ copies k b)))
      by (rewrite !length_app, length_copies; lia).
    rewrite memcpy_block by lia. cbn [mbind outcome_bind].
    replace (length (p ++ b ++ copies k b)) with (length p + S k * length b)%nat
      by (rewrite !length_app, length_copies; lia).
    replace (p ++ b ++ copies k b ++ b ++ drop (length b) r) with (p ++ b ++ copies (S k) b ++ drop (length b) r)
      by (by rewrite (copies_snoc k b), <-!(assoc_L (++))).
    rewrite IH by (rewrite length_drop; lia). rewrite drop_drop. do 5 f_equal; lia.
Qed.

Lemma memrep_slow_spec p b r rep :
  1 <= rep → (rep - 1) * Z.of_nat (length b) <= Z.of_nat (length r) →
  memrep_slow (p ++ b ++ r) (Z.of_nat (length p)) (Z.of_nat (length b)) rep
    = Val (p ++ copies (Z.to_nat rep) b ++ drop (Z.to_nat (rep - 1) * length b) r).
Proof.
  intros Hrep Hl. unfold memrep_slow.
  pose proof (memrep_slow_loop_spec (Z.to_nat (rep - 1)) 0 p b r ltac:(nia)) as H.
  rewrite Nat.add_0_r in H. change (copies 0 b) with (@nil Z) in H. cbn [app Nat.add Init.Nat.mul] in H.
  rewrite H. f_equal. f_equal.
  replace (Z.to_nat rep) with (S (Z.to_nat (rep - 1))) by lia. by rewrite copies_S, <-(assoc_L (++)).
Qed.

Lemma memrep_spec fuel p b r rep :
  1 <= rep < 2 ^ Z.of_nat fuel → (rep - 1) * Z.of_nat (length b) <= Z.of_nat (length r) →
  Z.of_nat (length (b ++ r)) < 2 ^ 64 →
  memrep fuel (p ++ b ++ r) (Z.of_nat (length p)) (Z.of_nat (length b)) rep
    = Val (Some (p ++ copies (Z.to_nat rep) b ++ drop (Z.to_nat (rep - 1) * length b) r)).
Proof.
  revert p b r rep. induction fuel as [|fuel IH]; intros p b r rep Hrep Hl H64; [cbn in Hrep; lia|].
  cbn [memrep]. destruct (Z.eqb_spec rep 1) as [->|Hne].
  { change (Z.to_nat (1 - 1) * length b)%nat with 0%nat. change (copies (Z.to_nat 1) b) with (b ++ []).
    by rewrite drop_0, app_nil_r. }
  rewrite Nat2Z.inj_succ, Z.pow_succ_r in Hrep by lia. rewrite length_app in H64.
  assert (Hb : Z.of_nat (length b) <= Z.of_nat (length r)) by nia.
  pose proof (memcpy_block p b [] r ltac:(lia)) as Hcpy. cbn [app] in Hcpy. rewrite app_nil_r, length_app, Nat2Z.inj_add in Hcpy.
  rewrite Hcpy. cbn [mbind outcome_bind].
  rewrite Z.bit0_odd, Z.shiftr_div_pow2, Z.shiftl_mul_pow2 by lia. change (2 ^ 1) with 2.
  assert (Hc : u64 (Z.of_nat (length b) * 2) = Z.of_nat (length (b ++ b))).
  { rewrite length_app, u64_id; [lia|]. unfold is_u64. lia. }
  pose proof (Z.div_mod rep 2 ltac:(lia)) as Hdiv. rewrite Zmod_odd in Hdiv.
  destruct (Z.odd rep) eqn:Ho.
  - (* an odd number: the first copy stays outside *)
    assert (Hrep3 : 2 * Z.of_nat (length b) <= (rep - 1) * Z.of_nat (length b)) by (apply Z.mul_le_mono_nonneg_r; lia).
    assert (Hb2 : (length b + length b <= length r)%nat) by lia.
    pose proof (memcpy_block (p ++ b) b [] (drop (length b) r) ltac:(rewrite length_drop; lia)) as Hcpy2.
    cbn [app] in Hcpy2. rewrite app_nil_r, drop_drop in Hcpy2. rewrite !length_app, !Nat2Z.inj_add in Hcpy2.
    replace (p ++ b ++ b ++ drop (length b) r) with ((p ++ b) ++ b ++ drop (length b) r) by by rewrite <-!(assoc_L (++)).
    rewrite Hcpy2. cbn [mbind outcome_bind mret outcome_ret].
    rewrite Hc. replace (Z.of_nat (length p) + Z.of_nat (length b)) with (Z.of_nat (length (p ++ b))) by (rewrite length_app; lia).
    rewrite (assoc_L (++) b b).
    rewrite (IH (p ++ b) (b ++ b) (drop (length b + length b) r) (rep / 2)).
    + do 2 f_equal. rewrite copies_double, drop_drop, <-(assoc_L (++)). f_equal.
      rewrite (assoc_L (++)), <-copies_S. f_equal; [f_equal; lia|]. f_equal. rewrite length_app.
      assert (Z.to_nat (rep - 1) = 2 * Z.to_nat (rep / 2))%nat as -> by lia. nia.
    + lia.
    + rewrite length_app, length_drop. nia.
    + rewrite !length_app, length_drop. lia.
  - cbn [mbind outcome_bind mret outcome_ret]. rewrite Hc, (assoc_L (++) b b).
    rewrite (IH p (b ++ b) (drop (length b) r) (rep / 2)).
    + do 2 f_equal. rewrite copies_double, drop_drop. f_equal. f_equal; [f_equal; lia|]. f_equal. rewrite length_app.
      assert (Z.to_nat (rep - 1) = S (2 * Z.to_nat (rep / 2 - 1)))%nat as -> by lia. nia.
    + lia.
    + rewrite length_app, length_drop. nia.
    + rewrite !length_app, length_drop. lia.
Qed.

(** ** What [repmat] makes

    An axis is a number of slices and how often they are repeated; the last
    dimension comes first. *)
Section Tile.
Variable elt : nat.

Fixpoint size (axes : list (nat * nat)) : nat :=
  match axes with [] => elt | (n, _) :: axes => n * size axes end.
Fixpoint dest_size (axes : list (nat * nat)) : nat :=
  match axes with [] => elt | (n, r) :: axes => r * (n * dest_size axes) end.

Definition slice (i n : nat) (s : list Z) : list Z := take n (drop (i * n) s).

(** The bytes of the result. *)
Fixpoint tile (axes : list (nat * nat)) (s : list Z) : list Z :=
  match axes with
  | [] => s
  | (n, r) :: axes => copies r (concat (map (λ i, tile axes (slice i (size axes) s)) (seq 0 n)))
  end.

Lemma length_slice i n k s : (i < k)%nat → length s = (k * n)%nat → length (slice i n s) = n.
Proof. intros Hi Hs. unfold slice. rewrite length_take, length_drop. nia. Qed.

Lemma length_concat_map {A} (f : A → list Z) l n : Forall (λ x, length (f x) = n) l → length (concat (map f l)) = (length l * n)%nat.
Proof. induction 1 as [|x l Hx _ IH]; [done|]. cbn. rewrite length_app, IH, Hx. lia. Qed.

Lemma length_tile axes s : length s = size axes → length (tile axes s) = dest_size axes.
Proof.
  revert s. induction axes as [|[n r] axes IH]; intros s Hs; [done|]. cbn [tile dest_size size] in *.
  rewrite length_copies, (length_concat_map _ _ (dest_size axes)), length_seq; [done|].
  apply Forall_forall. intros i Hi%elem_of_seq. apply IH. apply (length_slice i _ n); [lia|done].
Qed.

Lemma slices_concat n k s : length s = (n * k)%nat → concat (map (λ i, slice i k s) (seq 0 n)) = s.
Proof.
  revert s. induction n as [|n IH]; intros s Hs; [by apply length_zero_iff_nil in Hs|].
  rewrite seq_S, map_app, concat_app. cbn [map concat Nat.add]. rewrite app_nil_r.
  etransitivity; [|apply (take_drop (n * k) s)]. f_equal.
  - rewrite <-(IH (take (n * k) s)) by (rewrite length_take; lia).
    f_equal. apply map_ext_in. intros i Hi%in_seq. unfold slice. rewrite !take_drop_commute, take_take. f_equal. f_equal. nia.
  - unfold slice. apply take_ge. rewrite length_drop. lia.
Qed.

Definition repeated (axes : list (nat * nat)) : Prop := Forall (λ a, 1 <= a.2)%nat axes.

Lemma size_le axes : repeated axes → (size axes <= dest_size axes)%nat.
Proof. induction 1 as [|[n r] axes Hr _ IH]; [done|]. cbn [size dest_size snd] in *.
  pose proof (Nat.mul_le_mono_l _ _ n IH). nia. Qed.

(** The arrays that [mexFunction] computes. *)
Fixpoint arrays_ok (destdimsize dimsize dims rep : list Z) (axes : list (nat * nat)) : Prop :=
  match axes with
  | [] => True
  | (n, r) :: inner =>
      let d := length inner in
      dims !! d = Some (Z.of_nat n) ∧ rep !! d = Some (Z.of_nat r) ∧ dimsize !! d = Some (Z.of_nat (size axes)) ∧
      destdimsize !! d = Some (Z.of_nat (dest_size axes)) ∧ arrays_ok destdimsize dimsize dims rep inner
  end.
End Tile.

(** ** [repmat] makes it *)
Lemma repmat_slices_spec (go : Z → list Z → outcome (option (list Z))) (f : nat → list Z) D p n i done_ r N :
  (∀ j q r, (i <= j < i + n)%nat → length q = (j * D)%nat → (D <= length r <= N)%nat →
     go (Z.of_nat j) (p ++ q ++ r) = Val (Some (p ++ q ++ f j ++ drop D r)) ∧ length (f j) = D) →
  length done_ = (i * D)%nat → (n * D <= length r <= N)%nat →
  repmat_slices go n (Z.of_nat i) (p ++ done_ ++ r)
    = Val (Some (p ++ done_ ++ concat (map f (seq i n)) ++ drop (n * D) r)).
Proof.
  revert i done_ r. induction n as [|n IH]; intros i q r Hgo Hq Hr; cbn [repmat_slices].
  - by rewrite drop_0.
  - destruct (Hgo i q r) as [E Hf]; [lia|done|lia|]. rewrite E. unfold then_. cbn [mbind outcome_bind].
    rewrite (assoc_L (++) q). replace (Z.of_nat i + 1) with (Z.of_nat (S i)) by lia.
    rewrite IH; [|intros j q' r' Hj; apply Hgo; lia|rewrite length_app; lia|rewrite length_drop; lia].
    cbn [seq map concat]. rewrite drop_drop. by rewrite <-!(assoc_L (++)).
Qed.

Lemma memrep_block p b r rep :
  (1 <= rep)%nat → Z.of_nat rep < 2 ^ 31 → (rep * length b <= length r)%nat → Z.of_nat (length r) < 2 ^ 63 →
  memrep memrep_fuel (p ++ b ++ drop (length b) r) (Z.of_nat (length p)) (u64 (Z.of_nat (length b))) (Z.of_nat rep)
    = Val (Some (p ++ copies rep b ++ drop (rep * length b) r)).
Proof.
  intros Hrep H31 Hl H63. rewrite u64_id by (unfold is_u64; nia).
  rewrite memrep_spec; [|unfold memrep_fuel; lia|rewrite length_drop; nia|rewrite length_app, length_drop; lia].
  rewrite Nat2Z.id, drop_drop. do 6 f_equal. nia.
Qed.

Lemma copy_block p r sp s sr :
  (length s <= length r)%nat → Z.of_nat (length r) < 2 ^ 63 →
  copy_between (p ++ r) (Z.of_nat (length p)) (sp ++ s ++ sr) (Z.of_nat (length sp)) (u64 (Z.of_nat (length s)))
    = Val (p ++ s ++ drop (length s) r).
Proof.
  intros Hl H63. rewrite u64_id by (unfold is_u64; lia). unfold copy_between. rewrite decide_True by (rewrite !length_app; lia).
  rewrite !Nat2Z.id, take_app_length, (drop_app_length sp), (take_app_length s). by rewrite drop_app_add.
Qed.

Section Repmat.
Variables (elt : nat) (destdimsize dimsize dims rep : list Z).
Notation size := (size elt).
Notation dest_size := (dest_size elt).

Lemma dest_size_eq n r inner : dest_size ((n, r) :: inner) = (r * (n * dest_size inner))%nat.
Proof. done. Qed.

Lemma repmat_spec axes p r sp s sr :
  axes ≠ [] → arrays_ok elt destdimsize dimsize dims rep axes → repeated axes →
  Forall (λ a, Z.of_nat a.2 < 2 ^ 31) axes → Z.of_nat (dest_size axes) < 2 ^ 31 →
  (dest_size axes <= length r)%nat → Z.of_nat (length r) < 2 ^ 63 → length s = size axes →
  repmat destdimsize dimsize dims rep (sp ++ s ++ sr) (length axes) (p ++ r) (Z.of_nat (length p)) (Z.of_nat (length sp))
    = Val (Some (p ++ tile elt axes s ++ drop (dest_size axes) r)).
Proof.
  revert p r sp s sr. induction axes as [|[n rp] inner IH]; [done|].
  intros p r sp s sr _ (Hn & Hrep & Hsz & Hdsz & Hin) [Hrp Hrps]%Forall_cons [Hb Hbs]%Forall_cons H31 Hr H63 Hs.
  cbn [fst snd] in *. assert (Hle := size_le elt inner Hrps). rewrite dest_size_eq in *.
  assert (Hb1 : ((n * dest_size inner) <= rp * (n * dest_size inner))%nat) by nia.
  cbn [repmat length]. destruct inner as [|a inner'] eqn:Ei.
  - (* the first dimension *)
    cbn [length size Repmat.dest_size Repmat.size] in *. change 0 with (Z.of_nat 0). rewrite (arr_get_nat dimsize 0 _ Hsz).
    unfold then_. cbn [mbind outcome_bind mret outcome_ret].
    rewrite <-Hs in *. rewrite copy_block by nia. cbn [mbind outcome_bind mret outcome_ret fst snd].
    rewrite (arr_get_nat rep 0 _ Hrep). cbn [mbind outcome_bind mret outcome_ret fst snd].
    rewrite memrep_block by (done || nia). cbn [tile]. by rewrite slices_concat by done.
  - destruct a as [n' r']. pose proof Hin as (_ & _ & Hsz' & Hdsz' & _).
    rewrite (arr_get_nat _ _ _ Hn). unfold then_ at 1. cbn [mbind outcome_bind]. rewrite Nat2Z.id.
    rewrite <-Ei in *. set (D := dest_size inner) in *. set (S0 := size inner) in *.
    assert (Hl : length inner = S (length inner')) by by rewrite Ei. rewrite Hl in Hrep, IH |- *.
    match goal with |- context [repmat_slices ?go _ _ _] =>
      pose proof (repmat_slices_spec go (λ i, tile elt inner (slice i S0 s)) D p n 0 [] r (length r)) as Eloop end.
    change (Z.of_nat 0) with 0 in Eloop. change (p ++ [] ++ r) with (p ++ r) in Eloop.
    rewrite Eloop; [|intros j q r0 Hj Hq Hr0|done|nia]; clear Eloop.
    + (* the copies of the whole *)
      unfold then_. cbn [mbind outcome_bind app]. set (b := concat _).
      assert (Hlb : length b = (n * D)%nat).
      { unfold b. rewrite (length_concat_map _ _ D), length_seq; [done|]. apply Forall_forall. intros i Hi%elem_of_seq.
        apply length_tile, (length_slice i _ n); [lia|done]. }
      rewrite (arr_get_nat _ _ _ Hdsz'). cbn [mbind outcome_bind].
      rewrite int_result_ok by (unfold is_s32; nia). cbn [mbind outcome_bind mret outcome_ret fst snd].
      rewrite (arr_get_nat _ _ _ Hrep). cbn [mbind outcome_bind].
      replace (Z.of_nat D * Z.of_nat n) with (Z.of_nat (length b)) by lia. rewrite <-Hlb.
      rewrite memrep_block by (done || lia). by rewrite Hlb.
    + (* a slice *)
      assert (Hs' : length s = (n * S0)%nat) by exact Hs. assert (Hjs : (j * S0 + S0 <= length s)%nat) by (rewrite Hs'; nia).
      assert (Hlen : length (slice j S0 s) = S0) by (apply (length_slice j _ n); [lia|done]).
      split; [|by apply length_tile].
      rewrite (arr_get_nat _ _ _ Hdsz'), (arr_get_nat _ _ _ Hsz'). cbn [mbind outcome_bind].
      assert (HjD : (j * D + D <= n * D)%nat) by nia. assert (HjS : (j * S0 <= j * D)%nat) by (by apply Nat.mul_le_mono_l).
      rewrite !int_result_ok by (unfold is_s32; nia). cbn [mbind outcome_bind].
      assert (Es : sp ++ s ++ sr = (sp ++ take (j * S0) s) ++ slice j S0 s ++ (drop (j * S0 + S0) s ++ sr)).
      { rewrite <-(assoc_L (++)). f_equal. rewrite (assoc_L (++) (slice _ _ _)), (assoc_L (++)). f_equal.
        unfold slice. by rewrite <-drop_drop, take_drop, take_drop. }
      replace (Z.of_nat (length p) + Z.of_nat j * Z.of_nat D) with (Z.of_nat (length (p ++ q))) by (rewrite length_app; lia).
      replace (Z.of_nat (length sp) + Z.of_nat j * Z.of_nat S0) with (Z.of_nat (length (sp ++ take (j * S0) s)))
        by (rewrite length_app, length_take, Nat.min_l by lia; lia).
      rewrite Es, (assoc_L (++) p q r0). rewrite IH; try done; try lia; [|by rewrite Ei].
      by rewrite <-!(assoc_L (++)).
Qed.
End Repmat.
(** ** Property *)

(** The doubling [memrep] ends, and does to memory what the plain loop
    does: for any number of repetitions of at least one whose copies fit in the
    object, the block is followed by its copies and nothing else changes. *)
Theorem memrep_fast_is_slow fuel p b r rep :
  1 <= rep < 2 ^ Z.of_nat fuel → (rep - 1) * Z.of_nat (length b) <= Z.of_nat (length r) →
  Z.of_nat (length (b ++ r)) < 2 ^ 64 →
  let mem := p ++ b ++ r in
  let dest := Z.of_nat (length p) in
  let chunk := Z.of_nat (length b) in
  ∃ mem', memrep fuel mem dest chunk rep = Val (Some mem') ∧ memrep_slow mem dest chunk rep = Val mem' ∧
    mem' = p ++ copies (Z.to_nat rep) b ++ drop (Z.to_nat (rep - 1) * length b) r ∧ length mem' = length mem.
Proof.
  intros Hrep Hl H64 mem dest chunk. eexists. split; [by apply memrep_spec|]. split; [apply memrep_slow_spec; lia|].
  split; [done|]. unfold mem. rewrite !length_app, length_copies, length_drop. nia.
Qed.

(** For a number of repetitions below one [memrep] does not return: the
    recursion halves it to 0 or -1 for ever, as long as the copies it makes
    stay inside the object. *)
Theorem memrep_below_one fuel mem dest rep :
  rep <= 0 → memrep fuel mem dest 0 rep = Val None ∨ ∃ f, memrep fuel mem dest 0 rep = Fault f.
Proof.
  revert mem dest rep. induction fuel as [|fuel IH]; intros mem dest rep Hrep; [by left|]. cbn [memrep].
  rewrite (proj2 (Z.eqb_neq rep 1)) by lia.
  assert (Hneg : Z.shiftr rep 1 <= 0) by (rewrite Z.shiftr_div_pow2 by lia; change (2 ^ 1) with 2; apply Z.div_le_upper_bound; lia).
  change (u64 (Z.shiftl 0 1)) with 0.
  destruct (memcpy mem (dest + 0) dest 0) as [m| | |f] eqn:E; cbn [mbind outcome_bind].
  2, 3: unfold memcpy, copy_between in E; case_decide; [case_decide|]; discriminate E.
  2: right; by exists f.
  destruct (Z.testbit rep 0); cbn [mbind outcome_bind mret outcome_ret]; [|by apply IH].
  destruct (memcpy m (dest + 0 + 0) (dest + 0) 0) as [m'| | |f] eqn:E'; cbn [mbind outcome_bind].
  2, 3: unfold memcpy, copy_between in E'; case_decide; [case_decide|]; discriminate E'.
  2: right; by exists f.
  by apply IH.
Qed.

Lemma memrep_fast_is_slow_witness :
  ∃ mem', memrep 4 [9; 1; 2; 0; 0; 0; 0; 0; 0; 0; 0; 7] 1 2 5 = Val (Some mem') ∧
    memrep_slow [9; 1; 2; 0; 0; 0; 0; 0; 0; 0; 0; 7] 1 2 5 = Val mem' ∧ mem' = [9; 1; 2; 1; 2; 1; 2; 1; 2; 1; 2; 7].
Proof.
  destruct (memrep_fast_is_slow 4 [9] [1; 2] [0; 0; 0; 0; 0; 0; 0; 0; 7] 5) as (mem' & E1 & E2 & E3 & _);
    [simpl; lia|simpl; lia|simpl; lia|].
  exists mem'. split; [exact E1|]. split; [exact E2|exact E3].
Defined.
