(* ===== verification/Tiling.v ===== *)
(** * The array [repmat] makes, by subscripts

    The reference of MATLAB: the element of the result at some subscripts is the
    element of the matrix at the subscripts modulo its dimensions.  Arrays are
    stored by columns: the first dimension varies fastest. *)
From S2P Require Import Prelude Repmat.
Open Scope Z_scope.

Definition volume (dims : list nat) : nat := foldr Nat.mul 1%nat dims.

(** The offset of the element at [subs] in an array of elements of [stride] bytes. *)
Fixpoint position (stride : nat) (dims subs : list nat) : nat :=
  match dims, subs with
  | n :: dims, i :: subs => i * stride + position (stride * n) dims subs
  | _, _ => 0
  end.

Definition in_range (dims subs : list nat) : Prop := Forall2 (λ n i, (i < n)%nat) dims subs.

(** The axes of an array, last dimension first. *)
Definition axes_of (dims reps : list nat) : list (nat * nat) := reverse (zip dims reps).

Lemma volume_app l k : volume (l ++ k) = (volume l * volume k)%nat.
Proof. unfold volume. induction l as [|n l IH]; cbn [foldr app]; [lia|]. rewrite IH. lia. Qed.

Lemma position_snoc stride dims subs n i :
  length dims = length subs → position stride (dims ++ [n]) (subs ++ [i]) = (position stride dims subs + i * (stride * volume dims))%nat.
Proof.
  revert stride subs. induction dims as [|m dims IH]; intros stride [|j subs] H; try done; cbn [position app].
  - cbn. lia.
  - injection H as H. rewrite IH by done. unfold volume. cbn [foldr]. lia.
Qed.

Lemma copies_mul a b s : copies a (copies b s) = copies (a * b) s.
Proof.
  induction a as [|a IH]; [done|]. rewrite copies_S, IH. unfold copies. cbn [Nat.mul].
  by rewrite replicate_add, concat_app.
Qed.

Lemma copies_lookup r b j : (j < r * length b)%nat → copies r b !! j = b !! (j mod length b)%nat.
Proof.
  revert j. induction r as [|r IH]; intros j Hj; [lia|]. rewrite copies_S.
  destruct (decide (j < length b)%nat) as [Hlt|Hge].
  - rewrite lookup_app_l by done. by rewrite Nat.mod_small.
  - rewrite lookup_app_r by lia. rewrite IH by lia. f_equal.
    replace j with (j - length b + 1 * length b)%nat at 2 by lia. by rewrite Nat.Div0.mod_add.
Qed.

Lemma concat_lookup {A} (f : A → list Z) l D i j x :
  Forall (λ y, length (f y) = D) l → l !! i = Some x → (j < D)%nat → concat (map f l) !! (i * D + j)%nat = f x !! j.
Proof.
  revert i. induction l as [|y l IH]; intros i HD Hi Hj; [done|]. apply Forall_cons in HD as [Hy HD]. cbn [map concat].
  destruct i as [|i].
  - injection Hi as ->. rewrite lookup_app_l by lia. f_equal.
  - rewrite lookup_app_r by lia. rewrite Hy. replace (S i * D + j - D)%nat with (i * D + j)%nat by lia. by apply IH.
Qed.

Section Tiles.
Variable elt : nat.
Notation size := (size elt).
Notation dest_size := (dest_size elt).
Notation tile := (tile elt).

(** Subscripts along the axes, last dimension first. *)
Fixpoint dest_offset (axes : list (nat * nat)) (subs : list nat) (e : nat) : nat :=
  match axes, subs with (n, r) :: axes, i :: subs => i * dest_size axes + dest_offset axes subs e | _, _ => e end.
Fixpoint src_offset (axes : list (nat * nat)) (subs : list nat) (e : nat) : nat :=
  match axes, subs with (n, r) :: axes, i :: subs => (i mod n) * size axes + src_offset axes subs e | _, _ => e end.

Lemma offsets_bound axes subs e :
  Forall2 (λ a i, (i < a.1 * a.2)%nat) axes subs → (e < elt)%nat →
  (dest_offset axes subs e < dest_size axes)%nat ∧ (src_offset axes subs e < size axes)%nat.
Proof.
  intros H He. induction H as [|[n r] i axes subs Hi _ [IH1 IH2]]; [done|]. cbn in *.
  pose proof (Nat.mod_upper_bound i n ltac:(lia)). split; [|nia].
  assert (S i * dest_size axes <= r * n * dest_size axes)%nat by (apply Nat.mul_le_mono_r; lia). lia.
Qed.

Lemma tile_lookup axes s subs e :
  length s = size axes → Forall2 (λ a i, (i < a.1 * a.2)%nat) axes subs → (e < elt)%nat →
  tile axes s !! dest_offset axes subs e = s !! src_offset axes subs e.
Proof.
  intros Hs H He. revert s Hs. induction H as [|[n r] i axes subs Hi H IH]; intros s Hs; [done|].
  cbn [Repmat.tile dest_offset src_offset Repmat.size fst snd] in *.
  destruct (offsets_bound axes subs e H He) as [B1 B2]. set (D := dest_size axes) in *. set (S0 := size axes) in *.
  assert (Hall : Forall (λ i, length (tile axes (slice i S0 s)) = D) (seq 0 n)).
  { apply Forall_forall. intros k Hk%elem_of_seq. apply length_tile, (length_slice k _ n); [lia|done]. }
  set (b := concat _). assert (Hb : length b = (n * D)%nat) by (unfold b; by rewrite (length_concat_map _ _ D), length_seq).
  pose proof (Nat.mod_upper_bound i n ltac:(lia)) as Hm.
  assert (Hmod : ((i * D + dest_offset axes subs e) mod (n * D) = (i mod n) * D + dest_offset axes subs e)%nat).
  { rewrite (Nat.div_mod_eq i n) at 1. replace ((n * (i / n) + i mod n) * D + dest_offset axes subs e)%nat
      with ((i mod n) * D + dest_offset axes subs e + (i / n) * (n * D))%nat by lia.
    rewrite Nat.Div0.mod_add. apply Nat.mod_small. nia. }
  assert (S i * D <= n * r * D)%nat by (apply Nat.mul_le_mono_r; lia).
  rewrite copies_lookup by (rewrite Hb; nia). rewrite Hb, Hmod.
  unfold b. rewrite (concat_lookup _ _ D _ _ (i mod n)%nat Hall) by (done || by rewrite lookup_seq_lt).
  rewrite IH by (apply (length_slice _ _ n); done). unfold slice.
  by rewrite lookup_take_lt, lookup_drop by done.
Qed.

(** Dimensions of one slice only make copies. *)
Lemma tile_ones rs axes s :
  length s = size axes → tile (map (λ r, (1%nat, r)) rs ++ axes) s = copies (volume rs) (tile axes s).
Proof.
  intros Hs. induction rs as [|r rs IH]; [cbn; by rewrite app_nil_r|]. cbn [map app Repmat.tile seq].
  assert (E : size (map (λ r, (1%nat, r)) rs ++ axes) = size axes).
  { clear. induction rs as [|r rs IH]; [done|]. cbn [map app Repmat.size]. lia. }
  unfold slice. rewrite E, drop_0, take_ge by lia. rewrite IH. cbn [concat]. rewrite app_nil_r. apply copies_mul.
Qed.

(** The sizes and offsets are those of arrays stored by columns. *)
Lemma axes_cons dims reps n r : length dims = length reps → axes_of (dims ++ [n]) (reps ++ [r]) = (n, r) :: axes_of dims reps.
Proof. intros H. unfold axes_of. rewrite zip_with_app by done. cbn. by rewrite reverse_app. Qed.

Lemma rev_ind2 {A B} (P : list A → list B → Prop) :
  P [] [] → (∀ l k x y, length l = length k → P l k → P (l ++ [x]) (k ++ [y])) → ∀ l k, length l = length k → P l k.
Proof.
  intros H0 HS l. induction l as [|x l IH] using rev_ind; intros k Hk; [by destruct k|].
  destruct k as [|y k] using rev_ind; [rewrite length_app in Hk; cbn in Hk; lia|].
  rewrite !length_app in Hk. cbn in Hk. apply HS; [lia|]. apply IH. lia.
Qed.

Lemma sizes_volume dims reps :
  length dims = length reps →
  size (axes_of dims reps) = (elt * volume dims)%nat ∧
  dest_size (axes_of dims reps) = (elt * volume (zip_with Nat.mul dims reps))%nat ∧ length (axes_of dims reps) = length dims.
Proof.
  intros H. pattern dims, reps. revert dims reps H. apply rev_ind2; [cbn; lia|].
  intros l k n r H (IH1 & IH2 & IH3). rewrite axes_cons, zip_with_app, !volume_app, length_app by done.
  cbn [Repmat.size Repmat.dest_size length zip_with]. rewrite IH1, IH2, IH3. unfold volume at 3 6. cbn [foldr]. lia.
Qed.

Lemma offsets_position dims reps subs e :
  length dims = length reps → length subs = length dims →
  dest_offset (axes_of dims reps) (reverse subs) e = (e + position elt (zip_with Nat.mul dims reps) subs)%nat ∧
  src_offset (axes_of dims reps) (reverse subs) e = (e + position elt dims (zip_with Nat.modulo subs dims))%nat.
Proof.
  intros H. revert subs. pattern dims, reps. revert dims reps H. apply rev_ind2; [by intros [|]; cbn; try lia|].
  intros l k n r H IH subs Hs. destruct subs as [|i subs] using rev_ind; [rewrite length_app in Hs; cbn in Hs; lia|].
  rewrite !length_app in Hs. cbn in Hs. destruct (IH subs ltac:(lia)) as [IH1 IH2]. destruct (sizes_volume l k H) as (S1 & S2 & _).
  rewrite axes_cons, reverse_app, !zip_with_app by lia. cbn [reverse rev_append app dest_offset src_offset zip_with].
  change (reverse [i] ++ reverse subs) with (i :: reverse subs). cbn [dest_offset src_offset].
  rewrite !position_snoc by (rewrite !length_zip_with; lia). rewrite IH1, IH2, S1, S2. split; lia.
Qed.

Lemma in_range_axes dims reps subs :
  length dims = length reps → in_range (zip_with Nat.mul dims reps) subs →
  Forall2 (λ a i, (i < a.1 * a.2)%nat) (axes_of dims reps) (reverse subs).
Proof.
  intros H Hr. unfold axes_of. apply Forall2_reverse. unfold in_range in Hr. revert reps subs H Hr.
  induction dims as [|n dims IH]; intros [|r reps] subs H Hr; try done; cbn in *.
  - by apply Forall2_nil_inv_l in Hr as ->.
  - apply Forall2_cons_inv_l in Hr as (i & l & Hi & Hr & ->). constructor; [done|]. apply IH; [lia|done].
Qed.

(** The element at some subscripts. *)
Lemma tile_element dims reps s subs e :
  length dims = length reps → length s = (elt * volume dims)%nat → in_range (zip_with Nat.mul dims reps) subs → (e < elt)%nat →
  tile (axes_of dims reps) s !! (e + position elt (zip_with Nat.mul dims reps) subs)%nat
    = s !! (e + position elt dims (zip_with Nat.modulo subs dims))%nat.
Proof.
  intros H Hs Hr He. destruct (sizes_volume dims reps H) as (S1 & _ & _).
  assert (Hl : length subs = length dims).
  { apply Forall2_length in Hr. rewrite length_zip_with in Hr. lia. }
  destruct (offsets_position dims reps subs e H Hl) as [<- <-].
  apply tile_lookup; [by rewrite S1|by apply in_range_axes|done].
Qed.
End Tiles.
