(* ===== verification/Mex.v ===== *)
(** * model_build/lasso/sub/repmatC.c: [mexFunction]

    The MATLAB command: the sizes of the array and of its repetition, and
    [repmat] on the real and the imaginary data.  The functions of the MATLAB
    interface are the operations of the class [Mx]; [MxLaws] is what their
    documentation says of them. *)
From Stdlib Require Import Floats.SpecFloat.
From S2P Require Import Prelude CFloat Repmat Tiling.
Open Scope Z_scope.

(** ** The MATLAB interface

    An array has its data as bytes; storing through the pointers of [mxGetData]
    and [mxGetPi] is [put_data] and [put_imag].  [mxCreateNumericArray] returns to
    MATLAB when there is no memory. *)
Class Mx (mxArray mxClassID : Type) := {
  mxIsSparse : mxArray → bool;
  mxIsCell : mxArray → bool;
  mxIsComplex : mxArray → bool;
  mxGetNumberOfDimensions : mxArray → Z;
  mxGetDimensions : mxArray → list Z;
  mxGetElementSize : mxArray → Z;
  mxGetClassID : mxArray → mxClassID;
  mxGetN : mxArray → Z;
  mxGetPr : mxArray → list f64;
  mxGetData : mxArray → list Z;
  mxGetPi : mxArray → list Z;
  mxCreateNumericArray : Z → list Z → mxClassID → bool → option mxArray;
  put_data : list Z → mxArray → mxArray;
  put_imag : list Z → mxArray → mxArray
}.

(** What happens to the command. *)
Inductive mex (mxArray : Type) :=
  | MexError                    (* back to the prompt: mexErrMsgTxt, or no memory *)
  | MexDone (plhs0 : mxArray)
  | MexRunning.                 (* a memrep that does not end *)
Arguments MexError {_}.
Arguments MexDone {_} plhs0.
Arguments MexRunning {_}.

(** [for (i = first; i < first + n; i++)] *)
Fixpoint for_loop {T} (n : nat) (i : Z) (body : Z → T → outcome T) (s : T) : outcome T :=
  match n with
  | O => mret s
  | S n => s ← body i s; for_loop n (i + 1) body s
  end.

(** [(int)x] of a [double]: towards zero, undefined when the result is no [int] *)
Definition int_of_double (x : f64) : outcome Z :=
  match x with
  | S754_zero _ => Val 0
  | S754_finite s m e =>
      let n := if 0 <=? e then Z.pos m * 2 ^ e else Z.pos m / 2 ^ (- e) in
      int_result (if s then - n else n)
  | S754_infinity _ | S754_nan => Fault SignedOverflow
  end.

(** [mxCalloc(n, sizeof(int))] *)
Definition mxCalloc (n : Z) : list Z := replicate (Z.to_nat n) 0.

(** [sizes[0] = eltsize * dims[0]; for (i = 1; i < ndim; i++) sizes[i] = sizes[i-1] * dims[i];] *)
Definition dimension_sizes (ndim eltsize : Z) (dims : list Z) : outcome (list Z) :=
  d ← arr_get dims 0;
  s ← int_result (eltsize * d);
  sizes ← arr_set (mxCalloc ndim) 0 s;
  for_loop (Z.to_nat (ndim - 1)) 1 (λ i sizes,
    p ← arr_get sizes (i - 1);
    d ← arr_get dims i;
    s ← int_result (p * d);
    arr_set sizes i s) sizes.

Section MexFunction.
Context {mxArray mxClassID : Type} `{!Mx mxArray mxClassID}.

(** [nrep], [ndimdest] and the array [rep], from the arguments after the matrix *)
Definition repetition_vector (ndim : Z) (args : list mxArray) : outcome (Z * Z * list Z) :=
  '(nrep, ndimdest, rep) ←
    match args with
    | [arg] =>
        let nrep := mxGetN arg in
        let ndimdest := Z.max ndim nrep in
        rep ← for_loop (Z.to_nat nrep) 0 (λ i rep,
                repv ← arr_get (mxGetPr arg) i;
                r ← int_of_double repv;
                arr_set rep i r) (mxCalloc ndimdest);
        if nrep =? 1 then
          r ← arr_get rep 0;
          rep ← arr_set rep 1 r;
          mret (2, ndimdest, rep)
        else mret (nrep, ndimdest, rep)
    | _ =>
        let nrep := Z.of_nat (length args) in
        let ndimdest := Z.max ndim nrep in
        rep ← for_loop (Z.to_nat nrep) 0 (λ i rep,
                arg ← arr_get args i;
                repv ← arr_get (mxGetPr arg) 0;
                r ← int_of_double repv;
                arr_set rep i r) (mxCalloc ndimdest);
        mret (nrep, ndimdest, rep)
    end;
  rep ← for_loop (Z.to_nat (ndimdest - nrep)) nrep (λ i rep, arr_set rep i 1) rep;
  mret (nrep, ndimdest, rep).

(** [destdims] and [extra_rep] *)
Definition output_size (ndim ndimdest : Z) (dims rep : list Z) : outcome (list Z * Z) :=
  destdims ← for_loop (Z.to_nat ndim) 0 (λ i destdims,
               d ← arr_get dims i;
               r ← arr_get rep i;
               s ← int_result (d * r);
               arr_set destdims i s) (mxCalloc ndimdest);
  for_loop (Z.to_nat (ndimdest - ndim)) ndim (λ i st,
    r ← arr_get rep i;
    destdims ← arr_set st.1 i r;
    extra_rep ← int_result (st.2 * r);
    mret (destdims, extra_rep)) (destdims, 1).

(** [repmat] on one part of the data, and the dimensions the matrix does not have *)
Definition fill (ndim ndimdest extra_rep : Z) (destdimsize dimsize dims rep src dest : list Z) : outcome (option (list Z)) :=
  dest ←? repmat destdimsize dimsize dims rep src (Z.to_nat ndim) dest 0 0;
  if ndim <? ndimdest then
    chunk ← arr_get destdimsize (ndim - 1);
    memrep memrep_fuel dest 0 (u64 chunk) extra_rep
  else mret (Some dest).

Definition mexFunction (prhs : list mxArray) : outcome (mex mxArray) :=
  match prhs with
  | srcmat :: ((_ :: _) as args) =>
      if mxIsSparse srcmat then mret MexError
      else if mxIsCell srcmat then mret MexError
      else
        let ndim := mxGetNumberOfDimensions srcmat in
        let dims := mxGetDimensions srcmat in
        let eltsize := mxGetElementSize srcmat in
        dimsize ← dimension_sizes ndim eltsize dims;
        '(nrep, ndimdest, rep) ← repetition_vector ndim args;
        '(destdims, extra_rep) ← output_size ndim ndimdest dims rep;
        destdimsize ← dimension_sizes ndim eltsize destdims;
        match mxCreateNumericArray ndimdest destdims (mxGetClassID srcmat) (mxIsComplex srcmat) with
        | None => mret MexError
        | Some out =>
            empty ← for_loop (Z.to_nat nrep) 0 (λ i empty, r ← arr_get rep i; mret (empty || (r =? 0))) false;
            if (empty : bool) then mret (MexDone out)
            else
              re ← fill ndim ndimdest extra_rep destdimsize dimsize dims rep (mxGetData srcmat) (mxGetData out);
              match re with
              | None => mret MexRunning
              | Some re =>
                  let out := put_data re out in
                  if mxIsComplex srcmat then
                    im ← fill ndim ndimdest extra_rep destdimsize dimsize dims rep (mxGetPi srcmat) (mxGetPi out);
                    match im with
                    | None => mret MexRunning
                    | Some im => mret (MexDone (put_imag im out))
                    end
                  else mret (MexDone out)
              end
        end
  | _ => mret MexError
  end.
End MexFunction.

(** ** The loops *)
Lemma for_loop_inv {T} (P : nat → T → Prop) n a body s :
  (∀ i s, (a <= i < a + n)%nat → P i s → ∃ s', body (Z.of_nat i) s = Val s' ∧ P (i + 1)%nat s') →
  P a s → ∃ s', for_loop n (Z.of_nat a) body s = Val s' ∧ P (a + n)%nat s'.
Proof.
  revert a s. induction n as [|n IH]; intros a s Hb Ha; cbn [for_loop].
  - exists s. split; [done|]. by rewrite Nat.add_0_r.
  - destruct (Hb a s ltac:(lia) Ha) as (s1 & E & H1). rewrite E. cbn [mbind outcome_bind].
    replace (Z.of_nat a + 1) with (Z.of_nat (a + 1)) by lia.
    replace (a + S n)%nat with (a + 1 + n)%nat by lia. apply IH; [|done]. intros i s' Hi. apply Hb. lia.
Qed.

(** Storing the entries of a list one after the other, over what [l] was. *)
Lemma for_loop_store (l : list Z) (val : nat → Z) (body : Z → list Z → outcome (list Z)) n a :
  (a + n <= length l)%nat →
  (∀ i l', (a <= i < a + n)%nat → length l' = length l → (∀ k, (k < a)%nat → l' !! k = l !! k) →
     (∀ k, (a <= k < i)%nat → l' !! k = Some (val k)) →
     body (Z.of_nat i) l' = arr_set l' (Z.of_nat i) (val i)) →
  for_loop n (Z.of_nat a) body l = Val (take a l ++ map val (seq a n) ++ drop (a + n) l).
Proof.
  intros Hl Hb.
  destruct (for_loop_inv (λ i l', l' = take a l ++ map val (seq a (i - a)) ++ drop i l ∧ (a <= i <= a + n)%nat) n a body l)
    as (s & E & -> & _).
  - intros i l' Hi [-> Hai]. set (l' := take a l ++ _) in *.
    assert (Hlen : length l' = length l).
    { unfold l'. rewrite !length_app, length_take, length_map, length_seq, length_drop. lia. }
    assert (Hlt : (i < length l)%nat) by lia. destruct (lookup_lt_is_Some_2 l i Hlt) as [x Hx].
    rewrite (Hb i l' Hi Hlen).
    + rewrite arr_set_in_bounds by lia. eexists. split; [done|]. split; [|lia]. rewrite Nat2Z.id.
      unfold l'. rewrite (drop_S l x i Hx). replace (i + 1 - a)%nat with (S (i - a)) by lia.
      rewrite seq_S, map_app. replace (a + (i - a))%nat with i by lia. cbn [map].
      rewrite (assoc_L (++) (take a l)).
      rewrite insert_app_r_alt by (rewrite length_app, length_take, length_map, length_seq; lia).
      rewrite length_app, length_take, length_map, length_seq. replace (i - (a `min` length l + (i - a)))%nat with 0%nat by lia.
      cbn. by rewrite <-!(assoc_L (++)), Nat.add_1_r.
    + intros k Hk. unfold l'. rewrite lookup_app_l by (rewrite length_take; lia). by rewrite lookup_take_lt by lia.
    + intros k Hk. unfold l'. rewrite lookup_app_r by (rewrite length_take; lia).
      rewrite lookup_app_l by (rewrite length_map, length_seq, length_take; lia).
      rewrite list_lookup_fmap. rewrite lookup_seq_lt by (rewrite length_take; lia). cbn. do 2 f_equal. rewrite length_take. lia.
  - split; [|lia]. rewrite Nat.sub_diag. cbn. by rewrite take_drop.
  - rewrite E. by replace (a + n - a)%nat with n by lia.
Qed.

Lemma for_loop_fill (val : nat → Z) (body : Z → list Z → outcome (list Z)) n l :
  length l = n →
  (∀ i l', (i < n)%nat → length l' = n → (∀ k, (k < i)%nat → l' !! k = Some (val k)) →
     body (Z.of_nat i) l' = arr_set l' (Z.of_nat i) (val i)) →
  for_loop n 0 body l = Val (map val (seq 0 n)).
Proof.
  intros Hl Hb. change 0 with (Z.of_nat 0). rewrite (for_loop_store l val); [|lia|].
  - rewrite drop_ge by lia. cbn [take app]. by rewrite app_nil_r.
  - intros i l' Hi Hl' _ Hk. apply Hb; [lia|lia|]. intros k Hk'. apply Hk. lia.
Qed.

(** ** The sizes *)
Definition fits (elt : nat) (dims : list nat) : Prop := ∀ k, Z.of_nat (elt * volume (take k dims)) < 2 ^ 31.
Definition size_at (elt : nat) (dims : list nat) (k : nat) : Z := Z.of_nat (elt * volume (take (S k) dims)).

Lemma volume_take_S dims k n : dims !! k = Some n → volume (take (S k) dims) = (volume (take k dims) * n)%nat.
Proof. intros H. rewrite (take_S_r _ _ _ H), volume_app. cbn. lia. Qed.

Lemma arr_get_map_nat l k n : l !! k = Some n → arr_get (map Z.of_nat l) (Z.of_nat k) = Val (Z.of_nat n).
Proof. intros H. apply arr_get_nat. by rewrite list_lookup_fmap, H. Qed.

Lemma dimension_sizes_spec elt dims extra :
  (1 <= length dims)%nat → fits elt dims →
  dimension_sizes (Z.of_nat (length dims)) (Z.of_nat elt) (map Z.of_nat (dims ++ extra))
    = Val (map (size_at elt dims) (seq 0 (length dims))).
Proof.
  intros Hl Hf. destruct dims as [|n dims]; [cbn in Hl; lia|]. set (ds := n :: dims) in *. unfold dimension_sizes.
  change 0 with (Z.of_nat 0). rewrite (arr_get_map_nat _ 0 n) by done. cbn [mbind outcome_bind].
  assert (H0 : Z.of_nat elt * Z.of_nat n = size_at elt ds 0). { unfold size_at, ds, volume; cbn [take foldr]. rewrite take_0. cbn [foldr]. lia. }
  assert (Hs : ∀ k, is_s32 (size_at elt ds k)) by (intros k; specialize (Hf (S k)); unfold is_s32, size_at; lia).
  rewrite H0, int_result_ok by done. cbn [mbind outcome_bind].
  rewrite arr_set_in_bounds by (unfold mxCalloc; rewrite length_replicate; lia). cbn [mbind outcome_bind].
  set (l := <[_ := _]> _). assert (Hll : length l = length ds) by (unfold l, mxCalloc; rewrite length_insert, length_replicate; lia).
  assert (Hl0 : l !! 0%nat = Some (size_at elt ds 0)).
  { unfold l. rewrite list_lookup_insert_eq; [done|]. unfold mxCalloc. rewrite length_replicate. lia. }
  change 1 with (Z.of_nat 1). rewrite (for_loop_store l (size_at elt ds)); [|lia|].
  - rewrite drop_ge by lia. rewrite app_nil_r. replace (Z.to_nat (Z.of_nat (length ds) - Z.of_nat 1)) with (length dims) by (unfold ds; cbn; lia).
    rewrite (take_S_r _ _ _ Hl0). cbn. do 2 f_equal.
  - intros i l' Hi Hl' Hpre Hk. replace (Z.of_nat i - Z.of_nat 1) with (Z.of_nat (i - 1)) by lia.
    assert (Hprev : l' !! (i - 1)%nat = Some (size_at elt ds (i - 1))).
    { destruct (decide (i = 1)%nat) as [->|Hne]; [by rewrite Hpre by lia|apply Hk; lia]. }
    rewrite (arr_get_nat _ _ _ Hprev). cbn [mbind outcome_bind].
    destruct (lookup_lt_is_Some_2 ds i) as [m Hm]; [lia|].
    rewrite (arr_get_map_nat _ i m) by (by apply lookup_app_l_Some). cbn [mbind outcome_bind].
    assert (E : size_at elt ds (i - 1) * Z.of_nat m = size_at elt ds i).
    { unfold size_at. replace (S (i - 1)) with i by lia. rewrite (volume_take_S _ _ _ Hm). lia. }
    by rewrite E, int_result_ok.
Qed.

(** [l] with ones up to [n] entries. *)
Definition pad_ones (n : nat) (l : list nat) : list nat := l ++ replicate (n - length l) 1%nat.

Lemma length_pad_ones n l : (length l <= n)%nat → length (pad_ones n l) = n.
Proof. intros H. unfold pad_ones. rewrite length_app, length_replicate. lia. Qed.

(** A bound on all the sizes: the bytes of an array, an empty dimension counting as
    one. *)
Definition room (dims : list nat) : nat := volume (map (Nat.max 1) dims).

Lemma room_pos dims : (1 <= room dims)%nat.
Proof. unfold room, volume. induction dims as [|n dims IH]; [done|]. cbn [map foldr]. nia. Qed.

Lemma volume_pos l : Forall (λ r, 1 <= r)%nat l → (1 <= volume l)%nat.
Proof. unfold volume. induction 1 as [|x l Hx _ IH]; [done|]. cbn [foldr]. exact (Nat.mul_le_mono 1 x 1 _ Hx IH). Qed.

Lemma room_app l k : room (l ++ k) = (room l * room k)%nat.
Proof. unfold room. by rewrite map_app, volume_app. Qed.

Lemma volume_le_room dims : (volume dims <= room dims)%nat.
Proof.
  unfold room, volume. induction dims as [|n dims IH]; [done|]. cbn [map foldr]. apply Nat.mul_le_mono; [lia|done].
Qed.

Lemma room_take k dims : (room (take k dims) <= room dims)%nat.
Proof. rewrite <-(take_drop k dims) at 2. rewrite room_app. pose proof (room_pos (drop k dims)). nia. Qed.

Lemma room_drop k dims : (room (drop k dims) <= room dims)%nat.
Proof. rewrite <-(take_drop k dims) at 2. rewrite room_app. pose proof (room_pos (take k dims)).
  rewrite <-(Nat.mul_1_l (room (drop k dims))) at 1. by apply Nat.mul_le_mono_r. Qed.

Lemma room_entry dims i n : dims !! i = Some n → (n <= room dims)%nat.
Proof.
  intros H. rewrite <-(take_drop_middle _ _ _ H), room_app. change (n :: drop (S i) dims) with ([n] ++ drop (S i) dims).
  rewrite room_app. assert (H1 : (n <= room [n])%nat) by (unfold room, volume; cbn [map foldr]; lia).
  pose proof (Nat.mul_le_mono _ _ _ _ H1 (room_pos (drop (S i) dims))) as H2.
  pose proof (Nat.mul_le_mono _ _ _ _ (room_pos (take i dims)) H2). lia.
Qed.

Lemma room_fits elt dims : Z.of_nat (elt * room dims) < 2 ^ 31 → fits elt dims.
Proof.
  intros H k. pose proof (volume_le_room (take k dims)). pose proof (room_take k dims).
  assert (elt * volume (take k dims) <= elt * room dims)%nat by (apply Nat.mul_le_mono_l; lia). lia.
Qed.

Lemma room_mono dims dims' : Forall2 le dims dims' → (room dims <= room dims')%nat.
Proof.
  unfold room, volume. induction 1 as [|n m dims dims' H _ IH]; [done|]. cbn [map foldr]. apply Nat.mul_le_mono; [lia|done].
Qed.

(** The dimensions of the result. *)
Definition output_dims (dims reps : list nat) : list nat :=
  let n := Nat.max (length dims) (length reps) in zip_with Nat.mul (pad_ones n dims) (pad_ones n reps).

Lemma output_lookup n dims rep i :
  (length dims <= n)%nat → length rep = n →
  zip_with Nat.mul (pad_ones n dims) rep !! i
    = match rep !! i with Some r => Some (default 1%nat (dims !! i) * r)%nat | None => None end.
Proof.
  intros Hd Hr. rewrite lookup_zip_with. destruct (rep !! i) as [r|] eqn:E.
  - apply lookup_lt_Some in E. unfold pad_ones. destruct (dims !! i) as [d|] eqn:Ed.
    + rewrite (lookup_app_l_Some _ _ _ _ Ed). done.
    + apply lookup_ge_None in Ed. rewrite lookup_app_r by done. rewrite lookup_replicate_2 by lia. done.
  - by destruct (pad_ones n dims !! i).
Qed.

Lemma output_size_spec dims rep n :
  (length dims <= n)%nat → length rep = n →
  let D := zip_with Nat.mul (pad_ones n dims) rep in
  Z.of_nat (room D) < 2 ^ 31 →
  output_size (Z.of_nat (length dims)) (Z.of_nat n) (map Z.of_nat dims) (map Z.of_nat rep)
    = Val (map Z.of_nat D, Z.of_nat (volume (drop (length dims) rep))).
Proof.
  intros Hd Hr D Hroom. set (nd := length dims) in *.
  assert (HlD : length D = n) by (unfold D; rewrite length_zip_with, length_pad_ones by done; lia).
  assert (HD : ∀ i r, rep !! i = Some r → D !! i = Some (default 1%nat (dims !! i) * r)%nat).
  { intros i r Hi. unfold D. by rewrite output_lookup, Hi. }
  assert (Hs32 : ∀ i m, D !! i = Some m → is_s32 (Z.of_nat m)).
  { intros i m Hm. pose proof (room_entry _ _ _ Hm). unfold is_s32. lia. }
  unfold output_size. rewrite Nat2Z.id. change 0 with (Z.of_nat 0) at 1.
  assert (Hc : length (mxCalloc (Z.of_nat n)) = n) by (unfold mxCalloc; rewrite length_replicate; lia).
  rewrite (for_loop_store _ (λ i, Z.of_nat (default 0%nat (D !! i)))); [|lia|].
  2: { intros i l' Hi _ _ _. destruct (lookup_lt_is_Some_2 dims i) as [d Ed]; [lia|].
       destruct (lookup_lt_is_Some_2 rep i) as [r Er]; [lia|]. pose proof (HD i r Er) as Em. rewrite Ed in Em. cbn in Em.
       rewrite (arr_get_map_nat _ _ _ Ed), (arr_get_map_nat _ _ _ Er). cbn [mbind outcome_bind].
       rewrite Em. cbn [default]. rewrite <-Nat2Z.inj_mul, int_result_ok by (by eapply Hs32). done. }
  rewrite take_0. cbn [app mbind outcome_bind Nat.add].
  assert (E1 : map (λ i, Z.of_nat (default 0%nat (D !! i))) (seq 0 nd) = map Z.of_nat (take nd D)).
  { apply list_eq. intros i. rewrite !list_lookup_fmap. destruct (decide (i < nd)%nat) as [Hi|Hi].
    - rewrite lookup_seq_lt, lookup_take_lt by done. destruct (lookup_lt_is_Some_2 D i) as [m Hm]; [lia|]. cbn. by rewrite Hm.
    - rewrite !lookup_ge_None_2; [done|rewrite length_take; lia|rewrite length_seq; lia]. }
  rewrite E1. replace (drop nd (mxCalloc (Z.of_nat n))) with (replicate (n - nd) 0) by (unfold mxCalloc; rewrite drop_replicate; f_equal; lia).
  replace (Z.to_nat (Z.of_nat n - Z.of_nat nd)) with (n - nd)%nat by lia.
  destruct (for_loop_inv (λ i st, st = (map Z.of_nat (take i D) ++ replicate (n - i) 0, Z.of_nat (volume (take (i - nd) (drop nd rep)))))
    (n - nd) nd (λ i st, r ← arr_get (map Z.of_nat rep) i; destdims ← arr_set st.1 i r;
       extra_rep ← int_result (st.2 * r); mret (destdims, extra_rep))
    (map Z.of_nat (take nd D) ++ replicate (n - nd) 0, 1)) as (st & E & ->).
  - intros i st Hi ->. destruct (lookup_lt_is_Some_2 rep i) as [r Er]; [lia|]. pose proof (HD i r Er) as Em.
    rewrite (lookup_ge_None_2 dims) in Em by (fold nd; lia). cbn [default] in Em. rewrite Nat.mul_1_l in Em.
    rewrite (arr_get_map_nat _ _ _ Er). cbn [mbind outcome_bind fst snd].
    rewrite arr_set_in_bounds by (rewrite length_app, length_map, length_take, length_replicate; lia). cbn [mbind outcome_bind].
    assert (Ev : Z.of_nat (volume (take (i - nd) (drop nd rep))) * Z.of_nat r = Z.of_nat (volume (take (i + 1 - nd) (drop nd rep)))).
    { replace (i + 1 - nd)%nat with (S (i - nd)) by lia. rewrite (volume_take_S _ _ r); [lia|].
      rewrite lookup_drop. by replace (nd + (i - nd))%nat with i by lia. }
    rewrite Ev, int_result_ok.
    + cbn [mbind outcome_bind mret outcome_ret]. eexists. split; [done|]. f_equal.
      rewrite Nat2Z.id. replace (n - i)%nat with (S (n - (i + 1))) by lia. cbn [replicate].
      rewrite insert_app_r_alt by (rewrite length_map, length_take; lia). rewrite length_map, length_take.
      replace (i - i `min` length D)%nat with 0%nat by lia. cbn [insert list_insert].
      replace (i + 1)%nat with (S i) by lia. rewrite (take_S_r _ _ _ Em), map_app, <-(assoc_L (++)). done.
    + (* the number of copies is below the room of the result *)
      unfold is_s32. enough (volume (take (i + 1 - nd) (drop nd rep)) <= room D)%nat by lia.
      assert (drop nd rep = drop nd D) as ->.
      { apply list_eq. intros j. rewrite !lookup_drop. destruct (rep !! (nd + j)%nat) as [x|] eqn:Ex.
        - pose proof (HD _ _ Ex) as Ej. rewrite (lookup_ge_None_2 dims) in Ej by (fold nd; lia). cbn [default] in Ej. by rewrite Ej, Nat.mul_1_l.
        - apply lookup_ge_None in Ex. by rewrite (lookup_ge_None_2 D) by lia. }
      etransitivity; [apply volume_le_room|]. etransitivity; [apply room_take|]. apply room_drop.
  - f_equal. by rewrite Nat.sub_diag, take_0.
  - rewrite E. replace (nd + (n - nd))%nat with n by lia. rewrite Nat.sub_diag. cbn [replicate]. rewrite app_nil_r.
    rewrite !take_ge by (rewrite ?length_drop; lia). done.
Qed.

(** ** One part of the data *)
Lemma arrays_ok_of elt DDS DS DL RL dims reps :
  length dims = length reps →
  (∀ i n r, dims !! i = Some n → reps !! i = Some r →
     DL !! i = Some (Z.of_nat n) ∧ RL !! i = Some (Z.of_nat r) ∧ DS !! i = Some (size_at elt dims i) ∧
     DDS !! i = Some (size_at elt (zip_with Nat.mul dims reps) i)) →
  arrays_ok elt DDS DS DL RL (axes_of dims reps).
Proof.
  intros H. pattern dims, reps. revert dims reps H. apply rev_ind2; [done|].
  intros l k n r H IH Hall. destruct (sizes_volume elt (l ++ [n]) (k ++ [r])) as (S1 & S2 & _); [rewrite !length_app; cbn; lia|].
  destruct (sizes_volume elt l k H) as (_ & _ & S3). rewrite axes_cons in * by done. cbn [arrays_ok]. rewrite S1, S2, S3.
  destruct (Hall (length l) n r) as (H1 & H2 & H3 & H4); [by rewrite list_lookup_middle|rewrite H; by rewrite list_lookup_middle|].
  unfold size_at in H3, H4. rewrite !take_ge in H3, H4 by (rewrite ?length_zip_with, ?length_app; cbn; lia).
  split_and!; try done. apply IH. intros i m q Hi Hq.
  destruct (Hall i m q) as (G1 & G2 & G3 & G4); [by apply lookup_app_l_Some|by apply lookup_app_l_Some|].
  apply lookup_lt_Some in Hi. unfold size_at in *. rewrite zip_with_app, !take_app_le in * by (rewrite ?length_zip_with; lia). done.
Qed.

Lemma volume_reverse l : volume (reverse l) = volume l.
Proof.
  induction l as [|n l IH]; [done|]. rewrite reverse_cons, volume_app, IH. unfold volume. cbn [foldr]. lia.
Qed.

Lemma tile_full elt dims rep s n :
  (length dims <= n)%nat → length rep = n → length s = (elt * volume dims)%nat →
  copies (volume (drop (length dims) rep)) (tile elt (axes_of dims (take (length dims) rep)) s)
    = tile elt (axes_of (pad_ones n dims) rep) s.
Proof.
  intros Hd Hr Hs. rewrite <-(take_drop (length dims) rep) at 3. unfold pad_ones, axes_of.
  rewrite zip_with_app by (rewrite length_take; lia). rewrite reverse_app.
  assert (Hz : zip (replicate (n - length dims) 1%nat) (drop (length dims) rep) = map (λ r, (1%nat, r)) (drop (length dims) rep)).
  { assert (length (drop (length dims) rep) = (n - length dims)%nat) as <- by (rewrite length_drop; lia).
    generalize (drop (length dims) rep) as l. induction l as [|x l IH]; [done|]. cbn. by rewrite IH. }
  rewrite Hz. change (reverse (map ?f ?l)) with (reverse (f <$> l)). rewrite <-fmap_reverse.
  destruct (sizes_volume elt dims (take (length dims) rep)) as (S1 & _); [rewrite length_take; lia|].
  change (reverse (zip dims (take (length dims) rep))) with (axes_of dims (take (length dims) rep)).
  etransitivity; [|symmetry; apply tile_ones; by rewrite S1]. by rewrite volume_reverse.
Qed.

Lemma Forall_axes (P : nat → Prop) dims reps : Forall P reps → Forall (λ a, P a.2) (axes_of dims reps).
Proof.
  intros H. unfold axes_of. apply Forall_reverse. apply Forall_lookup. intros i [n r] Hi.
  apply lookup_zip_with_Some in Hi as (x & y & [= -> ->] & _ & Hy). by eapply Forall_lookup_1.
Qed.
Lemma fill_spec elt dims rep n src dest :
  (1 <= length dims <= n)%nat → length rep = n → Forall (λ r, 1 <= r)%nat rep →
  Forall (λ r, Z.of_nat r < 2 ^ 31) rep → (1 <= elt)%nat →
  let D := zip_with Nat.mul (pad_ones n dims) rep in
  Z.of_nat (elt * room D) < 2 ^ 31 → length src = (elt * volume dims)%nat → length dest = (elt * volume D)%nat →
  fill (Z.of_nat (length dims)) (Z.of_nat n) (Z.of_nat (volume (drop (length dims) rep)))
      (map (size_at elt (take (length dims) D)) (seq 0 (length dims))) (map (size_at elt dims) (seq 0 (length dims)))
      (map Z.of_nat dims) (map Z.of_nat rep) src dest
    = Val (Some (tile elt (axes_of (pad_ones n dims) rep) src)).
Proof.
  intros Hd Hr Hpos H31 Helt D Hroom Hsrc Hdest. set (nd := length dims) in *. set (r0 := take nd rep).
  assert (Hr0 : length dims = length r0) by (unfold r0; rewrite length_take; fold nd; lia).
  assert (HD : D = zip_with Nat.mul dims r0 ++ drop nd rep).
  { unfold D, pad_ones. rewrite <-(take_drop nd rep) at 1. rewrite zip_with_app by done. f_equal.
    fold nd. assert (length (drop nd rep) = (n - nd)%nat) as <- by (rewrite length_drop; lia).
    generalize (drop nd rep) as l. induction l as [|x l IH]; [done|]. cbn. by rewrite Nat.add_0_r, IH. }
  assert (HDt : take nd D = zip_with Nat.mul dims r0).
  { rewrite HD. rewrite take_app_length'; [done|]. rewrite length_zip_with. fold nd. lia. }
  destruct (sizes_volume elt dims r0 Hr0) as (S1 & S2 & S3). fold nd in S3. set (axes := axes_of dims r0) in *.
  assert (Hvol : length dest = (volume (drop nd rep) * dest_size elt axes)%nat) by (rewrite Hdest, S2, HD, volume_app; lia).
  assert (Hx : (1 <= volume (drop nd rep))%nat).
  { by apply volume_pos, Forall_drop. }
  assert (Hb : Z.of_nat (length dest) < 2 ^ 31).
  { rewrite Hdest. pose proof (Nat.mul_le_mono_l _ _ elt (volume_le_room D)). lia. }
  assert (Hv31 : Z.of_nat (volume (drop nd rep)) < 2 ^ 31).
  { pose proof (volume_le_room (drop nd rep)) as Hv. pose proof (room_drop nd D) as Hdr.
    rewrite HD, drop_app_length' in Hdr at 1 by (rewrite length_zip_with; fold nd; lia).
    pose proof (Nat.mul_le_mono_r 1 elt (room D) Helt). lia. }
  assert (Hle : (dest_size elt axes <= length dest)%nat) by nia.
  assert (Harr : arrays_ok elt (map (size_at elt (take nd D)) (seq 0 nd)) (map (size_at elt dims) (seq 0 nd))
    (map Z.of_nat dims) (map Z.of_nat rep) axes).
  { apply arrays_ok_of; [done|]. intros i m r Hm Hri. pose proof (lookup_lt_Some _ _ _ Hm) as Hi. fold nd in Hi.
    rewrite !list_lookup_fmap, lookup_seq_lt, Hm by done. unfold r0 in Hri. rewrite lookup_take_lt in Hri by done.
    rewrite Hri, HDt. done. }
  unfold fill. rewrite Nat2Z.id.
  pose proof (repmat_spec elt _ _ _ _ axes [] dest [] src [] ltac:(intros E; rewrite E in S3; cbn in S3; lia) Harr) as Hrep.
  cbn [app length] in Hrep. rewrite app_nil_r, S3 in Hrep. change (Z.of_nat 0) with 0 in Hrep.
  rewrite Hrep; clear Hrep; [|by apply Forall_axes, Forall_take|by apply (Forall_axes (λ r, Z.of_nat r < 2 ^ 31)), Forall_take|lia|lia|lia|by rewrite S1].
  unfold then_. cbn [mbind outcome_bind]. rewrite <-tile_full by (done || lia). fold nd r0 axes.
  assert (Hlt : length (tile elt axes src) = dest_size elt axes) by (apply length_tile; by rewrite S1).
  destruct (Z.ltb_spec (Z.of_nat nd) (Z.of_nat n)) as [Hn|Hn].
  - assert (Hlast : map (size_at elt (take nd D)) (seq 0 nd) !! (nd - 1)%nat = Some (Z.of_nat (length (tile elt axes src)))).
    { rewrite list_lookup_fmap, lookup_seq_lt by lia. cbn [fmap option_fmap option_map Nat.add]. unfold size_at.
      replace (S (nd - 1)) with nd by lia. rewrite take_ge by (rewrite length_take; lia). by rewrite HDt, <-S2, Hlt. }
    replace (Z.of_nat nd - 1) with (Z.of_nat (nd - 1)) by lia. rewrite (arr_get_nat _ _ _ Hlast). cbn [mbind outcome_bind].
    pose proof (memrep_block [] (tile elt axes src) dest (volume (drop nd rep))) as M. cbn [app length] in M.
    change (Z.of_nat 0) with 0 in M. rewrite Hlt in *.
    rewrite M by lia. by rewrite (drop_ge dest), app_nil_r by lia.
  - assert (n = nd) as -> by lia. rewrite (drop_ge rep) in * by lia. cbn in Hvol |- *.
    by rewrite (drop_ge dest), app_nil_r by lia.
Qed.

Section Correct.
Context {mxArray mxClassID : Type} `{!Mx mxArray mxClassID}.

(** The repetitions that the arguments ask for: one argument lists them, a single
    number standing for the rows and the columns, or every one has its argument. *)
Definition requested (args : list mxArray) (reps : list nat) : Prop :=
  match args with
  | [arg] =>
      if mxGetN arg =? 1 then
        ∃ x n, mxGetPr arg = [x] ∧ int_of_double x = Val (Z.of_nat n) ∧ reps = [n; n]
      else
        mxGetN arg = Z.of_nat (length reps) ∧ Forall2 (λ x n, int_of_double x = Val (Z.of_nat n)) (mxGetPr arg) reps
  | _ => Forall2 (λ arg n, ∃ x xs, mxGetPr arg = x :: xs ∧ int_of_double x = Val (Z.of_nat n)) args reps
  end.

(** The last loop of [repetition_vector]. *)
Lemma fill_ones n reps :
  (length reps <= n)%nat →
  for_loop (Z.to_nat (Z.of_nat n - Z.of_nat (length reps))) (Z.of_nat (length reps)) (λ i rep, arr_set rep i 1)
    (map Z.of_nat reps ++ mxCalloc (Z.of_nat n - Z.of_nat (length reps))) = Val (map Z.of_nat (pad_ones n reps)).
Proof.
  intros Hl. rewrite (for_loop_store _ (λ _, 1)); [| |by intros].
  2: { rewrite length_app, length_map. unfold mxCalloc. rewrite length_replicate. lia. }
  rewrite take_app_length' by by rewrite length_map.
  rewrite drop_ge by (rewrite length_app, length_map; unfold mxCalloc; rewrite length_replicate; lia).
  rewrite app_nil_r. unfold pad_ones. rewrite map_app. do 2 f_equal.
  replace (Z.to_nat (Z.of_nat n - Z.of_nat (length reps))) with (n - length reps)%nat by lia.
  generalize (n - length reps)%nat as m. generalize (length reps) as a. intros a m. revert a.
  induction m as [|m IH]; intros a; [done|]. cbn [seq map replicate]. by rewrite IH.
Qed.

Lemma store_reps reps n (body : Z → list Z → outcome (list Z)) :
  (length reps <= n)%nat →
  (∀ i r l', reps !! i = Some r → length l' = n → body (Z.of_nat i) l' = arr_set l' (Z.of_nat i) (Z.of_nat r)) →
  for_loop (length reps) 0 body (mxCalloc (Z.of_nat n))
    = Val (map Z.of_nat reps ++ mxCalloc (Z.of_nat n - Z.of_nat (length reps))).
Proof.
  intros Hl Hb. change 0 with (Z.of_nat 0). assert (Hc : length (mxCalloc (Z.of_nat n)) = n) by (unfold mxCalloc; rewrite length_replicate; lia).
  rewrite (for_loop_store _ (λ i, Z.of_nat (default 0%nat (reps !! i)))); [|lia|].
  - rewrite take_0. cbn [app Nat.add]. f_equal. f_equal.
    + apply list_eq. intros i. rewrite !list_lookup_fmap. destruct (decide (i < length reps)%nat) as [Hi|Hi].
      * rewrite lookup_seq_lt by done. destruct (lookup_lt_is_Some_2 reps i Hi) as [r Hr]. cbn. by rewrite Hr.
      * rewrite !lookup_ge_None_2; [done|lia|rewrite length_seq; lia].
    + unfold mxCalloc. rewrite drop_replicate. f_equal. lia.
  - intros i l' Hi Hl' _ _. destruct (lookup_lt_is_Some_2 reps i) as [r Hr]; [lia|]. rewrite Hr.
    apply (Hb i r l' Hr). lia.
Qed.

Lemma repetition_vector_spec (ndim : nat) args reps :
  (2 <= ndim)%nat → args ≠ [] → requested args reps →
  let n := Nat.max ndim (length reps) in
  repetition_vector (Z.of_nat ndim) args = Val (Z.of_nat (length reps), Z.of_nat n, map Z.of_nat (pad_ones n reps)).
Proof.
  intros Hnd Hne Hreq n. unfold repetition_vector. destruct args as [|arg [|arg2 args]]; [done| |].
  - cbn [requested] in Hreq. destruct (Z.eqb_spec (mxGetN arg) 1) as [E1|E1].
    + destruct Hreq as (x & r & Ex & Er & ->). rewrite E1. replace (Z.max (Z.of_nat ndim) 1) with (Z.of_nat ndim) by lia.
      change (Z.to_nat 1) with 1%nat. cbn [for_loop]. rewrite Ex. change (arr_get [x] 0) with (Val x). cbn [mbind outcome_bind].
      rewrite Er. cbn [mbind outcome_bind]. unfold n in *. cbn [length] in *. clear n.
      replace (Nat.max ndim 2) with ndim by lia. destruct ndim as [|[|m]]; try lia.
      assert (Ec : mxCalloc (Z.of_nat (S (S m))) = 0 :: 0 :: replicate m 0) by (unfold mxCalloc; by rewrite Nat2Z.id).
      rewrite Ec. cbn [mret outcome_ret]. rewrite arr_set_in_bounds by (cbn; lia). cbn [mbind outcome_bind Z.eqb Pos.eqb].
      change (<[Z.to_nat 0:=Z.of_nat r]> (0 :: 0 :: replicate m 0)) with (Z.of_nat r :: 0 :: replicate m 0).
      cbn [mbind outcome_bind mret outcome_ret]. change (arr_get (Z.of_nat r :: 0 :: replicate m 0) 0) with (Val (Z.of_nat r)). cbn [mbind outcome_bind].
      rewrite arr_set_in_bounds by (cbn; lia). cbn [mbind outcome_bind mret outcome_ret].
      change (<[Z.to_nat 1:=Z.of_nat r]> (Z.of_nat r :: 0 :: replicate m 0)) with (map Z.of_nat [r; r] ++ replicate m 0).
      pose proof (fill_ones (S (S m)) [r; r] ltac:(cbn; lia)) as F. cbn [length] in F. unfold mxCalloc in F.
      replace (Z.to_nat (Z.of_nat (S (S m)) - Z.of_nat 2)) with m in F by lia. change (Z.of_nat 2) with 2 in *.
      replace (Z.to_nat (Z.of_nat (S (S m)) - 2)) with m by lia. rewrite F. done.
    + destruct Hreq as [E Hall]. rewrite E.
      replace (Z.max (Z.of_nat ndim) (Z.of_nat (length reps))) with (Z.of_nat n) by (unfold n; lia). rewrite Nat2Z.id.
      rewrite (store_reps reps n); [|unfold n; lia|].
      * cbn [mbind outcome_bind]. cbn [mret outcome_ret mbind outcome_bind].
        rewrite fill_ones by (unfold n; lia). done.
      * intros i r l' Hr Hl'. destruct (Forall2_lookup_r _ _ _ _ _ Hall Hr) as (x & Hx & Ex).
        rewrite (arr_get_nat _ _ _ Hx). cbn [mbind outcome_bind]. by rewrite Ex.
  - cbn [requested] in Hreq. set (as_ := arg :: arg2 :: args) in *. pose proof (Forall2_length _ _ _ Hreq) as El. rewrite El.
    replace (Z.max (Z.of_nat ndim) (Z.of_nat (length reps))) with (Z.of_nat n) by (unfold n; lia). rewrite Nat2Z.id.
    rewrite (store_reps reps n); [|unfold n; lia|].
    + cbn [mbind outcome_bind mret outcome_ret]. rewrite fill_ones by (unfold n; lia). done.
    + intros i r l' Hr Hl'. destruct (Forall2_lookup_r _ _ _ _ _ Hreq Hr) as (a & Ha & x & xs & Ex & Er).
      rewrite (arr_get_nat _ _ _ Ha). cbn [mbind outcome_bind]. rewrite Ex. change (arr_get (x :: xs) 0) with (Val x).
      cbn [mbind outcome_bind]. by rewrite Er.
Qed.

Lemma requested_int args reps : requested args reps → Forall (λ r, Z.of_nat r < 2 ^ 31) reps.
Proof.
  assert (Hi : ∀ x n, int_of_double x = Val (Z.of_nat n) → Z.of_nat n < 2 ^ 31).
  { intros x n H. destruct x as [s|s| |s m e]; try done; cbn [int_of_double] in H.
    - injection H as H. lia.
    - apply int_result_Val in H as [-> [_ H]]. exact H. }
  unfold requested. destruct args as [|arg [|arg2 args]]; intros H.
  - by apply Forall2_nil_inv_l in H as ->.
  - destruct (mxGetN arg =? 1).
    + destruct H as (x & n & _ & E & ->). specialize (Hi _ _ E). by repeat constructor.
    + destruct H as [_ H]. apply Forall_lookup. intros i r Hr. destruct (Forall2_lookup_r _ _ _ _ _ H Hr) as (x & _ & E).
      by eapply Hi.
  - apply Forall_lookup. intros i r Hr. destruct (Forall2_lookup_r _ _ _ _ _ H Hr) as (a & _ & x & xs & _ & E). by eapply Hi.
Qed.

(** The loop that looks for a zero. *)
Lemma find_zero reps n :
  for_loop (length reps) 0 (λ i empty, r ← arr_get (map Z.of_nat (pad_ones n reps)) i; mret (empty || (r =? 0))) false
    = Val (existsb (Nat.eqb 0) reps).
Proof.
  unfold pad_ones. change 0 with (Z.of_nat 0) at 1.
  destruct (for_loop_inv (λ i b, b = existsb (Nat.eqb 0) (take i reps)) (length reps) 0
    (λ i empty, r ← arr_get (map Z.of_nat (reps ++ replicate (n - length reps) 1%nat)) i; mret (empty || (r =? 0))) false) as (b & E & ->).
  - intros i b Hi ->. destruct (lookup_lt_is_Some_2 reps i) as [r Hr]; [lia|].
    rewrite (arr_get_map_nat _ i r) by (by apply lookup_app_l_Some). cbn [mbind outcome_bind mret outcome_ret].
    eexists. split; [done|]. rewrite Nat.add_1_r, (take_S_r _ _ _ Hr), existsb_app. f_equal. cbn. by destruct r.
  - by rewrite take_0.
  - rewrite E, take_ge by lia. done.
Qed.

Lemma position_ones stride dims subs k :
  length subs = (length dims + k)%nat →
  position stride (dims ++ replicate k 1%nat) (zip_with Nat.modulo subs (dims ++ replicate k 1%nat))
    = position stride dims (zip_with Nat.modulo subs dims).
Proof.
  revert stride subs. induction dims as [|n dims IH]; intros stride subs Hs.
  - cbn in Hs. transitivity 0%nat; [|by destruct subs]. revert stride subs Hs.
    induction k as [|k IHk]; intros stride [|i subs] Hs; try done.
    change (([] ++ replicate (S k) 1)%nat) with (1%nat :: ([] ++ replicate k 1%nat)). cbn [zip_with position].
    rewrite Nat.mod_1_r, IHk; [done|]. cbn in Hs. lia.
  - destruct subs as [|i subs]; [done|]. cbn [app zip_with position]. rewrite IH; [done|]. cbn in Hs. lia.
Qed.

(** ** Properties *)

(** What the documentation says of the arrays: the bytes of a new array are those
    of its dimensions, and storing in one part leaves the other alone. *)
Class MxLaws (class_size : mxClassID → nat) : Prop := {
  data_length dims cls cplx a :
    mxCreateNumericArray (Z.of_nat (length dims)) (map Z.of_nat dims) cls cplx = Some a →
    length (mxGetData a) = (class_size cls * volume dims)%nat ∧
    (cplx = true → length (mxGetPi a) = (class_size cls * volume dims)%nat);
  imag_put_data x a : mxGetPi (put_data x a) = mxGetPi a
}.
Context (class_size : mxClassID → nat) `{!MxLaws class_size}.

(** A full numeric matrix of these dimensions and bytes per element. *)
Definition numeric_matrix (a : mxArray) (elt : nat) (dims : list nat) : Prop :=
  mxIsSparse a = false ∧ mxIsCell a = false ∧ mxGetNumberOfDimensions a = Z.of_nat (length dims) ∧
  mxGetDimensions a = map Z.of_nat dims ∧ mxGetElementSize a = Z.of_nat elt ∧ class_size (mxGetClassID a) = elt ∧
  length (mxGetData a) = (elt * volume dims)%nat ∧
  (mxIsComplex a = true → length (mxGetPi a) = (elt * volume dims)%nat) ∧ (1 <= elt)%nat ∧ (2 <= length dims)%nat.

(** [t] repeats [s]: the element at some subscripts is the one at the subscripts
    modulo the dimensions. *)
Definition is_repeated (elt : nat) (dims D : list nat) (s t : list Z) : Prop :=
  length t = (elt * volume D)%nat ∧
  ∀ subs e, in_range D subs → (e < elt)%nat →
    t !! (e + position elt D subs)%nat = s !! (e + position elt dims (zip_with Nat.modulo subs dims))%nat.

Lemma tile_repeated elt dims reps s :
  let n := Nat.max (length dims) (length reps) in
  length s = (elt * volume dims)%nat →
  is_repeated elt dims (output_dims dims reps) s (tile elt (axes_of (pad_ones n dims) (pad_ones n reps)) s).
Proof.
  intros n Hs. assert (length (pad_ones n dims) = length (pad_ones n reps)) as Hl by (rewrite !length_pad_ones by (unfold n; lia); done).
  assert (Hv : volume (pad_ones n dims) = volume dims).
  { unfold pad_ones. rewrite volume_app. assert (∀ k, volume (replicate k 1%nat) = 1%nat) as ->; [|lia].
    intros k. unfold volume. induction k as [|k IH]; [done|]. cbn [replicate foldr]. rewrite IH. done. }
  destruct (sizes_volume elt _ _ Hl) as (S1 & S2 & _). split.
  - rewrite length_tile by (rewrite S1, Hv; done). exact S2.
  - intros subs e Hr He. unfold output_dims in *. fold n in Hr |- *. rewrite tile_element by (rewrite ?Hv; done).
    do 2 f_equal. unfold pad_ones at 1 2. apply position_ones. apply Forall2_length in Hr.
    rewrite length_zip_with, !length_pad_ones in Hr by (unfold n; lia). unfold n in *. lia.
Qed.

(** Up to the creation of the result. *)
Lemma mexFunction_prefix src args dims reps elt :
  numeric_matrix src elt dims → args ≠ [] → requested args reps →
  Z.of_nat (elt * room dims) < 2 ^ 31 → Z.of_nat (elt * room (output_dims dims reps)) < 2 ^ 31 →
  let D := output_dims dims reps in
  let n := Nat.max (length dims) (length reps) in
  mexFunction (src :: args) =
    match mxCreateNumericArray (Z.of_nat (length D)) (map Z.of_nat D) (mxGetClassID src) (mxIsComplex src) with
    | None => Val MexError
    | Some out =>
        if existsb (Nat.eqb 0) reps then Val (MexDone out)
        else
          let part := fill (Z.of_nat (length dims)) (Z.of_nat n) (Z.of_nat (volume (drop (length dims) (pad_ones n reps))))
            (map (size_at elt (take (length dims) D)) (seq 0 (length dims))) (map (size_at elt dims) (seq 0 (length dims)))
            (map Z.of_nat dims) (map Z.of_nat (pad_ones n reps)) in
          re ← part (mxGetData src) (mxGetData out);
          match re with
          | None => mret MexRunning
          | Some re =>
              let out := put_data re out in
              if mxIsComplex src then
                im ← part (mxGetPi src) (mxGetPi out);
                match im with None => mret MexRunning | Some im => mret (MexDone (put_imag im out)) end
              else mret (MexDone out)
          end
    end.
Proof.
  intros (Hsp & Hce & Hnd & Hdims & Helt & _ & _ & _ & He1 & Hd2) Hne Hreq Hb1 Hb2 D n.
  unfold mexFunction. destruct args as [|arg args]; [done|]. set (as_ := arg :: args) in *.
  rewrite Hsp, Hce, Hnd, Hdims, Helt.
  pose proof (dimension_sizes_spec elt dims [] ltac:(lia) (room_fits _ _ Hb1)) as E1. rewrite app_nil_r in E1.
  rewrite E1. cbn [mbind outcome_bind]. rewrite (repetition_vector_spec (length dims) as_ reps) by done. fold n. cbn [mbind outcome_bind].
  assert (Hlr : length (pad_ones n reps) = n) by (apply length_pad_ones; unfold n; lia).
  assert (HlD : length D = n) by (unfold D, output_dims; fold n; rewrite length_zip_with, !length_pad_ones by (unfold n; lia); lia).
  change (output_dims dims reps) with D in Hb2. pose proof (Nat.mul_le_mono_r 1 elt (room D) He1) as Hroom.
  rewrite output_size_spec by (done || (unfold n; lia) || (change (zip_with Nat.mul (pad_ones n dims) (pad_ones n reps)) with D; lia)).
  change (zip_with Nat.mul (pad_ones n dims) (pad_ones n reps)) with D. cbn [mbind outcome_bind].
  assert (Hfit : fits elt (take (length dims) D)).
  { apply room_fits. pose proof (Nat.mul_le_mono_l _ _ elt (room_take (length dims) D)). lia. }
  pose proof (dimension_sizes_spec elt (take (length dims) D) (drop (length dims) D)) as E2.
  rewrite take_drop, length_take, HlD, (Nat.min_l (length dims) n) in E2 by (unfold n; lia).
  rewrite E2 by (done || lia). cbn [mbind outcome_bind]. rewrite HlD.
  destruct (mxCreateNumericArray _ _ _ _) as [out|]; [|done]. rewrite Nat2Z.id, find_zero. cbn [mbind outcome_bind]. by destruct (existsb _ _).
Qed.

(** C19.  [mexFunction] repeats: for any full numeric matrix of two or more
    dimensions and any positive repetitions, asked for in either way, that give a
    result of less than 2^31 bytes, it ends without a fault and both parts of the
    array it returns are those of the matrix repeated along each dimension. *)
Theorem mexFunction_repeats src args dims reps elt out :
  let D := output_dims dims reps in
  numeric_matrix src elt dims → args ≠ [] → requested args reps → Forall (λ r, 1 <= r)%nat reps →
  Z.of_nat (elt * room D) < 2 ^ 31 →
  mxCreateNumericArray (Z.of_nat (length D)) (map Z.of_nat D) (mxGetClassID src) (mxIsComplex src) = Some out →
  ∃ re im, is_repeated elt dims D (mxGetData src) re ∧
    (mxIsComplex src = true → is_repeated elt dims D (mxGetPi src) im) ∧
    mexFunction (src :: args)
      = Val (MexDone (if mxIsComplex src then put_imag im (put_data re out) else put_data re out)).
Proof.
  intros D Hsrc Hne Hreq Hpos Hb Hout. set (n := Nat.max (length dims) (length reps)).
  set (t := tile elt (axes_of (pad_ones n dims) (pad_ones n reps))). exists (t (mxGetData src)), (t (mxGetPi src)).
  pose proof Hsrc as (_ & _ & _ & _ & _ & Hcls & Hlen & Hilen & He1 & Hd2).
  split; [by apply tile_repeated|]. split; [intros Hc; apply tile_repeated; by apply Hilen|].
  assert (Hpad : Forall (λ r, 1 <= r)%nat (pad_ones n reps)).
  { apply Forall_app. split; [done|]. by apply Forall_replicate. }
  assert (Hpad31 : Forall (λ r, Z.of_nat r < 2 ^ 31) (pad_ones n reps)).
  { apply Forall_app. split; [by apply (requested_int args)|]. by apply Forall_replicate. }
  assert (Hb1 : Z.of_nat (elt * room dims) < 2 ^ 31).
  { assert (room dims <= room D)%nat; [|assert (elt * room dims <= elt * room D)%nat by (by apply Nat.mul_le_mono_l); lia].
    etransitivity; [|apply (room_take (length dims))]. apply room_mono. apply Forall2_same_length_lookup. split.
    - rewrite length_take. unfold D, output_dims. rewrite length_zip_with, !length_pad_ones by lia. lia.
    - intros i x y Hx Hy. apply lookup_take_Some in Hy as [Hy _]. unfold D, output_dims in Hy.
      rewrite output_lookup, Hx in Hy by (rewrite ?length_pad_ones by lia; lia). fold n in Hy.
      destruct (pad_ones n reps !! i) as [r|] eqn:Er; [|done]. injection Hy as <-.
      pose proof (Forall_lookup_1 _ _ _ _ Hpad Er). cbn in *. nia. }
  rewrite (mexFunction_prefix _ _ dims reps elt) by done. fold D n. rewrite Hout.
  destruct (data_length D _ _ out Hout) as [L1 L2]. rewrite Hcls in L1, L2.
  replace (existsb (Nat.eqb 0) reps) with false.
  2: { symmetry. apply not_true_iff_false. intros [x [Hx E]]%existsb_exists. rewrite Forall_forall in Hpos.
       specialize (Hpos x ltac:(by apply list_elem_of_In)). apply Nat.eqb_eq in E as <-. cbn in Hpos. lia. }
  cbn zeta. pose proof (length_pad_ones n reps ltac:(unfold n; lia)) as Hlr.
  assert (Hn : (1 <= length dims <= n)%nat) by (unfold n; lia).
  change D with (zip_with Nat.mul (pad_ones n dims) (pad_ones n reps)).
  rewrite (fill_spec elt dims (pad_ones n reps) n) by done. cbn [mbind outcome_bind].
  destruct (mxIsComplex src) eqn:Ec; [|done]. rewrite imag_put_data.
  rewrite (fill_spec elt dims (pad_ones n reps) n) by (done || (by apply L2) || (by apply Hilen)). done.
Qed.

(** A repetition of zero times gives the empty array as it was created. *)
Theorem mexFunction_empty src args dims reps elt out :
  let D := output_dims dims reps in
  numeric_matrix src elt dims → args ≠ [] → requested args reps → 0%nat ∈ reps →
  Z.of_nat (elt * room dims) < 2 ^ 31 → Z.of_nat (elt * room D) < 2 ^ 31 →
  mxCreateNumericArray (Z.of_nat (length D)) (map Z.of_nat D) (mxGetClassID src) (mxIsComplex src) = Some out →
  mexFunction (src :: args) = Val (MexDone out).
Proof.
  intros D Hsrc Hne Hreq Hz Hb1 Hb Hout. rewrite (mexFunction_prefix _ _ dims reps elt) by done. fold D. rewrite Hout.
  replace (existsb (Nat.eqb 0) reps) with true; [done|]. symmetry. apply existsb_exists. exists 0%nat.
  split; [by apply list_elem_of_In|done].
Qed.
End Correct.

(** ** Witness: arrays of bytes *)
Record byte_array := ByteArray {
  b_dims : list Z; b_complex : bool; b_re : list Z; b_im : list Z; b_numbers : list f64
}.

#[local] Instance byte_arrays : Mx byte_array unit := {
  mxIsSparse _ := false;
  mxIsCell _ := false;
  mxIsComplex := b_complex;
  mxGetNumberOfDimensions a := Z.of_nat (length (b_dims a));
  mxGetDimensions := b_dims;
  mxGetElementSize _ := 1;
  mxGetClassID _ := tt;
  mxGetN a := Z.of_nat (length (b_numbers a));
  mxGetPr := b_numbers;
  mxGetData := b_re;
  mxGetPi := b_im;
  mxCreateNumericArray _ dims _ cplx :=
    let zeros := replicate (Z.to_nat (foldr Z.mul 1 dims)) 0 in Some (ByteArray dims cplx zeros zeros []);
  put_data x a := ByteArray (b_dims a) (b_complex a) x (b_im a) (b_numbers a);
  put_imag x a := ByteArray (b_dims a) (b_complex a) (b_re a) x (b_numbers a)
}.

#[local] Instance byte_array_laws : MxLaws (λ _ : unit, 1%nat).
Proof.
  split; [|done]. intros dims cls cplx a [= <-]. cbn [mxGetData mxGetPi byte_arrays b_re b_im]. rewrite !length_replicate.
  assert (foldr Z.mul 1 (map Z.of_nat dims) = Z.of_nat (volume dims)) as ->; [|split; lia].
  unfold volume. induction dims as [|n dims IH]; [done|]. cbn [map foldr]. rewrite IH. lia.
Qed.

(** [repmat([1 3; 2 4], [2 3])], with an imaginary part, and [repmat([1 3; 2 4], 1, 2, 2)]. *)
Definition small : byte_array := ByteArray [2; 2] true [1; 2; 3; 4] [5; 6; 7; 8] [].
Definition numbers (l : list Z) : byte_array := ByteArray [1; Z.of_nat (length l)] false [] [] (map f64_of_Z l).

Lemma mexFunction_repeats_witness :
  ∃ re im, is_repeated 1 [2; 2]%nat [4; 6]%nat [1; 2; 3; 4] re ∧ is_repeated 1 [2; 2]%nat [4; 6]%nat [5; 6; 7; 8] im ∧
    mexFunction [small; numbers [2; 3]] = Val (MexDone (ByteArray [4; 6] true re im [])).
Proof.
  destruct (mexFunction_repeats (λ _ : unit, 1%nat) small [numbers [2; 3]] [2; 2]%nat [2; 3]%nat 1
    (ByteArray [4; 6] true (replicate 24 0) (replicate 24 0) [])) as (re & im & H1 & H2 & E).
  - split_and!; try reflexivity; simpl; lia.
  - discriminate.
  - split; [reflexivity|]. repeat constructor; reflexivity.
  - repeat constructor; lia.
  - vm_compute. reflexivity.
  - reflexivity.
  - exists re, im. split; [exact H1|]. split; [by apply H2|exact E].
Defined.

Example repmat_three : mexFunction [small; numbers [1]; numbers [2]; numbers [2]]
  = Val (MexDone (ByteArray [2; 4; 2] true [1; 2; 3; 4; 1; 2; 3; 4; 1; 2; 3; 4; 1; 2; 3; 4]
                                          [5; 6; 7; 8; 5; 6; 7; 8; 5; 6; 7; 8; 5; 6; 7; 8] [])).
Proof. vm_compute. reflexivity. Qed.
Example repmat_scalar : mexFunction [ByteArray [1; 2] false [1; 2] [] []; numbers [2]]
  = Val (MexDone (ByteArray [2; 4] false [1; 1; 2; 2; 1; 1; 2; 2] (replicate 8 0) [])).
Proof. vm_compute. reflexivity. Qed.
