(* ===== verification/Workload.v ===== *)
(** * utilities/leak.c, utilities/thread.c: the load generators

    Programs that waste memory and processors of a VM at random times.  The
    results of [random()] are arguments, in the order of the calls, and so is
    [log] of the C library; what is printed is left out. *)
From Stdlib Require Import QArith Qround Lqa Floats.SpecFloat.
From S2P Require Import Prelude CFloat Rounding Scanf.
Open Scope Z_scope.

Definition RAND_MAX : Z := 2 ^ 31 - 1.

(** ** Random, RandomRange, Expent *)

(** [((double)random() / (RAND_MAX - 1))] *)
Definition Random (random : Z) : f64 := div64 (f64_of_Z random) (f64_of_Z (RAND_MAX - 1)).

(** [(int)floor(x)]; the conversion of a value that is not an [int] is undefined. *)
Definition int_floor (x : f64) : outcome Z :=
  match x with
  | S754_zero _ => Val 0
  | S754_finite s m e =>
      let m := if s then Z.neg m else Z.pos m in
      int_result (if 0 <=? e then m * 2 ^ e else m / 2 ^ (- e))
  | S754_infinity _ | S754_nan => Fault SignedOverflow
  end.

Definition RandomRange (min max random : Z) : outcome Z :=
  d ← int_result (max - min);
  n ← int_result (d + 1);
  k ← int_floor (mul64 (Random random) (f64_of_Z n));
  int_result (k + min).

Definition Expent (log : f64 → f64) (mean : f64) (random : Z) : outcome f64 :=
  if flt mean zero then Aborted
  else mret (mul64 (SFopp mean) (log (sub64 (f64_of_Z 1) (Random random)))).

(** ** The waiting time, with the MIN_MEAN and MAX_MEAN of each program *)
Section Wait.
Variables (MIN_MEAN MAX_MEAN : Z).

(** [RandomRange(MIN_MEAN, MAX_MEAN) < ((double)(MIN_MEAN + MAX_MEAN) / d)] *)
Definition below (v : Z) (d : Z) : bool := flt (f64_of_Z v) (div64 (f64_of_Z (MIN_MEAN + MAX_MEAN)) (f64_of_Z d)).

(** From [rewait:] to the [goto]; [None] when there are no more numbers. *)
Fixpoint rewait (one_wait_time waiting_time : f64) (randoms : list Z) : outcome (option (f64 * list Z)) :=
  match randoms with
  | [] => mret None
  | r :: randoms =>
      let waiting_time := add64 waiting_time one_wait_time in
      v ← RandomRange MIN_MEAN MAX_MEAN r;
      if below v 5 then rewait one_wait_time waiting_time randoms else mret (Some (waiting_time, randoms))
  end.

(** ... and the second test. *)
Definition waiting (one_wait_time : f64) (randoms : list Z) : outcome (option (f64 * list Z)) :=
  w ← rewait one_wait_time zero randoms;
  match w with
  | Some (waiting_time, r :: randoms) =>
      v ← RandomRange MIN_MEAN MAX_MEAN r;
      mret (Some (if below v 50 then mul64 waiting_time (f64_of_Z 40) else waiting_time, randoms))
  | _ => mret None
  end.
End Wait.

(** [usleep(x)]: the microseconds slept, the integral part of [x]; the conversion
    of a value whose integral part is not an [unsigned int] is undefined. *)
Definition usleep (x : f64) : outcome Z :=
  let unsigned (z : Z) : outcome Z := if decide (is_u32 z) then Val z else Fault SignedOverflow in
  match x with
  | S754_zero _ => Val 0
  | S754_finite s m e =>
      let n := if 0 <=? e then Z.pos m * 2 ^ e else Z.pos m / 2 ^ (- e) in
      unsigned (if s then - n else n)
  | S754_infinity _ | S754_nan => Fault SignedOverflow
  end.

(** ** leak.c: one turn of the main loop

    The microseconds slept and the size of the block that is filled; [malloc_ok]
    is whether [malloc] returns one.  The [printf] before the loop, which reads
    [current_mean] before anything was written to it and so has no defined
    behaviour, is not in the model. *)
Module Leak.
Definition MIN_LEAK : Z := 1024 * 1024.
Definition MAX_LEAK : Z := 1024 * 1024 * 1024.
Definition MIN_MEAN : Z := 500.
Definition MAX_MEAN : Z := 1000000.

Definition leak_turn (log : f64 → f64) (malloc_ok : bool) (randoms : list Z) : outcome (option (Z * Z * list Z)) :=
  match randoms with
  | r1 :: r2 :: r3 :: randoms =>
      current_mean ← RandomRange MIN_MEAN MAX_MEAN r1;
      leak ← RandomRange MIN_LEAK MAX_LEAK r2;
      one_wait_time ← Expent log (f64_of_Z current_mean) r3;
      w ← waiting MIN_MEAN MAX_MEAN one_wait_time randoms;
      match w with
      | Some (waiting_time, randoms) =>
          usec ← usleep waiting_time;
          if malloc_ok then mret (Some (usec, u64 leak, randoms)) else Fault NullDeref
      | None => mret None
      end
  | _ => mret None
  end.

(** The main loop, over the answers of [malloc] and until there are no more
    numbers: the waits and the sizes of the blocks, none of which is ever freed. *)
Fixpoint leak_main (log : f64 → f64) (mallocs : list bool) (randoms : list Z) : outcome (list (Z * Z)) :=
  match mallocs with
  | [] => mret []
  | malloc_ok :: mallocs =>
      t ← leak_turn log malloc_ok randoms;
      match t with
      | Some (usec, leak, randoms) => l ← leak_main log mallocs randoms; mret ((usec, leak) :: l)
      | None => mret []
      end
  end.
End Leak.

(** ** thread.c *)
Module Thread.
Definition MIN_MEAN : Z := 50000000.
Definition MAX_MEAN : Z := 200000000.

(** One turn of the main loop: the time slept before the next thread. *)
Definition thread_turn (log : f64 → f64) (randoms : list Z) : outcome (option (Z * list Z)) :=
  match randoms with
  | r1 :: r2 :: randoms =>
      current_mean ← RandomRange MIN_MEAN MAX_MEAN r1;
      one_wait_time ← Expent log (f64_of_Z current_mean) r2;
      w ← waiting MIN_MEAN MAX_MEAN one_wait_time randoms;
      match w with
      | Some (waiting_time, randoms) => usec ← usleep waiting_time; mret (Some (usec, randoms))
      | None => mret None
      end
  | _ => mret None
  end.

(** The main loop, over the answers of [pthread_create]: the waits and [count]. *)
Fixpoint thread_main (log : f64 → f64) (creates : list bool) (count : Z) (randoms : list Z) : outcome (list Z * Z) :=
  match creates with
  | [] => mret ([], count)
  | create_ok :: creates =>
      t ← thread_turn log randoms;
      match t with
      | Some (usec, randoms) =>
          count ← (if (create_ok : bool) then int_result (count + 1) else mret count);
          r ← thread_main log creates count randoms;
          mret (usec :: r.1, r.2)
      | None => mret ([], count)
      end
  end.

(** The loop over the characters, which increments [ptr] twice, from index [i] of
    the array; the second read is of the value that is not used. *)
Fixpoint scan_string (fuel : nat) (str : list Z) (i : Z) : outcome (option unit) :=
  match fuel with
  | O => mret None
  | S fuel =>
      c ← arr_get str i;
      if c =? 0 then mret (Some tt)
      else _ ← arr_get str i; scan_string fuel str (i + 2)
  end.

Definition steal_str : list Z := chars "abcdefghijklm" ++ [0].

(** One round of [steal_my_cpu]: a thousand passes over the string, and the test
    before the [usleep]; the microseconds it sleeps. *)
Fixpoint passes (n : nat) (str : list Z) : outcome (option unit) :=
  match n with
  | O => mret (Some tt)
  | S n => r ← scan_string (S (length str)) str 0; match r with Some _ => passes n str | None => mret None end
  end.

Definition pause (r1 r2 : Z) : outcome (option Z) :=
  v ← RandomRange 1 10 r1;
  if flt (f64_of_Z v) (dec64 false 1 (-2)) then d ← RandomRange 1 10 r2; z ← int_result (10000 * d); mret (Some z)
  else mret None.

Definition steal_round (r1 r2 : Z) : outcome (option Z) := _ ← passes 1000 steal_str; pause r1 r2.
End Thread.

(** ** RandomRange *)
Lemma Random_nonneg r : 0 <= r → nonneg (Random r).
Proof. intros H. apply div64_nonneg; [by apply f64_of_Z_nonneg|]. apply f64_of_Z_nonneg. unfold RAND_MAX. lia. Qed.

Lemma int_floor_nonneg x z : nonneg x → int_floor x = Val z → 0 <= z.
Proof.
  destruct x as [[]|[]| |[] m e]; cbn [nonneg int_floor]; try done; intros _.
  - intros [= <-]. lia.
  - intros [-> _]%int_result_Val. case_match.
    + apply Z.mul_nonneg_nonneg; [lia|]. apply Z.pow_nonneg. lia.
    + apply Z.div_pos; [lia|]. apply Z.pow_pos_nonneg; [lia|]. match goal with H : (0 <=? e) = false |- _ => apply Z.leb_gt in H; lia end.
Qed.

Lemma RandomRange_lower min max r v : 0 <= r → min <= max → RandomRange min max r = Val v → min <= v ∧ is_s32 v.
Proof.
  intros Hr Hm H. unfold RandomRange in H. apply outcome_bind_Val in H as (d & Hd & H).
  apply outcome_bind_Val in H as (n & Hn & H). apply outcome_bind_Val in H as (k & Hk & H).
  apply int_result_Val in Hd as [-> _]. apply int_result_Val in Hn as [-> _]. apply int_result_Val in H as [-> Hs].
  split; [|done]. enough (0 <= k) by lia. eapply int_floor_nonneg; [|exact Hk].
  apply mul64_nonneg; [by apply Random_nonneg|apply f64_of_Z_nonneg; lia].
Qed.

(** The floor of a number of the format. *)
Lemma int_floor_spec x z :
  canonical64 x → (inject_Z z <= fval x < inject_Z (z + 1))%Q → int_floor x = int_result z.
Proof.
  intros Hx [H1 H2]. destruct x as [[]|[]| |[] m e]; try done; cbn [fval cond_Zopp int_floor] in *.
  - change 0%Q with (inject_Z 0) in *. rewrite <-(Zle_Qle z 0) in H1. rewrite <-(Zlt_Qlt 0 (z + 1)) in H2. by replace z with 0 by lia.
  - rewrite <-(dy_0 z) in H1. rewrite <-(dy_0 (z + 1)) in H2.
    destruct (Z.leb_spec 0 e) as [He|He].
    + rewrite (dy_at (Z.pos m) e 0) in H1, H2 by lia. apply dy_le in H1. apply dy_lt in H2.
      rewrite Z.sub_0_r in *. by replace (Z.pos m * 2 ^ e) with z by lia.
    + rewrite (dy_at z 0 e) in H1 by lia. rewrite (dy_at (z + 1) 0 e) in H2 by lia. apply dy_le in H1. apply dy_lt in H2.
      replace (0 - e) with (- e) in * by lia.
      rewrite <-(Z.div_unique_pos (Z.pos m) (2 ^ (- e)) z (Z.pos m - z * 2 ^ (- e))); [done|lia|lia].
Qed.

Lemma floor_exists (x : Q) (lo hi : Z) :
  (inject_Z lo <= x < inject_Z hi)%Q → ∃ z, lo <= z < hi ∧ (inject_Z z <= x < inject_Z (z + 1))%Q.
Proof.
  intros [H1 H2]. pose proof (Qfloor_le x) as F1. pose proof (Qlt_floor x) as F2. exists (Qfloor x). split; [|done].
  assert (lo < Qfloor x + 1) by (rewrite Zlt_Qlt; lra). assert (Qfloor x < hi) by (rewrite Zlt_Qlt; lra). lia.
Qed.

(** [Random() * n] for the numbers below the divisor, the divisor, and the one above. *)
Lemma Random_rounds r : 0 <= r <= RAND_MAX → rounds64 (inject_Z r / inject_Z (RAND_MAX - 1)) (Random r).
Proof. intros H. unfold RAND_MAX in *. apply div64_integers; lia. Qed.

Lemma Random_times r n :
  0 <= r <= RAND_MAX → 1 <= n <= 2 ^ 30 →
  rounds64 (fval (Random r) * inject_Z n) (mul64 (Random r) (f64_of_Z n)) ∧ (0 <= fval (Random r))%Q ∧
  (0 < inject_Z n)%Q.
Proof.
  intros Hr Hn. destruct (Random_rounds r Hr) as [Cq Hq]. destruct (f64_of_Z_value n) as [Cn Vn]; [lia|].
  pose proof (canonical_nonneg _ _ _ Cq) as Hpos. pose proof (inject_Z_pos n ltac:(lia)) as Hn0. split; [|done].
  rewrite <-Vn. apply mul64_rounds; try done. rewrite Vn.
  assert (fval (Random r) <= inject_Z 2)%Q as Hq2.
  { apply Hq; [by apply representable_integer|]. unfold RAND_MAX in *. apply Qle_shift_div_r; [done|].
    rewrite <-inject_Z_mult, <-Zle_Qle. lia. }
  apply (Qle_trans _ (inject_Z 2 * inject_Z n)); [by apply Qmult_le_r|]. rewrite <-inject_Z_mult, <-Zle_Qle.
  assert (2 ^ 31 <= 2 ^ 1000) by (apply Z.pow_le_mono_r; lia). lia.
Qed.

Lemma Random_times_below r n :
  0 <= r < RAND_MAX - 1 → 1 <= n <= 2 ^ 30 →
  (0 <= fval (mul64 (Random r) (f64_of_Z n)) < inject_Z n)%Q.
Proof.
  intros Hr Hn. destruct (Random_times r n) as ([Cm Hm] & Hpos & Hn0); [lia..|]. destruct (Random_rounds r) as [_ Hq]; [lia|].
  split; [by apply (canonical_nonneg 53 1024)|].
  assert (fval (Random r) <= inject_Z (2 ^ 31 - 1) / inject_Z (2 ^ 31))%Q as Hq1.
  { apply Hq; [apply representable_dyadic; lia|]. unfold RAND_MAX in *. apply Qle_shift_div_r; [done|].
    unfold Qdiv. rewrite <-Qmult_assoc, (Qmult_comm (/ _)), Qmult_assoc. apply Qle_shift_div_l; [done|].
    rewrite <-!inject_Z_mult, <-Zle_Qle. lia. }
  (* the largest number of the format that is needed below [n] *)
  destruct (Z.log2_spec n ltac:(lia)) as [L1 L2]. rewrite Z.pow_succ_r in L2 by apply Z.log2_nonneg.
  pose proof (Z.log2_nonneg n) as L0. assert (Z.log2 n <= 30) as L3 by (apply (Z.log2_le_mono n (2 ^ 30)); lia).
  set (k := 31 - Z.log2 n). assert (0 < 2 ^ k) as K0 by (apply Z.pow_pos_nonneg; lia).
  assert (2 ^ 31 = 2 ^ Z.log2 n * 2 ^ k) as K1 by (unfold k; rewrite <-Z.pow_add_r by lia; f_equal; lia).
  apply (Qle_lt_trans _ (inject_Z (n * 2 ^ k - 1) / inject_Z (2 ^ k))).
  - apply Hm; [apply representable_dyadic; [nia|lia]|].
    apply (Qle_trans _ (inject_Z (2 ^ 31 - 1) / inject_Z (2 ^ 31) * inject_Z n)); [by apply Qmult_le_r|].
    apply Qle_shift_div_l; [by apply inject_Z_pos|]. unfold Qdiv.
    rewrite <-Qmult_assoc, <-Qmult_assoc, (Qmult_comm (/ _)), Qmult_assoc, <-!inject_Z_mult.
    apply Qle_shift_div_r; [done|]. rewrite <-!inject_Z_mult, <-Zle_Qle. nia.
  - apply Qlt_shift_div_r; [by apply inject_Z_pos|]. rewrite <-inject_Z_mult, <-Zlt_Qlt. lia.
Qed.

Lemma Random_times_top r n :
  RAND_MAX - 1 <= r <= RAND_MAX → 1 <= n <= 2 ^ 30 →
  (inject_Z n <= fval (mul64 (Random r) (f64_of_Z n)) < inject_Z (n + 1))%Q.
Proof.
  intros Hr Hn. destruct (Random_times r n) as ([Cm Hm] & Hpos & Hn0); [unfold RAND_MAX in *; lia..|].
  destruct (Random_rounds r) as [_ Hq]; [unfold RAND_MAX in *; lia|].
  assert (inject_Z 1 <= fval (Random r))%Q as Hq1.
  { apply Hq; [by apply representable_integer|]. unfold RAND_MAX in *. apply Qle_shift_div_l; [done|].
    rewrite <-inject_Z_mult, <-Zle_Qle. lia. }
  assert (fval (Random r) <= inject_Z (2 ^ 40 + 513) / inject_Z (2 ^ 40))%Q as Hq2.
  { apply Hq; [apply representable_dyadic; lia|]. unfold RAND_MAX in *. apply Qle_shift_div_r; [done|].
    unfold Qdiv. rewrite <-Qmult_assoc, (Qmult_comm (/ _)), Qmult_assoc. apply Qle_shift_div_l; [done|].
    rewrite <-!inject_Z_mult, <-Zle_Qle. lia. }
  split.
  - apply Hm; [apply representable_integer; lia|]. rewrite <-(Qmult_1_l (inject_Z n)) at 1. by apply Qmult_le_r.
  - apply (Qle_lt_trans _ (inject_Z (n * 2 ^ 10 + 513) / inject_Z (2 ^ 10))).
    + apply Hm; [apply representable_dyadic; lia|].
      apply (Qle_trans _ (inject_Z (2 ^ 40 + 513) / inject_Z (2 ^ 40) * inject_Z n)); [by apply Qmult_le_r|].
      apply Qle_shift_div_l; [done|]. unfold Qdiv.
      rewrite <-Qmult_assoc, <-Qmult_assoc, (Qmult_comm (/ _)), Qmult_assoc, <-!inject_Z_mult.
      apply Qle_shift_div_r; [done|]. rewrite <-!inject_Z_mult, <-Zle_Qle. lia.
    + apply Qlt_shift_div_r; [done|]. rewrite <-inject_Z_mult, <-Zlt_Qlt. lia.
Qed.

Lemma random_range_spec min max r :
  is_s32 min → is_s32 (max + 1) → min <= max < min + 2 ^ 30 → 0 <= r <= RAND_MAX →
  ∃ v, RandomRange min max r = Val v ∧ min <= v <= max + 1 ∧ (v = max + 1 ↔ RAND_MAX - 1 <= r).
Proof.
  unfold is_s32. intros Hmin Hmax Hrange Hr.
  assert (∃ z, (inject_Z z <= fval (mul64 (Random r) (f64_of_Z (max - min + 1))) < inject_Z (z + 1))%Q ∧
    0 <= z <= max - min + 1 ∧ (z = max - min + 1 ↔ RAND_MAX - 1 <= r)) as (z & Hz & Hb & Hi).
  { destruct (Z.lt_ge_cases r (RAND_MAX - 1)) as [Hlt|Hge].
    - destruct (floor_exists _ 0 _ (Random_times_below r (max - min + 1) ltac:(lia) ltac:(lia))) as (z & Hz & Hf).
      exists z. split; [done|]. split; [lia|]. split; lia.
    - exists (max - min + 1). split; [apply Random_times_top; lia|]. split; [lia|]. split; lia. }
  destruct (Random_times r (max - min + 1)) as ([Cm _] & _); [lia..|].
  exists (z + min). split; [|split; [lia|]; rewrite <-Hi; lia]. unfold RandomRange.
  rewrite (int_result_ok (max - min)) by (unfold is_s32; lia). cbn [mbind outcome_bind].
  rewrite (int_result_ok (max - min + 1)) by (unfold is_s32; lia). cbn [mbind outcome_bind].
  rewrite (int_floor_spec _ z Cm Hz), (int_result_ok z) by (unfold is_s32; lia). cbn [mbind outcome_bind].
  apply int_result_ok. unfold is_s32. lia.
Qed.

(** C36.  [RandomRange] stays in its range for every number [random()] can return but
    the two largest, for which [Random] is at least one, and which take it to one
    above its maximum. *)
Theorem random_range_bounds min max r :
  is_s32 min → is_s32 (max + 1) → min <= max < min + 2 ^ 30 → 0 <= r <= RAND_MAX →
  ∃ v, RandomRange min max r = Val v ∧ min <= v <= max + 1 ∧ (v = max + 1 ↔ RAND_MAX - 1 <= r).
Proof. apply random_range_spec. Qed.

(** A turn of leak.c leaks a megabyte at least. *)
Theorem leak_turn_leaks log ok randoms w size rest :
  Forall (λ r, 0 <= r) randoms → Leak.leak_turn log ok randoms = Val (Some (w, size, rest)) → 2 ^ 20 <= size < 2 ^ 31.
Proof.
  intros Hr H. destruct randoms as [|r1 [|r2 [|r3 randoms]]]; try discriminate H. rewrite !Forall_cons in Hr. destruct Hr as (_ & H2 & _).
  cbn [Leak.leak_turn] in H. apply outcome_bind_Val in H as (m & _ & H). apply outcome_bind_Val in H as (l & Hl & H).
  apply outcome_bind_Val in H as (e & _ & H). apply outcome_bind_Val in H as (wt & _ & H).
  apply RandomRange_lower in Hl as [Hl Hs]; [|done|unfold Leak.MIN_LEAK, Leak.MAX_LEAK; lia].
  destruct wt as [[wt rs]|]; [|discriminate H]. apply outcome_bind_Val in H as (us & _ & H).
  destruct ok; [|discriminate H]. injection H as _ <- _.
  unfold Leak.MIN_LEAK, is_s32 in *. unfold u64. rewrite Z.mod_small by lia. lia.
Qed.

(** ** leak.c: the main loop *)
Definition drawn (randoms : list Z) : Prop := Forall (λ r, 0 <= r <= RAND_MAX) randoms.

Lemma rewait_runs lo hi one w randoms :
  is_s32 lo → is_s32 (hi + 1) → lo <= hi < lo + 2 ^ 30 → drawn randoms →
  ∃ o, rewait lo hi one w randoms = Val o ∧ ∀ w' rest, o = Some (w', rest) → drawn rest.
Proof.
  intros Hlo Hhi Hr Hd. revert w. induction Hd as [|r randoms H Hd IH]; intros w; cbn [rewait]; [by exists None|].
  destruct (random_range_spec lo hi r Hlo Hhi Hr H) as (v & -> & _). cbn [mbind outcome_bind].
  destruct (below _ _ v 5); [apply IH|]. eexists. split; [reflexivity|]. by intros w' rest [= _ <-].
Qed.

Lemma waiting_runs lo hi one randoms :
  is_s32 lo → is_s32 (hi + 1) → lo <= hi < lo + 2 ^ 30 → drawn randoms →
  ∃ o, waiting lo hi one randoms = Val o ∧ ∀ w rest, o = Some (w, rest) → drawn rest.
Proof.
  intros Hlo Hhi Hr Hd. unfold waiting. destruct (rewait_runs lo hi one zero randoms Hlo Hhi Hr Hd) as (o & -> & Ho).
  cbn [mbind outcome_bind]. destruct o as [[w [|r rest]]|]; [by exists None| |by exists None].
  specialize (Ho _ _ eq_refl). apply Forall_cons in Ho as [H Hrest].
  destruct (random_range_spec lo hi r Hlo Hhi Hr H) as (v & -> & _). cbn [mbind outcome_bind].
  eexists. split; [reflexivity|]. by intros w' rest' [= _ <-].
Qed.

Lemma Expent_runs log mean r : 0 <= mean < 2 ^ 31 → ∃ e, Expent log (f64_of_Z mean) r = Val e.
Proof.
  intros H. unfold Expent. destruct (flt (f64_of_Z mean) zero) eqn:E; [|by eexists].
  exfalso. revert E. change zero with (f64_of_Z 0). rewrite flt_integers by lia. rewrite Z.ltb_lt. lia.
Qed.

(** The end of a turn: the time of [waiting] is not one to sleep. *)
Definition unsleepable (lo hi : Z) (one_wait_time : f64) : Prop :=
  ∃ randoms w rest, waiting lo hi one_wait_time randoms = Val (Some (w, rest)) ∧ usleep w = Fault SignedOverflow.

Lemma usleep_cases w : (∃ us, usleep w = Val us ∧ is_u32 us) ∨ usleep w = Fault SignedOverflow.
Proof.
  destruct w as [| | |s m e]; cbn [usleep]; [left; by exists 0|by right..|].
  case_decide; [left; by eexists|by right].
Qed.

Lemma leak_turn_runs log ok randoms :
  drawn randoms →
  Leak.leak_turn log ok randoms = Val None ∨
  (∃ us size rest, Leak.leak_turn log ok randoms = Val (Some (us, size, rest)) ∧ drawn rest ∧ is_u32 us ∧ 2 ^ 20 <= size <= 2 ^ 30 + 1) ∨
  Leak.leak_turn log ok randoms = Fault NullDeref ∧ ok = false ∨
  Leak.leak_turn log ok randoms = Fault SignedOverflow ∧
    ∃ mean r e, Leak.MIN_MEAN <= mean <= Leak.MAX_MEAN + 1 ∧ r ∈ randoms ∧ Expent log (f64_of_Z mean) r = Val e ∧
      unsleepable Leak.MIN_MEAN Leak.MAX_MEAN e.
Proof.
  intros Hd. destruct randoms as [|r1 [|r2 [|r3 randoms]]]; try (by left). unfold drawn in Hd. rewrite !Forall_cons in Hd.
  destruct Hd as (H1 & H2 & H3 & Hd). cbn [Leak.leak_turn].
  destruct (random_range_spec Leak.MIN_MEAN Leak.MAX_MEAN r1) as (m & -> & Hm & _); [done|done|done|done|].
  destruct (random_range_spec Leak.MIN_LEAK Leak.MAX_LEAK r2) as (l & -> & Hl & _); [done|done|done|done|]. cbn [mbind outcome_bind].
  destruct (Expent_runs log m r3) as (e & He); [unfold Leak.MIN_MEAN, Leak.MAX_MEAN in *; lia|]. rewrite He. cbn [mbind outcome_bind].
  destruct (waiting_runs Leak.MIN_MEAN Leak.MAX_MEAN e randoms) as (o & Ew & Ho); [done|done|done|done|]. rewrite Ew. cbn [mbind outcome_bind].
  destruct o as [[w rest]|]; [|by left]. right. destruct (usleep_cases w) as [(us & -> & Hus)|Hw].
  - cbn [mbind outcome_bind]. destruct ok; [left|by right; left]. eexists _, _, _. split; [reflexivity|].
    split; [by eapply Ho|]. split; [done|]. unfold Leak.MIN_LEAK, Leak.MAX_LEAK, u64 in *. rewrite Z.mod_small by lia. lia.
  - right; right. rewrite Hw. split; [done|]. exists m, r3, e. split; [done|]. split; [set_solver|]. split; [done|]. by eexists _, _, _.
Qed.

(** *** A time that cannot be slept *)
Lemma waiting_infinite lo hi randoms w rest :
  waiting lo hi (S754_infinity false) randoms = Val (Some (w, rest)) → w = S754_infinity false.
Proof.
  unfold waiting. intros H. apply outcome_bind_Val in H as (o & Ho & H).
  assert (∀ w' rest', o = Some (w', rest') → w' = S754_infinity false) as Hinf.
  { assert (add64 zero (S754_infinity false) = S754_infinity false ∧
      add64 (S754_infinity false) (S754_infinity false) = S754_infinity false) as [A1 A2] by done.
    assert (∀ w0, w0 = zero ∨ w0 = S754_infinity false → rewait lo hi (S754_infinity false) w0 randoms = Val o →
      ∀ w' rest', o = Some (w', rest') → w' = S754_infinity false) as Hg; [|by apply (Hg zero); [left|]].
    clear Ho H. induction randoms as [|r randoms IH]; intros w0 Hw0; cbn [rewait]; [by intros [= <-]|].
    assert (add64 w0 (S754_infinity false) = S754_infinity false) as -> by (by destruct Hw0 as [-> | ->]).
    intros H. apply outcome_bind_Val in H as (v & _ & H). destruct (below _ _ v 5); [by apply (IH (S754_infinity false)); [right|]|].
    injection H as <-. by intros w' rest' [= <- _]. }
  destruct o as [[w' [|r rest']]|]; [discriminate H| |discriminate H]. rewrite (Hinf w' _ eq_refl) in H.
  apply outcome_bind_Val in H as (v & _ & H). injection H as <- _. by destruct (below _ _ v 50).
Qed.

Lemma Expent_infinite log mean :
  0 < mean < 2 ^ 31 → log zero = S754_infinity true → Expent log (f64_of_Z mean) (RAND_MAX - 1) = Val (S754_infinity false).
Proof.
  intros Hm Hlog. destruct (Expent_runs log mean (RAND_MAX - 1)) as (e & He); [lia|]. rewrite He. unfold Expent in He.
  destruct (flt _ _); [discriminate He|]. rewrite <-He. unfold mret, outcome_ret. f_equal.
  assert (sub64 (f64_of_Z 1) (Random (RAND_MAX - 1)) = zero) as -> by (vm_compute; reflexivity). rewrite Hlog.
  destruct mean as [|p|p]; [lia| |lia]. destruct (f64_of_pos p) as (m & -> & _); [lia|]. done.
Qed.

Lemma leak_turn_infinite log ok r1 r2 rest :
  log zero = S754_infinity true → drawn (r1 :: r2 :: rest) →
  Leak.leak_turn log ok (r1 :: r2 :: RAND_MAX - 1 :: rest) = Val None ∨
  Leak.leak_turn log ok (r1 :: r2 :: RAND_MAX - 1 :: rest) = Fault SignedOverflow.
Proof.
  intros Hlog Hd. unfold drawn in Hd. rewrite !Forall_cons in Hd. destruct Hd as (H1 & H2 & Hd). cbn [Leak.leak_turn].
  destruct (random_range_spec Leak.MIN_MEAN Leak.MAX_MEAN r1) as (m & -> & Hm & _); [done|done|done|done|].
  destruct (random_range_spec Leak.MIN_LEAK Leak.MAX_LEAK r2) as (l & -> & Hl & _); [done|done|done|done|]. cbn [mbind outcome_bind].
  rewrite Expent_infinite by (done || (unfold Leak.MIN_MEAN, Leak.MAX_MEAN in *; lia)). cbn [mbind outcome_bind].
  destruct (waiting_runs Leak.MIN_MEAN Leak.MAX_MEAN (S754_infinity false) rest) as (o & Ew & _); [done|done|done|done|].
  rewrite Ew. cbn [mbind outcome_bind]. destruct o as [[w rest']|]; [|by left]. right.
  by rewrite (waiting_infinite _ _ _ _ _ Ew).
Qed.

Lemma leak_main_runs log mallocs randoms :
  drawn randoms →
  (∃ l, Leak.leak_main log mallocs randoms = Val l ∧ (length l <= length mallocs)%nat ∧
    Forall (λ t, is_u32 t.1 ∧ Leak.MIN_LEAK <= t.2 <= Leak.MAX_LEAK + 1) l) ∨
  Leak.leak_main log mallocs randoms = Fault NullDeref ∧ false ∈ mallocs ∨
  Leak.leak_main log mallocs randoms = Fault SignedOverflow ∧
    (∃ mean r e, Leak.MIN_MEAN <= mean <= Leak.MAX_MEAN + 1 ∧ 0 <= r <= RAND_MAX ∧ Expent log (f64_of_Z mean) r = Val e ∧
      unsleepable Leak.MIN_MEAN Leak.MAX_MEAN e).
Proof.
  revert randoms. induction mallocs as [|ok mallocs IH]; intros randoms Hd; cbn [Leak.leak_main]; [by left; exists []|].
  destruct (leak_turn_runs log ok randoms Hd) as [-> |[(us & size & rest & -> & Hrest & Hus & Hs)|
    [[-> ->]|(-> & mean & r & e & Hm & Hr & He)]]]; cbn [mbind outcome_bind].
  - left. exists []. split; [done|]. split; [cbn; lia|constructor].
  - destruct (IH rest Hrest) as [(l & -> & Hlen & Hl)|[[-> Hin]|[-> Hw]]]; cbn [mbind outcome_bind mret outcome_ret].
    + left. exists ((us, size) :: l). split; [done|]. split; [cbn; lia|]. constructor; [|done].
      unfold Leak.MIN_LEAK, Leak.MAX_LEAK. cbn [fst snd]. split; [done|lia].
    + right; left. split; [done|by right].
    + by right; right.
  - right; left. split; [done|by left].
  - right; right. split; [done|]. exists mean, r, e. split; [done|]. unfold drawn in Hd. rewrite Forall_forall in Hd. split; [by apply Hd|done].
Qed.

(** C35.  The loop of leak.c over whatever numbers [random()] returns and whatever
    [log] computes: it never [abort]s in [Expent], and every turn leaks at least
    [MIN_LEAK] bytes and at most one more than [MAX_LEAK].  It has two faults: the
    write through the [NULL] of a [malloc] that found no memory, and the conversion
    for [usleep] of a waiting time that is not an [unsigned int].  The second one
    is met: when [log] of zero is minus infinity, as in the C library, the first turn
    does not end in any other way when the third number it draws is [RAND_MAX - 1]
    (unless the numbers given run out). *)
Theorem leak_main_leaks log mallocs randoms :
  Forall (λ r, 0 <= r <= RAND_MAX) randoms →
  let out := Leak.leak_main log mallocs randoms in
  ((∃ l, out = Val l ∧ (length l <= length mallocs)%nat ∧
      Forall (λ t, is_u32 t.1 ∧ Leak.MIN_LEAK <= t.2 <= Leak.MAX_LEAK + 1) l) ∨
   out = Fault NullDeref ∧ false ∈ mallocs ∨
   out = Fault SignedOverflow ∧
     (∃ mean r e, Leak.MIN_MEAN <= mean <= Leak.MAX_MEAN + 1 ∧ 0 <= r <= RAND_MAX ∧ Expent log (f64_of_Z mean) r = Val e ∧
       unsleepable Leak.MIN_MEAN Leak.MAX_MEAN e)) ∧
  (log zero = S754_infinity true → (0 < length mallocs)%nat → randoms !! 2%nat = Some (RAND_MAX - 1) →
   out = Val [] ∨ out = Fault SignedOverflow).
Proof.
  intros Hd out. split; [by apply leak_main_runs|]. unfold out. intros Hlog Hm Hr.
  destruct mallocs as [|ok mallocs]; [cbn in Hm; lia|]. destruct randoms as [|r1 [|r2 [|r3 rest]]]; try discriminate Hr.
  injection Hr as ->. cbn [Leak.leak_main]. unfold drawn in *. rewrite !Forall_cons in Hd. destruct Hd as (H1 & H2 & _ & Hd).
  destruct (leak_turn_infinite log ok r1 r2 rest Hlog) as [-> | ->]; [by unfold drawn; rewrite !Forall_cons|by left|by right].
Qed.

(** ** thread.c: the tests on the waiting time *)
Lemma below_thread v :
  is_s32 v → Thread.MIN_MEAN <= v →
  below Thread.MIN_MEAN Thread.MAX_MEAN v 5 = false ∧ below Thread.MIN_MEAN Thread.MAX_MEAN v 50 = false.
Proof.
  intros Hs Hv. unfold below, Thread.MIN_MEAN, is_s32 in *.
  replace (div64 (f64_of_Z (50000000 + Thread.MAX_MEAN)) (f64_of_Z 5)) with (f64_of_Z 50000000) by (vm_compute; reflexivity).
  replace (div64 (f64_of_Z (50000000 + Thread.MAX_MEAN)) (f64_of_Z 50)) with (f64_of_Z 5000000) by (vm_compute; reflexivity).
  rewrite !flt_integers by lia. split; apply Z.ltb_ge; lia.
Qed.

(** In thread.c neither test on the waiting time can succeed, the least
    [RandomRange] being a fifth of [MIN_MEAN + MAX_MEAN]: a turn of the main loop
    draws four numbers and sleeps for one exponential time, never again and never
    forty times longer. *)
Theorem thread_waits_once log randoms us rest :
  Forall (λ r, 0 <= r) randoms → Thread.thread_turn log randoms = Val (Some (us, rest)) →
  ∃ r1 r2 r3 r4 mean e, randoms = r1 :: r2 :: r3 :: r4 :: rest ∧
    RandomRange Thread.MIN_MEAN Thread.MAX_MEAN r1 = Val mean ∧ Expent log (f64_of_Z mean) r2 = Val e ∧ usleep (add64 zero e) = Val us.
Proof.
  intros Hr H. destruct randoms as [|r1 [|r2 [|r3 randoms]]]; try discriminate H;
    cbn [Thread.thread_turn] in H; apply outcome_bind_Val in H as (m & Hm & H); apply outcome_bind_Val in H as (e & He & H);
    apply outcome_bind_Val in H as (ow & How & H); unfold waiting in How; [injection How as <-; discriminate H|].
  apply outcome_bind_Val in How as (wt & Hwt & How).
  rewrite !Forall_cons in Hr. destruct Hr as (_ & _ & H3 & Hr). cbn [rewait] in Hwt.
  apply outcome_bind_Val in Hwt as (v & Hv & Hwt).
  apply RandomRange_lower in Hv as [Hv Hs]; [|done|unfold Thread.MIN_MEAN, Thread.MAX_MEAN; lia].
  rewrite (proj1 (below_thread v Hs Hv)) in Hwt. injection Hwt as <-.
  destruct randoms as [|r4 randoms]; [injection How as <-; discriminate H|]. apply Forall_cons_1 in Hr as [H4 _].
  apply outcome_bind_Val in How as (v4 & Hv4 & How).
  apply RandomRange_lower in Hv4 as [Hv4 Hs4]; [|done|unfold Thread.MIN_MEAN, Thread.MAX_MEAN; lia].
  rewrite (proj2 (below_thread v4 Hs4 Hv4)) in How. injection How as <-.
  apply outcome_bind_Val in H as (us' & Hus & H). injection H as -> ->. by exists r1, r2, r3, r4, m, e.
Qed.

(** ** thread.c: the loop over the string *)
Lemma scan_string_spec fuel pre w :
  Forall (λ c, c ≠ 0) w → (length w < fuel)%nat →
  Thread.scan_string fuel (pre ++ w ++ [0]) (Z.of_nat (length pre))
    = if Nat.even (length w) then Val (Some tt) else Fault OutOfBounds.
Proof.
  revert pre w. induction fuel as [|fuel IH]; intros pre w Hw Hf; [lia|]. cbn [Thread.scan_string].
  destruct w as [|c w].
  - rewrite (arr_get_nat _ _ 0); [done|]. by rewrite lookup_app_r, Nat.sub_diag by lia.
  - apply Forall_cons_1 in Hw as [Hc Hw]. rewrite (arr_get_nat _ _ c) by (by rewrite lookup_app_r, Nat.sub_diag by lia).
    cbn [mbind outcome_bind]. rewrite (proj2 (Z.eqb_neq c 0)) by done.
    destruct w as [|d w].
    + destruct fuel as [|fuel]; [cbn in Hf; lia|]. cbn [Thread.scan_string].
      rewrite arr_get_oob; [done|]. rewrite length_app. cbn [length app]. lia.
    + apply Forall_cons_1 in Hw as [_ Hw]. specialize (IH (pre ++ [c; d]) w Hw ltac:(cbn in Hf; lia)).
      rewrite <-(assoc_L (++)), length_app in IH. cbn [app length] in *.
      by replace (Z.of_nat (length pre) + 2) with (Z.of_nat (length pre + 2)) by lia.
Qed.

(** The loop over the string skips every other character: it stops at the
    terminator of a string of even length, and runs past the array of one of odd
    length, as the one of [steal_my_cpu] is, which so never gets to its pause. *)
Theorem steal_my_cpu_overruns :
  (∀ w, Forall (λ c, c ≠ 0) w →
     Thread.scan_string (S (length w)) (w ++ [0]) 0 = if Nat.even (length w) then Val (Some tt) else Fault OutOfBounds) ∧
  ∀ r1 r2, Thread.steal_round r1 r2 = Fault OutOfBounds.
Proof.
  split; [|intros r1 r2; reflexivity]. intros w Hw. apply (scan_string_spec (S (length w)) [] w Hw). lia.
Qed.

(** ** Witnesses *)
Lemma random_range_bounds_witness :
  ∃ v, RandomRange 500 1000000 (RAND_MAX - 2) = Val v ∧ 500 <= v <= 1000000.
Proof.
  destruct (random_range_bounds 500 1000000 (RAND_MAX - 2)) as (v & E & Hv & Hi);
    [unfold is_s32; lia|unfold is_s32; lia|lia|unfold RAND_MAX; lia|].
  exists v. split; [exact E|]. assert (v ≠ 1000000 + 1) by (rewrite Hi; unfold RAND_MAX; lia). lia.
Defined.

(** [log] replaced by the first term of its series. *)
Definition some_log (x : f64) : f64 := sub64 x (f64_of_Z 1).

Lemma thread_waits_once_witness :
  ∃ us, Thread.thread_turn some_log [0; 1000; 7; 9; 5] = Val (Some (us, [5])) ∧
    ∃ e, Expent some_log (f64_of_Z 50000000) 1000 = Val e ∧ usleep (add64 zero e) = Val us.
Proof.
  destruct (Thread.thread_turn some_log [0; 1000; 7; 9; 5]) as [[[us rest]|]|c| |f] eqn:E; try (vm_compute in E; discriminate E).
  destruct (thread_waits_once some_log [0; 1000; 7; 9; 5] us rest) as (r1 & r2 & r3 & r4 & mean & e & Er & Hm & He & Hus).
  - repeat constructor; discriminate.
  - exact E.
  - injection Er as <- <- <- <- <-. exists us. split; [reflexivity|]. exists e.
    vm_compute in Hm. injection Hm as <-. split; [exact He|exact Hus].
Defined.

Lemma steal_my_cpu_overruns_witness :
  Thread.scan_string 4 (chars "abc" ++ [0]) 0 = Fault OutOfBounds ∧ Thread.scan_string 5 (chars "abcd" ++ [0]) 0 = Val (Some tt).
Proof. split; apply (proj1 steal_my_cpu_overruns); repeat constructor; discriminate. Defined.

(** A [log] that is minus infinity at zero. *)
Definition zero_log (x : f64) : f64 := if SFeqb x zero then S754_infinity true else some_log x.

(** One turn, and a second one for which [random()] returns [RAND_MAX - 1]. *)
Lemma leak_main_leaks_witness :
  (∃ l, Leak.leak_main zero_log [true; true] [RAND_MAX; RAND_MAX; 5; RAND_MAX; 1000000000] = Val l ∧
     map snd l = [Leak.MAX_LEAK + 1] ∧ Forall (λ t, is_u32 t.1 ∧ Leak.MIN_LEAK <= t.2 <= Leak.MAX_LEAK + 1) l) ∧
  Leak.leak_main zero_log [true] [0; 0; RAND_MAX - 1; RAND_MAX; 1000000000] = Fault SignedOverflow.
Proof.
  split.
  - destruct (leak_main_leaks zero_log [true; true] [RAND_MAX; RAND_MAX; 5; RAND_MAX; 1000000000])
      as [[(l & E & _ & Hl)|[[H _]|[H _]]] _]; try (vm_compute in H; discriminate H).
    + unfold RAND_MAX. repeat constructor; lia.
    + exists l. split; [exact E|]. split; [|exact Hl]. vm_compute in E. injection E as <-. reflexivity.
  - destruct (leak_main_leaks zero_log [true] [0; 0; RAND_MAX - 1; RAND_MAX; 1000000000]) as [_ H].
    + unfold RAND_MAX. repeat constructor; lia.
    + destruct H as [H|H]; [reflexivity|simpl; lia|reflexivity|vm_compute in H; discriminate H|exact H].
Defined.
