(* ===== verification/Registry.v ===== *)
(** * What the load balancer's table promises

    The specification of the table of balancer.c that the controller's messages
    maintain: for every service the multiset of the endpoints that are up.  The
    interface [RegistryImpl] states what an implementation owes; the balancer's
    arrays are an instance, and so is the specification itself.  Clients of the
    interface (Pipeline.v) are proved against it alone. *)
From stdpp Require Export gmultiset.
From S2P Require Import Prelude Protocol Balancer.
Open Scope Z_scope.

(** ** The abstract table *)
Notation endpoint := (list Z * Z)%type (only parsing).
Notation registry := (nat → gmultiset endpoint) (only parsing).

Definition endpoint_of (m : virtual_machine) : endpoint := (ip m, port m).

(** What a message asks for. *)
Definition registry_step (m : virtual_machine) (r : registry) : registry := λ k,
  if decide (vm_srv m = Z.of_nat k) then
    if decide (op m = ADD) then {[+ endpoint_of m +]} ⊎ r k
    else if decide (op m = DELETE ∨ op m = REJ) then r k ∖ {[+ endpoint_of m +]}
    else r k
  else r k.

Definition registry_run (ms : list virtual_machine) (r : registry) : registry :=
  foldl (λ r m, registry_step m r) r ms.

Definition empty_registry : registry := λ _, ∅.

(** A message for an existing service, with a terminated address. *)
Definition valid_message (m : virtual_machine) : Prop :=
  (∃ k : nat, (k < 3)%nat ∧ vm_srv m = Z.of_nat k) ∧ (length (ip m) < 16)%nat.

(** Equal tables: the services that exist. *)
Definition registry_eq (r r' : registry) : Prop := ∀ k : nat, (k < 3)%nat → r k = r' k.
Infix "≡ᵣ" := registry_eq (at level 70) : a2pm_scope.

#[export] Instance registry_eq_equiv : Equivalence registry_eq.
Proof. split; unfold registry_eq; [done|by intros x y H k Hk; rewrite H|by intros x y z H1 H2 k Hk; rewrite H1, H2]. Qed.

#[export] Instance registry_step_proper (m : virtual_machine) : Proper (registry_eq ==> registry_eq) (registry_step m).
Proof. intros r r' H k Hk. unfold registry_step. by rewrite (H k Hk). Qed.

#[export] Instance registry_run_proper ms : Proper (registry_eq ==> registry_eq) (registry_run ms).
Proof. induction ms as [|m ms IH]; intros r r' H; cbn; [done|]. apply IH. by rewrite H. Qed.

(** A message makes no service larger than by one. *)
Lemma registry_step_size (m : virtual_machine) (r : registry) k : (size (registry_step m r k) <= S (size (r k)))%nat.
Proof.
  unfold registry_step. case_decide; [|lia]. case_decide; [rewrite gmultiset_size_disj_union, gmultiset_size_singleton; lia|].
  case_decide; [|lia].
  pose proof (gmultiset_subseteq_size (r k ∖ {[+ endpoint_of m +]}) (r k) ltac:(multiset_solver)). lia.
Qed.

Lemma registry_run_size ms r k : (size (registry_run ms r k) <= length ms + size (r k))%nat.
Proof.
  revert r. induction ms as [|m ms IH]; intros r; cbn; [lia|].
  specialize (IH (registry_step m r)). pose proof (registry_step_size m r k). unfold registry_run in *. lia.
Qed.

Lemma registry_run_snoc ms m r : registry_run (ms ++ [m]) r = registry_step m (registry_run ms r).
Proof. unfold registry_run. by rewrite foldl_app. Qed.

(** ** The interface *)
Class RegistryImpl (St : Type) := {
  impl_ok : St → Prop;
  impl_view : St → registry;
  impl_message : virtual_machine → St → outcome St;
  (** A message has the effect the specification gives it, and a table that has
      room for another VM takes it. *)
  impl_message_ok m s :
    impl_ok s → valid_message m → (∀ k, (k < 3)%nat → Z.of_nat (size (impl_view s k)) < 2 ^ 30) →
    ∃ s', impl_message m s = Val s' ∧ impl_ok s' ∧ impl_view s' ≡ᵣ registry_step m (impl_view s)
}.

Section Runs.
Context `{RegistryImpl St}.

Fixpoint impl_run (ms : list virtual_machine) (s : St) : outcome St :=
  match ms with
  | [] => mret s
  | m :: ms => s ← impl_message m s; impl_run ms s
  end.

(** The diagram of one message, along a run. *)
Lemma impl_run_refines ms s :
  impl_ok s → Forall valid_message ms →
  (∀ k, (k < 3)%nat → Z.of_nat (size (impl_view s k)) + Z.of_nat (length ms) <= 2 ^ 30) →
  ∃ s', impl_run ms s = Val s' ∧ impl_ok s' ∧ impl_view s' ≡ᵣ registry_run ms (impl_view s).
Proof.
  intros Hs Hms. revert s Hs. induction Hms as [|m ms Hm _ IH]; intros s Hs Hroom; cbn [impl_run registry_run foldl].
  - by exists s.
  - destruct (impl_message_ok m s Hs Hm) as (s1 & -> & Hs1 & Hv1).
    { intros k Hk. specialize (Hroom k Hk). cbn [length] in Hroom. lia. }
    cbn [mbind outcome_bind]. destruct (IH s1 Hs1) as (s' & E & Hs' & Hv').
    { intros k Hk. rewrite (Hv1 k Hk). specialize (Hroom k Hk). cbn [length] in Hroom.
      pose proof (registry_step_size m (impl_view s) k). lia. }
    exists s'. split; [done|]. split; [done|]. rewrite Hv'. unfold registry_run. by apply registry_run_proper.
Qed.
End Runs.

(** The specification implements itself. *)
#[export] Program Instance registry_impl : RegistryImpl registry := {
  impl_ok _ := True; impl_view r := r; impl_message m r := Val (registry_step m r)
}.
Next Obligation. intros m s _ _ _. by exists (registry_step m s). Qed.

(** ** The balancer's arrays *)
Definition lb_endpoint (v : lb_vm) : endpoint := (lb_ip v, lb_port v).
Definition lb_view (b : lb) : registry := λ k, list_to_set_disj (map lb_endpoint (llive b k)).

Lemma lb_view_size b k : size (lb_view b k) = length (llive b k).
Proof.
  unfold lb_view. generalize (llive b k). intros l. induction l as [|v l IH]; [done|].
  cbn [map list_to_set_disj length]. rewrite gmultiset_size_disj_union, gmultiset_size_singleton, IH. done.
Qed.

Lemma lb_view_perm b b' k v : llive b k ≡ₚ v :: llive b' k → lb_view b k = {[+ lb_endpoint v +]} ⊎ lb_view b' k.
Proof. intros Hp. unfold lb_view. by rewrite Hp. Qed.

Lemma lb_view_absent b k e :
  Forall (λ v, ¬ (lb_ip v = e.1 ∧ lb_port v = e.2)) (llive b k) → e ∉ lb_view b k.
Proof.
  intros H He. unfold lb_view in He. rewrite elem_of_list_to_set_disj, list_elem_of_fmap in He.
  destruct He as (v & -> & Hv). rewrite Forall_forall in H. by apply (H v Hv).
Qed.

Lemma lb_message_registry f m b :
  lb_ok b → valid_message m → (∀ k, (k < 3)%nat → Z.of_nat (size (lb_view b k)) < 2 ^ 30) →
  ∃ b', controller_message (plenty f) m b = Val b' ∧ lb_ok b' ∧ lb_view b' ≡ᵣ registry_step m (lb_view b).
Proof.
  intros Hb [(k & Hk & Hm) Hip] Hroom. specialize (Hroom k Hk). rewrite lb_view_size in Hroom.
  destruct (controller_message_spec (plenty f) m b k Hb Hk Hm)
    as [(b' & E & Hb' & Hsame & _ & _ & Hadd & Hdel & Hother)|H]; [|by apply plenty_no_fault in H].
  exists b'. split; [done|]. split; [done|]. intros k' _. unfold registry_step.
  rewrite Hm. destruct (decide (Z.of_nat k = Z.of_nat k')) as [->%Nat2Z.inj|Hne].
  2: { unfold lb_view. rewrite (Hsame k'); [done|]. by intros ->. }
  case_decide as Ha; [|case_decide as Hd].
  - unfold lb_view. rewrite (Hadd Ha), map_app, list_to_set_disj_app. cbn [map list_to_set_disj]. unfold lb_endpoint, endpoint_of. cbn [lb_ip lb_port]. multiset_solver.
  - destruct (Hdel Hd) as [(v & Hv1 & Hv2 & Hp)|[Hno Hl]].
    + rewrite (lb_view_perm _ _ _ _ Hp). unfold lb_endpoint. rewrite Hv1, Hv2. unfold endpoint_of. multiset_solver.
    + pose proof (lb_view_absent b k' (endpoint_of m) Hno). unfold lb_view at 1. rewrite Hl. fold (lb_view b k').
      multiset_solver.
  - unfold lb_view. rewrite Hother; [done|done|tauto|tauto].
Qed.

#[export] Instance lb_impl (f : Z → lb_vm) : RegistryImpl lb := {|
  impl_ok := lb_ok; impl_view := lb_view; impl_message := controller_message (plenty f);
  impl_message_ok := lb_message_registry f
|}.

Lemma messages_impl_run f ms b : messages (plenty f) ms b = impl_run (H := lb_impl f) ms b.
Proof.
  revert b. induction ms as [|m ms IH]; intros b; [done|]. cbn [messages impl_run].
  change (@impl_message lb (lb_impl f) m b) with (controller_message (plenty f) m b).
  destruct (controller_message (plenty f) m b); cbn [mbind outcome_bind]; [apply IH|done..].
Qed.

(** ** The choice of a VM *)

(** The index of the VM in turn is a live entry, or just past the last one. *)
Definition index_ok (b : lb) : Prop :=
  ∃ i : nat, actual_index b !! 0%nat = Some (Z.of_nat i) ∧ (i <= length (llive b 0))%nat.

Definition free_place (b : lb) (v : lb_vm) : Prop := no_ip ∈ clients_of b v.

Lemma lb_view_elem b v : v ∈ llive b 0 → lb_endpoint v ∈ lb_view b 0.
Proof. intros Hv. unfold lb_view. rewrite elem_of_list_to_set_disj. by apply list_elem_of_fmap_2. Qed.

(** [check_already_connected], when the index is a live entry. *)
Lemma check_in_range b addr j v :
  lb_ok b → actual_index b !! 0%nat = Some (Z.of_nat j) → llive b 0 !! j = Some v →
  (∃ w, home b addr = Some w ∧ w ∈ llive b 0 ∧ check_already_connected addr b = Val (lb_ip w, lb_port w, b)) ∨
  home b addr = None ∧ ¬ free_place b v ∧ check_already_connected addr b = Fault OutOfBounds ∨
  home b addr = None ∧ ∃ used rest b', clients_of b v = used ++ no_ip :: rest ∧ no_ip ∉ used ∧
    check_already_connected addr b = Val (lb_ip v, lb_port v, b') ∧ lb_ok b' ∧
    (∀ k, llive b' k = llive b k) ∧ actual_index b' !! 0%nat = Some (Z.of_nat (S j)) ∧
    clients_of b' v = used ++ addr :: rest ∧
    ∀ j' w, j' ≠ j → llive b 0 !! j' = Some w → clients_of b' w = clients_of b w.
Proof.
  intros Hok Ha Hv. destruct (home b addr) as [w|] eqn:Hh.
  - left. exists w. split; [done|]. destruct (check_home b addr Hok) as (slots & n & _ & _ & _ & _ & _ & ->).
    rewrite Hh. split; [|done]. unfold home in Hh. apply fmap_Some in Hh as ([i w'] & Hf & ->).
    apply list_find_Some in Hf as (Hi & _). by eapply list_elem_of_lookup_2.
  - right. destruct (decide (no_ip ∈ clients_of b v)) as [Hin|Hno].
    + right. split; [done|]. apply list_elem_of_split_l in Hin as (used & rest & Hc & Hu).
      destruct (assign_client b addr j v used rest Hok Hh Ha Hv Hc Hu) as (b' & ? & ? & ? & _ & ? & ? & ?).
      by exists used, rest, b'.
    + left. split; [done|]. split; [done|]. by apply (full_vm_faults b addr j v).
Qed.

(** [get_current_socket] brings the index into the live range first. *)
Lemma get_current_socket_in_range b addr :
  lb_ok b → index_ok b → llive b 0 ≠ [] →
  ∃ b0 j v, lb_ok b0 ∧ (∀ k, llive b0 k = llive b k) ∧ strings b0 = strings b ∧
    actual_index b0 !! 0%nat = Some (Z.of_nat j) ∧ llive b 0 !! j = Some v ∧
    get_current_socket addr true true b = check_already_connected addr b0.
Proof.
  intros Hok (i & Ha & Hi) Hne.
  destruct (check_home b addr Hok) as (slots & n & En & _ & Hlive & Hn & Hlen & _).
  assert (Hlen2 : n = Z.of_nat (length (llive b 0))) by (rewrite Hlive, length_take; lia).
  assert (Hbind : ∀ o : outcome (list Z * Z * lb), (o ≫= λ r, mret r) = o) by by intros [].
  assert (Hai : length (actual_index b) = 3%nat) by (destruct Hok as [(_ & _ & _ & ? & _) _]; done).
  unfold get_current_socket.
  rewrite (arr_get_nat (actual_index b) 0 _ Ha : arr_get (actual_index b) 0 = _),
    (arr_get_nat (lb_current b) 0 _ En : arr_get (lb_current b) 0 = _). cbn [mbind outcome_bind].
  case_decide as Hw.
  - rewrite arr_set_in_bounds by lia. cbn [mbind outcome_bind mret outcome_ret]. change (Z.to_nat 0) with 0%nat.
    destruct (lookup_lt_is_Some_2 (llive b 0) 0) as [v Hv]; [by destruct (llive b 0); [|cbn; lia]|].
    exists (set_actual_index (<[0%nat := 0]> (actual_index b)) b), 0%nat, v.
    split; [by apply lb_ok_index|]. split; [done|]. split; [done|].
    split; [cbn [set_actual_index actual_index]; by rewrite list_lookup_insert_eq by lia|]. split; [done|apply Hbind].
  - cbn [mbind outcome_bind mret outcome_ret].
    destruct (lookup_lt_is_Some_2 (llive b 0) i) as [v Hv]; [lia|].
    exists b, i, v. by split_and!.
Qed.

(** Every run of messages from the start of the program. *)
Lemma startup_refines f ms b :
  create_system_image (Some f) = Val b → Forall valid_message ms → Z.of_nat (length ms) <= 2 ^ 30 →
  ∃ b', messages (plenty (f 0)) ms b = Val b' ∧ lb_ok b' ∧ lb_view b' ≡ᵣ registry_run ms empty_registry.
Proof.
  intros Hb Hms Hlen. pose proof (create_system_image_ok f b Hb) as Hok.
  assert (Hview : ∀ k, (k < 3)%nat → lb_view b k = ∅).
  { unfold create_system_image in Hb. injection Hb as <-. intros [|[|[|k]]] Hk; [reflexivity..|lia]. }
  destruct (impl_run_refines (H := lb_impl (f 0)) ms b Hok Hms) as (b' & E & Hb' & Hv).
  - intros k Hk. cbn. rewrite (Hview k Hk), gmultiset_size_empty. lia.
  - exists b'. rewrite messages_impl_run. split; [exact E|]. split; [done|]. etrans; [exact Hv|]. by apply registry_run_proper.
Qed.

(** While the index is in range, a connection goes to an endpoint of the table,
    and leaves the table as it is and the index in range. *)
Lemma current_socket_registered b addr a p b' :
  lb_ok b → index_ok b → llive b 0 ≠ [] → get_current_socket addr true true b = Val (a, p, b') →
  (a, p) ∈ lb_view b 0 ∧ lb_ok b' ∧ index_ok b' ∧ ∀ k, llive b' k = llive b k.
Proof.
  intros Hok Hi Hne. destruct (get_current_socket_in_range b addr Hok Hi Hne) as (b0 & j & v & Hok0 & Hl & Hs & Ha & Hv & ->).
  apply lookup_lt_Some in Hv as Hj.
  destruct (check_in_range b0 addr j v Hok0 Ha ltac:(by rewrite Hl))
    as [(w & _ & Hw & ->)|[(_ & _ & ->)|(_ & used & rest & b1 & _ & _ & -> & Hok1 & Hl1 & Ha1 & _)]]; [|done|];
    intros [= <- <- <-].
  - rewrite Hl in Hw. split; [by apply (lb_view_elem b w)|]. split; [done|]. split; [|done].
    exists j. rewrite Hl. split; [done|lia].
  - split; [apply (lb_view_elem b v); by eapply list_elem_of_lookup_2|]. split; [done|].
    split; [|intros k; by rewrite Hl1]. exists (S j). rewrite Hl1, Hl. split; [done|lia].
Qed.

(** ** Property *)

(** C7.  The load balancer implements the abstract table: after any sequence of at
    most 2^30 messages that name a service and hold a terminated address, from the
    start of the program and while [malloc] and [realloc] find memory, its arrays are
    well-formed and hold for every service exactly the endpoints the
    specification holds. *)
Theorem balancer_refines_registry f ms b :
  create_system_image (Some f) = Val b → Forall valid_message ms → Z.of_nat (length ms) <= 2 ^ 30 →
  ∃ b', messages (plenty (f 0)) ms b = Val b' ∧ lb_ok b' ∧ lb_view b' ≡ᵣ registry_run ms empty_registry.
Proof. apply startup_refines. Qed.

(** ** Witness *)
Definition churn : list virtual_machine :=
  [vm_msg 55 ADD; vm_msg 56 ADD; vm_msg 55 ADD; vm_msg 55 REJ; vm_msg 57 DELETE].

Lemma churn_valid : Forall valid_message churn.
Proof. repeat constructor; try (exists 0%nat; split; [lia|reflexivity]); vm_compute; lia. Qed.

Lemma balancer_refines_registry_witness :
  ∃ b b', create_system_image (Some raw) = Val b ∧ messages (plenty (raw 0)) churn b = Val b' ∧
    lb_view b' 0%nat = {[+ (ip (vm_msg 55 ADD), 36895); (ip (vm_msg 56 ADD), 36895) +]}.
Proof.
  eexists. destruct (balancer_refines_registry raw churn _ eq_refl churn_valid) as (b' & E & _ & Hv); [simpl; lia|].
  exists b'. split; [reflexivity|]. split; [exact E|]. rewrite (Hv 0%nat ltac:(lia)).
  apply (bool_decide_unpack _). vm_compute. exact I.
Defined.
