(* ===== verification/Races.v ===== *)
(** * controller/balancer.c: a worker and the controller thread, access by access

    [mutex] keeps the workers apart while they choose a VM, but [controller_thread]
    never takes it.  Here the choice of a VM and a message of the controller are
    cut into their accesses to the shared tables, and the two threads interleave:
    a step is one access or the code between two of them, a copy of a struct or of
    a short string being one access.  A pointer into [vm_data_set[0]] that was
    taken before a [realloc] moved the block is a dangling one: the epoch counts
    the moves. *)
From S2P Require Import Prelude Protocol SockHelp Balancer Registry.
Open Scope Z_scope.

(** ** controller_thread: one message *)
Inductive ctrl_pc :=
  | CtWait
  | CtGrow (m : virtual_machine)                       (* check_vm_data_set_size *)
  | CtTemp (m : virtual_machine)                       (* temp_vm_data = ... *)
  | CtList (m : virtual_machine) (temp : Z) (i : nat)  (* create_empty_list, place i *)
  | CtIp (m : virtual_machine) (temp : Z)              (* strcpy(temp_vm_data->ip_address, ...) *)
  | CtPort (m : virtual_machine) (temp : Z)
  | CtIncr (m : virtual_machine)
  | CtFind (m : virtual_machine) (index : Z)           (* the loop of delete_vm *)
  | CtDecr (m : virtual_machine) (index : Z)
  | CtCopy (m : virtual_machine) (index last : Z).

(** The tables, and how often the block of service 0 has moved. *)
Record shared := Shared { sh_lb : lb; sh_epoch : nat }.

Definition get_slot (b : lb) (srv index : Z) : outcome lb_vm :=
  slots ← arr_get (lb_set b) srv; arr_get slots index.

(** [connected_clients[i] = p] *)
Definition set_place (i : nat) (p : ptr) (v : lb_vm) : lb_vm :=
  LbVm (lb_ip v) (lb_port v) (take i (connected_clients v) ++ [p] ++ drop (S i) (connected_clients v)).

Definition set_current (srv n : Z) (b : lb) : outcome lb :=
  current ← arr_set (lb_current b) srv n; mret (set_lb_current current b).

(** [fresh] is the memory that is found, and [moves] whether [realloc] moves the block. *)
Definition ctrl_step (fresh : lb_memory) (moves : bool) (pc : ctrl_pc) (s : shared) : outcome (ctrl_pc * shared) :=
  let b := sh_lb s in
  let goto pc b := Val (pc, Shared b (sh_epoch s)) in
  match pc with
  | CtWait => goto CtWait b
  | CtGrow m =>
      current ← arr_get (lb_current b) (vm_srv m);
      allocated ← arr_get (lb_allocated b) (vm_srv m);
      b' ← check_vm_data_set_size (lb_realloc fresh) (vm_srv m) b;
      Val (CtTemp m, Shared b' (if moves && (current =? allocated) && (vm_srv m =? 0) then S (sh_epoch s) else sh_epoch s))
  | CtTemp m => n ← arr_get (lb_current b) (vm_srv m); goto (CtList m n 0) b
  | CtList m temp i =>
      if decide (i < 5)%nat then
        if decide (i < lb_mallocs fresh)%nat then
          v ← get_slot b (vm_srv m) temp;
          b' ← set_lb_slot b (vm_srv m) temp (set_place i (length (strings b)) v);
          goto (CtList m temp (S i)) (set_strings (strings b ++ [no_ip]) b')
        else Fault NullDeref
      else if op m =? ADD then goto (CtIp m temp) b
      else if op m =? DELETE then _ ← string16 (ip m); goto (CtFind m 0) b
      else if op m =? REJ then _ ← string16 (ip m); goto (CtFind m 0) b
      else goto CtWait b
  | CtIp m temp =>
      v ← get_slot b (vm_srv m) temp;
      x ← string16 (ip m);
      b' ← set_lb_slot b (vm_srv m) temp (LbVm x (lb_port v) (connected_clients v));
      goto (CtPort m temp) b'
  | CtPort m temp =>
      v ← get_slot b (vm_srv m) temp;
      b' ← set_lb_slot b (vm_srv m) temp (LbVm (lb_ip v) (port m) (connected_clients v));
      goto (CtIncr m) b'
  | CtIncr m =>
      n ← arr_get (lb_current b) (vm_srv m);
      b' ← set_current (vm_srv m) (n + 1) b;
      goto CtWait b'
  | CtFind m index =>
      n ← arr_get (lb_current b) (vm_srv m);
      if decide (index < n) then
        v ← get_slot b (vm_srv m) index;
        if bool_decide (lb_ip v = ip m) && (lb_port v =? port m) then goto (CtDecr m index) b
        else goto (CtFind m (index + 1)) b
      else goto CtWait b
  | CtDecr m index =>
      n ← arr_get (lb_current b) (vm_srv m);
      b' ← set_current (vm_srv m) (n - 1) b;
      goto (CtCopy m index (n - 1)) b'
  | CtCopy m index last =>
      v ← get_slot b (vm_srv m) last;
      b' ← set_lb_slot b (vm_srv m) index v;
      goto CtWait b'
  end.

(** ** get_current_socket and check_already_connected

    [p] is the epoch of the pointer that was passed to [search_ip] or
    [inet_addr]; [fresh_client] is whether the client is new. *)
Inductive route_pc :=
  | RtIdle
  | RtTest                                                       (* if (actual_index[0] == current_vms[0]) *)
  | RtLoop (index : Z)
  | RtPlace (index : Z) (p : nat) (place : nat)                  (* search_ip for the client *)
  | RtIp (index : Z) (fresh_client : bool) (p : nat)             (* inet_addr *)
  | RtPort (index : Z) (fresh_client : bool) (vm_ip : list Z)
  | RtFree (index : Z) (p : nat) (place : nat) (vm : list Z * Z) (* search_ip for "0.0.0.0" *)
  | RtStore (index place : Z) (vm : list Z * Z)                  (* strcpy(...connected_clients[place], ip) *)
  | RtDone (vm : list Z * Z).

(** One comparison of [search_ip], through a pointer of epoch [p]. *)
Definition compare_place (s : shared) (index : Z) (p place : nat) (addr : list Z) : outcome bool :=
  if decide (p = sh_epoch s) then
    v ← get_slot (sh_lb s) 0 index;
    q ← arr_get (connected_clients v) (Z.of_nat place);
    t ← load (sh_lb s) q;
    mret (bool_decide (t = addr))
  else Fault UseAfterFree.

Definition route_step (addr : list Z) (pc : route_pc) (s : shared) : outcome (route_pc * shared) :=
  let b := sh_lb s in
  let goto pc := Val (pc, s) in
  match pc with
  | RtIdle => goto RtIdle
  | RtTest =>
      i ← arr_get (actual_index b) 0;
      n ← arr_get (lb_current b) 0;
      if decide (i = n) then
        index ← arr_set (actual_index b) 0 0;
        Val (RtLoop 0, Shared (set_actual_index index b) (sh_epoch s))
      else goto (RtLoop 0)
  | RtLoop index =>
      n ← arr_get (lb_current b) 0;
      if decide (index < n) then goto (RtPlace index (sh_epoch s) 0)
      else i ← arr_get (actual_index b) 0; goto (RtIp i true (sh_epoch s))
  | RtPlace index p place =>
      if decide (place < 5)%nat then
        same ← compare_place s index p place addr;
        if (same : bool) then goto (RtIp index false (sh_epoch s)) else goto (RtPlace index p (S place))
      else goto (RtLoop (index + 1))
  | RtIp index fresh_client p =>
      if decide (p = sh_epoch s) then
        v ← get_slot b 0 index; goto (RtPort index fresh_client (lb_ip v))
      else Fault UseAfterFree
  | RtPort index fresh_client vm_ip =>
      v ← get_slot b 0 index;
      if fresh_client then goto (RtFree index (sh_epoch s) 0 (vm_ip, lb_port v)) else goto (RtDone (vm_ip, lb_port v))
  | RtFree index p place vm =>
      if decide (place < 5)%nat then
        same ← compare_place s index p place no_ip;
        if (same : bool) then goto (RtStore index (Z.of_nat place) vm) else goto (RtFree index p (S place) vm)
      else goto (RtStore index (-1) vm)
  | RtStore index place vm =>
      v ← get_slot b 0 index;
      q ← arr_get (connected_clients v) place;
      b ← store b q addr;
      i ← arr_get (actual_index b) 0;
      index ← arr_set (actual_index b) 0 (i + 1);
      Val (RtDone vm, Shared (set_actual_index index b) (sh_epoch s))
  | RtDone vm => goto (RtDone vm)
  end.

(** ** Interleaving

    The worker that holds [mutex] and the controller thread; [log] records the
    messages received. *)
Record races := Races { r_shared : shared; r_ctrl : ctrl_pc; r_route : route_pc; r_addr : list Z; r_log : list virtual_machine }.

Inductive race_event :=
  | EMessage (m : virtual_machine)                          (* recv *)
  | ECtrl (fresh : lb_memory) (moves : bool)
  | EClient (addr : list Z)                                 (* the next worker has the mutex *)
  | ERoute.

Definition race_step (e : race_event) (s : races) : outcome (option races) :=
  match e with
  | EMessage m =>
      match r_ctrl s with
      | CtWait => Val (Some (Races (r_shared s) (CtGrow m) (r_route s) (r_addr s) (r_log s ++ [m])))
      | _ => Val None
      end
  | ECtrl fresh moves =>
      match r_ctrl s with
      | CtWait => Val None
      | pc => r ← ctrl_step fresh moves pc (r_shared s); Val (Some (Races r.2 r.1 (r_route s) (r_addr s) (r_log s)))
      end
  | EClient addr =>
      match r_route s with
      | RtIdle | RtDone _ => Val (Some (Races (r_shared s) (r_ctrl s) RtTest addr (r_log s)))
      | _ => Val None
      end
  | ERoute =>
      match r_route s with
      | RtIdle | RtDone _ => Val None
      | pc => r ← route_step (r_addr s) pc (r_shared s); Val (Some (Races r.2 (r_ctrl s) r.1 (r_addr s) (r_log s)))
      end
  end.

Definition race (G : race_event → races → Prop) (s s' : races) : Prop := ∃ e, G e s ∧ race_step e s = Val (Some s').

(** ** The invariant

    Above the live entries of a service there can be entries that were live and
    are not any more.  [h] is how many slots have ever been: all of them hold the
    address and the port of messages [ADD] of the service, if not of the same
    one, and five pointers to strings. *)
Definition known_ip (log : list virtual_machine) (k : nat) (x : list Z) : Prop :=
  ∃ m, m ∈ log ∧ op m = ADD ∧ vm_srv m = Z.of_nat k ∧ ip m = x.
Definition known_port (log : list virtual_machine) (k : nat) (x : Z) : Prop :=
  ∃ m, m ∈ log ∧ op m = ADD ∧ vm_srv m = Z.of_nat k ∧ port m = x.

Definition small (v : lb_vm) : Prop := (length (connected_clients v) <= 5)%nat.
Definition built (st i : nat) (v : lb_vm) : Prop :=
  (i <= length (connected_clients v))%nat ∧ Forall (λ p, (p < st)%nat) (take i (connected_clients v)).
Definition ready (log : list virtual_machine) (k st : nat) (v : lb_vm) : Prop :=
  known_ip log k (lb_ip v) ∧ known_port log k (lb_port v) ∧ built st 5 v.

Definition group (b : lb) (k : nat) (slots : list lb_vm) (n a : Z) : Prop :=
  lb_set b !! k = Some slots ∧ lb_current b !! k = Some n ∧ lb_allocated b !! k = Some a.

Definition group_inv (log : list virtual_machine) (b : lb) (h : nat → nat) (k : nat) : Prop :=
  ∃ slots n a, group b k slots n a ∧ lgroup_ok slots n a ∧ (Z.to_nat n <= h k <= length slots)%nat ∧
    Forall (ready log k (length (strings b))) (take (h k) slots) ∧ Forall small slots.

Definition sizes3 (b : lb) : Prop :=
  length (lb_set b) = 3%nat ∧ length (lb_current b) = 3%nat ∧ length (lb_allocated b) = 3%nat ∧ length (actual_index b) = 3%nat.

Definition tables_ok (log : list virtual_machine) (b : lb) (h : nat → nat) : Prop :=
  sizes3 b ∧ ∀ k, (k < 3)%nat → group_inv log b h k.

(** What the controller thread knows of the group of its message. *)
Definition about (log : list virtual_machine) (b : lb) (m : virtual_machine) (P : nat → list lb_vm → Z → Prop) : Prop :=
  ∃ k slots n a, (k < 3)%nat ∧ (vm_srv m = Z.of_nat k ∧ (length (ip m) < 16)%nat) ∧ m ∈ log ∧ group b k slots n a ∧ P k slots n.

Definition new_slot (slots : list lb_vm) (n temp : Z) (P : lb_vm → Prop) : Prop :=
  temp = n ∧ 0 <= n ∧ ∃ v, slots !! Z.to_nat n = Some v ∧ P v.

Definition ctrl_ok (log : list virtual_machine) (b : lb) (h : nat → nat) (pc : ctrl_pc) : Prop :=
  let st := length (strings b) in
  match pc with
  | CtWait => True
  | CtGrow m => about log b m (λ _ _ _, True)
  | CtTemp m => about log b m (λ _ slots n, (Z.to_nat n < length slots)%nat)
  | CtList m temp i => about log b m (λ _ slots n, (i <= 5)%nat ∧ new_slot slots n temp (built st i))
  | CtIp m temp => op m = ADD ∧ about log b m (λ _ slots n, new_slot slots n temp (built st 5))
  | CtPort m temp => op m = ADD ∧ about log b m (λ _ slots n, new_slot slots n temp (λ v, lb_ip v = ip m ∧ built st 5 v))
  | CtIncr m => op m = ADD ∧ about log b m (λ k slots n, new_slot slots n n (ready log k st))
  | CtFind m index => about log b m (λ _ _ _, 0 <= index)
  | CtDecr m index => about log b m (λ _ _ n, 0 <= index < n)
  | CtCopy m index last => about log b m (λ k _ n, last = n ∧ 0 <= index <= n ∧ (Z.to_nat n < h k)%nat)
  end.

Definition route_ok (log : list virtual_machine) (b : lb) (ep h0 : nat) (pc : route_pc) : Prop :=
  let below i := 0 <= i ∧ (Z.to_nat i < h0)%nat in
  let turn := ∃ i, actual_index b !! 0%nat = Some i ∧ below i in
  let known (vm : list Z * Z) := known_ip log 0 vm.1 ∧ known_port log 0 vm.2 in
  match pc with
  | RtIdle | RtTest => True
  | RtLoop i => 0 <= i ∧ turn
  | RtPlace i p _ => below i ∧ p = ep ∧ turn
  | RtIp i _ p => below i ∧ p = ep ∧ turn
  | RtPort i _ x => below i ∧ known_ip log 0 x ∧ turn
  | RtFree i p _ vm => below i ∧ p = ep ∧ known vm ∧ turn
  | RtStore i place vm => below i ∧ -1 <= place < 5 ∧ known vm ∧ turn
  | RtDone vm => known vm
  end.

Definition races_inv (s : races) : Prop :=
  ∃ h, let b := sh_lb (r_shared s) in
    tables_ok (r_log s) b h ∧ ctrl_ok (r_log s) b h (r_ctrl s) ∧
    route_ok (r_log s) b (sh_epoch (r_shared s)) (h 0%nat) (r_route s).

(** Growing the log, the heap of strings and the heights. *)
Lemma known_ip_mono log log' k x : log ⊆ log' → known_ip log k x → known_ip log' k x.
Proof. intros H (m & Hm & ?). exists m. split; [by apply H|done]. Qed.
Lemma known_port_mono log log' k x : log ⊆ log' → known_port log k x → known_port log' k x.
Proof. intros H (m & Hm & ?). exists m. split; [by apply H|done]. Qed.

Lemma built_mono st st' i v : (st <= st')%nat → built st i v → built st' i v.
Proof. intros Hst [H1 H2]. split; [done|]. eapply Forall_impl; [|exact H2]. intros p Hp. cbn in *. lia. Qed.

Lemma ready_mono log log' k st st' v : log ⊆ log' → (st <= st')%nat → ready log k st v → ready log' k st' v.
Proof.
  intros Hl Hst (H1 & H2 & H3). split; [by eapply known_ip_mono|]. split; [by eapply known_port_mono|by eapply built_mono].
Qed.

#[export] Hint Resolve known_ip_mono known_port_mono built_mono ready_mono : a2pm_inv.

Lemma group_fun b k slots n a slots' n' a' : group b k slots n a → group b k slots' n' a' → slots' = slots ∧ n' = n ∧ a' = a.
Proof. intros (H1 & H2 & H3) (H4 & H5 & H6). by simplify_eq. Qed.

Lemma about_mono log log' b b' m (P Q : nat → list lb_vm → Z → Prop) :
  log ⊆ log' → lb_set b' = lb_set b → lb_current b' = lb_current b → lb_allocated b' = lb_allocated b →
  (∀ k slots n, P k slots n → Q k slots n) → about log b m P → about log' b' m Q.
Proof.
  intros Hl E1 E2 E3 HPQ (k & slots & n & a & Hk & Hm & Hin & (G1 & G2 & G3) & HP).
  exists k, slots, n, a. split; [done|]. split; [done|]. split; [by apply Hl|]. split; [|by apply HPQ].
  unfold group. by rewrite E1, E2, E3.
Qed.

Lemma new_slot_mono slots n temp (P Q : lb_vm → Prop) : (∀ v, P v → Q v) → new_slot slots n temp P → new_slot slots n temp Q.
Proof. intros H (H1 & H2 & v & Hv & HP). split; [done|]. split; [done|]. exists v. split; [done|by apply H]. Qed.

(** The controller's facts survive what a worker does, and messages. *)
Lemma ctrl_ok_frame log log' b b' h pc :
  log ⊆ log' → lb_set b' = lb_set b → lb_current b' = lb_current b → lb_allocated b' = lb_allocated b →
  (length (strings b) <= length (strings b'))%nat → ctrl_ok log b h pc → ctrl_ok log' b' h pc.
Proof.
  intros Hl E1 E2 E3 Hst H.
  destruct pc; cbn [ctrl_ok] in *; try done; try (destruct H as [Ho H]; split; [done|]);
    (eapply about_mono; [exact Hl|exact E1|exact E2|exact E3| |exact H]); cbn; intros k slots n Hp; try done.
  - destruct Hp as [? Hp]. split; [done|]. eapply new_slot_mono; [|exact Hp]. eauto with a2pm_inv.
  - eapply new_slot_mono; [|exact Hp]. eauto with a2pm_inv.
  - eapply new_slot_mono; [|exact Hp]. intros v [? ?]. eauto with a2pm_inv.
  - eapply new_slot_mono; [|exact Hp]. eauto with a2pm_inv.
Qed.

(** A worker's facts survive what the controller thread does without moving the block. *)
Lemma route_ok_frame log log' b b' ep h0 h0' pc :
  log ⊆ log' → actual_index b' = actual_index b → (h0 <= h0')%nat → route_ok log b ep h0 pc → route_ok log' b' ep h0' pc.
Proof.
  intros Hl Ha Hh H.
  assert (Hb : ∀ i, 0 <= i ∧ (Z.to_nat i < h0)%nat → 0 <= i ∧ (Z.to_nat i < h0')%nat) by lia.
  assert (Ht : (∃ i, actual_index b !! 0%nat = Some i ∧ 0 <= i ∧ (Z.to_nat i < h0)%nat) →
               ∃ i, actual_index b' !! 0%nat = Some i ∧ 0 <= i ∧ (Z.to_nat i < h0')%nat).
  { intros (i & Hi & Hr). exists i. rewrite Ha. split; [done|by apply Hb]. }
  destruct pc; cbn [route_ok] in *; naive_solver eauto with a2pm_inv.
Qed.

(** Writing what belongs to one group. *)
Lemma tables_update log log' b b' h h' k slots n a :
  tables_ok log b h → (k < 3)%nat → log ⊆ log' →
  lb_set b' = <[k := slots]> (lb_set b) → lb_current b' = <[k := n]> (lb_current b) →
  lb_allocated b' = <[k := a]> (lb_allocated b) → length (actual_index b') = 3%nat →
  (length (strings b) <= length (strings b'))%nat → (∀ k', k' ≠ k → h' k' = h k') →
  lgroup_ok slots n a → (Z.to_nat n <= h' k <= length slots)%nat →
  Forall (ready log' k (length (strings b'))) (take (h' k) slots) → Forall small slots →
  tables_ok log' b' h' ∧ group b' k slots n a.
Proof.
  intros [(S1 & S2 & S3 & S4) H] Hk Hlog E1 E2 E3 Ha Hst Hh Hok Hn Hr Hs.
  assert (G : group b' k slots n a) by (unfold group; rewrite E1, E2, E3, !list_lookup_insert_eq by lia; done).
  split; [|done]. split; [unfold sizes3; by rewrite E1, E2, E3, !length_insert|].
  intros k' Hk'. destruct (decide (k' = k)) as [->|Hne]; [by exists slots, n, a|].
  destruct (H k' Hk') as (sl & n' & a' & (G1 & G2 & G3) & ? & ? & Hr' & ?).
  exists sl, n', a'. rewrite Hh by done.
  split; [unfold group; by rewrite E1, E2, E3, !list_lookup_insert_ne by done|].
  do 2 (split; [done|]). split; [|done]. eapply Forall_impl; [|exact Hr']. eauto with a2pm_inv.
Qed.

Lemma Forall_take_insert {A} (P Q : A → Prop) l i x m :
  (∀ y, P y → Q y) → ((i < m)%nat → Q x) → Forall P (take m l) → Forall Q (take m (<[i := x]> l)).
Proof.
  intros HPQ Hx Hf. assert (Hq : Forall Q (take m l)) by (eapply Forall_impl; [exact HPQ|exact Hf]).
  destruct (decide (i < m)%nat) as [Hi|Hi]; [|by rewrite take_insert_ge by lia].
  rewrite take_insert_lt by done. apply Forall_insert; [done|by apply Hx].
Qed.

(** One slot of a group. *)
Lemma slot_write log b h k slots n a i v st :
  tables_ok log b h → (k < 3)%nat → group b k slots n a → (i < length slots)%nat → small v →
  (length (strings b) <= length st)%nat → ((i < h k)%nat → ready log k (length st) v) →
  let b' := set_lb_set (<[k := <[i := v]> slots]> (lb_set b)) b in
  set_lb_slot b (Z.of_nat k) (Z.of_nat i) v = Val b' ∧
  tables_ok log (set_strings st b') h ∧ group (set_strings st b') k (<[i := v]> slots) n a.
Proof.
  intros Ht Hk (G1 & G2 & G3) Hi Hv Hst Hr b'. split; [by apply set_lb_slot_val|].
  pose proof Ht as [(S1 & S2 & S3 & S4) H].
  destruct (H k Hk) as (sl & n' & a' & (G1' & G2' & G3') & Hok & Hn & Hr' & Hs). simplify_eq.
  eapply (tables_update log); try done; cbn [b' set_strings set_lb_set lb_set lb_current lb_allocated strings actual_index].
  - by rewrite list_insert_id.
  - by rewrite list_insert_id.
  - unfold lgroup_ok in *. by rewrite length_insert.
  - by rewrite length_insert.
  - eapply Forall_take_insert; [|done|exact Hr']. eauto with a2pm_inv.
  - by apply Forall_insert.
Qed.

(** ** One step of the controller thread *)
Definition ctrl_next (log : list virtual_machine) (fresh : lb_memory) (b : lb) (ep h0 : nat)
    (r : outcome (ctrl_pc * shared)) : Prop :=
  match r with
  | Val (pc, s) =>
      sh_epoch s = ep ∧ actual_index (sh_lb s) = actual_index b ∧
      ∃ h, (h0 <= h 0%nat)%nat ∧ tables_ok log (sh_lb s) h ∧ ctrl_ok log (sh_lb s) h pc
  | Fault f => f = NullDeref ∧ (lb_realloc fresh = None ∨ (lb_mallocs fresh < 5)%nat) ∨ f = SignedOverflow ∧ ∃ k n : Z, arr_get (lb_current b) k = Val n ∧ 2 ^ 30 <= n
  | _ => False
  end.

Lemma ctrl_stay log fresh b ep h pc :
  tables_ok log b h → ctrl_ok log b h pc → ctrl_next log fresh b ep (h 0%nat) (Val (pc, Shared b ep)).
Proof. intros Ht Hc. split; [done|]. split; [done|]. by exists h. Qed.

(** What the facts about a group give its step. *)
Lemma about_reads log b h m P :
  tables_ok log b h → about log b m P →
  ∃ k slots n a, (k < 3)%nat ∧ (vm_srv m = Z.of_nat k ∧ (length (ip m) < 16)%nat) ∧ m ∈ log ∧ group b k slots n a ∧ P k slots n ∧
    lgroup_ok slots n a ∧ (Z.to_nat n <= h k <= length slots)%nat ∧
    Forall (ready log k (length (strings b))) (take (h k) slots) ∧ Forall small slots ∧
    arr_get (lb_current b) (Z.of_nat k) = Val n ∧ arr_get (lb_allocated b) (Z.of_nat k) = Val a ∧
    (∀ i v, 0 <= i → slots !! Z.to_nat i = Some v → get_slot b (Z.of_nat k) i = Val v).
Proof.
  intros [_ Ht] (k & slots & n & a & Hk & [Hm Hip] & Hin & G & HP). pose proof G as (G1 & G2 & G3).
  destruct (Ht k Hk) as (sl & n' & a' & G' & ? & ? & ? & ?).
  destruct (group_fun _ _ _ _ _ _ _ _ G G') as (-> & -> & ->).
  exists k, slots, n, a. split_and!; try done; try tauto; [by apply arr_get_nat..|].
  intros i v Hi Hv. unfold get_slot. rewrite (arr_get_nat _ _ _ G1). cbn. by apply arr_get_Val.
Qed.

Lemma ready_at log b h k slots i v :
  Forall (ready log k (length (strings b))) (take (h k) slots) → (i < h k)%nat → slots !! i = Some v →
  ready log k (length (strings b)) v.
Proof. intros Hf Hi Hv. eapply Forall_lookup_1; [exact Hf|]. by rewrite lookup_take_lt. Qed.

(** The controller thread writes the slot above the live ones. *)
Lemma new_slot_write log fresh b h ep m k slots n a v st g pc :
  tables_ok log b h → (k < 3)%nat → vm_srv m = Z.of_nat k → group b k slots n a → 0 <= n → (Z.to_nat n < length slots)%nat →
  small v → (length (strings b) <= length st)%nat → ((Z.to_nat n < h k)%nat → ready log k (length st) v) →
  (∀ sets, g (set_lb_set sets b) = set_strings st (set_lb_set sets b)) →
  (∀ b', group b' k (<[Z.to_nat n := v]> slots) n a → length (strings b') = length st →
     (<[Z.to_nat n := v]> slots) !! Z.to_nat n = Some v → ctrl_ok log b' h pc) →
  ctrl_next log fresh b ep (h 0%nat)
    (b' ← set_lb_slot b (vm_srv m) n v; Val (pc, Shared (g b') ep)).
Proof.
  intros Ht Hk Hm G Hn Hlt Hs Hst Hr Hg Hpc.
  destruct (slot_write log b h k slots n a (Z.to_nat n) v st) as (E & Ht' & G'); try done.
  rewrite Hm. replace n with (Z.of_nat (Z.to_nat n)) at 1 by lia. rewrite E. cbn [mbind outcome_bind ctrl_next sh_lb sh_epoch]. rewrite Hg.
  split; [done|]. split; [done|]. exists h. split; [done|]. split; [done|].
  apply Hpc; [done|done|]. by rewrite list_lookup_insert_eq.
Qed.

Lemma built_set_place st i v :
  (i < 5)%nat → small v → built st i v → small (set_place i st v) ∧ built (S st) (S i) (set_place i st v).
Proof.
  intros Hi Hs [Hl Hf]. unfold small, built in *. cbn [set_place connected_clients].
  assert (Hlen : length (take i (connected_clients v)) = i) by (rewrite length_take; lia).
  rewrite !length_app, length_drop, Hlen. cbn [length].
  rewrite take_app, Hlen, take_ge by lia. replace (S i - i)%nat with 1%nat by lia.
  split; [lia|]. split; [lia|]. apply Forall_app. split; [eapply Forall_impl; [|exact Hf]; cbn; lia|].
  cbn [app take]. constructor; [lia|constructor].
Qed.

Lemma built_replaced st i v : (i < 5)%nat → small v → built st 5 v → built (S st) 5 (set_place i st v).
Proof.
  intros Hi Hs [Hl Hf]. unfold small, built in *. cbn [set_place connected_clients].
  assert (Hlen : length (connected_clients v) = 5%nat) by lia. rewrite take_ge in Hf by lia.
  rewrite length_app, length_take, Hlen. cbn [app length]. rewrite length_drop, Hlen. split; [lia|].
  apply Forall_take, Forall_app. split; [|constructor; [lia|]].
  - eapply Forall_impl; [|apply Forall_take, Hf]. cbn. lia.
  - eapply Forall_impl; [|apply Forall_drop, Hf]. cbn. lia.
Qed.

Lemma about_intro log b m k slots n a (P : nat → list lb_vm → Z → Prop) :
  (k < 3)%nat → vm_srv m = Z.of_nat k → (length (ip m) < 16)%nat → m ∈ log → group b k slots n a → P k slots n → about log b m P.
Proof. intros. by exists k, slots, n, a. Qed.

Lemma ctrl_grow log fresh b h ep m :
  tables_ok log b h → ctrl_ok log b h (CtGrow m) → (∀ f i, lb_realloc fresh = Some f → small (f i)) →
  ctrl_next log fresh b ep (h 0%nat) (ctrl_step fresh false (CtGrow m) (Shared b ep)).
Proof.
  intros Ht Hc Hf. destruct (about_reads log b h m _ Ht Hc) as
    (k & slots & n & a & Hk & [Hm Hip] & Hin & G & _ & Hg & Hn & Hr & Hs & Rn & Ra & _).
  pose proof G as (G1 & G2 & G3). cbn [ctrl_step sh_lb sh_epoch]. unfold check_vm_data_set_size.
  rewrite Hm, Rn, Ra. cbn [mbind outcome_bind andb]. pose proof Hg as (Hl & Ha & Hmin & Hna). unfold NUMBER_VMs, is_s32 in *.
  case_decide as E; [|apply ctrl_stay; [done|]; eapply about_intro; try done; lia].
  case_decide as E2; [|right; split; [done|]; exists (Z.of_nat k), n; split; [done|lia]].
  rewrite (arr_get_nat _ _ _ G1). cbn [mbind outcome_bind]. destruct (lb_realloc fresh) as [f|] eqn:Ef; [|left; by split; [|left]].
  pose proof Ht as [(S1 & S2 & S3 & S4) _].
  rewrite !arr_set_in_bounds, Nat2Z.id by lia. cbn [mbind outcome_bind mret outcome_ret ctrl_next sh_epoch sh_lb actual_index].
  split; [done|]. split; [done|]. exists h. split; [done|].
  set (slots' := slots ++ map f (seqZ a a)).
  assert (Hlen : length slots' = (length slots + Z.to_nat a)%nat) by (unfold slots'; by rewrite length_app, length_map, length_seqZ).
  set (b' := Lb _ _ _ _ _).
  destruct (tables_update log log b b' h h k slots' n (2 * a)) as [Ht' G']; try done.
  - cbn [b' lb_current]. by rewrite list_insert_id.
  - unfold lgroup_ok, is_s32, NUMBER_VMs. lia.
  - lia.
  - unfold slots'. by rewrite take_app_le by lia.
  - apply Forall_app. split; [done|]. apply Forall_fmap, Forall_true. intros i. by apply Hf.
  - split; [exact Ht'|]. eapply about_intro; try done. lia.
Qed.

(** The entry of the new VM is filled in: the places, then the address and the port. *)
Lemma ctrl_list log fresh b h ep m temp i :
  tables_ok log b h → ctrl_ok log b h (CtList m temp i) →
  ctrl_next log fresh b ep (h 0%nat) (ctrl_step fresh false (CtList m temp i) (Shared b ep)).
Proof.
  intros Ht Hc. destruct (about_reads log b h m _ Ht Hc) as
    (k & slots & n & a & Hk & [Hm Hip] & Hin & G & [Hi (-> & Hn0 & v & Hv & Hb)] & Hg & Hn & Hr & Hs & Rn & _ & Rs).
  cbn [ctrl_step sh_lb sh_epoch]. case_decide as E; [case_decide as Em|].
  2: { left. split; [done|]. right. lia. }
  - rewrite Hm at 1. rewrite (Rs n v) by done. cbn [mbind outcome_bind].
    assert (Hsv : small v) by by eapply (Forall_lookup_1 _ _ _ _ Hs).
    destruct (built_set_place (length (strings b)) i v E Hsv Hb) as [Hs' Hb'].
    apply lookup_lt_Some in Hv as Hlt.
    eapply (new_slot_write log fresh b h ep m k slots n a _ (strings b ++ [no_ip]) (set_strings (strings b ++ [no_ip]))); try done.
    + rewrite length_app. lia.
    + intros Hlt'. destruct (ready_at log b h k slots _ v Hr Hlt' Hv) as (R1 & R2 & R3).
      rewrite length_app, Nat.add_1_r. split; [done|]. split; [done|]. by apply built_replaced.
    + intros b' G' Hst Hv'. eapply about_intro; try done. split; [lia|]. split; [done|]. split; [done|].
      eexists. split; [exact Hv'|]. rewrite Hst, length_app, Nat.add_1_r. done.
  - assert (i = 5%nat) as -> by lia. unfold ADD, DELETE, REJ in *.
    destruct (Z.eqb_spec (op m) 0) as [Eo|_]; [|destruct (_ =? 1); [|destruct (_ =? 2)]];
      unfold string16; rewrite ?decide_True by done; cbn [mbind outcome_bind]; apply ctrl_stay; try done.
    + split; [exact Eo|]. eapply about_intro; try done. split; [done|]. split; [done|]. by exists v.
    + by eapply about_intro.
    + by eapply about_intro.
Qed.

Lemma ctrl_field log fresh b h ep m temp pc :
  tables_ok log b h → ctrl_ok log b h pc → pc = CtIp m temp ∨ pc = CtPort m temp →
  ctrl_next log fresh b ep (h 0%nat) (ctrl_step fresh false pc (Shared b ep)).
Proof.
  intros Ht Hc Hpc.
  assert (op m = ADD) as Ho by (destruct Hpc as [-> | ->]; apply Hc).
  assert (about log b m (λ _ slots n, new_slot slots n temp (λ v, (pc = CtPort m temp → lb_ip v = ip m) ∧ built (length (strings b)) 5 v)))
    as Ha.
  { destruct Hpc as [-> | ->]; destruct Hc as [_ Hc]; (eapply about_mono; [done..| |exact Hc]); cbn; intros k slots n;
      apply new_slot_mono; [done|]. by intros v [? ?]. }
  destruct (about_reads log b h m _ Ht Ha) as
    (k & slots & n & a & Hk & [Hm Hterm] & Hin & G & (-> & Hn0 & v & Hv & Hip & Hb) & Hg & Hn & Hr & Hs & Rn & _ & Rs).
  assert (Hsv : small v) by by eapply (Forall_lookup_1 _ _ _ _ Hs).
  assert (Hkip : known_ip log k (ip m)) by by exists m.
  assert (Hkp : known_port log k (port m)) by by exists m.
  apply lookup_lt_Some in Hv as Hlt.
  assert (Hold : (Z.to_nat n < h k)%nat → ready log k (length (strings b)) v) by (intros Hlt'; by eapply ready_at).
  destruct Hpc as [-> | ->]; cbn [ctrl_step sh_lb sh_epoch]; rewrite Hm at 1; rewrite (Rs n v) by done; cbn [mbind outcome_bind].
  - unfold string16. rewrite decide_True by done. cbn [mbind outcome_bind].
    eapply (new_slot_write log fresh b h ep m k slots n a _ (strings b) id); try done.
    + intros Hlt'. destruct (Hold Hlt') as (_ & ? & _). done.
    + intros b' G' Hst Hv'. split; [done|]. eapply about_intro; try done. split; [done|]. split; [done|].
      eexists. split; [exact Hv'|]. by rewrite Hst.
  - eapply (new_slot_write log fresh b h ep m k slots n a _ (strings b) id); try done.
    + intros Hlt'. destruct (Hold Hlt') as (? & _ & _). done.
    + intros b' G' Hst Hv'. split; [done|]. eapply about_intro; try done. split; [done|]. split; [done|].
      eexists. split; [exact Hv'|]. rewrite Hst. split; cbn [lb_ip lb_port]; [by rewrite Hip|done].
Qed.

(** The number of live entries of a group changes. *)
Lemma count_write log fresh b h ep m k slots n a n' h' pc :
  tables_ok log b h → (k < 3)%nat → vm_srv m = Z.of_nat k → group b k slots n a → lgroup_ok slots n' a →
  (∀ k', k' ≠ k → h' k' = h k') → (h k <= h' k)%nat → (Z.to_nat n' <= h' k <= length slots)%nat →
  Forall (ready log k (length (strings b))) (take (h' k) slots) → Forall small slots →
  (∀ b', group b' k slots n' a → ctrl_ok log b' h' pc) →
  ctrl_next log fresh b ep (h 0%nat) (b' ← set_current (vm_srv m) n' b; Val (pc, Shared b' ep)).
Proof.
  intros Ht Hk Hm G Hg Hh Hhk Hn Hr Hs Hpc. pose proof G as (G1 & G2 & G3). unfold set_current.
  pose proof Ht as [(S1 & S2 & S3 & S4) _].
  rewrite Hm, (set_lb_current_val b k n) by done. cbn [mbind outcome_bind mret outcome_ret ctrl_next sh_lb sh_epoch].
  split; [done|]. split; [done|]. exists h'.
  destruct (tables_update log log b (set_lb_current (<[k := n']> (lb_current b)) b) h h' k slots n' a) as [Ht' G']; try done.
  - cbn [set_lb_current lb_set]. by rewrite list_insert_id.
  - cbn [set_lb_current lb_allocated]. by rewrite list_insert_id.
  - split; [|by split; [|apply Hpc]]. destruct (decide (k = 0%nat)) as [->|]; [done|]. by rewrite Hh.
Qed.

Lemma ctrl_incr log fresh b h ep m :
  tables_ok log b h → ctrl_ok log b h (CtIncr m) →
  ctrl_next log fresh b ep (h 0%nat) (ctrl_step fresh false (CtIncr m) (Shared b ep)).
Proof.
  intros Ht [Ho Hc]. destruct (about_reads log b h m _ Ht Hc) as
    (k & slots & n & a & Hk & [Hm Hip] & Hin & G & (_ & Hn0 & v & Hv & Hb) & Hg & Hn & Hr & Hs & Rn & _ & Rs).
  apply lookup_lt_Some in Hv as Hlt. destruct Hg as (Hl & Ha & Hmin & Hna).
  cbn [ctrl_step sh_lb sh_epoch]. rewrite Hm at 1. rewrite Rn. cbn [mbind outcome_bind].
  set (h' := λ k', if decide (k' = k) then Nat.max (h k) (S (Z.to_nat n)) else h k').
  assert (Ek : h' k = Nat.max (h k) (S (Z.to_nat n))) by (unfold h'; by rewrite decide_True).
  eapply (count_write log fresh b h ep m k slots n a (n + 1) h'); try done.
  - unfold lgroup_ok. split_and!; done || lia.
  - intros k' Hk'. unfold h'. by rewrite decide_False.
  - rewrite Ek. lia.
  - rewrite Ek. lia.
  - rewrite Ek. destruct (decide (Z.to_nat n < h k)%nat); [by rewrite Nat.max_l by lia|].
    rewrite Nat.max_r by lia. erewrite take_S_r by done. apply Forall_app. split; [|by constructor].
    replace (Z.to_nat n) with (h k) by lia. done.
Qed.

(** The entry of a VM that leaves. *)
Lemma ctrl_find log fresh b h ep m index :
  tables_ok log b h → ctrl_ok log b h (CtFind m index) →
  ctrl_next log fresh b ep (h 0%nat) (ctrl_step fresh false (CtFind m index) (Shared b ep)).
Proof.
  intros Ht Hc. destruct (about_reads log b h m _ Ht Hc) as
    (k & slots & n & a & Hk & [Hm Hip] & Hin & G & Hi & Hg & Hn & Hr & Hs & Rn & _ & Rs).
  cbn [ctrl_step sh_lb sh_epoch]. rewrite Hm at 1. rewrite Rn. cbn [mbind outcome_bind].
  case_decide as E; [|by apply ctrl_stay].
  destruct (lookup_lt_is_Some_2 slots (Z.to_nat index)) as [v Hv]; [lia|].
  rewrite Hm at 1. rewrite (Rs index v) by done. cbn [mbind outcome_bind].
  destruct (_ && _); apply ctrl_stay; try done; eapply about_intro; try done; cbn; lia.
Qed.

Lemma ctrl_decr log fresh b h ep m index :
  tables_ok log b h → ctrl_ok log b h (CtDecr m index) →
  ctrl_next log fresh b ep (h 0%nat) (ctrl_step fresh false (CtDecr m index) (Shared b ep)).
Proof.
  intros Ht Hc. destruct (about_reads log b h m _ Ht Hc) as
    (k & slots & n & a & Hk & [Hm Hip] & Hin & G & Hi & Hg & Hn & Hr & Hs & Rn & _ & Rs).
  cbn [ctrl_step sh_lb sh_epoch]. rewrite Hm at 1. rewrite Rn. cbn [mbind outcome_bind].
  eapply (count_write log fresh b h ep m k slots n a (n - 1) h); try done; try lia; [unfold lgroup_ok in *; naive_solver lia|].
  intros b' G'. eapply about_intro; try done. lia.
Qed.

Lemma ctrl_copy log fresh b h ep m index last :
  tables_ok log b h → ctrl_ok log b h (CtCopy m index last) →
  ctrl_next log fresh b ep (h 0%nat) (ctrl_step fresh false (CtCopy m index last) (Shared b ep)).
Proof.
  intros Ht Hc. destruct (about_reads log b h m _ Ht Hc) as
    (k & slots & n & a & Hk & [Hm Hip] & Hin & G & (-> & Hi & Hnh) & Hg & Hn & Hr & Hs & Rn & _ & Rs).
  destruct (lookup_lt_is_Some_2 slots (Z.to_nat n)) as [v Hv]; [lia|].
  cbn [ctrl_step sh_lb sh_epoch]. rewrite Hm at 1. rewrite (Rs n v) by (destruct Hg as (_ & _ & _ & ?); done || lia). cbn [mbind outcome_bind].
  destruct (slot_write log b h k slots n a (Z.to_nat index) v (strings b)) as (E & Ht' & G'); try done; try lia.
  - by eapply (Forall_lookup_1 _ _ _ _ Hs).
  - intros _. by eapply ready_at.
  - rewrite Hm, Z2Nat.id in * by lia. rewrite E. cbn [mbind outcome_bind ctrl_next sh_lb sh_epoch].
    split; [done|]. split; [done|]. by exists h.
Qed.

Lemma ctrl_step_ok log fresh b h ep pc :
  tables_ok log b h → ctrl_ok log b h pc → (∀ f i, lb_realloc fresh = Some f → small (f i)) →
  ctrl_next log fresh b ep (h 0%nat) (ctrl_step fresh false pc (Shared b ep)).
Proof.
  intros Ht Hc Hf. destruct pc as [|m|m|m temp i|m temp|m temp|m|m index|m index|m index last].
  - by apply ctrl_stay.
  - by apply ctrl_grow.
  - destruct (about_reads log b h m _ Ht Hc) as
      (k & slots & n & a & Hk & [Hm Hip] & Hin & G & Hlt & Hg & Hn & Hr & Hs & Rn & _ & Rs).
    cbn [ctrl_step sh_lb sh_epoch]. rewrite Hm at 1. rewrite Rn. cbn [mbind outcome_bind].
    destruct (lookup_lt_is_Some_2 slots (Z.to_nat n)) as [v Hv]; [done|]. destruct Hg as (_ & _ & _ & Hna).
    apply ctrl_stay; [done|]. eapply about_intro; try done. split; [lia|]. split; [done|]. split; [lia|].
    exists v. split; [done|]. split; [lia|]. constructor.
  - by apply ctrl_list.
  - eapply ctrl_field; [done..|by left].
  - eapply ctrl_field; [done..|by right].
  - by apply ctrl_incr.
  - by apply ctrl_find.
  - by apply ctrl_decr.
  - by apply ctrl_copy.
Qed.

(** ** One step of a worker *)
Definition same_tables (b b' : lb) : Prop :=
  lb_set b' = lb_set b ∧ lb_current b' = lb_current b ∧ lb_allocated b' = lb_allocated b ∧
  length (strings b') = length (strings b) ∧ length (actual_index b') = length (actual_index b).

Lemma tables_same log b b' h : same_tables b b' → tables_ok log b h → tables_ok log b' h.
Proof.
  intros (E1 & E2 & E3 & E4 & E5) [(S1 & S2 & S3 & S4) H].
  split; [unfold sizes3; by rewrite E1, E2, E3, E5|]. intros k Hk. unfold group_inv, group. rewrite E1, E2, E3, E4. by apply H.
Qed.

Definition route_next (log : list virtual_machine) (b : lb) (ep h0 : nat) (pc : route_pc) (r : outcome (route_pc * shared)) : Prop :=
  match r with
  | Val (pc', s) => sh_epoch s = ep ∧ same_tables b (sh_lb s) ∧ route_ok log (sh_lb s) ep h0 pc'
  | Fault f => f = OutOfBounds ∧ ∃ i vm, pc = RtStore i (-1) vm
  | _ => False
  end.

Lemma route_stay log b ep h0 pc pc' : route_ok log b ep h0 pc' → route_next log b ep h0 pc (Val (pc', Shared b ep)).
Proof. intros H. split; [done|]. by split. Qed.

(** The entries a worker reads, live or not any more. *)
Lemma slot_reads log b h :
  tables_ok log b h → ∃ n, arr_get (lb_current b) 0 = Val n ∧ lb_current b !! 0%nat = Some n ∧ 0 <= n ∧ (Z.to_nat n <= h 0)%nat ∧
    ∀ i, 0 <= i → (Z.to_nat i < h 0)%nat → ∃ v, get_slot b 0 i = Val v ∧ ready log 0 (length (strings b)) v ∧ small v.
Proof.
  intros [_ Ht]. destruct (Ht 0%nat ltac:(lia)) as (slots & n & a & (G1 & G2 & G3) & (_ & _ & _ & Hna) & Hn & Hr & Hs).
  exists n. split; [by apply (arr_get_nat _ 0%nat)|]. split; [done|]. split; [lia|]. split; [lia|]. intros i Hi Hlt.
  destruct (lookup_lt_is_Some_2 slots (Z.to_nat i)) as [v Hv]; [lia|]. exists v. unfold get_slot.
  rewrite (arr_get_nat _ 0%nat _ G1 : arr_get _ 0 = _). cbn [mbind outcome_bind]. split; [by apply arr_get_Val|].
  split; [by eapply ready_at|by eapply (Forall_lookup_1 _ _ _ _ Hs)].
Qed.

Lemma compare_ok log b ep i p place addr v :
  get_slot b 0 i = Val v → ready log 0 (length (strings b)) v → p = ep → (place < 5)%nat →
  ∃ same, compare_place (Shared b ep) i p place addr = Val same.
Proof.
  intros Hv (_ & _ & [Hl Hf]) -> Hp. unfold compare_place. cbn [sh_epoch sh_lb]. rewrite decide_True by done. rewrite Hv.
  cbn [mbind outcome_bind]. destruct (lookup_lt_is_Some_2 (connected_clients v) place) as [q Hq]; [lia|].
  rewrite (arr_get_nat _ _ _ Hq). cbn [mbind outcome_bind].
  assert (Hlt : (q < length (strings b))%nat) by (eapply (Forall_lookup_1 _ _ place _ Hf); by rewrite lookup_take_lt).
  unfold load. destruct (lookup_lt_is_Some_2 (strings b) q Hlt) as [t ->]. cbn. by eexists.
Qed.

(** The turn points at an entry when it is tested: not above the live ones. *)
Definition turn_ok (b : lb) : Prop :=
  ∃ i n, actual_index b !! 0%nat = Some i ∧ lb_current b !! 0%nat = Some n ∧ 0 <= i <= n ∧ 0 < n.

Lemma route_test log b h ep addr :
  tables_ok log b h → turn_ok b → route_next log b ep (h 0%nat) RtTest (route_step addr RtTest (Shared b ep)).
Proof.
  intros Ht (i & n & Hi & Hn & Hin & Hpos). destruct (slot_reads log b h Ht) as (n' & Rn & Hn' & _ & Hle & _). simplify_eq.
  cbn [route_step sh_lb sh_epoch]. rewrite (arr_get_nat _ 0%nat _ Hi : arr_get _ 0 = _), Rn. cbn [mbind outcome_bind].
  case_decide as E.
  - rewrite arr_set_in_bounds by (apply lookup_lt_Some in Hi; lia). cbn [mbind outcome_bind]. split; [done|]. split.
    + unfold same_tables. cbn. by rewrite length_insert.
    + split; [done|]. exists 0. split; [|lia]. cbn. rewrite list_lookup_insert_eq; [done|by eapply lookup_lt_Some].
  - apply route_stay. split; [done|]. exists i. split; [done|lia].
Qed.

Lemma route_store log b h ep addr i place vm :
  tables_ok log b h → route_ok log b ep (h 0%nat) (RtStore i place vm) →
  route_next log b ep (h 0%nat) (RtStore i place vm) (route_step addr (RtStore i place vm) (Shared b ep)).
Proof.
  intros Ht ([Hi Hlt] & Hp & Hk & j & Hj & _). destruct (slot_reads log b h Ht) as (n & _ & _ & _ & _ & Hslot).
  destruct (Hslot i Hi Hlt) as (v & Hv & (_ & _ & [Hl Hf]) & _).
  cbn [route_step sh_lb sh_epoch]. rewrite Hv. cbn [mbind outcome_bind].
  destruct (decide (place = -1)) as [->|Hne]; [by split; [|by exists i, vm]|].
  destruct (arr_get_in_bounds (connected_clients v) place) as (q & Eq & Hq); [lia|]. rewrite Eq. cbn [mbind outcome_bind].
  assert (Hq' : (q < length (strings b))%nat)
    by (eapply (Forall_lookup_1 _ _ (Z.to_nat place) _ Hf); rewrite lookup_take_lt by lia; done).
  unfold store. destruct (lookup_lt_is_Some_2 (strings b) q Hq') as [t ->]. cbn [mbind outcome_bind set_strings actual_index].
  rewrite (arr_get_nat _ 0%nat _ Hj : arr_get _ 0 = _). cbn [mbind outcome_bind].
  rewrite arr_set_in_bounds by (apply lookup_lt_Some in Hj; lia). cbn [mbind outcome_bind].
  split; [done|]. split; [|done]. unfold same_tables. cbn. by rewrite !length_insert.
Qed.

Lemma route_step_ok log b h ep addr pc :
  tables_ok log b h → route_ok log b ep (h 0%nat) pc → (pc = RtTest → turn_ok b) →
  route_next log b ep (h 0%nat) pc (route_step addr pc (Shared b ep)).
Proof.
  intros Ht Hc Hturn. destruct (slot_reads log b h Ht) as (n & Rn & _ & Hn0 & Hn & Hslot).
  destruct pc as [| |i|i p place|i fr p|i fr x|i p place vm|i place vm|vm].
  - by apply route_stay.
  - by apply route_test; [|apply Hturn].
  - destruct Hc as [Hi Hj]. cbn [route_step sh_lb sh_epoch]. rewrite Rn. cbn [mbind outcome_bind].
    case_decide as E; [apply route_stay; split; [lia|done]|].
    pose proof Hj as (j & Ej & Hj'). rewrite (arr_get_nat _ 0%nat _ Ej : arr_get _ 0 = _). by apply route_stay.
  - destruct Hc as ([Hi Hlt] & Hp & Hj). destruct (Hslot i Hi Hlt) as (v & Hv & Hrv & _). cbn [route_step].
    case_decide as E; [|apply route_stay; split; [lia|done]].
    destruct (compare_ok log b ep i p place addr v) as [same ->]; try done. cbn [mbind outcome_bind].
    destruct same; by apply route_stay.
  - destruct Hc as ([Hi Hlt] & Hp & Hj). destruct (Hslot i Hi Hlt) as (v & Hv & (Hip & _) & _).
    cbn [route_step sh_lb sh_epoch]. rewrite decide_True by done. rewrite Hv. by apply route_stay.
  - destruct Hc as ([Hi Hlt] & Hx & Hj). destruct (Hslot i Hi Hlt) as (v & Hv & (_ & Hpt & _) & _).
    cbn [route_step sh_lb sh_epoch]. rewrite Hv. cbn [mbind outcome_bind]. destruct fr; by apply route_stay.
  - destruct Hc as ([Hi Hlt] & Hp & Hk & Hj). destruct (Hslot i Hi Hlt) as (v & Hv & Hrv & _). cbn [route_step].
    case_decide as E; [|apply route_stay; cbn [route_ok]; naive_solver lia].
    destruct (compare_ok log b ep i p place no_ip v) as [same ->]; try done. cbn [mbind outcome_bind].
    destruct same; apply route_stay; split_and!; try done; try lia; by apply Hk.
  - by apply route_store.
  - by apply route_stay.
Qed.

(** ** Both threads *)

(** What the rest of the system gives: messages name a service and hold a
    terminated address, [realloc]
    leaves the block where it is, a new slot has room for five strings, and the
    turn is not above the live entries when a worker tests it (it can be, see
    [Balancer.index_escapes]). *)
Definition calm (e : race_event) (s : races) : Prop :=
  match e with
  | EMessage m => valid_message m
  | ECtrl fresh moves => moves = false ∧ ∀ f i, lb_realloc fresh = Some f → small (f i)
  | EClient _ => True
  | ERoute => r_route s = RtTest → turn_ok (sh_lb (r_shared s))
  end.

Definition at_start (b : lb) : races := Races (Shared b 0) CtWait RtIdle [] [].

Lemma races_inv_start f b :
  (∀ k i, small (f k i)) → create_system_image (Some f) = Val b → races_inv (at_start b).
Proof.
  unfold create_system_image. intros Hf [= <-]. exists (λ _, 0%nat). split; [|by split].
  split; [done|]. intros k Hk.
  exists (map (f (Z.of_nat k)) (seqZ 0 NUMBER_VMs)), 0, NUMBER_VMs. split; [|split; [|split; [cbn; lia|]]].
  - destruct k as [|[|[|k]]]; [done..|lia].
  - by vm_compute.
  - split; [constructor|]. apply Forall_fmap, Forall_true. intros i. apply Hf.
Qed.

Lemma log_grows (log : list virtual_machine) m : log ⊆ log ++ [m].
Proof. intros x Hx. apply elem_of_app. by left. Qed.

Lemma races_inv_ctrl_pc log b h m :
  tables_ok log b h → valid_message m → ctrl_ok (log ++ [m]) b h (CtGrow m).
Proof.
  intros [_ Ht] [(k & Hk & Hm) Hip]. destruct (Ht k Hk) as (slots & n & a & G & _).
  eapply about_intro; try done. apply elem_of_app. right. by apply list_elem_of_singleton.
Qed.

Lemma tables_log log log' b h : log ⊆ log' → tables_ok log b h → tables_ok log' b h.
Proof.
  intros Hl [Hs H]. split; [done|]. intros k Hk. destruct (H k Hk) as (slots & n & a & G & Hg & Hn & Hr & Hsm).
  exists slots, n, a. do 3 (split; [done|]). split; [|done]. eapply Forall_impl; [|exact Hr]. eauto with a2pm_inv.
Qed.

Lemma races_inv_step e s s' : races_inv s → calm e s → race_step e s = Val (Some s') → races_inv s'.
Proof.
  destruct s as [[b ep] ct rt addr log]. intros (h & Ht & Hc & Hr) Hcalm. cbn [r_shared r_log r_ctrl r_route sh_lb sh_epoch] in *.
  destruct e as [m|fresh moves|addr'|]; cbn [race_step r_ctrl r_route r_shared r_addr r_log].
  - destruct ct; intros [= <-]. exists h. cbn. split; [by apply (tables_log log); [apply log_grows|]|].
    split; [by apply (races_inv_ctrl_pc _ _ h)|]. eapply route_ok_frame; [apply log_grows|done|done|exact Hr].
  - destruct Hcalm as [-> Hf]. pose proof (ctrl_step_ok log fresh b h ep ct Ht Hc Hf) as Hn.
    intros H. assert (∃ pc s2, ctrl_step fresh false ct (Shared b ep) = Val (pc, s2) ∧ s' = Races s2 pc rt addr log) as (pc & s2 & E & ->).
    { destruct ct; try done; apply outcome_bind_Val in H as ([pc s2] & E & H); injection H as <-; by exists pc, s2. }
    rewrite E in Hn. destruct Hn as (He & Ha & h' & Hh & Ht' & Hc'). exists h'. cbn. split; [done|]. split; [done|].
    rewrite He. by eapply route_ok_frame.
  - intros H. exists h. destruct rt; try done; injection H as <-; by split_and!.
  - intros H. assert (∃ pc s2, route_step addr rt (Shared b ep) = Val (pc, s2) ∧ s' = Races s2 ct pc addr log) as (pc & s2 & E & ->).
    { destruct rt; try done; apply outcome_bind_Val in H as ([pc s2] & E & H); injection H as <-; by exists pc, s2. }
    pose proof (route_step_ok log b h ep addr rt Ht Hr Hcalm) as Hn. rewrite E in Hn. destruct Hn as (He & Hs & Hr').
    exists h. cbn. split; [by apply (tables_same _ b)|]. destruct Hs as (E1 & E2 & E3 & E4 & E5). rewrite He. split; [|done].
    eapply ctrl_ok_frame; [done|exact E1|exact E2|exact E3| |exact Hc]. by rewrite E4.
Qed.

Lemma races_inv_reachable f b s :
  (∀ k i, small (f k i)) → create_system_image (Some f) = Val b → rtc (race calm) (at_start b) s → races_inv s.
Proof.
  intros Hf Hb. apply rtc_invariant; [|by eapply races_inv_start]. intros x y Hx (e & Hc & E). by eapply races_inv_step.
Qed.

(** The controller thread changes the tables without the lock, so a worker
    can read an entry while it is filled in, while it is overwritten by the last
    one, or when it is not live any more.  Whatever the order of their accesses,
    as long as [realloc] does not move the block, the address a client is sent to
    is one that an ADD message of the service brought, and so is the port. *)
Theorem clients_go_to_announced_vms f b s vm :
  (∀ k i, small (f k i)) → create_system_image (Some f) = Val b → rtc (race calm) (at_start b) s → r_route s = RtDone vm →
  ∃ m m', m ∈ r_log s ∧ op m = ADD ∧ vm_srv m = 0 ∧ ip m = vm.1 ∧
          m' ∈ r_log s ∧ op m' = ADD ∧ vm_srv m' = 0 ∧ port m' = vm.2.
Proof.
  intros Hf Hb Hs Hvm. destruct (races_inv_reachable f b s Hf Hb Hs) as (h & _ & _ & Hr). rewrite Hvm in Hr.
  destruct Hr as [(m & ? & ? & ? & ?) (m' & ? & ? & ? & ?)]. by exists m, m'.
Qed.

(** C20.  In a calm run ([realloc] does not move the block, messages name a service
    and hold a terminated address, the turn is not above the live entries when it
    is tested) no step of either thread faults, but for these: [realloc] or one of
    the five [malloc]s of [create_empty_list] gives [NULL]; a service has 2^30
    VMs; the client found no free place and its address is stored at place -1. *)
Theorem interleaved_threads_fault_only f b s e :
  (∀ k i, small (f k i)) → create_system_image (Some f) = Val b → rtc (race calm) (at_start b) s → calm e s →
  match race_step e s with
  | Val _ => True
  | Fault NullDeref => ∃ fresh, e = ECtrl fresh false ∧ (lb_realloc fresh = None ∨ (lb_mallocs fresh < 5)%nat)
  | Fault SignedOverflow => ∃ k n : Z, arr_get (lb_current (sh_lb (r_shared s))) k = Val n ∧ 2 ^ 30 <= n
  | Fault OutOfBounds => e = ERoute ∧ ∃ i vm, r_route s = RtStore i (-1) vm
  | _ => False
  end.
Proof.
  intros Hf Hb Hs Hcalm. destruct (races_inv_reachable f b s Hf Hb Hs) as (h & Ht & Hc & Hr).
  destruct s as [[b' ep] ct rt addr log]. cbn [r_shared r_log r_ctrl r_route sh_lb sh_epoch] in *.
  destruct e as [m|fresh moves|addr'|]; cbn [race_step r_ctrl r_route r_shared r_addr r_log].
  - by destruct ct.
  - destruct Hcalm as [-> Hfr]. pose proof (ctrl_step_ok log fresh b' h ep ct Ht Hc Hfr) as Hn.
    destruct ct; try done; revert Hn; (destruct (ctrl_step _ _ _ _) as [[pc s2]| | |[]]; cbn [mbind outcome_bind ctrl_next]; naive_solver).
  - by destruct rt.
  - pose proof (route_step_ok log b' h ep addr rt Ht Hr Hcalm) as Hn.
    destruct rt; try done; revert Hn; (destruct (route_step _ _ _) as [[pc s2]| | |[]]; cbn [mbind outcome_bind route_next]; naive_solver).
Qed.

(** ** Schedules *)
Fixpoint schedule (allowed : race_event → races → bool) (es : list race_event) (s : races) : outcome (option races) :=
  match es with
  | [] => Val (Some s)
  | e :: es => if allowed e s then s' ←? race_step e s; schedule allowed es s' else Val None
  end.

Definition calmb (e : race_event) (s : races) : bool :=
  match e with
  | EMessage m => (0 <=? vm_srv m) && (vm_srv m <? 3) && (length (ip m) <? 16)%nat
  | ECtrl _ moves => negb moves
  | EClient _ => true
  | ERoute =>
      match r_route s, actual_index (sh_lb (r_shared s)), lb_current (sh_lb (r_shared s)) with
      | RtTest, i :: _, n :: _ => (0 <=? i) && (i <=? n) && (0 <? n)
      | RtTest, _, _ => false
      | _, _, _ => true
      end
  end.

Definition on_raw_memory (e : race_event) : Prop :=
  match e with ECtrl fresh _ => fresh = plenty (raw 0) | _ => True end.

Lemma raw_small : ∀ k i, small (raw k i).
Proof. intros k i. unfold small. cbn. lia. Qed.

Lemma calmb_calm e s : on_raw_memory e → calmb e s = true → calm e s.
Proof.
  destruct e as [m|fresh moves|addr|]; cbn [calmb calm on_raw_memory]; [| |done|].
  - intros _ [[H1%Z.leb_le H2%Z.ltb_lt]%andb_true_iff H3%Nat.ltb_lt]%andb_true_iff. split; [|done]. exists (Z.to_nat (vm_srv m)). lia.
  - intros -> H. split; [by destruct moves|]. intros f i [= <-]. exact (raw_small 0 i).
  - intros _ H Ht. rewrite Ht in H. unfold turn_ok.
    destruct (actual_index _) as [|i l]; [done|]. destruct (lb_current _) as [|n l']; [done|].
    apply andb_true_iff in H as [[H1%Z.leb_le H2%Z.leb_le]%andb_true_iff H3%Z.ltb_lt]. by exists i, n.
Qed.

Lemma schedule_rtc es s s' :
  Forall on_raw_memory es → schedule calmb es s = Val (Some s') → rtc (race calm) s s'.
Proof.
  intros Hes. revert s. induction Hes as [|e es He _ IH]; intros s; cbn [schedule]; [by intros [= <-]; apply rtc_refl|].
  destruct (calmb e s) eqn:Hc; [|done]. unfold then_. intros ([s1|] & E & H)%outcome_bind_Val; [|done].
  eapply rtc_l; [|by apply IH]. exists e. split; [by apply calmb_calm|done].
Qed.

(** The controller thread's turn on raw memory, [k] times. *)
Definition turns (k : nat) : list race_event := replicate k (ECtrl (plenty (raw 0)) false).
Definition works (k : nat) : list race_event := replicate k ERoute.
Definition adds (m : virtual_machine) : list race_event := EMessage m :: turns 11.

Definition empty_table : lb := match create_system_image (Some raw) with Val b => b | _ => Lb [] [] [] [] [] end.

(** Two VMs; a client's worker reads the address of the first one, which is
    deleted, and the port of the other, which has taken its place. *)
Definition vm_a : virtual_machine := VirtualMachine [49; 48; 46; 48; 46; 48; 46; 55] 36895 0 ADD.
Definition vm_b : virtual_machine := VirtualMachine [49; 48; 46; 48; 46; 48; 46; 56] 37151 0 ADD.
Definition gone (m : virtual_machine) : virtual_machine := VirtualMachine (ip m) (port m) (vm_srv m) DELETE.
Definition torn_run : list race_event :=
  adds vm_a ++ adds vm_b ++ [EClient (peer 49)] ++ works 17 ++ EMessage (gone vm_a) :: turns 11 ++ works 3.

(** A worker is in [search_ip] when a message makes the block grow and move. *)
Definition moved_run : list race_event :=
  concat (replicate (Z.to_nat NUMBER_VMs) (adds vm_a)) ++ [EClient (peer 49)] ++ works 3 ++ [EMessage vm_b; ECtrl (plenty (raw 0)) true].

(** The address and the port a client is sent to need not be those of one
    VM: in this run, which meets every condition of [calm], no message had the
    two together, and nothing listens there. *)
Theorem endpoint_can_be_torn :
  ∃ s vm, schedule calmb torn_run (at_start empty_table) = Val (Some s) ∧ r_route s = RtDone vm ∧
    vm = (ip vm_a, port vm_b) ∧ Forall (λ m, (ip m, port m) ≠ vm) (r_log s) ∧ llive (sh_lb (r_shared s)) 0 ≠ [].
Proof.
  eexists _, _. split; [vm_compute; reflexivity|]. split; [reflexivity|]. split; [reflexivity|].
  split; [by repeat constructor|done].
Qed.

(** With as many VMs as the block has slots, the next message makes
    [realloc] move it, and the worker's next comparison is through a pointer into
    the freed block. *)
Theorem realloc_under_a_worker :
  ∃ s, schedule (λ _ _, true) moved_run (at_start empty_table) = Val (Some s) ∧
    race_step ERoute s = Fault UseAfterFree.
Proof. eexists. split; vm_compute; reflexivity. Qed.

(** ** Witnesses *)
Lemma torn_raw : Forall on_raw_memory torn_run.
Proof. repeat constructor. Qed.

Definition torn_state : races :=
  match schedule calmb torn_run (at_start empty_table) with Val (Some s) => s | _ => at_start empty_table end.

Lemma torn_reachable : rtc (race calm) (at_start empty_table) torn_state.
Proof. apply (schedule_rtc torn_run); [exact torn_raw|vm_compute; reflexivity]. Qed.

Lemma clients_go_to_announced_vms_witness :
  ∃ m m', m ∈ r_log torn_state ∧ op m = ADD ∧ vm_srv m = 0 ∧ ip m = ip vm_a ∧
          m' ∈ r_log torn_state ∧ op m' = ADD ∧ vm_srv m' = 0 ∧ port m' = port vm_b.
Proof.
  apply (clients_go_to_announced_vms raw empty_table torn_state (ip vm_a, port vm_b) raw_small eq_refl torn_reachable).
  vm_compute. reflexivity.
Defined.

Lemma interleaved_threads_fault_only_witness :
  match race_step (ECtrl (plenty (raw 0)) false) torn_state with Val _ => True | _ => False end.
Proof.
  pose proof (interleaved_threads_fault_only raw empty_table torn_state (ECtrl (plenty (raw 0)) false)
    raw_small eq_refl torn_reachable ltac:(split; [reflexivity|intros f i [= <-]; exact (raw_small 0 i)])) as H.
  vm_compute in H |- *. exact H.
Defined.
