(* ===== verification/Atomicity.v ===== *)
(** * controller/balancer.c: the steps of Dispatch.v against the accesses

    A worker or the controller thread that is left alone does, access by access
    (Races.v), what [get_current_socket] and [controller_message] (Balancer.v) do
    in one step.  So the steps Dispatch.v and Pipeline.v take are interleavings of
    the finer model. *)
From S2P Require Import Prelude Protocol SockHelp Balancer Registry Races.
Open Scope Z_scope.

(** ** One thread alone

    [leads next x r k]: the steps from [x] on do what the code says that gives
    [r], ending in [k a] for a result [a] and in its fault otherwise. *)
Definition leads {X A} (next : X → outcome X) (x : X) (r : outcome A) (k : A → X) : Prop :=
  match r with
  | Val a => rtc (λ x y, next x = Val y) x (k a)
  | Fault f => ∃ y, rtc (λ x y, next x = Val y) x y ∧ next y = Fault f
  | _ => False
  end.

Section Alone.
Context {X : Type} (next : X → outcome X).

Lemma leads_rtc {A} x x' (r : outcome A) k : rtc (λ x y, next x = Val y) x x' → leads next x' r k → leads next x r k.
Proof. intros H. destruct r as [a| | |f]; cbn; try done; [by etrans|]. intros (y & ? & ?). exists y. split; [by etrans|done]. Qed.

Lemma leads_step {A} x x' (r : outcome A) k : next x = Val x' → leads next x' r k → leads next x r k.
Proof. intros H. by apply leads_rtc, rtc_once. Qed.

Lemma leads_fault {A} x f (k : A → X) : next x = Fault f → leads next x (Fault f) k.
Proof. intros H. by exists x. Qed.

Lemma leads_done {A} x (a : A) k : k a = x → leads next x (Val a) k.
Proof. intros <-. apply rtc_refl. Qed.

Lemma leads_bind {A B} x (r : outcome A) k (g : A → outcome B) k' :
  leads next x r k → (∀ a, r = Val a → leads next (k a) (g a) k') → leads next x (r ≫= g) k'.
Proof. intros H Hg. destruct r as [a| | |f]; cbn; try done. eapply leads_rtc; [exact H|by apply Hg]. Qed.

(** The last step. *)
Lemma leads_last {A} x (r : outcome A) k :
  next x = (r ≫= λ a, Val (k a)) → (∀ r', r = r' → match r' with Val _ | Fault _ => True | _ => False end) → leads next x r k.
Proof.
  intros H Hr. specialize (Hr r eq_refl). destruct r as [a| | |f]; cbn [mbind outcome_bind] in H; try done.
  - eapply leads_step; [exact H|by apply leads_done].
  - by apply leads_fault.
Qed.
End Alone.

Lemma arr_get_result {A} (l : list A) i : (∃ a, arr_get l i = Val a) ∨ arr_get l i = Fault OutOfBounds.
Proof. unfold arr_get. case_decide; [|by right]. destruct (l !! _); [by left; eexists|by right]. Qed.

Lemma get_slot_of b srv slots i : arr_get (lb_set b) srv = Val slots → get_slot b srv i = arr_get slots i.
Proof. intros H. unfold get_slot. by rewrite H. Qed.

Lemma get_slot_result b srv i : (∃ v, get_slot b srv i = Val v) ∨ get_slot b srv i = Fault OutOfBounds.
Proof. unfold get_slot. destruct (arr_get_result (lb_set b) srv) as [[s ->]| ->]; cbn [mbind outcome_bind]; [apply arr_get_result|by right]. Qed.

Definition route_alone (addr : list Z) (x : route_pc * shared) : outcome (route_pc * shared) := route_step addr x.1 x.2.

Lemma search_alone addr target b ep index v place n pc yes no :
  get_slot b 0 index = Val v → (place + n = 5)%nat →
  (∀ place, (place < 5)%nat → route_step addr (pc place) (Shared b ep) =
     (same ← compare_place (Shared b ep) index ep place target;
      Val (if (same : bool) then yes place else pc (S place), Shared b ep))) →
  route_step addr (pc 5%nat) (Shared b ep) = Val (no, Shared b ep) →
  leads (route_alone addr) (pc place, Shared b ep)
    (search_places b (connected_clients v) target (Z.of_nat place) n)
    (λ r, (if 0 <? r then yes (Z.to_nat (r - 1)) else no, Shared b ep)).
Proof.
  intros Hv Hn Hpc Hno. revert place Hn. induction n as [|n IH]; intros place Hn; cbn [search_places].
  { assert (place = 5%nat) as -> by lia. eapply leads_step; [exact Hno|]. by apply leads_done. }
  assert (Hstep : route_alone addr (pc place, Shared b ep) =
    (p ← arr_get (connected_clients v) (Z.of_nat place); s ← load b p;
     Val (if bool_decide (s = target) then yes place else pc (S place), Shared b ep))).
  { unfold route_alone. cbn [fst snd]. rewrite Hpc by lia. unfold compare_place. cbn [sh_epoch sh_lb].
    rewrite decide_True by done. rewrite Hv. cbn [mbind outcome_bind].
    destruct (arr_get _ _) as [p| | |]; cbn; [|done..]. by destruct (load b p). }
  destruct (arr_get_result (connected_clients v) (Z.of_nat place)) as [[p Ep]|Ep]; rewrite Ep in Hstep |- *; cbn [mbind outcome_bind] in Hstep |- *;
    [|by apply leads_fault].
  unfold load in *. destruct (strings b !! p) as [s|]; cbn [mbind outcome_bind] in Hstep |- *; [|by apply leads_fault].
  eapply leads_step; [exact Hstep|]. case_bool_decide.
  - apply leads_done. rewrite (proj2 (Z.ltb_lt 0 _)) by lia. do 2 f_equal. lia.
  - replace (Z.of_nat place + 1) with (Z.of_nat (S place)) by lia. apply IH. lia.
Qed.

Lemma search_places_nonneg b ps target index n r : search_places b ps target index n = Val r → r = 0 ∨ index < r.
Proof.
  revert index. induction n as [|n IH]; intros index; cbn [search_places]; [intros [= <-]; by left|].
  intros (p & _ & (s & _ & H)%outcome_bind_Val)%outcome_bind_Val. case_bool_decide; [injection H as <-; right; lia|].
  destruct (IH _ H); [by left|right; lia].
Qed.

Lemma search_vms_alone addr b ep slots n index m :
  arr_get (lb_set b) 0 = Val slots → arr_get (lb_current b) 0 = Val n → Z.of_nat m = Z.max 0 (n - index) →
  leads (route_alone addr) (RtLoop index, Shared b ep) (search_vms b slots addr index m)
    (λ r, match r with
          | Some v => (RtDone (lb_ip v, lb_port v), Shared b ep)
          | None => (RtLoop (Z.max n index), Shared b ep)
          end).
Proof.
  intros Hs Hn. revert index. induction m as [|m IH]; intros index Hm; cbn [search_vms].
  { apply leads_done. by rewrite Z.max_r by lia. }
  assert (Hloop : route_alone addr (RtLoop index, Shared b ep) = Val (RtPlace index ep 0, Shared b ep)).
  { unfold route_alone. cbn [fst snd route_step sh_lb sh_epoch]. rewrite Hn. cbn [mbind outcome_bind]. by rewrite decide_True by lia. }
  eapply leads_step; [exact Hloop|]. pose proof (get_slot_of b 0 slots index Hs) as Hg.
  destruct (arr_get_result slots index) as [[v Ev]|Ev]; rewrite Ev in *; cbn [mbind outcome_bind].
  2:{ apply leads_fault. unfold route_alone. cbn [fst snd route_step]. rewrite decide_True by lia.
      unfold compare_place. cbn [sh_epoch sh_lb]. by rewrite decide_True, Hg. }
  eapply leads_bind.
  - unfold search_ip. apply (search_alone addr addr b ep index v 0 _ (RtPlace index ep)
      (λ _, RtIp index false ep) (RtLoop (index + 1)) Hg); [done| |done].
    intros place Hp. cbn [route_step]. rewrite decide_True by done. destruct (compare_place _ _ _ _ _) as [[]| | |]; done.
  - intros r _. cbn beta. destruct (0 <? r).
    + eapply leads_step; [unfold route_alone; cbn [fst snd route_step sh_epoch sh_lb]; rewrite decide_True by done; by rewrite Hg|].
      eapply leads_step; [unfold route_alone; cbn [fst snd route_step sh_epoch sh_lb]; by rewrite Hg|]. by apply leads_done.
    + replace (Z.max n index) with (Z.max n (index + 1)) by lia. apply IH. lia.
Qed.

Definition chosen (ep : nat) (r : list Z * Z * lb) : route_pc * shared := (RtDone (r.1.1, r.1.2), Shared r.2 ep).

Lemma new_client_alone addr b ep slots n index :
  arr_get (lb_set b) 0 = Val slots → arr_get (lb_current b) 0 = Val n → n <= index →
  leads (route_alone addr) (RtLoop index, Shared b ep)
    (i ← arr_get (actual_index b) 0; v ← arr_get slots i; place ← search_ip b v no_ip;
     p ← arr_get (connected_clients v) (place - 1); b ← store b p addr;
     index ← arr_set (actual_index b) 0 (i + 1); mret (lb_ip v, lb_port v, set_actual_index index b)) (chosen ep).
Proof.
  intros Hs Hn Hi.
  destruct (arr_get_result (actual_index b) 0) as [[i Ei]|Ei]; rewrite Ei; cbn [mbind outcome_bind];
    [eapply leads_step|apply leads_fault]; unfold route_alone; cbn [fst snd route_step sh_lb sh_epoch]; rewrite ?Hn; cbn [mbind outcome_bind];
    rewrite ?decide_False, ?Ei by lia; try done.
  pose proof (get_slot_of b 0 slots i Hs) as Hg.
  destruct (arr_get_result slots i) as [[v Ev]|Ev]; rewrite Ev in *; cbn [mbind outcome_bind].
  2:{ apply leads_fault. cbn [fst snd route_step sh_lb sh_epoch]. by rewrite decide_True, Hg. }
  eapply leads_step; [cbn [fst snd route_step sh_lb sh_epoch]; rewrite decide_True, Hg by done; reflexivity|].
  eapply leads_step; [cbn [fst snd route_step sh_lb sh_epoch]; rewrite Hg; reflexivity|].
  eapply leads_bind.
  - unfold search_ip. apply (search_alone addr no_ip b ep i v 0 _ (λ place, RtFree i ep place (lb_ip v, lb_port v))
      (λ place, RtStore i (Z.of_nat place) (lb_ip v, lb_port v)) (RtStore i (-1) (lb_ip v, lb_port v)) Hg); [done| |done].
    intros place Hp. cbn [route_step]. rewrite decide_True by done. destruct (compare_place _ _ _ _ _) as [[]| | |]; done.
  - intros r Hr. cbn beta. pose proof (search_places_nonneg b (connected_clients v) no_ip 0 _ r Hr) as Hpos.
    replace (if 0 <? r then RtStore i (Z.of_nat (Z.to_nat (r - 1))) (lb_ip v, lb_port v) else RtStore i (-1) (lb_ip v, lb_port v))
      with (RtStore i (r - 1) (lb_ip v, lb_port v)) by (destruct (Z.ltb_spec 0 r); f_equal; lia).
    assert (E : route_alone addr (RtStore i (r - 1) (lb_ip v, lb_port v), Shared b ep) =
      ((p ← arr_get (connected_clients v) (r - 1); b ← store b p addr;
        index ← arr_set (actual_index b) 0 (i + 1); mret (lb_ip v, lb_port v, set_actual_index index b)) ≫= λ r, Val (chosen ep r))).
    { unfold route_alone. cbn [fst snd route_step sh_lb sh_epoch]. rewrite Hg. cbn [mbind outcome_bind].
      destruct (arr_get (connected_clients v) (r - 1)) as [p| | |]; cbn [mbind outcome_bind]; try done. unfold store.
      destruct (strings b !! p); cbn [mbind outcome_bind set_strings actual_index]; [|done]. rewrite Ei. cbn [mbind outcome_bind].
      by destruct (arr_set _ _ _). }
    eapply leads_last; [exact E|]. intros x Hx.
    destruct (arr_get_result (connected_clients v) (r - 1)) as [[p Ep]|Ep]; rewrite Ep in Hx; cbn [mbind outcome_bind] in Hx; [|by subst x].
    unfold store in Hx. destruct (strings b !! p); cbn [mbind outcome_bind set_strings actual_index] in Hx; [|by subst x].
    unfold arr_set in Hx. case_decide; cbn in Hx; by subst x.
Qed.

Lemma check_alone addr b ep :
  (∃ i, arr_get (actual_index b) 0 = Val i) →
  leads (route_alone addr) (RtLoop 0, Shared b ep) (check_already_connected addr b) (chosen ep).
Proof.
  intros [i Hi]. unfold check_already_connected.
  destruct (arr_get_result (lb_current b) 0) as [[n En]|En]; rewrite En; cbn [mbind outcome_bind].
  2:{ apply leads_fault. unfold route_alone. cbn [fst snd route_step sh_lb sh_epoch]. by rewrite En. }
  destruct (arr_get_result (lb_set b) 0) as [[slots Es]|Es]; rewrite Es; cbn [mbind outcome_bind].
  - eapply leads_bind; [apply (search_vms_alone addr b ep slots n 0 (Z.to_nat n) Es En); lia|].
    intros [v|] _; cbn beta iota; [by apply leads_done|]. apply (new_client_alone addr b ep slots n _ Es En). lia.
  - assert (Hg : ∀ j, get_slot b 0 j = Fault OutOfBounds) by (intros j; unfold get_slot; by rewrite Es).
    destruct (decide (0 < n)) as [Hn|Hn];
      (eapply leads_step; [unfold route_alone; cbn [fst snd route_step sh_lb sh_epoch]; rewrite En; cbn [mbind outcome_bind]|]).
    + by rewrite decide_True.
    + apply leads_fault. unfold route_alone. cbn [fst snd route_step]. unfold compare_place. cbn [sh_lb sh_epoch].
      rewrite !decide_True by (done || lia). by rewrite Hg.
    + rewrite decide_False, Hi by done. reflexivity.
    + apply leads_fault. unfold route_alone. cbn [fst snd route_step sh_lb sh_epoch]. by rewrite decide_True, Hg.
Qed.

(** Left alone, a worker that has taken the lock does access by access what
    [get_current_socket] does in one step, on any table: the same VM and the same
    tables after, or the same fault. *)
Lemma worker_alone addr b ep :
  leads (route_alone addr) (RtTest, Shared b ep) (get_current_socket addr true true b) (chosen ep).
Proof.
  unfold get_current_socket.
  destruct (arr_get_result (actual_index b) 0) as [[i Ei]|Ei]; rewrite Ei; cbn [mbind outcome_bind].
  2:{ apply leads_fault. unfold route_alone. cbn [fst snd route_step sh_lb sh_epoch]. by rewrite Ei. }
  destruct (arr_get_result (lb_current b) 0) as [[n En]|En]; rewrite En; cbn [mbind outcome_bind].
  2:{ apply leads_fault. unfold route_alone. cbn [fst snd route_step sh_lb sh_epoch]. by rewrite Ei, En. }
  assert (Hlen : 0 <= 0 < Z.of_nat (length (actual_index b))).
  { apply arr_get_Val in Ei as [_ Ei]. apply lookup_lt_Some in Ei. lia. }
  assert (Hret : ∀ m : outcome (list Z * Z * lb), (r ← m; mret r) = m) by (by intros []).
  assert (Hlast : ∀ b', (∃ i, arr_get (actual_index b') 0 = Val i) →
      route_alone addr (RtTest, Shared b ep) = Val (RtLoop 0, Shared b' ep) →
      leads (route_alone addr) (RtTest, Shared b ep) (r ← check_already_connected addr b'; mret r) (chosen ep))
    by (intros b' Hb' Hstep; rewrite Hret; by eapply leads_step, check_alone).
  unfold route_alone in Hlast at 1. cbn [fst snd route_step sh_lb sh_epoch] in Hlast. rewrite Ei, En in Hlast.
  cbn [mbind outcome_bind] in Hlast. case_decide.
  - rewrite arr_set_in_bounds in Hlast |- * by done. cbn [mbind outcome_bind mret outcome_ret] in Hlast |- *.
    apply Hlast; [|done]. cbn [set_actual_index actual_index]. exists 0. apply (arr_get_nat _ 0%nat).
    apply list_lookup_insert_eq. lia.
  - apply Hlast; [by exists i|done].
Qed.

Definition ctrl_alone (fresh : lb_memory) (x : ctrl_pc * shared) : outcome (ctrl_pc * shared) := ctrl_step fresh false x.1 x.2.
Notation ctrl_steps fresh := (rtc (λ x y, ctrl_alone fresh x = Val y)).

(** A slot of which the places from [i] on have been renewed. *)
Definition renewed (i : nat) (st : nat) (v : lb_vm) : lb_vm :=
  LbVm (lb_ip v) (lb_port v) (take i (connected_clients v) ++ seq st (5 - i) ++ drop 5 (connected_clients v)).

Lemma renewed_place i st v :
  (i < 5)%nat → (i <= length (connected_clients v))%nat → renewed (S i) (S st) (set_place i st v) = renewed i st v.
Proof.
  intros Hi Hl. unfold renewed, set_place. cbn [lb_ip lb_port connected_clients]. f_equal.
  assert (Ht : length (take i (connected_clients v)) = i) by (rewrite length_take; lia).
  replace (take (S i) _) with (take i (connected_clients v) ++ [st])
    by (rewrite take_app, Ht, take_take, Nat.min_r by lia; by replace (S i - i)%nat with 1%nat by lia).
  rewrite <-(assoc_L (++)). f_equal. replace (5 - i)%nat with (S (5 - S i)) by lia. cbn [seq app]. do 2 f_equal.
  rewrite drop_app, Ht, drop_ge by lia. replace (5 - i)%nat with (S (4 - i)) by lia.
  cbn [app drop]. rewrite drop_drop. f_equal. lia.
Qed.

Lemma list_alone f m k j i b ep slots v :
  vm_srv m = Z.of_nat k → lb_set b !! k = Some slots → slots !! j = Some v → (i <= 5)%nat → (i <= length (connected_clients v))%nat →
  ctrl_steps (plenty f) (CtList m (Z.of_nat j) i, Shared b ep)
    (CtList m (Z.of_nat j) 5, Shared (set_strings (strings b ++ replicate (5 - i) no_ip)
       (set_lb_set (<[k := <[j := renewed i (length (strings b)) v]> slots]> (lb_set b)) b)) ep).
Proof.
  intros Hm. remember (5 - i)%nat as d eqn:Hd. revert i b slots v Hd.
  induction d as [|d IH]; intros i b slots v Hd Es Hv Hi Hl.
  { assert (i = 5%nat) as -> by lia. cbn [replicate]. unfold renewed. rewrite Nat.sub_diag. cbn [seq app]. rewrite take_drop, app_nil_r.
    destruct v as [a p c]. cbn [lb_ip lb_port connected_clients]. rewrite (list_insert_id slots), (list_insert_id (lb_set b)) by done.
    destruct b. apply rtc_refl. }
  apply lookup_lt_Some in Es as Hk. apply lookup_lt_Some in Hv as Hj.
  eapply rtc_l.
  - unfold ctrl_alone. cbn [fst snd ctrl_step sh_lb sh_epoch]. rewrite decide_True by lia; rewrite decide_True by (change (lb_mallocs _) with 5%nat; lia). rewrite Hm. unfold get_slot.
    rewrite (arr_get_nat _ _ _ Es). cbn [mbind outcome_bind]. rewrite (arr_get_nat _ _ _ Hv). cbn [mbind outcome_bind].
    rewrite (set_lb_slot_val b k slots j) by done. reflexivity.
  - set (b' := set_strings _ _). specialize (IH (S i) b' (<[j := set_place i (length (strings b)) v]> slots) (set_place i (length (strings b)) v)).
    assert (Hst : length (strings b') = S (length (strings b))) by (cbn; rewrite length_app, Nat.add_1_r; done).
    rewrite Hst, renewed_place in IH by done || lia.
    replace (set_strings (strings b' ++ replicate d no_ip) _) with
      (set_strings (strings b ++ replicate (S d) no_ip)
        (set_lb_set (<[k := <[j := renewed i (length (strings b)) v]> slots]> (lb_set b)) b)) in IH.
    2:{ cbn [b' set_strings set_lb_set lb_set lb_current lb_allocated actual_index strings].
        rewrite !list_insert_insert_eq, <-(assoc_L (++)). done. }
    apply IH; [lia| |by apply list_lookup_insert_eq|lia|].
    + cbn [b' set_strings set_lb_set lb_set]. by apply list_lookup_insert_eq.
    + cbn [set_place connected_clients]. rewrite !length_app, length_take. cbn [length]. lia.
Qed.

Lemma find_alone fresh m b ep slots n index d :
  arr_get (lb_set b) (vm_srv m) = Val slots → arr_get (lb_current b) (vm_srv m) = Val n → Z.of_nat d = Z.max 0 (n - index) →
  leads (ctrl_alone fresh) (CtFind m index, Shared b ep)
    (find_slot (λ v, bool_decide (lb_ip v = ip m) && (lb_port v =? port m)) slots index d)
    (λ r, (match r with Some i => CtDecr m i | None => CtFind m (Z.max n index) end, Shared b ep)).
Proof.
  intros Hs Hn. revert index. induction d as [|d IH]; intros index Hd; cbn [find_slot].
  { apply leads_done. by rewrite Z.max_r by lia. }
  pose proof (get_slot_of b (vm_srv m) slots index Hs) as Hg.
  assert (E : ctrl_alone fresh (CtFind m index, Shared b ep) =
    (v ← arr_get slots index; Val (if bool_decide (lb_ip v = ip m) && (lb_port v =? port m) then CtDecr m index else CtFind m (index + 1), Shared b ep))).
  { unfold ctrl_alone. cbn [fst snd ctrl_step sh_lb sh_epoch]. rewrite Hn. cbn [mbind outcome_bind]. rewrite decide_True, Hg by lia.
    destruct (arr_get slots index) as [v| | |]; cbn [mbind outcome_bind]; [|done..]. by destruct (_ && _). }
  destruct (arr_get_result slots index) as [[v Ev]|Ev]; rewrite Ev in E |- *; cbn [mbind outcome_bind] in E |- *; [|by apply leads_fault].
  eapply leads_step; [exact E|]. destruct (_ && _); [by apply leads_done|].
  replace (Z.max n index) with (Z.max n (index + 1)) by lia. apply IH. lia.
Qed.

Definition handled (ep : nat) (b : lb) : ctrl_pc * shared := (CtWait, Shared b ep).

Lemma arr_set_result {A} (l : list A) i a : (∃ l', arr_set l i a = Val l') ∨ arr_set l i a = Fault OutOfBounds.
Proof. unfold arr_set. case_decide; [left; by eexists|by right]. Qed.

Lemma set_lb_slot_result b srv i v : (∃ b', set_lb_slot b srv i v = Val b' ∧ lb_current b' = lb_current b) ∨ set_lb_slot b srv i v = Fault OutOfBounds.
Proof.
  unfold set_lb_slot. destruct (arr_get_result (lb_set b) srv) as [[s ->]| ->]; cbn [mbind outcome_bind]; [|by right].
  destruct (arr_set_result s i v) as [[s' ->]| ->]; cbn [mbind outcome_bind]; [|by right].
  destruct (arr_set_result (lb_set b) srv s') as [[s'' ->]| ->]; cbn [mbind outcome_bind]; [left; by eexists|by right].
Qed.

Lemma delete_alone fresh m b ep :
  (length (ip m) < 16)%nat → (∃ slots, arr_get (lb_set b) (vm_srv m) = Val slots) →
  leads (ctrl_alone fresh) (CtFind m 0, Shared b ep) (delete_vm (ip m) (vm_srv m) (port m) b) (handled ep).
Proof.
  intros Hip [slots Hs]. unfold delete_vm, string16. rewrite decide_True by done. cbn [mbind outcome_bind].
  destruct (arr_get_result (lb_current b) (vm_srv m)) as [[n En]|En]; rewrite En; cbn [mbind outcome_bind].
  2:{ apply leads_fault. unfold ctrl_alone. cbn [fst snd ctrl_step sh_lb sh_epoch]. by rewrite En. }
  rewrite Hs. cbn [mbind outcome_bind].
  eapply leads_bind; [apply (find_alone fresh m b ep slots n 0 (Z.to_nat n) Hs En); lia|].
  intros [index|] _; cbn beta iota.
  2:{ eapply leads_step; [|by apply leads_done]. unfold ctrl_alone. cbn [fst snd ctrl_step sh_lb sh_epoch]. rewrite En.
      cbn [mbind outcome_bind]. by rewrite decide_False by lia. }
  assert (E : ctrl_alone fresh (CtDecr m index, Shared b ep) =
    (current ← arr_set (lb_current b) (vm_srv m) (n - 1); Val (CtCopy m index (n - 1), Shared (set_lb_current current b) ep))).
  { unfold ctrl_alone. cbn [fst snd ctrl_step sh_lb sh_epoch]. rewrite En. cbn [mbind outcome_bind]. unfold set_current.
    by destruct (arr_set _ _ _). }
  destruct (arr_set_result (lb_current b) (vm_srv m) (n - 1)) as [[cur Ec]|Ec]; rewrite Ec in E |- *; cbn [mbind outcome_bind] in E |- *;
    [|by apply leads_fault].
  eapply leads_step; [exact E|]. apply leads_last.
  - unfold ctrl_alone. cbn [fst snd ctrl_step sh_lb sh_epoch].
    rewrite (get_slot_of (set_lb_current cur b) (vm_srv m) slots (n - 1) Hs). destruct (arr_get slots (n - 1)); done.
  - intros r <-. destruct (arr_get_result slots (n - 1)) as [[v ->]| ->]; cbn [mbind outcome_bind]; [|done].
    by destruct (set_lb_slot_result (set_lb_current cur b) (vm_srv m) index v) as [(b' & -> & _)| ->].
Qed.

Lemma add_alone fresh m b ep k n slots temp :
  vm_srv m = Z.of_nat k → (length (ip m) < 16)%nat → lb_set b !! k = Some slots → lb_current b !! k = Some n → 0 <= n →
  slots !! Z.to_nat n = Some temp → leads (ctrl_alone fresh) (CtIp m n, Shared b ep) (add_vm m b) (handled ep).
Proof.
  intros Hm Hip Es En Hn Hv. apply lookup_lt_Some in Hv as Hj. apply lookup_lt_Some in Es as Hk.
  assert (Ht : string16 (ip m) = Val (ip m)) by (unfold string16; by rewrite decide_True).
  assert (Hset : ∀ b0 slots0 v, lb_set b0 !! k = Some slots0 → length slots0 = length slots →
    set_lb_slot b0 (Z.of_nat k) n v = Val (set_lb_set (<[k := <[Z.to_nat n := v]> slots0]> (lb_set b0)) b0)).
  { intros b0 slots0 v H0 Hl. replace n with (Z.of_nat (Z.to_nat n)) at 1 by lia. apply set_lb_slot_val; [done|lia]. }
  assert (Hget : ∀ b0 slots0 v, lb_set b0 !! k = Some slots0 → slots0 !! Z.to_nat n = Some v → get_slot b0 (Z.of_nat k) n = Val v).
  { intros b0 slots0 v H0 H1. unfold get_slot. rewrite (arr_get_nat _ _ _ H0). cbn. by apply arr_get_Val. }
  unfold add_vm. rewrite Hm, (arr_get_nat _ _ _ En). cbn [mbind outcome_bind]. rewrite (arr_get_nat _ _ _ Es). cbn [mbind outcome_bind].
  rewrite (proj2 (arr_get_Val slots n temp)) by done. cbn [mbind outcome_bind]. rewrite Ht. cbn [mbind outcome_bind]. rewrite (Hset b slots) by done. cbn [mbind outcome_bind].
  eapply leads_step.
  { unfold ctrl_alone. cbn [fst snd ctrl_step sh_lb sh_epoch]. rewrite Hm, (Hget b slots temp) by done. cbn [mbind outcome_bind].
    rewrite Ht. cbn [mbind outcome_bind]. rewrite (Hset b slots) by done. reflexivity. }
  set (b1 := set_lb_set _ b). set (slots1 := <[Z.to_nat n := LbVm (ip m) (lb_port temp) (connected_clients temp)]> slots) in *.
  assert (E1 : lb_set b1 !! k = Some slots1) by by apply list_lookup_insert_eq.
  eapply leads_step.
  { unfold ctrl_alone. cbn [fst snd ctrl_step sh_lb sh_epoch]. rewrite Hm, (Hget b1 slots1 _ E1) by by apply list_lookup_insert_eq.
    cbn [mbind outcome_bind]. rewrite (Hset b1 slots1) by (done || (unfold slots1; by rewrite length_insert)). reflexivity. }
  cbn [b1 set_lb_set lb_set lb_current lb_ip connected_clients]. unfold slots1. rewrite !list_insert_insert_eq. cbn [mbind outcome_bind].
  apply leads_last.
  - unfold ctrl_alone. cbn [fst snd ctrl_step sh_lb sh_epoch lb_current set_lb_set]. change (lb_current b1) with (lb_current b).
    rewrite Hm, (arr_get_nat _ _ _ En). cbn [mbind outcome_bind]. unfold set_current. cbn [set_lb_set lb_current].
    change (lb_current b1) with (lb_current b). by destruct (arr_set _ _ _).
  - intros r <-. by destruct (arr_set_result (lb_current b) (Z.of_nat k) (n + 1)) as [[l ->]| ->].
Qed.

Definition small_tables (b : lb) : Prop := Forall (Forall small) (lb_set b).

Lemma grow_alone fresh srv b :
  small_tables b → (∀ f i, fresh = Some f → small (f i)) →
  (∃ b', check_vm_data_set_size fresh srv b = Val b' ∧ small_tables b') ∨ ∃ f, check_vm_data_set_size fresh srv b = Fault f.
Proof.
  intros Hb Hf. unfold check_vm_data_set_size.
  destruct (arr_get_result (lb_current b) srv) as [[n ->]| ->]; cbn [mbind outcome_bind]; [|by right; eexists].
  destruct (arr_get_result (lb_allocated b) srv) as [[a ->]| ->]; cbn [mbind outcome_bind]; [|by right; eexists].
  case_decide; [|left; by exists b]. case_decide; [|by right; eexists].
  destruct (arr_get (lb_set b) srv) as [slots| | |] eqn:Es; cbn [mbind outcome_bind]; try (by right; eexists).
  2,3: destruct (arr_get_result (lb_set b) srv) as [[? E]|E]; congruence.
  destruct fresh as [f|]; [|by right; eexists].
  destruct (arr_set_result (lb_set b) srv (slots ++ map f (seqZ a a))) as [[sets E]|E]; rewrite E; cbn [mbind outcome_bind]; [|by right; eexists].
  destruct (arr_set_result (lb_allocated b) srv (2 * a)) as [[al E2]|E2]; rewrite E2; cbn [mbind outcome_bind]; [|by right; eexists].
  left. eexists. split; [reflexivity|]. unfold small_tables in *. cbn [lb_set].
  apply arr_set_Val in E as [_ ->]. apply Forall_insert; [done|]. apply Forall_app. split.
  - apply arr_get_Val in Es as [_ Es]. by eapply (Forall_lookup_1 _ _ _ _ Hb).
  - apply Forall_fmap, Forall_true. intros i. by apply Hf.
Qed.

Lemma empty_list_alone f m b ep n k j slots v :
  vm_srv m = Z.of_nat k → n = Z.of_nat j → lb_set b !! k = Some slots → slots !! j = Some v → small v →
  ∃ b' temp, create_empty_list (lb_mallocs (plenty f)) (vm_srv m) n b = Val b' ∧ lb_set b' !! k = Some (<[j := temp]> slots) ∧ lb_current b' = lb_current b ∧
    ctrl_steps (plenty f) (CtList m n 0, Shared b ep) (CtList m n 5, Shared b' ep).
Proof.
  intros Hm -> Es Hv Hsv. apply lookup_lt_Some in Hv as Hj. apply lookup_lt_Some in Es as Hk.
  pose proof (list_alone f m k j 0 b ep slots v Hm Es Hv ltac:(lia) ltac:(lia)) as H.
  unfold create_empty_list. rewrite Hm, (arr_get_nat _ _ _ Es). cbn [mbind outcome_bind]. rewrite (arr_get_nat _ _ _ Hv). cbn [mbind outcome_bind].
  rewrite decide_False by (cbn [plenty lb_mallocs]; lia).
  assert (renewed 0 (length (strings b)) v = LbVm (lb_ip v) (lb_port v) (seq (length (strings b)) 5)) as Hren.
  { unfold renewed. by rewrite (drop_ge (connected_clients v)), app_nil_r by done. }
  rewrite Hren in H. eexists _, _. split; [by apply (set_lb_slot_val (set_strings _ b) k slots j)|].
  split; [cbn [set_lb_set set_strings lb_set]; by apply list_lookup_insert_eq|]. split; [done|exact H].
Qed.

(** Left alone, and as long as [malloc] finds memory, the controller thread handles
    a message with a terminated address access by access as [controller_message]
    does in one step: the same tables after, or the same fault. *)
Lemma message_alone f m b ep :
  small_tables b → (length (ip m) < 16)%nat → (∀ i, small (f i)) →
  leads (ctrl_alone (plenty f)) (CtGrow m, Shared b ep) (controller_message (plenty f) m b) (handled ep).
Proof.
  intros Hb Hip Hf. unfold controller_message.
  assert (E : ctrl_alone (plenty f) (CtGrow m, Shared b ep) = (b' ← check_vm_data_set_size (Some f) (vm_srv m) b; Val (CtTemp m, Shared b' ep))).
  { unfold ctrl_alone. cbn [fst snd ctrl_step sh_lb sh_epoch]. unfold check_vm_data_set_size.
    destruct (arr_get (lb_current b) (vm_srv m)) as [n| | |]; cbn [mbind outcome_bind andb]; try done.
    by destruct (arr_get (lb_allocated b) (vm_srv m)). }
  change (lb_realloc (plenty f)) with (Some f).
  destruct (grow_alone (Some f) (vm_srv m) b Hb ltac:(by intros f' i [= <-])) as [(b1 & E1 & Hb1)|[err E1]]; rewrite E1 in E |- *; cbn [mbind outcome_bind] in E |- *;
    [|by apply leads_fault].
  eapply leads_step; [exact E|]. clear E E1 Hb b.
  assert (E : ctrl_alone (plenty f) (CtTemp m, Shared b1 ep) = (n ← arr_get (lb_current b1) (vm_srv m); Val (CtList m n 0, Shared b1 ep))) by done.
  destruct (arr_get_result (lb_current b1) (vm_srv m)) as [[n En]|En]; rewrite En in E |- *; cbn [mbind outcome_bind] in E |- *;
    [|by apply leads_fault].
  eapply leads_step; [exact E|]. clear E.
  destruct (get_slot_result b1 (vm_srv m) n) as [[v Ev]|Ev].
  2: { assert (Hc : create_empty_list (lb_mallocs (plenty f)) (vm_srv m) n b1 = Fault OutOfBounds).
       { unfold create_empty_list. unfold get_slot in Ev. destruct (arr_get (lb_set b1) (vm_srv m)); cbn [mbind outcome_bind] in *; try done; [by rewrite Ev|congruence]. }
       rewrite Hc. apply leads_fault. unfold ctrl_alone. cbn [fst snd ctrl_step sh_lb]. rewrite decide_True by lia; rewrite decide_True by (change (lb_mallocs _) with 5%nat; lia). by rewrite Ev. }
  apply outcome_bind_Val in Ev as (slots & [Hs Es]%arr_get_Val & [Hn Hv]%arr_get_Val).
  apply arr_get_Val in En as [_ En].
  assert (Hm : vm_srv m = Z.of_nat (Z.to_nat (vm_srv m))) by lia. assert (Hnn : n = Z.of_nat (Z.to_nat n)) by lia.
  assert (Hsv : small v) by (eapply (Forall_lookup_1 _ slots); [eapply (Forall_lookup_1 _ _ _ _ Hb1 Es)|exact Hv]).
  destruct (empty_list_alone f m b1 ep n _ _ slots v Hm Hnn Es Hv Hsv) as (b2 & temp & -> & Es2 & Ec2 & Hsteps).
  cbn [mbind outcome_bind]. eapply leads_rtc; [exact Hsteps|].
  apply lookup_lt_Some in Hv as Hj.
  assert (Hdel : leads (ctrl_alone (plenty f)) (CtFind m 0, Shared b2 ep) (delete_vm (ip m) (vm_srv m) (port m) b2) (handled ep)).
  { apply delete_alone; [done|]. eexists. apply arr_get_Val. split; [done|exact Es2]. }
  assert (Hnext : ctrl_alone (plenty f) (CtList m n 5, Shared b2 ep) =
    Val (if op m =? ADD then CtIp m n else if op m =? DELETE then CtFind m 0 else if op m =? REJ then CtFind m 0 else CtWait, Shared b2 ep)).
  { unfold ctrl_alone. cbn [fst snd ctrl_step sh_lb sh_epoch]. rewrite decide_False by lia. unfold string16. rewrite !decide_True by done.
    by repeat destruct (_ =? _). }
  eapply leads_step; [exact Hnext|]. destruct (op m =? ADD).
  - eapply (add_alone (plenty f) m b2 ep (Z.to_nat (vm_srv m)) n); [done|done|exact Es2|by rewrite Ec2|done|].
    by apply list_lookup_insert_eq.
  - destruct (op m =? DELETE); [done|]. destruct (op m =? REJ); [done|]. by apply leads_done.
Qed.
