(* ===== verification/Quiescent.v ===== *)
(** * controller/balancer.c: the table follows the messages, whatever the workers do

    [controller_thread] changes the tables in many accesses and takes no lock,
    while a worker reads them and records its client.  Still, whenever it waits
    for the next message the table holds what the messages so far ask for: of the
    tables a worker changes only what the controller thread does not look at
    ([same_tables]), so that the accesses to a message are those of Atomicity.v,
    where the thread is alone. *)
From S2P Require Import Prelude Protocol Balancer Registry Races Atomicity.
Open Scope Z_scope.

(** ** What a worker leaves as it is *)
#[export] Instance same_tables_equiv : Equivalence same_tables.
Proof.
  unfold same_tables. split.
  - done.
  - intros b c (-> & -> & -> & -> & ->). done.
  - intros b c d (-> & -> & -> & -> & ->) (-> & -> & -> & -> & ->). done.
Qed.

#[export] Instance lb_ok_same : Proper (same_tables ==> iff) lb_ok.
Proof.
  intros b c (E1 & E2 & E3 & E4 & E5). unfold lb_ok, sizes_ok, lives, llive. by rewrite E1, E2, E3, E4, E5.
Qed.

#[export] Instance small_tables_same : Proper (same_tables ==> iff) small_tables.
Proof. intros b c (E1 & _). unfold small_tables. by rewrite E1. Qed.

#[export] Instance lb_view_same : Proper (same_tables ==> registry_eq) lb_view.
Proof. intros b c (E1 & E2 & _) k _. unfold lb_view, llive. by rewrite E1, E2. Qed.

Lemma get_slot_same b c srv i : same_tables b c → get_slot c srv i = get_slot b srv i.
Proof. intros (E1 & _). unfold get_slot. by rewrite E1. Qed.

Lemma set_lb_slot_same b c srv i v b' :
  same_tables b c → set_lb_slot b srv i v = Val b' → ∃ c', set_lb_slot c srv i v = Val c' ∧ same_tables b' c'.
Proof.
  intros (E1 & E2 & E3 & E4 & E5). unfold set_lb_slot. rewrite E1.
  intros (slots & -> & (slots' & E & (sets & E' & [= <-])%outcome_bind_Val)%outcome_bind_Val)%outcome_bind_Val.
  cbn [mbind outcome_bind]. rewrite E. cbn [mbind outcome_bind]. rewrite E'. eexists. by split.
Qed.

Lemma set_current_same b c srv n b' :
  same_tables b c → set_current srv n b = Val b' → ∃ c', set_current srv n c = Val c' ∧ same_tables b' c'.
Proof.
  intros (E1 & E2 & E3 & E4 & E5). unfold set_current. rewrite E2. intros (current & -> & [= <-])%outcome_bind_Val.
  eexists. by split.
Qed.

Lemma set_strings_same b c st st' : same_tables b c → length st' = length st → same_tables (set_strings st b) (set_strings st' c).
Proof. intros (E1 & E2 & E3 & E4 & E5) Hl. by do 4 (split; [done|]). Qed.

(** A read and a store of the controller thread. *)
Ltac same_store lem H Hs :=
  let E := fresh in let c' := fresh in
  apply outcome_bind_Val in H as (? & -> & H); apply outcome_bind_Val in H as (? & E & H); cbn [mbind outcome_bind];
  edestruct lem as (c' & -> & ?); [exact Hs|exact E|]; injection H as <- <-; by exists c'.

(** Past [check_vm_data_set_size] the controller thread takes the same steps on
    tables that differ only in that. *)
Lemma ctrl_step_same fresh moves g pc b c ep pc' sh :
  same_tables b c → match pc with CtGrow _ => False | _ => True end →
  ctrl_step fresh moves pc (Shared b ep) = Val (pc', sh) →
  ∃ c', ctrl_alone (plenty g) (pc, Shared c 0) = Val (pc', Shared c' 0) ∧ same_tables (sh_lb sh) c'.
Proof.
  intros Hs Hpc H. pose proof Hs as (_ & Ec & _ & El & _).
  unfold ctrl_alone. cbn [fst snd]. destruct pc as [|m|m|m temp i|m temp|m temp|m|m index|m index|m index last]; try done;
    cbn [ctrl_step sh_lb sh_epoch] in *; rewrite ?Ec, ?(get_slot_same b c) by done.
  - injection H as <- <-. by exists c.
  - apply outcome_bind_Val in H as (n & -> & H). injection H as <- <-. by exists c.
  - case_decide.
    + case_decide; [|done]. rewrite decide_True by done.
      apply outcome_bind_Val in H as (v & -> & H). apply outcome_bind_Val in H as (b' & E & H). cbn [mbind outcome_bind].
      rewrite El. destruct (set_lb_slot_same _ _ _ _ _ _ Hs E) as (c' & -> & Hs'). injection H as <- <-.
      eexists. split; [reflexivity|]. apply set_strings_same; [done|]. by rewrite !length_app, El.
    + repeat case_match; try (apply outcome_bind_Val in H as (? & -> & H); cbn [mbind outcome_bind]); injection H as <- <-; by exists c.
  - apply outcome_bind_Val in H as (v & -> & H). apply outcome_bind_Val in H as (x & -> & H). cbn [mbind outcome_bind].
    apply outcome_bind_Val in H as (b' & E & H). destruct (set_lb_slot_same _ _ _ _ _ _ Hs E) as (c' & -> & Hs').
    injection H as <- <-. by exists c'.
  - same_store set_lb_slot_same H Hs.
  - same_store set_current_same H Hs.
  - apply outcome_bind_Val in H as (n & -> & H). cbn [mbind outcome_bind]. case_decide; [|injection H as <- <-; by exists c].
    apply outcome_bind_Val in H as (v & -> & H). cbn [mbind outcome_bind]. case_match; injection H as <- <-; by exists c.
  - same_store set_current_same H Hs.
  - same_store set_lb_slot_same H Hs.
Qed.

(** ** A thread alone ends in one way *)
Lemma alone_end {X} (next : X → outcome X) x y z :
  rtc (λ x y, next x = Val y) x y → rtc (λ x y, next x = Val y) x z → next y = Val y → next z = Val z → y = z.
Proof.
  assert (Hend : ∀ y z, rtc (λ x y, next x = Val y) y z → next y = Val y → y = z).
  { intros y' z' Hr Hy. induction Hr as [|a b c Hab _ IH]; [done|]. rewrite Hy in Hab. injection Hab as <-. by apply IH. }
  intros Hxy. revert z. induction Hxy as [y|x x' y Hx _ IH]; intros z Hz Hy Hzz; [by apply Hend|].
  inversion Hz as [|a b c Hb Hbz]; subst.
  - rewrite Hzz in Hx. injection Hx as <-. by apply IH.
  - rewrite Hx in Hb. injection Hb as <-. by apply IH.
Qed.

(** A thread alone that has come to an end did what it leads to. *)
Lemma leads_end {X A} (next : X → outcome X) x (r : outcome A) k z :
  leads next x r k → rtc (λ x y, next x = Val y) x z → next z = Val z → (∀ a, next (k a) = Val (k a)) →
  ∃ a, r = Val a ∧ z = k a.
Proof.
  intros Hl Hz Hend Hk. destruct r as [a| | |f]; cbn [leads] in Hl; try done.
  - exists a. split; [done|]. by eapply alone_end.
  - exfalso. destruct Hl as (y & Hy & Hf). revert z Hz Hend. induction Hy as [y|x x' y Hx _ IH]; intros z Hz Hend.
    + inversion Hz; subst; congruence.
    + inversion Hz as [|a b c Hb Hbz]; subst; [rewrite Hend in Hx; injection Hx as <-; by apply (IH Hf z)|].
      rewrite Hx in Hb. injection Hb as <-. by apply (IH Hf z).
Qed.

Lemma check_size_any srv b b' g :
  check_vm_data_set_size None srv b = Val b' → check_vm_data_set_size (Some g) srv b = Val b'.
Proof.
  unfold check_vm_data_set_size. destruct (arr_get (lb_current b) srv) as [n| | |]; cbn [mbind outcome_bind]; try done.
  destruct (arr_get (lb_allocated b) srv) as [a| | |]; cbn [mbind outcome_bind]; try done.
  case_decide; [|done]. case_decide; [|done]. by destruct (arr_get (lb_set b) srv).
Qed.

(** ** The messages and the table *)

(** The table when the messages [log] have been handled. *)
Definition settled (log : list virtual_machine) (b : lb) : Prop := lb_ok b ∧ lb_view b ≡ᵣ registry_run log empty_registry.

#[export] Instance settled_same log : Proper (same_tables ==> iff) (settled log).
Proof.
  intros b c H. unfold settled. rewrite H. split; intros [? <-]; (split; [done|]); [symmetry|]; by apply lb_view_same.
Qed.

(** The controller thread is at [pc] in the last message: [c] is the table as it
    would be if it were alone since it received it. *)
Definition running (log : list virtual_machine) (pc : ctrl_pc) (b : lb) : Prop :=
  ∃ log0 m b0 g c, log = log0 ++ [m] ∧ valid_message m ∧ settled log0 b0 ∧ small_tables b0 ∧ (∀ i, small (g i)) ∧
    same_tables b c ∧ rtc (λ x y, ctrl_alone (plenty g) x = Val y) (CtGrow m, Shared b0 0) (pc, Shared c 0).

Definition follows (log : list virtual_machine) (pc : ctrl_pc) (b : lb) : Prop :=
  match pc with
  | CtWait => settled log b
  | CtGrow m => ∃ log0, log = log0 ++ [m] ∧ valid_message m ∧ settled log0 b ∧ small_tables b
  | _ => running log pc b
  end.

#[export] Instance running_same log pc : Proper (same_tables ==> iff) (running log pc).
Proof. intros b c H. unfold running. by setoid_rewrite H. Qed.

#[export] Instance follows_same log pc : Proper (same_tables ==> iff) (follows log pc).
Proof. intros b c H. unfold follows. destruct pc; by setoid_rewrite H. Qed.

Lemma running_first log fresh m b ep pc sh :
  (∀ f i, lb_realloc fresh = Some f → small (f i)) → follows log (CtGrow m) b →
  ctrl_step fresh false (CtGrow m) (Shared b ep) = Val (pc, sh) → running log pc (sh_lb sh).
Proof.
  intros Hf (log0 & E & Hm & H0 & Hsm) H. cbn [ctrl_step sh_lb sh_epoch] in H.
  apply outcome_bind_Val in H as (n & En & H). apply outcome_bind_Val in H as (a & Ea & H).
  apply outcome_bind_Val in H as (b' & Eb & H). injection H as <- <-.
  set (g := match lb_realloc fresh with Some g => g | None => λ _, LbVm [] 0 [] end).
  assert (Hg : ∀ i, small (g i)) by (intros i; unfold g; destruct (lb_realloc fresh); [by apply (Hf _ i)|unfold small; cbn; lia]).
  exists log0, m, b, g, b'. do 5 (split; [done|]). split; [done|]. apply rtc_once.
  unfold ctrl_alone. cbn [fst snd ctrl_step sh_lb sh_epoch]. rewrite En, Ea. cbn [mbind outcome_bind plenty lb_realloc].
  assert (check_vm_data_set_size (Some g) (vm_srv m) b = Val b') as ->; [|done].
  unfold g. destruct (lb_realloc fresh); [done|by apply check_size_any].
Qed.

Lemma running_next log fresh pc b ep pc' sh :
  match pc with CtGrow _ => False | _ => True end → running log pc b →
  ctrl_step fresh false pc (Shared b ep) = Val (pc', sh) → running log pc' (sh_lb sh).
Proof.
  intros Hpc (log0 & m & b0 & g & c & E & Hm & H0 & Hsm & Hg & Hc & Hr) H.
  destruct (ctrl_step_same fresh false g pc b c ep pc' sh Hc Hpc H) as (c' & Ec & Hs).
  exists log0, m, b0, g, c'. do 6 (split; [done|]). eapply rtc_r; [exact Hr|exact Ec].
Qed.

(** At the end of the message the table is the one that [controller_message] gives. *)
Lemma running_done log b : Z.of_nat (length log) <= 2 ^ 30 → running log CtWait b → settled log b.
Proof.
  intros Hlen (log0 & m & b0 & g & c & -> & Hm & [Hok Hv] & Hsm & Hg & Hc & Hr). rewrite length_app in Hlen. cbn in Hlen.
  destruct (lb_message_registry g m b0 Hok Hm) as (b1 & E & Hok1 & Hv1).
  { intros k Hk. rewrite (Hv k Hk). pose proof (registry_run_size log0 empty_registry k) as Hsz.
    replace (size (empty_registry k)) with 0%nat in Hsz by done. lia. }
  destruct (leads_end _ _ _ _ _ (message_alone g m b0 0 Hsm (proj2 Hm) Hg) Hr eq_refl ltac:(done)) as (b2 & E2 & Heq).
  rewrite E in E2. injection E2 as <-. injection Heq as ->.
  rewrite Hc. split; [done|]. rewrite Hv1, registry_run_snoc. by rewrite Hv.
Qed.

Lemma ctrl_step_past fresh moves pc s pc' s' :
  ctrl_step fresh moves pc s = Val (pc', s') → match pc' with CtGrow _ => False | _ => True end.
Proof.
  destruct pc; cbn [ctrl_step]; intros H;
    repeat first [case_decide | apply outcome_bind_Val in H; destruct H as (? & ? & H)
      | match type of H with context [if ?b then _ else _] => destruct b end]; first [discriminate H|by injection H as <- _].
Qed.

Lemma follows_ctrl log fresh pc b ep pc' sh :
  Z.of_nat (length log) <= 2 ^ 30 → (∀ f i, lb_realloc fresh = Some f → small (f i)) → pc ≠ CtWait → follows log pc b →
  ctrl_step fresh false pc (Shared b ep) = Val (pc', sh) → follows log pc' (sh_lb sh).
Proof.
  intros Hlen Hf Hpc Hfo H. assert (Hrun : running log pc' (sh_lb sh)).
  { destruct pc as [|m|m|m temp i|m temp|m temp|m|m index|m index|m index last];
      [done|by eapply running_first|by (eapply running_next; [|exact Hfo|exact H])..]. }
  pose proof (ctrl_step_past _ _ _ _ _ _ H) as Hp. destruct pc'; try done. by apply running_done.
Qed.

Lemma small_tables_of log b h : tables_ok log b h → small_tables b.
Proof.
  intros [(Hl & _) Ht]. apply Forall_lookup. intros k slots Hk. apply lookup_lt_Some in Hk as Hlt.
  destruct (Ht k ltac:(lia)) as (slots' & n & a & (G & _) & _ & _ & _ & Hs). by simplify_eq.
Qed.

Lemma follows_step e s s' :
  races_inv s → calm e s → race_step e s = Val (Some s') → Z.of_nat (length (r_log s')) <= 2 ^ 30 →
  follows (r_log s) (r_ctrl s) (sh_lb (r_shared s)) → follows (r_log s') (r_ctrl s') (sh_lb (r_shared s')).
Proof.
  destruct s as [[b ep] ct rt addr log]. intros (h & Ht & Hc & Hr) Hcalm. cbn [r_shared r_log r_ctrl r_route sh_lb sh_epoch] in *.
  destruct e as [m|fresh moves|addr'|]; cbn [race_step r_ctrl r_route r_shared r_addr r_log].
  - destruct ct; intros [= <-] Hlen Hf; cbn in *; try done. exists log. split; [done|]. split; [exact Hcalm|]. split; [exact Hf|].
    by eapply small_tables_of.
  - destruct Hcalm as [-> Hf]. intros H Hlen Hfo.
    assert (∃ pc s2, ct ≠ CtWait ∧ ctrl_step fresh false ct (Shared b ep) = Val (pc, s2) ∧ s' = Races s2 pc rt addr log) as (pc & s2 & Hne & E & ->).
    { destruct ct; try done; apply outcome_bind_Val in H as ([pc s2] & E & H); injection H as <-; by exists pc, s2. }
    by eapply follows_ctrl.
  - intros H _ Hfo. destruct rt; try done; by injection H as <-.
  - intros H _ Hfo. assert (∃ pc s2, route_step addr rt (Shared b ep) = Val (pc, s2) ∧ s' = Races s2 ct pc addr log) as (pc & s2 & E & ->).
    { destruct rt; try done; apply outcome_bind_Val in H as ([pc s2] & E & H); injection H as <-; by exists pc, s2. }
    pose proof (route_step_ok log b h ep addr rt Ht Hr Hcalm) as Hn. rewrite E in Hn. destruct Hn as (_ & Hs & _).
    cbn. by rewrite <-Hs.
Qed.

Lemma race_log_grows e s s' : race_step e s = Val (Some s') → (length (r_log s) <= length (r_log s'))%nat.
Proof.
  destruct e as [m|fresh moves|addr'|]; cbn [race_step]; intros H.
  - destruct (r_ctrl s); try done. injection H as <-. cbn. rewrite length_app. lia.
  - destruct (r_ctrl s); try done; apply outcome_bind_Val in H as (x & _ & H); by injection H as <-.
  - destruct (r_route s); try done; by injection H as <-.
  - destruct (r_route s); try done; apply outcome_bind_Val in H as (x & _ & H); by injection H as <-.
Qed.

(** In every state of the two threads. *)
Lemma follows_reachable f b s :
  (∀ k i, small (f k i)) → create_system_image (Some f) = Val b → rtc (race calm) (at_start b) s →
  Z.of_nat (length (r_log s)) <= 2 ^ 30 → follows (r_log s) (r_ctrl s) (sh_lb (r_shared s)).
Proof.
  intros Hf Hb Hr.
  apply (rtc_invariant (race calm) (λ s, races_inv s ∧
    (Z.of_nat (length (r_log s)) <= 2 ^ 30 → follows (r_log s) (r_ctrl s) (sh_lb (r_shared s)))) (at_start b) s) in Hr; [apply Hr| |].
  - intros x y [Hx Hfo] (e & Hc & E). split; [by eapply races_inv_step|]. intros Hlen.
    eapply follows_step; [exact Hx|exact Hc|exact E|exact Hlen|]. apply Hfo. pose proof (race_log_grows e x y E). lia.
  - split; [by eapply races_inv_start|]. intros _. split; [by eapply create_system_image_ok|].
    unfold create_system_image in Hb. injection Hb as <-. intros [|[|[|k]]] Hk; [reflexivity..|lia].
Qed.
