(* ===== verification/Sessions.v ===== *)
(** * controller/balancer.c: sessions

    Which VM a client is recorded with, over the messages of the controller and
    the connections of other clients: nobody is recorded twice, and a client
    keeps its VM until the controller takes the VM away.  A message and the
    choice of a VM are one step each here, as they are when their accesses do not
    interleave (Atomicity.v); for what happens when they do, see
    [Interleaved.session_can_be_lost]. *)
From S2P Require Import Prelude Registry Protocol Balancer.
From stdpp Require Import list.
Open Scope Z_scope.

(** The clients recorded with the live VMs of the service that is balanced. *)
Definition places_of (b : lb) (l : list lb_vm) : list (list Z) := concat (map (clients_of b) l).
Definition taken (l : list (list Z)) : list (list Z) := filter (λ s, s ≠ no_ip) l.
Definition recorded (b : lb) : list (list Z) := taken (places_of b (llive b 0)).

(** Nobody is recorded with two VMs, or twice with one. *)
Definition one_home (b : lb) : Prop := NoDup (recorded b).

(** The table and its places. *)
Definition sessions_ok (b : lb) : Prop := lb_ok b ∧ one_home b.

Lemma taken_app l k : taken (l ++ k) = taken l ++ taken k.
Proof. apply filter_app. Qed.

#[export] Instance taken_proper : Proper ((≡ₚ) ==> (≡ₚ)) taken.
Proof. intros l l' H. unfold taken. by rewrite H. Qed.

Lemma elem_of_taken s l : s ∈ taken l ↔ s ≠ no_ip ∧ s ∈ l.
Proof. unfold taken. by rewrite list_elem_of_filter. Qed.

#[export] Instance places_of_proper b : Proper ((≡ₚ) ==> (≡ₚ)) (places_of b).
Proof.
  intros l l'. unfold places_of. induction 1 as [|x l l' _ IH|x y l|l1 l2 l3 _ IH1 _ IH2]; cbn; [done|by f_equiv| |by etrans].
  rewrite !(assoc_L (++)). f_equiv. apply Permutation_app_comm.
Qed.

Lemma elem_of_places b l s : s ∈ places_of b l ↔ ∃ v, v ∈ l ∧ s ∈ clients_of b v.
Proof.
  unfold places_of. rewrite list_elem_of_In, in_concat. split.
  - intros (c & Hc & Hs). apply in_map_iff in Hc as (v & <- & Hv). exists v. by rewrite !list_elem_of_In.
  - intros (v & Hv & Hs). exists (clients_of b v). rewrite in_map_iff, <-list_elem_of_In. split; [|done].
    exists v. by rewrite <-list_elem_of_In.
Qed.

Lemma elem_of_recorded b s : s ∈ recorded b ↔ s ≠ no_ip ∧ ∃ v, v ∈ llive b 0 ∧ s ∈ clients_of b v.
Proof. unfold recorded. by rewrite elem_of_taken, elem_of_places. Qed.

(** [home] finds the client wherever it is recorded. *)
Lemma home_None b addr : home b addr = None ↔ ∀ v, v ∈ llive b 0 → addr ∉ clients_of b v.
Proof. unfold home. rewrite fmap_None, list_find_None, Forall_forall. done. Qed.

Lemma home_Some_elem b addr v : home b addr = Some v → v ∈ llive b 0 ∧ addr ∈ clients_of b v.
Proof.
  unfold home. intros ([i w] & Hf & ->)%fmap_Some. apply list_find_Some in Hf as (Hi & Hw & _).
  split; [by eapply list_elem_of_lookup_2|done].
Qed.

Lemma nodup_taken_two l x y (a : list Z) :
  NoDup (taken (x ++ l ++ y)) → a ≠ no_ip → a ∈ x → a ∈ y → False.
Proof.
  rewrite !taken_app, !NoDup_app. intros (_ & H & _) Ha Hx Hy. apply (H a).
  - by apply elem_of_taken.
  - rewrite elem_of_app. right. by apply elem_of_taken.
Qed.

Lemma recorded_twice b i j v w addr :
  one_home b → addr ≠ no_ip → llive b 0 !! i = Some v → llive b 0 !! j = Some w → (i < j)%nat →
  addr ∈ clients_of b v → addr ∈ clients_of b w → False.
Proof.
  intros Hone Ha Hi Hj Hij Hv Hw. unfold one_home, recorded in Hone.
  apply list_elem_of_split_length in Hi as (l1 & l2 & E & ->). rewrite E in Hj, Hone.
  rewrite lookup_app_r in Hj by lia. destruct (j - length l1)%nat as [|k] eqn:Ek; [lia|]. cbn in Hj.
  apply list_elem_of_split_length in Hj as (l3 & l4 & -> & _).
  unfold places_of in Hone. rewrite map_app, concat_app, taken_app in Hone. apply NoDup_app in Hone as (_ & _ & Hone).
  cbn [map concat] in Hone. rewrite map_app, concat_app in Hone. cbn [map concat] in Hone.
  apply (nodup_taken_two (concat (map (clients_of b) l3)) (clients_of b v) (clients_of b w ++ concat (map (clients_of b) l4)) addr);
    [done..|]. rewrite elem_of_app. by left.
Qed.

Lemma home_Some b addr v :
  one_home b → addr ≠ no_ip → home b addr = Some v ↔ v ∈ llive b 0 ∧ addr ∈ clients_of b v.
Proof.
  intros Hone Ha. split; [apply home_Some_elem|]. intros [Hv Hc].
  apply list_elem_of_lookup_1 in Hv as [i Hi]. unfold home.
  assert (list_find (λ w, addr ∈ clients_of b w) (llive b 0) = Some (i, v)) as ->; [|done].
  apply list_find_Some. split; [done|]. split; [done|]. intros j w Hj Hlt Hw. by eapply (recorded_twice b j i w v).
Qed.

(** ** Messages *)

(** New blocks leave the places of the live VMs alone. *)
Lemma clients_of_grow b b' v new :
  vm_ok b v → strings b' = strings b ++ new → clients_of b' v = clients_of b v.
Proof.
  intros [_ Hf] Hs. unfold clients_of. apply map_ext_in. intros p Hp. rewrite Hs. apply list_elem_of_In in Hp.
  rewrite Forall_forall in Hf. rewrite lookup_app_l; [done|]. by apply Hf.
Qed.

Lemma places_of_grow b b' l new :
  Forall (vm_ok b) l → strings b' = strings b ++ new → places_of b' l = places_of b l.
Proof.
  intros Hl Hs. unfold places_of. f_equal. apply map_ext_in. intros v Hv. apply list_elem_of_In in Hv.
  rewrite Forall_forall in Hl. by apply (clients_of_grow b b' v new); [apply Hl|].
Qed.

Lemma live_vms_ok b k : lb_ok b → (k < 3)%nat → Forall (vm_ok b) (llive b k).
Proof. intros Hok Hk. apply Forall_forall. intros v Hv. by apply (lb_ok_vm b k v). Qed.

(** The places of a VM that has just been added. *)
Lemma clients_of_fresh b' old a p :
  strings b' = old ++ replicate 5 no_ip → clients_of b' (LbVm a p (seq (length old) 5)) = replicate 5 no_ip.
Proof.
  intros Hs. unfold clients_of. cbn [connected_clients seq map]. rewrite Hs.
  assert (H : ∀ i s, replicate 5 no_ip !! i = Some s → (old ++ replicate 5 no_ip) !! (i + length old)%nat = Some s).
  { intros i s Hi. rewrite lookup_app_r by lia. by rewrite Nat.add_sub. }
  pose proof (H 0%nat no_ip eq_refl) as H0. pose proof (H 1%nat no_ip eq_refl) as H1. pose proof (H 2%nat no_ip eq_refl) as H2.
  pose proof (H 3%nat no_ip eq_refl) as H3. pose proof (H 4%nat no_ip eq_refl) as H4. cbn [Init.Nat.add] in *.
  by rewrite H0, H1, H2, H3, H4.
Qed.


(** What a message does to who is recorded, and where. *)
Lemma message_sessions f m b b' :
  sessions_ok b → valid_message m → controller_message (plenty f) m b = Val b' →
  sessions_ok b' ∧
  (∀ v, v ∈ llive b 0 → (op m = DELETE ∨ op m = REJ → vm_srv m = 0 → lb_endpoint v ≠ endpoint_of m) →
     v ∈ llive b' 0 ∧ clients_of b' v = clients_of b v).
Proof.
  intros [Hok Hone] [(k & Hk & Hm) Hip] E.
  destruct (controller_message_spec (plenty f) m b k Hok Hk Hm)
    as [(b1 & E1 & Hok' & Hsame & Hs & _ & Hadd & Hdel & Hother)|[[E1 _]|[[E1 _]|[E1 _]]]]; [|congruence..].
  rewrite E1 in E. injection E as <-. pose proof (live_vms_ok b 0 Hok ltac:(lia)) as Hvs.
  assert (Hkeep : ∀ v, v ∈ llive b 0 → clients_of b1 v = clients_of b v).
  { intros v Hv. rewrite Forall_forall in Hvs. by eapply clients_of_grow; [apply Hvs|]. }
  assert (Hquiet : llive b1 0 = llive b 0 → sessions_ok b1 ∧ ∀ v, v ∈ llive b 0 → v ∈ llive b1 0 ∧ clients_of b1 v = clients_of b v).
  { intros Hl. split.
    - split; [done|]. unfold one_home, recorded. by rewrite Hl, (places_of_grow b b1 _ _ Hvs Hs).
    - intros v Hv. rewrite Hl. by auto. }
  destruct (decide (k = 0%nat)) as [->|Hne].
  2: { destruct Hquiet as [H1 H2]; [by apply Hsame|]. split; [done|]. by auto. }
  destruct (decide (op m = ADD)) as [Ha|Ha]; [|destruct (decide (op m = DELETE ∨ op m = REJ)) as [Hd|Hd]].
  - rewrite (Hadd Ha) in *. split.
    + split; [done|]. unfold one_home, recorded, places_of. rewrite (Hadd Ha), map_app, concat_app, taken_app.
      cbn [map concat]. rewrite (clients_of_fresh b1 (strings b)) by done.
      change (taken (replicate 5 no_ip ++ [])) with (@nil (list Z)). rewrite app_nil_r.
      fold (places_of b1 (llive b 0)). by rewrite (places_of_grow b b1 _ _ Hvs Hs).
    + intros v Hv _. split; [|by auto]. rewrite elem_of_app. by left.
  - destruct (Hdel Hd) as [(w & Hw1 & Hw2 & Hp)|[_ Hl]].
    2: { destruct (Hquiet Hl) as [H1 H2]. split; [done|]. by auto. }
    split.
    + split; [done|]. unfold one_home, recorded in *. rewrite Hp in Hone.
      assert (Hvs' : Forall (vm_ok b) (llive b1 0)) by (rewrite Hp in Hvs; by apply Forall_cons_1 in Hvs as [_ ?]).
      rewrite (places_of_grow b b1 _ _ Hvs' Hs). unfold places_of in Hone. cbn [map concat] in Hone.
      rewrite taken_app in Hone. by apply NoDup_app in Hone as (_ & _ & ?).
    + intros v Hv Hkeepv. split; [|by auto]. rewrite Hp in Hv. apply elem_of_cons in Hv as [->|Hv]; [|done].
      exfalso. apply (Hkeepv Hd); [lia|]. unfold lb_endpoint, endpoint_of. by rewrite Hw1, Hw2.
  - destruct Hquiet as [H1 H2]; [by apply Hother; tauto|]. split; [done|]. by auto.
Qed.

(** ** Connections *)

(** Where the new client goes in the list of who is recorded. *)
Lemma places_of_assign b b' j v used rest addr :
  (∀ k, llive b' k = llive b k) → llive b 0 !! j = Some v →
  clients_of b v = used ++ no_ip :: rest → clients_of b' v = used ++ addr :: rest →
  (∀ j' w, j' ≠ j → llive b 0 !! j' = Some w → clients_of b' w = clients_of b w) →
  ∃ l, places_of b (llive b 0) ≡ₚ no_ip :: l ∧ places_of b' (llive b' 0) ≡ₚ addr :: l.
Proof.
  intros Hl Hj Hc Hc' Ho. apply list_elem_of_split_length in Hj as (l1 & l2 & E & ->).
  assert (Hmap : ∀ l i, (∀ i' w, l !! i' = Some w → llive b 0 !! (i + i')%nat = Some w ∧ (i + i' ≠ length l1)%nat) →
    map (clients_of b') l = map (clients_of b) l).
  { intros l i H. apply map_ext_in. intros w Hw. apply list_elem_of_In, list_elem_of_lookup_1 in Hw as [i' Hi'].
    destruct (H i' w Hi') as [H1 H2]. by apply (Ho (i + i')%nat w). }
  exists (concat (map (clients_of b) l1) ++ used ++ rest ++ concat (map (clients_of b) l2)).
  unfold places_of. rewrite Hl, E, !map_app, !concat_app. cbn [map concat]. rewrite Hc, Hc'.
  rewrite (Hmap l1 0%nat), (Hmap l2 (S (length l1))).
  - split; rewrite <-!(assoc_L (++)); cbn [app]; rewrite <-!Permutation_middle; done.
  - intros i' w Hi'. split; [|lia]. rewrite E, lookup_app_r by lia.
    replace (S (length l1) + i' - length l1)%nat with (S i') by lia. done.
  - intros i' w Hi'. apply lookup_lt_Some in Hi' as Hlt. split; [|lia]. by rewrite E, lookup_app_l by done.
Qed.

(** A connection that finds the index in range. *)
Lemma client_sessions b addr a p b' :
  sessions_ok b → index_ok b → llive b 0 ≠ [] → addr ≠ no_ip → get_current_socket addr true true b = Val (a, p, b') →
  sessions_ok b' ∧ (∀ k, llive b' k = llive b k) ∧
  (∀ v s, v ∈ llive b 0 → s ≠ no_ip → s ∈ clients_of b v → s ∈ clients_of b' v).
Proof.
  intros [Hok Hone] Hi Hne Hno.
  destruct (get_current_socket_in_range b addr Hok Hi Hne) as (b0 & j & v & Hok0 & Hl & Hs & Ha & Hv & ->).
  assert (Hcl : ∀ w, clients_of b0 w = clients_of b w) by (intros w; unfold clients_of; by rewrite Hs).
  assert (Hpl : ∀ l, places_of b0 l = places_of b l) by (intros l; unfold places_of; f_equal; by apply map_ext).
  rewrite <-Hl in Hv.
  destruct (check_in_range b0 addr j v Hok0 Ha Hv)
    as [(w & _ & Hw & ->)|[(_ & _ & ->)|(Hh & used & rest & b1 & Hc & Hu & -> & Hok1 & Hl1 & Ha1 & Hc1 & Ho1)]]; [|done|];
    intros [= <- <- <-].
  - split; [|split; [done|]]; [|intros v' s _ _; by rewrite Hcl].
    split; [done|]. unfold one_home, recorded. by rewrite Hpl, Hl.
  - split; [|split; [intros k; by rewrite Hl1|]].
    + split; [done|]. unfold one_home, recorded in *.
      destruct (places_of_assign b0 b1 j v used rest addr Hl1 Hv Hc Hc1 Ho1) as (l & P0 & P1).
      rewrite Hpl, Hl in P0. rewrite P0 in Hone. rewrite P1. unfold taken in *.
      rewrite filter_cons_False in Hone by (intros H; by apply H). rewrite filter_cons_True by done.
      apply NoDup_cons. split; [|done]. intros [_ Hin]%list_elem_of_filter.
      assert (Hin0 : addr ∈ places_of b0 (llive b0 0)) by (rewrite Hpl, Hl, P0; by right).
      apply elem_of_places in Hin0 as (w & Hw & Hin0). rewrite home_None in Hh. by apply (Hh w Hw).
    + intros w s Hw Hs0 Hin. rewrite <-Hl in Hw. apply list_elem_of_lookup_1 in Hw as [i Hi'].
      rewrite <-Hcl in Hin. destruct (decide (i = j)) as [->|Hij]; [|by rewrite (Ho1 i w Hij Hi')].
      simplify_eq. rewrite Hc1. rewrite Hc in Hin. set_solver.
Qed.

(** ** Runs of the balancer *)
Inductive lb_event := Message (m : virtual_machine) | Connection (addr : list Z).

Inductive lb_step (f : Z → lb_vm) : lb_event → lb → lb → Prop :=
  | step_message m b b' :
      valid_message m → controller_message (plenty f) m b = Val b' → lb_step f (Message m) b b'
  | step_connection addr a p b b' :
      addr ≠ no_ip → index_ok b → llive b 0 ≠ [] →
      get_current_socket addr true true b = Val (a, p, b') → lb_step f (Connection addr) b b'.

(** The event takes the endpoint of [v] away. *)
Definition removes (e : lb_event) (v : lb_vm) : Prop :=
  match e with
  | Message m => (op m = DELETE ∨ op m = REJ) ∧ vm_srv m = 0 ∧ lb_endpoint v = endpoint_of m
  | Connection _ => False
  end.

Lemma lb_step_sessions f e b b' : lb_step f e b b' → sessions_ok b → sessions_ok b'.
Proof.
  intros [m b0 b1 Hm E|addr a p b0 b1 Hno Hi Hne E] Hb.
  - by destruct (message_sessions f m b0 b1 Hb Hm E).
  - by destruct (client_sessions b0 addr a p b1 Hb Hi Hne Hno E).
Qed.

Lemma lb_step_home f e b b' addr v :
  lb_step f e b b' → sessions_ok b → addr ≠ no_ip → ¬ removes e v → home b addr = Some v → home b' addr = Some v.
Proof.
  intros Hstep Hb Ha Hrem Hh. pose proof (lb_step_sessions f e b b' Hstep Hb) as [_ Hone'].
  apply home_Some_elem in Hh as [Hv Hc]. apply home_Some; [done..|].
  destruct Hstep as [m b0 b1 Hm E|addr' a p b0 b1 Hno Hi Hne E].
  - destruct (message_sessions f m b0 b1 Hb Hm E) as (_ & H).
    destruct (H v Hv) as [H1 H2]; [intros Hd Hs He; by apply Hrem|]. by rewrite H2.
  - destruct (client_sessions b0 addr' a p b1 Hb Hi Hne Hno E) as (_ & Hl & H). rewrite Hl. auto.
Qed.

(** After a connection the client is recorded with the VM it is sent to. *)
Lemma current_socket_home b addr a p b' :
  sessions_ok b → index_ok b → llive b 0 ≠ [] → addr ≠ no_ip → get_current_socket addr true true b = Val (a, p, b') →
  ∃ v, home b' addr = Some v ∧ lb_endpoint v = (a, p).
Proof.
  intros Hb Hi Hne Hno E. destruct (client_sessions b addr a p b' Hb Hi Hne Hno E) as ([Hok' Hone'] & _).
  destruct (get_current_socket_in_range b addr (proj1 Hb) Hi Hne) as (b0 & j & v & Hok0 & Hl & Hs & Ha & Hv & Eq).
  rewrite Eq in E. rewrite <-Hl in Hv.
  destruct (check_in_range b0 addr j v Hok0 Ha Hv)
    as [(w & Hh & _ & E')|[(_ & _ & E')|(_ & used & rest & b1 & _ & _ & E' & _ & Hl1 & _ & Hc1 & _)]];
    rewrite E' in E; [injection E as <- <- <-; by exists w|done|injection E as <- <- <-].
  exists v. split; [|done]. apply home_Some; [done|done|]. split; [|rewrite Hc1, elem_of_app; right; by left].
  rewrite Hl1. by eapply list_elem_of_lookup_2.
Qed.

(** ** The value of a call, for the witnesses *)
Definition value {A} (d : A) (o : outcome A) : A := match o with Val a => a | _ => d end.
