(* ===== verification/Dispatch.v ===== *)
(** * controller/balancer.c: the accepting thread and its workers

    [main]'s accept loop, one thread per connection ([deal_with_data]) and the
    [controller_thread], on the tables of Balancer.v.  The accepting thread
    passes the address of its variable [vm_client] to the new thread and leaves
    [mutex] locked; the new thread copies the variable, chooses a VM and unlocks
    [mutex].  The four [malloc]s of a worker succeed.  A step is a system call, a lock operation or the code between two
    of them; a message of the controller and the choice of a VM are one step
    each, although no lock keeps them apart: Races.v cuts them into their
    accesses, Atomicity.v shows that each is what its accesses do when no other
    thread comes between, and Interleaved.v has all the threads with the accesses. *)
From S2P Require Import Prelude Registry Protocol SockHelp Balancer Sessions Relay.
Open Scope Z_scope.

(** [struct arg_thread] *)
Record arg_thread := ArgThread { arg_socket : Z; arg_ip : list Z; arg_port : Z }.

(** Where the accepting thread is. *)
Inductive acceptor_pc :=
  | AAccept | ANonblock (c : arg_thread) | ALock (c : arg_thread)
  | AFill (c : arg_thread) | ACreate (c : arg_thread).

(** Where a [deal_with_data] thread is; [arg] is its local copy. *)
Inductive worker_pc :=
  | WStart
  | WChoose (arg : arg_thread)
  | WUnlock (arg : arg_thread) (vm : list Z * Z)
  | WRelay (arg : arg_thread) (vm : list Z * Z) (st : relay)
  | WGone.

(** [w_conn] is the connection the thread was created for. *)
Record worker := Worker { w_pc : worker_pc; w_conn : arg_thread }.

Record balancer := BalancerState {
  tables : lb;
  vm_struct : list Z;         (* the struct [vm] of controller_thread *)
  lb_mutex : bool;
  vm_client : arg_thread;
  acceptor : acceptor_pc;
  workers : list worker
}.

Definition set_tables (b : lb) (s : balancer) : balancer :=
  BalancerState b (vm_struct s) (lb_mutex s) (vm_client s) (acceptor s) (workers s).
Definition set_lb_mutex (m : bool) (s : balancer) : balancer :=
  BalancerState (tables s) (vm_struct s) m (vm_client s) (acceptor s) (workers s).
Definition set_acceptor (p : acceptor_pc) (s : balancer) : balancer :=
  BalancerState (tables s) (vm_struct s) (lb_mutex s) (vm_client s) p (workers s).
Definition set_workers (l : list worker) (s : balancer) : balancer :=
  BalancerState (tables s) (vm_struct s) (lb_mutex s) (vm_client s) (acceptor s) l.
Definition set_vm_client (c : arg_thread) (s : balancer) : balancer :=
  BalancerState (tables s) (vm_struct s) (lb_mutex s) c (acceptor s) (workers s).

(** ** Steps: what the environment answers *)
Inductive lb_answer :=
  | LTau
  | LAccept (r : option arg_thread)               (* [None]: accept fails *)
  | LFcntl (getfl : Z) (setfl_ok : bool)
  | LCreate (ok : bool)
  | LConnect (socket_ok connect_ok : bool) (getfl : Z) (setfl_ok : bool)
  | LSelect (vm_socket : Z) (client vm : option socket_answers).   (* the descriptor [socket] gave, and which are ready *)

Definition acceptor_step (a : lb_answer) (s : balancer) : outcome (option balancer) :=
  match acceptor s, a with
  | AAccept, LAccept None => Exit 1
  | AAccept, LAccept (Some c) => Val (Some (set_acceptor (ANonblock c) s))
  | ANonblock c, LFcntl getfl setfl_ok =>
      _ ← setnonblocking getfl setfl_ok; Val (Some (set_acceptor (ALock c) s))
  | ALock c, LTau => if lb_mutex s then Val None else Val (Some (set_acceptor (AFill c) (set_lb_mutex true s)))
  | AFill c, LTau => Val (Some (set_acceptor (ACreate c) (set_vm_client c s)))
  | ACreate c, LCreate true => Val (Some (set_acceptor AAccept (set_workers (workers s ++ [Worker WStart c]) s)))
  | ACreate c, LCreate false => Val (Some (set_acceptor AAccept (set_lb_mutex false s)))
  | _, _ => Val None
  end.

Definition worker_step (t : nat) (w : worker) (a : lb_answer) (s : balancer) : outcome (option balancer) :=
  let goto p s := Val (Some (set_workers (<[t := Worker p (w_conn w)]> (workers s)) s)) in
  match w_pc w, a with
  | WStart, LTau => goto (WChoose (vm_client s)) s
  | WChoose arg, LConnect socket_ok connect_ok getfl setfl_ok =>
      '(vm_ip, vm_port, b) ← get_current_socket (arg_ip arg) socket_ok connect_ok (tables s);
      _ ← setnonblocking getfl setfl_ok;
      goto (WUnlock arg (vm_ip, vm_port)) (set_tables b s)
  | WUnlock arg vm, LTau => goto (WRelay arg vm relay_init) (set_lb_mutex false s)
  | WRelay arg vm st, LSelect vm_socket c v =>
      r ← relay_turn [arg_socket arg; vm_socket] c v st;
      match r with
      | Continue st => goto (WRelay arg vm st) s
      | Finished _ => goto WGone s
      | Stuck => Val None
      end
  | _, _ => Val None
  end.

Inductive lb_input := IMain (a : lb_answer) | IWorker (t : nat) (a : lb_answer) | IController (r : rres).

Definition balancer_step (fresh : lb_memory) (e : lb_input) (s : balancer) : outcome (option balancer) :=
  match e with
  | IMain a => acceptor_step a s
  | IWorker t a => match workers s !! t with Some w => worker_step t w a s | None => Val None end
  | IController r =>
      '(mem, b) ← controller_turn fresh r (vm_struct s, tables s);
      Val (Some (BalancerState b mem (lb_mutex s) (vm_client s) (acceptor s) (workers s)))
  end.

(** main: the tables, and threads that have not started. *)
Definition balancer_init (fresh : option (Z → Z → lb_vm)) (mem : list Z) (stack : arg_thread) : outcome balancer :=
  b ← create_system_image fresh; mret (BalancerState b mem false stack AAccept []).

(** ** The hand-over *)
Definition acceptor_holds (p : acceptor_pc) : nat := match p with AFill _ | ACreate _ => 1 | _ => 0 end.
Definition worker_holds (w : worker) : nat := match w_pc w with WStart | WChoose _ | WUnlock _ _ => 1 | _ => 0 end.

(** What a thread has is the connection it was created for. *)
Definition worker_arg (client : arg_thread) (w : worker) : Prop :=
  match w_pc w with
  | WStart => client = w_conn w
  | WChoose a | WUnlock a _ | WRelay a _ _ => a = w_conn w
  | WGone => True
  end.

Definition handover_inv (s : balancer) : Prop :=
  Nat.b2n (lb_mutex s) = (acceptor_holds (acceptor s) + sum_list_with worker_holds (workers s))%nat ∧
  (∀ c, acceptor s = ACreate c → vm_client s = c) ∧
  Forall (worker_arg (vm_client s)) (workers s).

Lemma worker_step_shape t w a s s' :
  worker_step t w a s = Val (Some s') →
  ∃ p b m, s' = BalancerState b (vm_struct s) m (vm_client s) (acceptor s) (<[t := Worker p (w_conn w)]> (workers s)) ∧
    match w_pc w with
    | WStart => p = WChoose (vm_client s) ∧ m = lb_mutex s ∧ b = tables s
    | WChoose arg => m = lb_mutex s ∧ ∃ a p' ok1 ok2, p = WUnlock arg (a, p') ∧
        get_current_socket (arg_ip arg) ok1 ok2 (tables s) = Val (a, p', b)
    | WUnlock arg vm => p = WRelay arg vm relay_init ∧ m = false ∧ b = tables s
    | WRelay arg vm _ => (p = WGone ∨ ∃ st, p = WRelay arg vm st) ∧ m = lb_mutex s ∧ b = tables s
    | WGone => False
    end.
Proof.
  unfold worker_step. destruct (w_pc w) as [|arg|arg vm|arg vm st|], a; intros H; try discriminate H.
  - injection H as <-. by eexists _, _, _.
  - apply outcome_bind_Val in H as ([[vip vport] b] & E & H). apply outcome_bind_Val in H as (fl & _ & H).
    injection H as <-. eexists _, _, _. split; [reflexivity|]. split; [done|]. by eexists _, _, _, _.
  - injection H as <-. by eexists _, _, _.
  - apply outcome_bind_Val in H as ([st'|st'|] & _ & H); [| |discriminate H]; injection H as <-;
      eexists _, _, _; (split; [reflexivity|]); (split; [|done]); [right; by eexists|by left].
Qed.

(** A variable that no thread is about to read can change. *)
Lemma worker_arg_client c c' w : worker_holds w = 0%nat → worker_arg c w → worker_arg c' w.
Proof. unfold worker_holds, worker_arg. by destruct (w_pc w). Qed.

(** A worker that moves on keeps the hand-over, whatever it does to the tables. *)
Lemma handover_move s t w p b m mem :
  workers s !! t = Some w →
  match w_pc w with
  | WStart => p = WChoose (vm_client s) ∧ m = lb_mutex s
  | WChoose arg => m = lb_mutex s ∧ ∃ vm, p = WUnlock arg vm
  | WUnlock arg vm => p = WRelay arg vm relay_init ∧ m = false
  | WRelay arg vm _ => (p = WGone ∨ ∃ st, p = WRelay arg vm st) ∧ m = lb_mutex s
  | WGone => False
  end →
  handover_inv s →
  handover_inv (BalancerState b mem m (vm_client s) (acceptor s) (<[t := Worker p (w_conn w)]> (workers s))).
Proof.
  intros Ht Hp (I1 & I2 & I3). pose proof (Forall_lookup_1 _ _ _ _ I3 Ht) as Hw. unfold worker_arg in Hw.
  unfold handover_inv. cbn [lb_mutex acceptor workers vm_client].
  pose proof (sum_list_with_insert worker_holds (workers s) t (Worker p (w_conn w)) w Ht) as Hsum.
  pose proof (sum_list_with_lookup worker_holds _ _ _ Ht) as Hlow.
  assert (Nat.b2n (lb_mutex s) <= 1)%nat as Hb by (destruct (lb_mutex s); cbn; lia).
  unfold worker_holds at 2 4 in Hsum. unfold worker_holds at 1 in Hlow. cbn [w_pc] in Hsum.
  split; [|split; [done|]].
  - destruct (w_pc w) eqn:E; [..|done].
    + destruct Hp as (-> & ->). lia.
    + destruct Hp as (-> & ? & ->). lia.
    + destruct Hp as (-> & ->). cbn. lia.
    + destruct Hp as ([->|[? ->]] & ->); lia.
  - apply Forall_insert; [done|]. unfold worker_arg. cbn [w_pc w_conn].
    destruct (w_pc w) eqn:E; [..|done].
    + destruct Hp as (-> & _). done.
    + destruct Hp as (_ & ? & ->). done.
    + by destruct Hp as (-> & _).
    + by destruct Hp as ([->|[? ->]] & _).
Qed.

Lemma handover_worker t w a s s' :
  workers s !! t = Some w → worker_step t w a s = Val (Some s') → handover_inv s → handover_inv s'.
Proof.
  intros Ht H Hi. apply worker_step_shape in H as (p & b & m & -> & Hp). apply handover_move; [done| |done].
  destruct (w_pc w); naive_solver.
Qed.

Lemma handover_acceptor a s s' : acceptor_step a s = Val (Some s') → handover_inv s → handover_inv s'.
Proof.
  intros H (I1 & I2 & I3). unfold acceptor_step in H. unfold handover_inv.
  assert (Nat.b2n (lb_mutex s) <= 1)%nat as Hb by (destruct (lb_mutex s); cbn; lia).
  destruct (acceptor s) as [|c|c|c|c] eqn:Hpc, a; try discriminate H; cbn [acceptor_holds] in *.
  - destruct r; [|discriminate]. injection H as <-. cbn. by split_and!.
  - apply outcome_bind_Val in H as (fl & _ & H). injection H as <-. cbn. by split_and!.
  - destruct (lb_mutex s) eqn:E; [discriminate|]. injection H as <-. cbn in *. split; [lia|]. split; [done|].
    done.
  - injection H as <-. cbn in *. split; [done|]. split; [by intros c' [= ->]|].
    apply Forall_lookup. intros t w Ht. pose proof (sum_list_with_lookup worker_holds _ _ _ Ht) as Hlow.
    apply (worker_arg_client (vm_client s)); [lia|]. by apply (Forall_lookup_1 _ _ _ _ I3 Ht).
  - destruct ok; injection H as <-; cbn in *.
    + split; [rewrite sum_list_with_app; cbn; lia|]. split; [done|]. apply Forall_app. split; [done|].
      apply Forall_singleton. by apply I2.
    + split; [lia|]. by split.
Qed.

Section Reachable.
Variable fresh : lb_memory.

Definition bstep (G : lb_input → balancer → Prop) (s s' : balancer) : Prop :=
  ∃ e, G e s ∧ balancer_step fresh e s = Val (Some s').

Lemma handover_step G s s' : bstep G s s' → handover_inv s → handover_inv s'.
Proof.
  intros ([a|t a|r] & _ & H) Hs; cbn [balancer_step] in H.
  - by eapply handover_acceptor.
  - destruct (workers s !! t) as [w|] eqn:Ht; [|discriminate]. by eapply handover_worker.
  - apply outcome_bind_Val in H as ([mem b] & _ & H). injection H as <-. exact Hs.
Qed.

Lemma handover_reachable G image mem stack s0 s :
  balancer_init image mem stack = Val s0 → rtc (bstep G) s0 s → handover_inv s.
Proof.
  intros H0 Hr. apply (rtc_invariant (bstep G) handover_inv s0 s); [|..|done].
  - intros x y Hx Hxy. by eapply handover_step.
  - apply outcome_bind_Val in H0 as (b & _ & H0). injection H0 as <-. by split_and!.
Qed.

(** ** The tables under interleaving *)

(** A whole message of the controller; a connection that finds the index in
    range and comes from an address [inet_ntoa] prints. *)
Definition orderly (e : lb_input) (s : balancer) : Prop :=
  match e with
  | IController r => ∃ old m, length old = 16%nat ∧ vm_message m ∧ valid_message m ∧ r = RData (encode_vm old m)
  | IWorker t (LConnect _ _ _ _) => index_ok (tables s) ∧ llive (tables s) 0 ≠ []
  | IMain (LAccept (Some c)) => arg_ip c ≠ no_ip
  | _ => True
  end.
End Reachable.

(** The connections seen so far. *)
Definition acceptor_conn (p : acceptor_pc) : list arg_thread :=
  match p with AAccept => [] | ANonblock c | ALock c | AFill c | ACreate c => [c] end.
Definition printable (c : arg_thread) : Prop := arg_ip c ≠ no_ip.
Definition conns_ok (s : balancer) : Prop :=
  Forall printable (acceptor_conn (acceptor s)) ∧ Forall (λ w, printable (w_conn w)) (workers s).

Lemma conns_step f s s' : bstep (plenty f) orderly s s' → conns_ok s → conns_ok s'.
Proof.
  intros ([a|t a|r] & Ho & H) (C1 & C2); cbn [balancer_step] in H.
  - unfold acceptor_step in H. unfold conns_ok.
    destruct (acceptor s) as [|c|c|c|c] eqn:Hpc, a; try discriminate H; cbn [acceptor_conn] in *.
    + destruct r as [c|]; [|discriminate]. injection H as <-. split; [|done]. by apply Forall_singleton.
    + apply outcome_bind_Val in H as (fl & _ & H). by injection H as <-.
    + destruct (lb_mutex s); [discriminate|]. by injection H as <-.
    + by injection H as <-.
    + apply Forall_cons_1 in C1 as [C1 _]. destruct ok; injection H as <-; (split; [constructor|]); [|done].
      apply Forall_app. split; [done|]. apply Forall_cons_2; [exact C1|constructor].
  - destruct (workers s !! t) as [w|] eqn:Ht; [|discriminate].
    apply worker_step_shape in H as (p & b & m & -> & _). split; [done|]. cbn [workers].
    apply Forall_insert; [done|]. by apply (Forall_lookup_1 _ _ _ _ C2 Ht).
  - apply outcome_bind_Val in H as ([mem b] & _ & H). by injection H as <-.
Qed.

(** A step of the program is a message, a connection, or nothing, for the tables. *)
Lemma tables_step f s s' :
  bstep (plenty f) orderly s s' → handover_inv s → conns_ok s →
  tables s' = tables s ∨ ∃ e, lb_step f e (tables s) (tables s').
Proof.
  intros ([a|t a|r] & Ho & H) (_ & _ & I3) (_ & C2); cbn [balancer_step] in H.
  - left. unfold acceptor_step in H. destruct (acceptor s), a; try discriminate H.
    + by destruct r; [injection H as <-|].
    + apply outcome_bind_Val in H as (fl & _ & H). by injection H as <-.
    + destruct (lb_mutex s); [discriminate|]. by injection H as <-.
    + by injection H as <-.
    + by destruct ok; injection H as <-.
  - destruct (workers s !! t) as [w|] eqn:Ht; [|discriminate].
    pose proof (Forall_lookup_1 _ _ _ _ I3 Ht) as Hw. pose proof (Forall_lookup_1 _ _ _ _ C2 Ht) as Hc. cbn in Hc.
    unfold worker_arg in Hw. pose proof H as Hshape. apply worker_step_shape in Hshape as (p & b & m & -> & Hp). cbn [tables].
    destruct (w_pc w) as [|arg|arg vm|arg vm st|] eqn:Hpc; [left; tauto| |left; tauto|left; tauto|done].
    right. destruct Hp as (_ & vip & vport & ok1 & ok2 & _ & E). subst arg.
    unfold worker_step in H. rewrite Hpc in H. destruct a; try discriminate H. destruct Ho as [Hi Hne].
    exists (Connection (arg_ip (w_conn w))). apply (step_connection f _ vip vport); [done..|].
    assert (ok1 = true ∧ ok2 = true) as [-> ->]; [|done].
    unfold get_current_socket in E. apply outcome_bind_Val in E as (i & _ & E). apply outcome_bind_Val in E as (n & _ & E).
    apply outcome_bind_Val in E as (b1 & _ & E). destruct ok1; [|discriminate]. split; [done|].
    apply outcome_bind_Val in E as (r & _ & E). by destruct ok2.
  - right. destruct Ho as (old & m & Hold & Hm & Hv & ->). apply outcome_bind_Val in H as ([mem b] & E & H).
    injection H as <-. cbn [tables]. unfold controller_turn, recv_into in E.
    destruct (decode_encode_vm old m (drop 28 (vm_struct s)) Hold Hm) as [Hl Hd].
    rewrite take_ge, Hl, Hd in E by lia. apply outcome_bind_Val in E as (x & _ & E). apply outcome_bind_Val in E as (b1 & E & H1). injection H1 as _ <-.
    exists (Message m). by apply step_message.
Qed.

Definition all_inv (s : balancer) : Prop := handover_inv s ∧ conns_ok s ∧ sessions_ok (tables s).

Lemma all_inv_reachable f image mem stack s0 s :
  balancer_init (Some image) mem stack = Val s0 → rtc (bstep (plenty f) orderly) s0 s → all_inv s.
Proof.
  intros H0 Hr. apply (rtc_invariant (bstep (plenty f) orderly) all_inv s0 s); [|..|done].
  - intros x y (Hh & Hc & Hs) Hxy. split; [by eapply handover_step|]. split; [by eapply conns_step|].
    destruct (tables_step f x y Hxy Hh Hc) as [->|(e & He)]; [done|]. by eapply lb_step_sessions.
  - split; [eapply (handover_reachable (plenty f) orderly); [exact H0|constructor]|].
    apply outcome_bind_Val in H0 as (b & Hb & H0). injection H0 as <-. split; [by split|]. cbn [tables].
    split; [by eapply create_system_image_ok|]. unfold create_system_image in Hb. injection Hb as <-. apply NoDup_nil_2.
Qed.

(** ** Properties *)

(** C13.  The hand-over of [vm_client] is safe although [mutex] is locked by one
    thread and unlocked by another: in every interleaving a worker's copy is the
    connection it was created for, the variable is not overwritten before it is
    copied, and at most one thread is between the lock and the unlock. *)
Theorem workers_get_their_client fresh G image mem stack s0 s t w :
  balancer_init image mem stack = Val s0 → rtc (bstep fresh G) s0 s → workers s !! t = Some w →
  worker_arg (vm_client s) w ∧
  (worker_holds w = 1%nat → acceptor_holds (acceptor s) = 0%nat ∧ lb_mutex s = true ∧
     ∀ t' w', t' ≠ t → workers s !! t' = Some w' → worker_holds w' = 0%nat).
Proof.
  intros H0 Hr Ht. destruct (handover_reachable fresh G image mem stack s0 s H0 Hr) as (I1 & _ & I3).
  split; [by apply (Forall_lookup_1 _ _ _ _ I3 Ht)|]. intros Hw.
  pose proof (sum_list_with_lookup worker_holds _ _ _ Ht) as Hlow.
  destruct (lb_mutex s); cbn in I1; [|lia]. split; [lia|]. split; [done|].
  intros t' w' Hne Ht'. pose proof (sum_list_with_two worker_holds _ _ _ _ _ Hne Ht' Ht). lia.
Qed.

(** Under every interleaving of the accepting thread, the workers and the
    controller's messages, each message in one [recv] and each connection
    finding the index in range, the tables stay well-formed and no client is
    recorded with two VMs. *)
Theorem dispatch_keeps_sessions f image mem stack s0 s :
  balancer_init (Some image) mem stack = Val s0 → rtc (bstep (plenty f) orderly) s0 s →
  lb_ok (tables s) ∧ NoDup (recorded (tables s)) ∧
  ∀ addr v, addr ≠ no_ip → home (tables s) addr = Some v ↔ v ∈ llive (tables s) 0 ∧ addr ∈ clients_of (tables s) v.
Proof.
  intros H0 Hr. destruct (all_inv_reachable f image mem stack s0 s H0 Hr) as (_ & _ & Hok & Hone).
  split; [done|]. split; [done|]. intros addr v Ha. by apply home_Some.
Qed.

(** ** Witnesses *)
Definition stack0 : arg_thread := ArgThread 0 [] 0.
Definition conn1 : arg_thread := ArgThread 7 (peer 49) 40001.
Definition conn2 : arg_thread := ArgThread 8 (peer 50) 40002.
Definition start : balancer :=
  value (BalancerState (base []) [] false stack0 AAccept []) (balancer_init (Some raw) (replicate 28 0) stack0).

(** One VM, one client that has been given it, and a second one waiting for [mutex]. *)
Definition inputs : list lb_input :=
  [IController (RData (encode_vm (replicate 16 88) (vm_msg 55 ADD)));
   IMain (LAccept (Some conn1)); IMain (LFcntl 2 true); IMain LTau; IMain LTau; IMain (LCreate true);
   IMain (LAccept (Some conn2)); IMain (LFcntl 2 true);
   IWorker 0 LTau; IWorker 0 (LConnect true true 2 true)].

Fixpoint run_inputs (fresh : lb_memory) (es : list lb_input) (s : balancer) : option balancer :=
  match es with
  | [] => Some s
  | e :: es => match balancer_step fresh e s with Val (Some s) => run_inputs fresh es s | _ => None end
  end.
Definition queueing : balancer := default start (run_inputs (plenty (raw 0)) inputs start).

(** One step of a run, whose condition is immediate. *)
Ltac input_step e := eapply rtc_l; [exists e; split; [exact I | vm_compute; reflexivity]|].

Lemma waiting_reachable : rtc (bstep (plenty (raw 0)) orderly) start queueing.
Proof.
  eapply rtc_l.
  { exists (IController (RData (encode_vm (replicate 16 88) (vm_msg 55 ADD)))). split; [|vm_compute; reflexivity].
    exists (replicate 16 88), (vm_msg 55 ADD). split; [reflexivity|]. split; [|split; [|reflexivity]].
    - split; [vm_compute; lia|]. split; [repeat constructor; discriminate|]. unfold is_s32, is_u32. vm_compute. intuition congruence.
    - split; [exists 0%nat; split; [lia|reflexivity]|vm_compute; lia]. }
  eapply rtc_l; [exists (IMain (LAccept (Some conn1))); split; [intros H; discriminate H|vm_compute; reflexivity]|].
  input_step (IMain (LFcntl 2 true)). input_step (IMain LTau). input_step (IMain LTau). input_step (IMain (LCreate true)).
  eapply rtc_l; [exists (IMain (LAccept (Some conn2))); split; [intros H; discriminate H|vm_compute; reflexivity]|].
  input_step (IMain (LFcntl 2 true)). input_step (IWorker 0 LTau).
  eapply rtc_l; [exists (IWorker 0 (LConnect true true 2 true)); split; [|vm_compute; reflexivity]|].
  { split; [exists 0%nat; split; [reflexivity|vm_compute; lia]|discriminate]. }
  match goal with |- rtc _ ?x queueing => replace queueing with x by (vm_compute; reflexivity) end. constructor.
Qed.

Lemma workers_get_their_client_witness :
  ∃ w, workers queueing !! 0%nat = Some w ∧ w_pc w = WUnlock conn1 (lb_ip vm7, lb_port vm7) ∧
    worker_arg (vm_client queueing) w ∧ acceptor queueing = ALock conn2 ∧ lb_mutex queueing = true.
Proof.
  exists (Worker (WUnlock conn1 (lb_ip vm7, lb_port vm7)) conn1). split; [vm_compute; reflexivity|]. split; [reflexivity|].
  destruct (workers_get_their_client (plenty (raw 0)) orderly (Some raw) (replicate 28 0) stack0 start queueing 0
    (Worker (WUnlock conn1 (lb_ip vm7, lb_port vm7)) conn1)) as [Ha Hm];
    [vm_compute; reflexivity|exact waiting_reachable|vm_compute; reflexivity|].
  split; [exact Ha|]. split; [vm_compute; reflexivity|exact (proj1 (proj2 (Hm eq_refl)))].
Defined.

Lemma dispatch_keeps_sessions_witness :
  NoDup (recorded (tables queueing)) ∧ recorded (tables queueing) = [peer 49].
Proof.
  split; [|vm_compute; reflexivity].
  destruct (dispatch_keeps_sessions (raw 0) raw (replicate 28 0) stack0 start queueing) as (_ & H & _);
    [vm_compute; reflexivity|exact waiting_reachable|exact H].
Defined.
