(* ===== verification/Interleaved.v ===== *)
(** * controller/balancer.c: all its threads, access by access

    The accepting thread and the hand-over of Dispatch.v, any number of workers
    that choose their VM as in Races.v, and the controller thread, which takes no
    lock.  That only one worker chooses at a time, which Races.v takes for granted,
    follows here from [mutex]: the threads refine the two of Races.v
    ([threads_refine_races]). *)
From S2P Require Import Prelude Protocol SockHelp Balancer Registry Relay Sessions Dispatch Races.
Open Scope Z_scope.

(** ** The state

    [wh_choice] is where each worker that is in [get_current_socket] stands:
    between two accesses, or at the call of [socket] that comes after the test of
    the turn. *)
Inductive choice_pc := ChAccess (pc : route_pc) | ChSocket (pc : route_pc).

Record whole := Whole {
  wh_state : balancer;
  wh_epoch : nat;
  wh_ctrl : ctrl_pc;
  wh_choice : gmap nat choice_pc;
  wh_log : list virtual_machine        (* the messages read so far *)
}.

Definition shared_of (s : whole) : shared := Shared (tables (wh_state s)) (wh_epoch s).

Definition with_state (st : balancer) (s : whole) : whole :=
  Whole st (wh_epoch s) (wh_ctrl s) (wh_choice s) (wh_log s).
Definition with_choice (c : gmap nat choice_pc) (s : whole) : whole :=
  Whole (wh_state s) (wh_epoch s) (wh_ctrl s) c (wh_log s).
Definition with_shared (sh : shared) (s : whole) : whole :=
  Whole (set_tables (sh_lb sh) (wh_state s)) (sh_epoch sh) (wh_ctrl s) (wh_choice s) (wh_log s).

Inductive whole_input :=
  | XMain (a : lb_answer)                                   (* the accepting thread *)
  | XWorker (t : nat) (a : lb_answer)                       (* a worker that is not choosing *)
  | XAccess (t : nat)                                       (* one that is: an access *)
  | XSocket (t : nat) (socket_ok : bool)
  | XConnect (t : nat) (connect_ok : bool) (getfl : Z) (setfl_ok : bool)
  | XRecv (r : rres)                                        (* the controller thread *)
  | XCtrl (fresh : lb_memory) (moves : bool).

(** ** get_current_socket, by worker [t] for the connection [arg] *)
Definition next_choice (pc pc' : route_pc) : choice_pc :=
  match pc with RtTest => ChSocket pc' | _ => ChAccess pc' end.

Definition access_step (t : nat) (arg : arg_thread) (s : whole) : outcome (option whole) :=
  match wh_choice s !! t with
  | Some (ChAccess RtIdle) | Some (ChAccess (RtDone _)) => Val None
  | Some (ChAccess pc) =>
      r ← route_step (arg_ip arg) pc (shared_of s);
      Val (Some (with_choice (<[t := next_choice pc r.1]> (wh_choice s)) (with_shared r.2 s)))
  | _ => Val None
  end.

Definition socket_step (t : nat) (socket_ok : bool) (s : whole) : outcome (option whole) :=
  match wh_choice s !! t with
  | Some (ChSocket pc) => if socket_ok then Val (Some (with_choice (<[t := ChAccess pc]> (wh_choice s)) s)) else Exit 1
  | _ => Val None
  end.

Definition connect_step (t : nat) (w : worker) (arg : arg_thread) (connect_ok : bool) (getfl : Z) (setfl_ok : bool) (s : whole)
    : outcome (option whole) :=
  match wh_choice s !! t with
  | Some (ChAccess (RtDone vm)) =>
      if connect_ok then
        _ ← setnonblocking getfl setfl_ok;
        Val (Some (with_choice (delete t (wh_choice s))
          (with_state (set_workers (<[t := Worker (WUnlock arg vm) (w_conn w)]> (workers (wh_state s))) (wh_state s)) s)))
      else Exit 1
  | _ => Val None
  end.

(** ** The steps *)
Definition recv_step (r : rres) (s : whole) : outcome (option whole) :=
  match wh_ctrl s with
  | CtWait =>
      let st := wh_state s in
      let mem := match r with RFail _ => vm_struct st | RData bs => recv_into (take 28 bs) (vm_struct st) end in
      let vm := decode_vm mem in
      _ ← string16 (ip vm);                                   (* it is printed *)
      Val (Some (Whole (BalancerState (tables st) mem (lb_mutex st) (vm_client st) (acceptor st) (workers st))
                       (wh_epoch s) (CtGrow vm) (wh_choice s) (wh_log s ++ [vm])))
  | _ => Val None
  end.

Definition whole_step (e : whole_input) (s : whole) : outcome (option whole) :=
  match e with
  | XMain a => st ←? acceptor_step a (wh_state s); Val (Some (with_state st s))
  | XWorker t a =>
      match workers (wh_state s) !! t with
      | Some w =>
          match w_pc w with
          | WChoose _ => Val None
          | WStart => st ←? worker_step t w a (wh_state s);
                      Val (Some (with_choice (<[t := ChAccess RtTest]> (wh_choice s)) (with_state st s)))
          | _ => st ←? worker_step t w a (wh_state s); Val (Some (with_state st s))
          end
      | None => Val None
      end
  | XAccess t =>
      match workers (wh_state s) !! t with Some (Worker (WChoose arg) _) => access_step t arg s | _ => Val None end
  | XSocket t ok =>
      match workers (wh_state s) !! t with Some (Worker (WChoose arg) _) => socket_step t ok s | _ => Val None end
  | XConnect t ok getfl setfl_ok =>
      match workers (wh_state s) !! t with
      | Some (Worker (WChoose arg) _ as w) => connect_step t w arg ok getfl setfl_ok s
      | _ => Val None
      end
  | XRecv r => recv_step r s
  | XCtrl fresh moves =>
      match wh_ctrl s with
      | CtWait => Val None
      | pc => r ← ctrl_step fresh moves pc (shared_of s);
              Val (Some (Whole (set_tables (sh_lb r.2) (wh_state s)) (sh_epoch r.2) r.1 (wh_choice s) (wh_log s)))
      end
  end.

(** From the start of the program; the tables have been made by [create_system_image]. *)
Definition whole_init (st : balancer) : whole := Whole st 0 CtWait ∅ [].

Definition wstep (G : whole_input → whole → Prop) (s s' : whole) : Prop := ∃ e, G e s ∧ whole_step e s = Val (Some s').

Definition received (r : rres) (mem : list Z) : virtual_machine :=
  decode_vm (match r with RFail _ => mem | RData bs => recv_into (take 28 bs) mem end).

(** The conditions of [Races.calm]: messages name a service and hold a terminated
    address, [realloc] does not move the block, and the turn is not above the live
    entries when it is tested, which the code does not ensure
    ([Balancer.index_escapes]). *)
Definition calm_input (e : whole_input) (s : whole) : Prop :=
  match e with
  | XRecv r => valid_message (received r (vm_struct (wh_state s)))
  | XCtrl fresh moves => moves = false ∧ ∀ f i, lb_realloc fresh = Some f → small (f i)
  | XAccess t => wh_choice s !! t = Some (ChAccess RtTest) → turn_ok (tables (wh_state s))
  | _ => True
  end.

(** ** The two threads of Races.v

    A state shows the tables, the controller thread, the messages, and of the
    workers the one that is choosing. *)
Definition pc_of (c : choice_pc) : route_pc := match c with ChAccess pc | ChSocket pc => pc end.

Definition view (s : whole) (r : races) : Prop :=
  r_shared r = shared_of s ∧ r_ctrl r = wh_ctrl s ∧ r_log r = wh_log s ∧
  (∀ t c, wh_choice s !! t = Some c → r_route r = pc_of c ∧
     ∃ arg conn, workers (wh_state s) !! t = Some (Worker (WChoose arg) conn) ∧ r_addr r = arg_ip arg) ∧
  (wh_choice s = ∅ → r_route r = RtIdle ∨ ∃ vm, r_route r = RtDone vm).

(** [mutex]: two workers that hold it are one. *)
Lemma holders_unique st t t' w w' :
  handover_inv st → workers st !! t = Some w → workers st !! t' = Some w' →
  worker_holds w = 1%nat → worker_holds w' = 1%nat → t = t'.
Proof.
  intros (I1 & _) Ht Ht' H H'. destruct (decide (t = t')) as [|Hne]; [done|].
  pose proof (sum_list_with_two worker_holds _ _ _ _ _ Hne Ht Ht').
  assert (Nat.b2n (lb_mutex st) <= 1)%nat by (destruct (lb_mutex st); cbn; lia). lia.
Qed.

(** So only one worker has a program point in [wh_choice]. *)
Lemma choice_unique s r t w :
  handover_inv (wh_state s) → view s r → workers (wh_state s) !! t = Some w → worker_holds w = 1%nat →
  ∀ t', t' ≠ t → wh_choice s !! t' = None.
Proof.
  intros Hh (_ & _ & _ & Hc & _) Ht Hw t' Hne. destruct (wh_choice s !! t') as [c|] eqn:E; [|done].
  destruct (Hc t' c E) as (_ & arg & conn & Ht' & _). destruct Hne. by eapply holders_unique.
Qed.

Lemma acceptor_step_tables a st st' :
  acceptor_step a st = Val (Some st') →
  tables st' = tables st ∧ vm_struct st' = vm_struct st ∧
  ∃ l, workers st' = workers st ++ l ∧ Forall (λ w, w_pc w = WStart) l.
Proof.
  intros H. unfold acceptor_step in H. destruct (acceptor st) as [|c|c|c|c], a; try discriminate H.
  - destruct r; [|discriminate]. injection H as <-. do 2 (split; [done|]). exists []. by rewrite app_nil_r.
  - apply outcome_bind_Val in H as (fl & _ & H). injection H as <-. do 2 (split; [done|]). exists []. by rewrite app_nil_r.
  - destruct (lb_mutex st); [discriminate|]. injection H as <-. do 2 (split; [done|]). exists []. by rewrite app_nil_r.
  - injection H as <-. do 2 (split; [done|]). exists []. by rewrite app_nil_r.
  - destruct ok; injection H as <-; (do 2 (split; [done|])).
    + eexists. split; [reflexivity|]. by repeat constructor.
    + exists []. by rewrite app_nil_r.
Qed.

Lemma then_Val {A B} (m : outcome (option A)) (k : A → outcome (option B)) b :
  then_ m k = Val (Some b) → ∃ a, m = Val (Some a) ∧ k a = Val (Some b).
Proof. unfold then_. intros ([a|] & -> & H)%outcome_bind_Val; [by exists a|done]. Qed.

(** The paths of a step. *)
Definition chooses (s : whole) (t : nat) (arg conn : arg_thread) : Prop :=
  workers (wh_state s) !! t = Some (Worker (WChoose arg) conn).

Definition connected (t : nat) (arg conn : arg_thread) (vm : list Z * Z) (s : whole) : whole :=
  with_choice (delete t (wh_choice s))
    (with_state (set_workers (<[t := Worker (WUnlock arg vm) conn]> (workers (wh_state s))) (wh_state s)) s).

Lemma whole_step_shape e s s' :
  whole_step e s = Val (Some s') →
  match e with
  | XMain a => ∃ st, acceptor_step a (wh_state s) = Val (Some st) ∧ s' = with_state st s
  | XWorker t a => ∃ w st, workers (wh_state s) !! t = Some w ∧ (∀ arg, w_pc w ≠ WChoose arg) ∧
      worker_step t w a (wh_state s) = Val (Some st) ∧
      ((w_pc w = WStart ∧ s' = with_choice (<[t := ChAccess RtTest]> (wh_choice s)) (with_state st s)) ∨
       (w_pc w ≠ WStart ∧ s' = with_state st s))
  | XAccess t => ∃ arg conn pc x, chooses s t arg conn ∧ wh_choice s !! t = Some (ChAccess pc) ∧
      pc ≠ RtIdle ∧ (∀ vm, pc ≠ RtDone vm) ∧ route_step (arg_ip arg) pc (shared_of s) = Val x ∧
      s' = with_choice (<[t := next_choice pc x.1]> (wh_choice s)) (with_shared x.2 s)
  | XSocket t ok => ∃ arg conn pc, chooses s t arg conn ∧ wh_choice s !! t = Some (ChSocket pc) ∧ ok = true ∧
      s' = with_choice (<[t := ChAccess pc]> (wh_choice s)) s
  | XConnect t ok getfl setfl_ok => ∃ arg conn vm, chooses s t arg conn ∧ wh_choice s !! t = Some (ChAccess (RtDone vm)) ∧
      s' = connected t arg conn vm s
  | XRecv r => wh_ctrl s = CtWait ∧
      ∃ st, tables st = tables (wh_state s) ∧ workers st = workers (wh_state s) ∧ (handover_inv (wh_state s) → handover_inv st) ∧
        s' = Whole st (wh_epoch s) (CtGrow (received r (vm_struct (wh_state s)))) (wh_choice s)
               (wh_log s ++ [received r (vm_struct (wh_state s))])
  | XCtrl fresh moves => ∃ x, wh_ctrl s ≠ CtWait ∧ ctrl_step fresh moves (wh_ctrl s) (shared_of s) = Val x ∧
      s' = Whole (set_tables (sh_lb x.2) (wh_state s)) (sh_epoch x.2) x.1 (wh_choice s) (wh_log s)
  end.
Proof.
  unfold chooses. destruct e as [a|t a|t|t ok|t ok getfl setfl_ok|r|fresh moves]; cbn [whole_step]; intros H.
  - apply then_Val in H as (st & E & H). injection H as <-. by exists st.
  - destruct (workers (wh_state s) !! t) as [w|]; [|done].
    destruct (w_pc w) eqn:Hpc; try done; apply then_Val in H as (st' & E & H); injection H as <-; exists w, st';
      (split; [done|]); rewrite Hpc; (split; [done|]); (split; [done|]); [by left|by right..].
  - destruct (workers (wh_state s) !! t) as [[[|arg| | |] conn]|]; try discriminate H.
    unfold access_step in H. destruct (wh_choice s !! t) as [[pc|]|]; try done.
    destruct pc; try done; apply outcome_bind_Val in H as (x & E & H); injection H as <-; by eexists _, _, _, x.
  - destruct (workers (wh_state s) !! t) as [[[|arg| | |] conn]|]; try discriminate H.
    unfold socket_step in H. destruct (wh_choice s !! t) as [[|pc]|]; try done. destruct ok; [|done]. injection H as <-.
    by eexists _, _, pc.
  - destruct (workers (wh_state s) !! t) as [[[|arg| | |] conn]|]; try discriminate H.
    unfold connect_step in H. destruct (wh_choice s !! t) as [[[| | | | | | | |vm]|]|]; try done.
    destruct ok; [|done]. apply outcome_bind_Val in H as (fl & _ & H). injection H as <-. by eexists _, _, vm.
  - unfold recv_step in H. destruct (wh_ctrl s); try done. apply outcome_bind_Val in H as (x & _ & H). injection H as <-. split; [done|].
    eexists (BalancerState _ _ _ _ _ _). do 3 (split; [done|]). done.
  - destruct (wh_ctrl s); try done; apply outcome_bind_Val in H as (x & E & H); injection H as <-; by exists x.
Qed.

(** Workers that are not choosing change nothing the view shows. *)
Lemma view_workers s r st' :
  view s r → tables st' = tables (wh_state s) →
  (∀ t arg conn, workers (wh_state s) !! t = Some (Worker (WChoose arg) conn) → workers st' !! t = Some (Worker (WChoose arg) conn)) →
  view (with_state st' s) r.
Proof.
  intros (V1 & V2 & V3 & V4 & V5) Ht Hw. split_and!; try done.
  - rewrite V1. unfold shared_of. cbn. by rewrite Ht.
  - intros t c Hc. destruct (V4 t c Hc) as (E & arg & conn & H & Ha). split; [done|]. exists arg, conn. split; [by apply Hw|done].
Qed.

(** The choice moves on: one worker has it. *)
Lemma view_choice s r' t c arg conn sh :
  (∀ t', t' ≠ t → wh_choice s !! t' = None) →
  workers (wh_state s) !! t = Some (Worker (WChoose arg) conn) →
  r_shared r' = sh → r_ctrl r' = wh_ctrl s → r_log r' = wh_log s → r_route r' = pc_of c → r_addr r' = arg_ip arg →
  view (with_choice (<[t := c]> (wh_choice s)) (with_shared sh s)) r'.
Proof.
  intros Hu Ht E1 E2 E3 E4 E5. split_and!; try done.
  - rewrite E1. by destruct sh.
  - intros t' c'. cbn [with_choice wh_choice]. rewrite lookup_insert_Some. intros [[<- <-]|[Hne Hc]].
    + split; [done|]. exists arg, conn. by split.
    + rewrite Hu in Hc by done. discriminate.
  - cbn [with_choice wh_choice]. intros H. by apply insert_non_empty in H.
Qed.

Lemma with_same_shared s : with_shared (shared_of s) s = s.
Proof. by destruct s as [[] ? ? ? ?]. Qed.

(** ** The simulation *)

(** What the two threads see of a step. *)
Definition event_of (e : whole_input) (s : whole) : option race_event :=
  match e with
  | XWorker t _ =>
      match workers (wh_state s) !! t with
      | Some (Worker WStart _) => Some (EClient (arg_ip (vm_client (wh_state s))))
      | _ => None
      end
  | XAccess _ => Some ERoute
  | XRecv r => Some (EMessage (received r (vm_struct (wh_state s))))
  | XCtrl fresh moves => Some (ECtrl fresh moves)
  | _ => None
  end.

(** What the two threads see of the step is in the class [G]. *)
Definition shows (G : race_event → races → Prop) (e : whole_input) (s : whole) : Prop :=
  ∀ r ev, view s r → event_of e s = Some ev → G ev r.

Section Simulation.
Variable G : race_event → races → Prop.
Notation sim r s' := (∃ r', rtc (race G) r r' ∧ view s' r').

Lemma sim_same r s' : view s' r → sim r s'.
Proof. intros H. exists r. split; [constructor|done]. Qed.

Lemma sim_one e r r' s' : G e r → race_step e r = Val (Some r') → view s' r' → sim r s'.
Proof. intros Hc H Hv. exists r'. split; [|done]. apply rtc_once. by exists e. Qed.

Lemma sim_worker t a s r s' :
  handover_inv (wh_state s) → view s r → shows G (XWorker t a) s → whole_step (XWorker t a) s = Val (Some s') → sim r s'.
Proof.
  intros Hh Hv Hq H. apply whole_step_shape in H as (w & st & Ht & Hn & E & Hs').
  apply worker_step_shape in E as (p & b & m & -> & Hp).
  destruct Hs' as [[Hpc ->]|[Hpc ->]].
  - (* the worker has the connection, and starts to choose *)
    assert (Hev : G (EClient (arg_ip (vm_client (wh_state s)))) r).
    { apply Hq; [done|]. cbn [event_of]. rewrite Ht. destruct w as [pc conn]. cbn in Hpc. by rewrite Hpc. }
    rewrite Hpc in Hp. destruct Hp as (-> & -> & ->).
    pose proof (choice_unique s r t w Hh Hv Ht ltac:(unfold worker_holds; by rewrite Hpc)) as Hu.
    assert (Hc : wh_choice s = ∅).
    { apply map_empty. intros t'. destruct (decide (t' = t)) as [->|Hne]; [|by apply Hu].
      destruct (wh_choice s !! t) as [c|] eqn:Ec; [|done]. destruct Hv as (_ & _ & _ & Hv & _).
      destruct (Hv t c Ec) as (_ & arg & conn & E & _). rewrite Ht in E. injection E as ->. done. }
    destruct Hv as (V1 & V2 & V3 & V4 & V5).
    apply (sim_one (EClient (arg_ip (vm_client (wh_state s)))) _
      (Races (r_shared r) (r_ctrl r) RtTest (arg_ip (vm_client (wh_state s))) (r_log r))); [done| |].
    + unfold race_step. destruct (V5 Hc) as [-> |[vm ->]]; done.
    + split_and!; try done; [intros t' c'; cbn; rewrite Hc, insert_empty, lookup_singleton_Some; intros [<- <-]|].
      * split; [done|]. eexists _, _. split; [by apply list_lookup_insert_eq; eapply lookup_lt_Some|done].
      * cbn. intros H. by apply insert_non_empty in H.
  - apply sim_same. apply (view_workers _ _ _ Hv); cbn [tables workers].
    + destruct (w_pc w); [done|by destruct (Hn arg)|tauto|tauto|done].
    + intros t' arg conn E. rewrite list_lookup_insert_ne; [done|]. intros <-. rewrite Ht in E. injection E as ->. by apply (Hn arg).
Qed.

Lemma sim_main a s r s' :
  view s r → whole_step (XMain a) s = Val (Some s') → sim r s'.
Proof.
  intros Hv (st & E & ->)%whole_step_shape. apply acceptor_step_tables in E as (Ht & _ & l & Hl & _).
  apply sim_same, (view_workers _ _ _ Hv); [done|]. intros t arg conn E. rewrite Hl. by apply lookup_app_l_Some.
Qed.

(** The worker that is choosing is the one that [view] shows. *)
Lemma view_chooses s r t arg conn c :
  handover_inv (wh_state s) → view s r → chooses s t arg conn → wh_choice s !! t = Some c →
  r_route r = pc_of c ∧ r_addr r = arg_ip arg ∧ ∀ t', t' ≠ t → wh_choice s !! t' = None.
Proof.
  intros Hh Hv Ht Hc. pose proof (choice_unique s r t _ Hh Hv Ht eq_refl) as Hu. destruct Hv as (_ & _ & _ & V4 & _).
  destruct (V4 t c Hc) as (Hpc & arg' & conn' & Ht' & Ha). unfold chooses in Ht. by simplify_eq.
Qed.

(** Its access is the step of the worker of the two. *)
Lemma access_shown t s r s' :
  handover_inv (wh_state s) → view s r → whole_step (XAccess t) s = Val (Some s') →
  ∃ r', race_step ERoute r = Val (Some r') ∧ view s' r' ∧ r_addr r' = r_addr r.
Proof.
  intros Hh Hv (arg & conn & pc & x & Ht & Hc & Hi & Hd & E & ->)%whole_step_shape.
  destruct (view_chooses s r t arg conn _ Hh Hv Ht Hc) as (Hpc & Ha & Hu). pose proof Hv as (V1 & V2 & V3 & _).
  cbn [pc_of] in Hpc. exists (Races x.2 (r_ctrl r) x.1 (r_addr r) (r_log r)). split; [|split; [|done]].
  - unfold race_step. rewrite Hpc, V1, Ha. destruct pc; try done; [by rewrite E..|by destruct (Hd vm)].
  - eapply view_choice; [done|exact Ht|done..| |done]. by destruct pc.
Qed.

Lemma sim_access t s r s' :
  handover_inv (wh_state s) → view s r → shows G (XAccess t) s → whole_step (XAccess t) s = Val (Some s') → sim r s'.
Proof. intros Hh Hv Hq H. destruct (access_shown t s r s' Hh Hv H) as (r' & E & Hv' & _). apply (sim_one ERoute r r'); [by apply Hq|done..]. Qed.

Lemma sim_socket t ok s r s' :
  handover_inv (wh_state s) → view s r → whole_step (XSocket t ok) s = Val (Some s') → sim r s'.
Proof.
  intros Hh Hv (arg & conn & pc & Ht & Hc & _ & ->)%whole_step_shape.
  destruct (view_chooses s r t arg conn _ Hh Hv Ht Hc) as (Hpc & Ha & Hu). destruct Hv as (V1 & V2 & V3 & _).
  apply sim_same. rewrite <- (with_same_shared s) at 2. by eapply view_choice.
Qed.

Lemma sim_connect t ok getfl setfl_ok s r s' :
  handover_inv (wh_state s) → view s r → whole_step (XConnect t ok getfl setfl_ok) s = Val (Some s') → sim r s'.
Proof.
  intros Hh Hv (arg & conn & vm & Ht & Hc & ->)%whole_step_shape.
  destruct (view_chooses s r t arg conn _ Hh Hv Ht Hc) as (Hpc & _ & Hu). destruct Hv as (V1 & V2 & V3 & _).
  apply sim_same. split_and!; try done.
  - cbn. intros t' c' [Hne Hc']%lookup_delete_Some. by rewrite Hu in Hc'.
  - intros _. right. by exists vm.
Qed.

Lemma sim_recv x s r s' :
  view s r → shows G (XRecv x) s → whole_step (XRecv x) s = Val (Some s') → sim r s'.
Proof.
  intros Hv Hq (Hc & st & Et & Ew & _ & ->)%whole_step_shape.
  pose proof Hv as (V1 & V2 & V3 & V4 & V5).
  eapply (sim_one (EMessage (received x (vm_struct (wh_state s))))); [by apply Hq|unfold race_step; by rewrite V2, Hc|].
  split_and!; try done; cbn; [|by rewrite V3|by rewrite Ew]. rewrite V1. unfold shared_of. cbn. by rewrite Et.
Qed.

Lemma sim_ctrl fresh moves s r s' :
  view s r → shows G (XCtrl fresh moves) s → whole_step (XCtrl fresh moves) s = Val (Some s') → sim r s'.
Proof.
  intros Hv Hq (x & Hc & E & ->)%whole_step_shape. pose proof Hv as (V1 & V2 & V3 & V4 & V5).
  apply (sim_one (ECtrl fresh moves) _ (Races x.2 x.1 (r_route r) (r_addr r) (r_log r)) _ (Hq _ _ Hv eq_refl)).
  - unfold race_step. rewrite V1, V2. revert Hc E. destruct (wh_ctrl s); intros Hc E; [done|by rewrite E..].
  - split_and!; try done. cbn. by destruct (x.2).
Qed.

Lemma sim_step e s r s' :
  handover_inv (wh_state s) → view s r → shows G e s → whole_step e s = Val (Some s') → sim r s'.
Proof. destruct e; eauto using sim_main, sim_worker, sim_access, sim_socket, sim_connect, sim_recv, sim_ctrl. Qed.
End Simulation.

(** The conditions of the whole program are those of the two threads. *)
Lemma calm_shows e s : handover_inv (wh_state s) → whole_step e s ≠ Val None → calm_input e s → shows calm e s.
Proof.
  intros Hh Hstep Hq r ev Hv. destruct e as [a|t a|t|t ok|t ok getfl setfl_ok|x|fresh moves]; cbn [event_of calm_input] in *; try done.
  - intros H. repeat case_match; try done. by injection H as <-.
  - intros [= <-]. cbn [calm]. intros Hr. pose proof Hv as (V1 & _). rewrite V1. apply Hq. cbn [whole_step] in Hstep.
    destruct (workers (wh_state s) !! t) as [[[|arg| | |] conn]|] eqn:Ht; try done. unfold access_step in Hstep.
    destruct (wh_choice s !! t) as [[pc|]|] eqn:Hc; try done.
    destruct (view_chooses s r t arg conn _ Hh Hv Ht Hc) as (Hpc & _). cbn in Hpc. by rewrite <-Hpc, Hr.
  - by intros [= <-].
  - by intros [= <-].
Qed.

Lemma handover_whole e s s' :
  whole_step e s = Val (Some s') → handover_inv (wh_state s) → handover_inv (wh_state s').
Proof.
  intros H Hi. apply whole_step_shape in H. destruct e as [a|t a|t|t ok|t ok getfl setfl_ok|x|fresh moves].
  - destruct H as (st & E & ->). by eapply handover_acceptor.
  - destruct H as (w & st & Ht & _ & E & [[_ ->]|[_ ->]]); by eapply handover_worker.
  - by destruct H as (arg & conn & pc & x & _ & _ & _ & _ & _ & ->).
  - by destruct H as (arg & conn & pc & _ & _ & _ & ->).
  - destruct H as (arg & conn & vm & Ht & _ & ->).
    eapply (handover_move (wh_state s) t (Worker (WChoose arg) conn)); [exact Ht| |done]. split; [done|by exists vm].
  - destruct H as (_ & st & _ & _ & Hst & ->). by apply Hst.
  - by destruct H as (x & _ & _ & ->).
Qed.

(** ** Where the connections go *)
Definition chosen_vm (p : worker_pc) : option (list Z * Z) :=
  match p with WUnlock _ vm | WRelay _ vm _ => Some vm | _ => None end.

Definition routed (log : list virtual_machine) (w : worker) : Prop :=
  ∀ vm, chosen_vm (w_pc w) = Some vm → known_ip log 0 vm.1 ∧ known_port log 0 vm.2.

Lemma routed_mono log log' w : log ⊆ log' → routed log w → routed log' w.
Proof. intros Hl H vm Hvm. destruct (H vm Hvm). eauto with a2pm_inv. Qed.

Lemma routed_worker log t w a st st' :
  workers st !! t = Some w → worker_step t w a st = Val (Some st') → (∀ arg, w_pc w ≠ WChoose arg) →
  Forall (routed log) (workers st) → Forall (routed log) (workers st').
Proof.
  intros Ht E Hn Hr. pose proof (Forall_lookup_1 _ _ _ _ Hr Ht) as Hw.
  apply worker_step_shape in E as (p & b & m & -> & Hp). cbn [workers]. apply Forall_insert; [done|].
  unfold routed in *. cbn [w_pc]. destruct (w_pc w) as [|arg|arg vm|arg vm x|]; [| | | |done].
  - by destruct Hp as (-> & _).
  - by destruct (Hn arg).
  - by destruct Hp as (-> & _).
  - by destruct Hp as ([->|[? ->]] & _).
Qed.

Lemma routed_step e s r s' :
  races_inv r → view s r → whole_step e s = Val (Some s') →
  Forall (routed (wh_log s)) (workers (wh_state s)) → Forall (routed (wh_log s')) (workers (wh_state s')).
Proof.
  intros Hinv Hv H Hi. apply whole_step_shape in H. destruct e as [a|t a|t|t ok|t ok getfl setfl_ok|x|fresh moves].
  - destruct H as (st & E & ->). apply acceptor_step_tables in E as (_ & _ & l & Hl & Hf).
    cbn. rewrite Hl. apply Forall_app. split; [done|]. eapply Forall_impl; [|exact Hf]. intros w Hw vm. by rewrite Hw.
  - destruct H as (w & st & Ht & Hn & E & [[_ ->]|[_ ->]]); by eapply routed_worker.
  - by destruct H as (arg & conn & pc & x & _ & _ & _ & _ & _ & ->).
  - by destruct H as (arg & conn & pc & _ & _ & _ & ->).
  - destruct H as (arg & conn & vm & Ht & Hc & ->). apply Forall_insert; [done|]. intros vm' [= <-].
    destruct Hv as (_ & _ & Hlog & V4 & _). destruct (V4 t _ Hc) as (Hpc & _). destruct Hinv as (h & _ & _ & Hr).
    rewrite Hpc, Hlog in Hr. exact Hr.
  - destruct H as (_ & st & _ & Ew & _ & ->). cbn. rewrite Ew.
    eapply Forall_impl; [|exact Hi]. intros w. apply routed_mono, log_grows.
  - by destruct H as (x & _ & _ & ->).
Qed.

(** ** Every run *)

(** The runs of which the two threads see only events of a class. *)
Section Classes.
Context (G : race_event → races → Prop) (image : option (Z → Z → lb_vm)) (mem : list Z) (stack : arg_thread) (s0 : balancer).
Hypothesis Hinit : balancer_init image mem stack = Val s0.

Definition sim_inv (s : whole) : Prop :=
  handover_inv (wh_state s) ∧ ∃ r, rtc (race G) (at_start (tables s0)) r ∧ view s r.

Lemma sim_inv_init : sim_inv (whole_init s0).
Proof.
  apply outcome_bind_Val in Hinit as (b & _ & H). injection H as H. unfold sim_inv. rewrite <- H.
  split; [by split_and!|]. eexists. split; [constructor|].
  do 3 (split; [done|]). split; [done|]. intros _. by left.
Qed.

Lemma sim_inv_step s s' : sim_inv s → wstep (shows G) s s' → sim_inv s'.
Proof.
  intros (Hh & r & Hreach & Hv) (e & Hq & H). split; [by eapply handover_whole|].
  destruct (sim_step G e s r s' Hh Hv Hq H) as (r' & Hrr & Hv'). exists r'. split; [by etrans|done].
Qed.

Lemma sim_reachable s : rtc (wstep (shows G)) (whole_init s0) s → sim_inv s.
Proof. apply rtc_invariant; [|exact sim_inv_init]. intros x y Hx Hxy. by eapply sim_inv_step. Qed.

(** From one state of a run to a later one. *)
Lemma sim_run s s' r :
  handover_inv (wh_state s) → view s r → rtc (wstep (shows G)) s s' →
  handover_inv (wh_state s') ∧ ∃ r', rtc (race G) r r' ∧ view s' r'.
Proof.
  intros Hh Hv Hr. revert r Hh Hv. induction Hr as [s|s s1 s' (e & Hq & H) _ IH]; intros r Hh Hv; [by eauto using rtc_refl|].
  destruct (sim_step G e s r s1 Hh Hv Hq H) as (r1 & Hr1 & Hv1).
  destruct (IH r1 (handover_whole e s s1 H Hh) Hv1) as (Hh' & r' & Hr' & Hv'). split; [done|].
  exists r'. split; [by etrans|done].
Qed.

(** Faults are those of the two threads. *)
Lemma sim_fault e ev s r f :
  handover_inv (wh_state s) → view s r → event_of e s = Some ev → (∀ x, e ≠ XRecv x) →
  whole_step e s = Fault f → race_step ev r = Fault f.
Proof.
  intros Hh Hv Hev Hx H. pose proof Hv as (V1 & V2 & V3 & V4 & V5).
  destruct e as [a|t a|t|t ok|t ok getfl setfl_ok|x|fresh moves]; cbn [event_of whole_step] in *; try done.
  - destruct (workers (wh_state s) !! t) as [[[] conn]|] eqn:Ht; try done. unfold worker_step in H. cbn in H.
    destruct a; discriminate H.
  - injection Hev as <-. destruct (workers (wh_state s) !! t) as [[[|arg| | |] conn]|] eqn:Ht; try done.
    unfold access_step in H. destruct (wh_choice s !! t) as [[pc|]|] eqn:Hc; try done.
    destruct (view_chooses s r t arg conn _ Hh Hv Ht Hc) as (Hpc & Ha & _). cbn in Hpc.
    unfold race_step. rewrite Hpc, V1, Ha.
    destruct pc; try done; by destruct (route_step _ _ _) as [?| | |]; cbn in H |- *; simplify_eq.
  - by destruct (Hx x).
  - injection Hev as <-. unfold race_step. rewrite V1, V2.
    destruct (wh_ctrl s); try done; by destruct (ctrl_step _ _ _ _) as [?| | |]; cbn in H |- *; simplify_eq.
Qed.
End Classes.

Section Runs.
Context (f : Z → Z → lb_vm) (mem : list Z) (stack : arg_thread) (s0 : balancer).
Hypothesis Hf : ∀ k i, small (f k i).
Hypothesis Hinit : balancer_init (Some f) mem stack = Val s0.

Definition run_inv (s : whole) : Prop :=
  handover_inv (wh_state s) ∧ Forall (routed (wh_log s)) (workers (wh_state s)) ∧
  ∃ r, rtc (race calm) (at_start (tables s0)) r ∧ view s r.

Lemma run_inv_init : run_inv (whole_init s0).
Proof.
  destruct (sim_inv_init calm (Some f) mem stack s0 Hinit) as [Hh Hr]. split; [done|]. split; [|done].
  apply outcome_bind_Val in Hinit as (b & _ & H). injection H as H. rewrite <- H. constructor.
Qed.

Lemma initial_image : create_system_image (Some f) = Val (tables s0).
Proof. apply outcome_bind_Val in Hinit as (b & E & H). injection H as H. by rewrite <- H. Qed.

Lemma run_inv_step s s' : run_inv s → wstep calm_input s s' → run_inv s'.
Proof.
  intros (Hh & Hr & r & Hreach & Hv) (e & Hq & H). split; [by eapply handover_whole|]. split.
  - eapply routed_step; try done. by eapply races_inv_reachable, Hreach; [|exact initial_image].
  - assert (Hshow : shows calm e s) by (apply calm_shows; [done|by rewrite H|done]).
    destruct (sim_step calm e s r s' Hh Hv Hshow H) as (r' & Hrr & Hv'). exists r'. split; [by etrans|done].
Qed.

Lemma run_inv_reachable s : rtc (wstep calm_input) (whole_init s0) s → run_inv s.
Proof. apply rtc_invariant; [|exact run_inv_init]. intros x y Hx Hxy. by eapply run_inv_step. Qed.
End Runs.


(** C18.  In every interleaving of all the threads that meets the conditions of
    [calm_input] (messages name a service and hold a terminated address, [realloc]
    does not move the block, and the turn is not above the live entries when a
    worker tests it; without the last one a client can be sent to a slot that was
    never written, [Balancer.index_escapes]) a worker that has chosen serves the
    connection it was created for, and is connected to an address and a port that
    messages [ADD] of service 0 have brought. *)
Theorem workers_reach_announced_vms f mem stack s0 s t w vm :
  (∀ k i, small (f k i)) → balancer_init (Some f) mem stack = Val s0 → rtc (wstep calm_input) (whole_init s0) s →
  workers (wh_state s) !! t = Some w → chosen_vm (w_pc w) = Some vm →
  worker_arg (vm_client (wh_state s)) w ∧
  ∃ m m', m ∈ wh_log s ∧ op m = ADD ∧ vm_srv m = 0 ∧ ip m = vm.1 ∧
          m' ∈ wh_log s ∧ op m' = ADD ∧ vm_srv m' = 0 ∧ port m' = vm.2.
Proof.
  intros Hf Hi Hs Ht Hvm. destruct (run_inv_reachable f mem stack s0 Hf Hi s Hs) as ((_ & _ & Ha) & Hr & _).
  split; [by eapply (Forall_lookup_1 _ _ _ _ Ha)|].
  destruct (Forall_lookup_1 _ _ _ _ Hr Ht vm Hvm) as [(m & ? & ? & ? & ?) (m' & ? & ? & ? & ?)]. by exists m, m'.
Qed.


(** ** Sessions, access by access

    Three VMs with a client each.  The third client comes back; its worker has
    compared the first two VMs when a message deletes the second one, and the
    third one is moved to where it was. *)
Definition vm_c : virtual_machine := VirtualMachine [49; 48; 46; 48; 46; 48; 46; 57] 36895 0 ADD.

Definition client_of (last : Z) (accesses : nat) : list race_event := EClient (peer last) :: works accesses.
Definition lost_session_run : list race_event :=
  adds vm_a ++ adds vm_b ++ adds vm_c ++ client_of 49 27 ++ client_of 50 27 ++ client_of 51 27 ++
  client_of 51 15 ++ EMessage (gone vm_b) :: turns 12 ++ works 6.

(** C38.  What Sessions.v shows of whole messages and connections is not so for
    their accesses: a client whose VM is live, and which is recorded with it, can
    be sent to another one and recorded there too, because the deletion of a
    third VM moves its VM to a slot that its worker has already passed.  The run
    meets every condition of [calm]. *)
Theorem session_can_be_lost :
  ∃ s b, schedule calmb lost_session_run (at_start empty_table) = Val (Some s) ∧ b = sh_lb (r_shared s) ∧
    r_addr s = peer 51 ∧ r_route s = RtDone (endpoint_of vm_a) ∧
    map (λ v, (lb_endpoint v, taken (clients_of b v))) (llive b 0) =
      [(endpoint_of vm_a, [peer 49; peer 51]); (endpoint_of vm_c, [peer 51])] ∧
    ¬ one_home b.
Proof.
  eexists _, _. split; [vm_compute; reflexivity|]. split; [reflexivity|]. split; [reflexivity|].
  split; [reflexivity|]. split; [vm_compute; reflexivity|].
  intros H. apply (bool_decide_pack _) in H. vm_compute in H. exact H.
Qed.

(** ** Witnesses *)
Definition races_of (pc : route_pc) (s : whole) : races := Races (shared_of s) CtWait pc [] [].

Definition calm_inputb (e : whole_input) (s : whole) : bool :=
  match e with
  | XRecv r => calmb (EMessage (received r (vm_struct (wh_state s)))) (races_of RtIdle s)
  | XCtrl fresh moves => calmb (ECtrl fresh moves) (races_of RtIdle s)
  | XAccess t => match wh_choice s !! t with Some (ChAccess pc) => calmb ERoute (races_of pc s) | _ => true end
  | _ => true
  end.

Definition raw_input (e : whole_input) : Prop :=
  match e with XCtrl fresh moves => on_raw_memory (ECtrl fresh moves) | _ => True end.

Lemma calm_inputb_calm e s : raw_input e → calm_inputb e s = true → calm_input e s.
Proof.
  destruct e as [a|t a|t|t ok|t ok getfl setfl_ok|x|fresh moves]; cbn [calm_inputb calm_input raw_input]; intros Hr H; try done.
  - intros Hc. rewrite Hc in H. by apply (calmb_calm ERoute (races_of RtTest s) I H).
  - exact (calmb_calm (EMessage _) _ I H).
  - exact (calmb_calm (ECtrl _ _) _ Hr H).
Qed.

Fixpoint run_whole (allowed : whole_input → whole → bool) (es : list whole_input) (s : whole) : outcome (option whole) :=
  match es with
  | [] => Val (Some s)
  | e :: es => if allowed e s then s' ←? whole_step e s; run_whole allowed es s' else Val None
  end.

Lemma run_whole_rtc allowed (G : whole_input → whole → Prop) es s s' :
  (∀ e s, raw_input e → allowed e s = true → G e s) →
  Forall raw_input es → run_whole allowed es s = Val (Some s') → rtc (wstep G) s s'.
Proof.
  intros HG Hes. revert s. induction Hes as [|e es He _ IH]; intros s; cbn [run_whole]; [by intros [= <-]; apply rtc_refl|].
  destruct (allowed e s) eqn:Hq; [|done]. intros (s1 & E & H)%then_Val.
  eapply rtc_l; [|by apply IH]. exists e. split; [by apply HG|done].
Qed.

(** The run of [Races.torn_run], with all the threads: the second client's
    connection waits for [mutex] while the first one's worker is choosing; then
    it is handed over. *)
Definition brings (m : virtual_machine) : list whole_input :=
  XRecv (RData (encode_vm (replicate 16 88) m)) :: replicate 11 (XCtrl (plenty (raw 0)) false).
Definition arrives (c : arg_thread) : list whole_input := [XMain (LAccept (Some c)); XMain (LFcntl 2 true)].
Definition hand_over : list whole_input := [XMain LTau; XMain LTau; XMain (LCreate true)].

Definition two_clients : list whole_input :=
  brings vm_a ++ brings vm_b ++ arrives conn1 ++ hand_over ++ arrives conn2 ++
  [XWorker 0 LTau; XAccess 0; XSocket 0 true] ++ replicate 16 (XAccess 0) ++ brings (gone vm_a) ++ replicate 3 (XAccess 0) ++
  [XConnect 0 true 2 true; XWorker 0 LTau] ++ hand_over ++ [XWorker 1 LTau; XAccess 1].

Definition two_served : whole :=
  match run_whole calm_inputb two_clients (whole_init start) with Val (Some s) => s | _ => whole_init start end.

Lemma two_clients_raw : Forall raw_input two_clients.
Proof. repeat constructor. Qed.

Lemma two_clients_reachable : rtc (wstep calm_input) (whole_init start) two_served.
Proof. apply (run_whole_rtc calm_inputb _ two_clients); [exact calm_inputb_calm|exact two_clients_raw|vm_compute; reflexivity]. Qed.


Lemma workers_reach_announced_vms_witness :
  workers (wh_state two_served) !! 0%nat = Some (Worker (WRelay conn1 (ip vm_a, port vm_b) relay_init) conn1) ∧
  ∃ m m', m ∈ wh_log two_served ∧ op m = ADD ∧ vm_srv m = 0 ∧ ip m = ip vm_a ∧
          m' ∈ wh_log two_served ∧ op m' = ADD ∧ vm_srv m' = 0 ∧ port m' = port vm_b.
Proof.
  split; [vm_compute; reflexivity|].
  refine (proj2 (workers_reach_announced_vms raw (replicate 28 0) stack0 start two_served 0
    (Worker (WRelay conn1 (ip vm_a, port vm_b) relay_init) conn1) (ip vm_a, port vm_b)
    raw_small eq_refl two_clients_reachable _ eq_refl)). vm_compute. reflexivity.
Defined.
