(* ===== verification/Separate.v ===== *)
(** * controller/balancer.c: runs in which a message and a choice do not overlap

    The controller thread takes no lock, so that its accesses can fall between
    those of a worker that is choosing, and then clients lose their sessions and
    are sent to endpoints nobody announced ([Interleaved.session_can_be_lost],
    [Races.endpoint_can_be_torn]).  This file shows what holds of the threads, access
    by access, in the runs in which that does not happen: there the accesses of a
    message and of a choice are the whole steps of Sessions.v, by the lemmas on a
    thread that is left alone (Atomicity.v, Quiescent.v). *)
From S2P Require Import Prelude Protocol SockHelp Balancer Registry Relay Sessions Dispatch Races Atomicity Quiescent Interleaved.
Open Scope Z_scope.

(** ** The condition *)

(** Before the first access to the tables or after the last one. *)
Definition route_outside (pc : route_pc) : bool := match pc with RtIdle | RtTest | RtDone _ => true | _ => false end.
Definition ctrl_outside (pc : ctrl_pc) : bool := match pc with CtWait | CtGrow _ => true | _ => false end.

(** The controller thread does not access the tables while a worker is in the
    middle of its choice, nor the other way round; no client is called 0.0.0.0. *)
Definition separate (e : race_event) (s : races) : Prop :=
  calm e s ∧
  match e with
  | EMessage _ => True
  | ECtrl _ _ => route_outside (r_route s) = true
  | EClient addr => addr ≠ no_ip
  | ERoute => ctrl_outside (r_ctrl s) = true
  end.

(** ** The table that stands

    [b] is the table after the last message and the last choice that are over;
    [K] holds of the messages that are not. *)
Section Stands.
Variable K : virtual_machine → Prop.

Definition stands (s : races) (b : lb) : Prop :=
  (∀ m, r_ctrl s = CtGrow m → K m ∧ valid_message m) ∧ (r_route s ≠ RtIdle → r_addr s ≠ no_ip) ∧
  match ctrl_outside (r_ctrl s), route_outside (r_route s) with
  | true, true => sh_lb (r_shared s) = b
  | true, false => index_ok b ∧ llive b 0 ≠ [] ∧
      ∃ ep, rtc (λ x y, route_alone (r_addr s) x = Val y) (RtTest, Shared b ep) (r_route s, r_shared s)
  | false, true => ∃ m g ep, K m ∧ valid_message m ∧ (∀ i, small (g i)) ∧ small_tables b ∧
      rtc (λ x y, ctrl_alone (plenty g) x = Val y) (CtGrow m, Shared b ep) (r_ctrl s, r_shared s)
  | false, false => False
  end.

Lemma ctrl_step_plenty fresh g pc s x :
  match pc with CtGrow _ => False | _ => True end → ctrl_step fresh false pc s = Val x → ctrl_alone (plenty g) (pc, s) = Val x.
Proof.
  unfold ctrl_alone. cbn [fst snd]. destruct pc as [|m|m|m temp i| | | | | |]; try done. cbn [ctrl_step].
  intros _. case_decide; [|done]. case_decide; [|done]. by rewrite decide_True.
Qed.

Lemma ctrl_step_grow fresh m s x :
  ctrl_step fresh false (CtGrow m) s = Val x → (∀ f i, lb_realloc fresh = Some f → small (f i)) →
  ∃ g, (∀ i, small (g i)) ∧ ctrl_alone (plenty g) (CtGrow m, s) = Val x.
Proof.
  intros H Hf. exists (match lb_realloc fresh with Some g => g | None => λ _, LbVm [] 0 [] end). split.
  - intros i. destruct (lb_realloc fresh) as [g|] eqn:E; [by apply (Hf g i)|unfold small; cbn; lia].
  - unfold ctrl_alone. cbn [fst snd ctrl_step] in *.
    apply outcome_bind_Val in H as (n & -> & H). apply outcome_bind_Val in H as (a & -> & H). cbn [mbind outcome_bind plenty lb_realloc].
    destruct (lb_realloc fresh) as [g|]; [exact H|]. apply outcome_bind_Val in H as (b' & E & H).
    by rewrite (check_size_any _ _ _ _ E).
Qed.

(** Where a step of a choice ends. *)
Lemma route_step_end addr pc s pc' s' :
  route_step addr pc s = Val (pc', s') → pc ≠ RtIdle → route_outside pc' = true → ∃ vm, pc' = RtDone vm.
Proof.
  intros H Hpc. destruct pc; cbn [route_step] in H; try done;
    repeat first [case_decide | discriminate H | match type of H with context [if ?b then _ else _] => destruct b end
      | apply outcome_bind_Val in H; destruct H as (? & ? & H)]; injection H as <- _; cbn; try done; by eexists.
Qed.

Definition now (s : races) (b : lb) (s' : races) : Prop :=
  (* the table stands *)
  stands s' b ∧ (∀ vm, r_route s' = RtDone vm → r_route s = RtDone vm ∧ r_addr s' = r_addr s) ∨
  (* a message is over *)
  (∃ g m b', K m ∧ lb_step g (Message m) b b' ∧ stands s' b' ∧ r_route s' = r_route s ∧ r_addr s' = r_addr s) ∨
  (* a choice is over *)
  (∃ vm b', (∀ g, lb_step g (Connection (r_addr s)) b b') ∧ r_route s' = RtDone vm ∧ r_addr s' = r_addr s ∧
     index_ok b ∧ llive b 0 ≠ [] ∧ get_current_socket (r_addr s) true true b = Val (vm.1, vm.2, b') ∧ stands s' b').

Lemma separate_ctrl fresh s s' b :
  races_inv s → stands s b → (∀ f i, lb_realloc fresh = Some f → small (f i)) → route_outside (r_route s) = true →
  race_step (ECtrl fresh false) s = Val (Some s') → now s b s'.
Proof.
  destruct s as [sh ct rt addr log]. intros (h & Ht & _) (Hg & Ha & Hs) Hf Hout H. unfold stands in *.
  cbn [race_step r_ctrl r_route r_shared r_addr] in *. rewrite Hout in Hs.
  assert (∃ pc s2, ct ≠ CtWait ∧ ctrl_step fresh false ct sh = Val (pc, s2) ∧ s' = Races s2 pc rt addr log) as (pc & s2 & Hne & E & ->).
  { destruct ct; try done; apply outcome_bind_Val in H as ([pc s2] & E & H); injection H as <-; by exists pc, s2. }
  pose proof (ctrl_step_past _ _ _ _ _ _ E) as Hpast.
  assert (∃ m g ep, K m ∧ valid_message m ∧ (∀ i, small (g i)) ∧ small_tables b ∧
    rtc (λ x y, ctrl_alone (plenty g) x = Val y) (CtGrow m, Shared b ep) (pc, s2)) as (m & g & ep & HK & Hm & Hsg & Hsm & Hr).
  { destruct ct as [|m| | | | | | | |]; [done|..].
    1: { cbn [ctrl_outside] in Hs. destruct (ctrl_step_grow _ _ _ _ E Hf) as (g & Hsg & Eg). destruct (Hg m eq_refl) as [HK Hm].
         exists m, g, (sh_epoch sh). split_and!; try done; [subst b; by eapply small_tables_of|].
         apply rtc_once. destruct sh as [b0 ep]. by cbn in Hs |- *; subst b. }
    all: cbn [ctrl_outside] in Hs; destruct Hs as (m0 & g & ep & ? & ? & ? & ? & Hr); exists m0, g, ep; split_and!; try done;
      (eapply rtc_r; [exact Hr|by eapply ctrl_step_plenty]). }
  assert (Hnew : ∀ m0, pc = CtGrow m0 → K m0 ∧ valid_message m0) by (intros m0 ->; done).
  destruct (ctrl_outside pc) eqn:Hpc.
  - assert (pc = CtWait) as -> by (by destruct pc). right; left. destruct s2 as [b2 ep2].
    destruct (leads_end _ _ _ _ _ (message_alone g m b ep Hsm (proj2 Hm) Hsg) Hr eq_refl ltac:(done)) as (b' & Eb & Heq).
    injection Heq as -> ->.
    exists g, m, b'. split; [done|]. split; [by apply step_message|]. split; [|done].
    unfold stands. cbn. by rewrite Hout.
  - left. split; [|done]. unfold stands. cbn. rewrite Hpc, Hout. split; [done|]. split; [done|]. by exists m, g, ep.
Qed.

Lemma separate_route s s' b :
  sessions_ok b → stands s b → calm ERoute s → ctrl_outside (r_ctrl s) = true → race_step ERoute s = Val (Some s') → now s b s'.
Proof.
  destruct s as [sh ct rt addr log]. intros Hb (Hg & Ha & Hs) Hcalm Hout H. unfold stands in *.
  cbn [race_step r_ctrl r_route r_shared r_addr calm] in *. rewrite Hout in Hs.
  assert (∃ pc s2, rt ≠ RtIdle ∧ route_step addr rt sh = Val (pc, s2) ∧ s' = Races s2 ct pc addr log) as (pc & s2 & Hne & E & ->).
  { destruct rt; try done; apply outcome_bind_Val in H as ([pc s2] & E & H); injection H as <-; by exists pc, s2. }
  assert (index_ok b ∧ llive b 0 ≠ [] ∧ ∃ ep, rtc (λ x y, route_alone addr x = Val y) (RtTest, Shared b ep) (pc, s2))
    as (Hi & Hlive & ep & Hr).
  { destruct rt as [| | | | | | | |vm]; [done|..|done].
    1: { cbn [route_outside] in Hs. subst b. destruct (Hcalm eq_refl) as (i & n & Ei & En & Hin & Hn).
         destruct (check_home (sh_lb sh) addr (proj1 Hb)) as (slots & n' & En' & _ & Hl & Hn' & Hlen & _). rewrite En in En'. injection En' as <-.
         assert (length (llive (sh_lb sh) 0) = Z.to_nat n) as Hlen2 by (rewrite Hl, length_take; lia).
         split; [exists (Z.to_nat i); rewrite Z2Nat.id by lia; split; [done|lia]|]. split; [intros Hz; rewrite Hz in Hlen2; cbn in Hlen2; lia|].
         exists (sh_epoch sh). apply rtc_once. by destruct sh. }
    all: cbn [route_outside] in Hs; destruct Hs as (? & ? & ep & Hr); split; [done|]; split; [done|]; exists ep; (eapply rtc_r; [exact Hr|exact E]). }
  destruct (route_outside pc) eqn:Hpc.
  - destruct (route_step_end _ _ _ _ _ E Hne Hpc) as [vm ->]. right; right. destruct s2 as [b2 ep2].
    destruct (leads_end _ _ _ _ _ (worker_alone addr b ep) Hr eq_refl ltac:(done)) as ([[a p] b'] & Eb & Heq).
    injection Heq as -> ->. exists (a, p), b'. split; [intros g; eapply step_connection; [by apply Ha|done..]|].
    do 5 (split; [done|]). unfold stands. cbn. rewrite Hout. split; [done|]. split; [|done]. intros _. by apply Ha.
  - left. split; [|intros vm Hvm; cbn in Hvm; by rewrite Hvm in Hpc]. unfold stands. cbn. rewrite Hout, Hpc.
    split; [done|]. split; [intros _; by apply Ha|]. split; [done|]. split; [done|]. by exists ep.
Qed.

Lemma separate_step e s s' b :
  races_inv s → sessions_ok b → stands s b → separate e s → (∀ m, e = EMessage m → K m) →
  race_step e s = Val (Some s') → now s b s'.
Proof.
  intros Hinv Hb Hs [Hcalm Hsep] HK H. destruct e as [m|fresh moves|addr|]; cbn in Hsep.
  - left. destruct s as [sh ct rt a log]. destruct Hs as (Hg & Ha & Hs). cbn in *. destruct ct; try discriminate H. injection H as <-.
    split; [|done]. split; [intros m0 [= <-]; split; [by apply HK|exact Hcalm]|]. split; [exact Ha|exact Hs].
  - destruct Hcalm as [-> Hf]. by eapply separate_ctrl.
  - left. destruct s as [sh ct rt a log]. destruct Hs as (Hg & Ha & Hs). cbn in *.
    assert (route_outside rt = true ∧ s' = Races sh ct RtTest addr log) as [Hout ->] by (destruct rt; try discriminate H; by injection H as <-).
    split; [|done]. split; [exact Hg|]. split; [done|]. rewrite Hout in Hs. exact Hs.
  - by apply separate_route.
Qed.
End Stands.

(** ** Runs of the two threads *)

(** With the messages that are received in [K]. *)
Definition separate_in (K : virtual_machine → Prop) (e : race_event) (s : races) : Prop :=
  separate e s ∧ ∀ m, e = EMessage m → K m.

Lemma stands_waiting K K' s b : r_ctrl s = CtWait → stands K s b → stands K' s b.
Proof. intros E (_ & Ha & Hs). unfold stands. rewrite E in *. by split. Qed.

(** What a message in [K] and a connection leave so is so of the table that stands. *)
Lemma separate_run (K : virtual_machine → Prop) (P : lb → Prop) s s' b :
  (∀ g e b b', sessions_ok b → lb_step g e b b' → (∀ m, e = Message m → K m) → P b → P b') →
  races_inv s → sessions_ok b → P b → stands K s b → rtc (race (separate_in K)) s s' →
  races_inv s' ∧ ∃ b', sessions_ok b' ∧ P b' ∧ stands K s' b'.
Proof.
  intros HP Hinv Hb HPb Hs Hr. revert b Hinv Hb HPb Hs.
  induction Hr as [s|s s1 s' (e & [Hsep HK] & H) _ IH]; intros b Hinv Hb HPb Hs; [by eauto|].
  assert (Hinv1 : races_inv s1) by (destruct Hsep; by eapply races_inv_step).
  destruct (separate_step K e s s1 b Hinv Hb Hs Hsep HK H)
    as [[Hs1 _]|[(g & m & b1 & Hm & Hst & Hs1 & _)|(vm & b1 & Hst & _ & _ & _ & _ & _ & Hs1)]].
  - by apply (IH b).
  - apply (IH b1); [done|by eapply lb_step_sessions| |done]. eapply HP; [done|exact Hst| |done]. by intros m' [= ->].
  - specialize (Hst (λ _, LbVm [] 0 [])). apply (IH b1); [done|by eapply lb_step_sessions| |done].
    eapply HP; [done|exact Hst|done|done].
Qed.

Lemma stands_start K f b : create_system_image (Some f) = Val b → sessions_ok b ∧ stands K (at_start b) b.
Proof.
  intros Hb. split; [|by split]. split; [by eapply create_system_image_ok|].
  unfold create_system_image in Hb. injection Hb as <-. apply NoDup_nil_2.
Qed.

(** ** The whole program *)
Definition separate_input (e : whole_input) (s : whole) : Prop :=
  calm_input e s ∧
  match e with
  | XCtrl _ _ => ∀ t c, wh_choice s !! t = Some c → route_outside (pc_of c) = true
  | XAccess _ => ctrl_outside (wh_ctrl s) = true
  | XWorker t _ => ∀ conn, workers (wh_state s) !! t = Some (Worker WStart conn) → arg_ip conn ≠ no_ip
  | _ => True
  end.

(** The message that is read, if one is, is in [K]. *)
Definition reads (K : virtual_machine → Prop) (e : whole_input) (s : whole) : Prop :=
  ∀ r, e = XRecv r → K (received r (vm_struct (wh_state s))).

Lemma view_outside s r :
  view s r → (∀ t c, wh_choice s !! t = Some c → route_outside (pc_of c) = true) → route_outside (r_route r) = true.
Proof.
  intros (_ & _ & _ & V4 & V5) H. destruct (map_choose_or_empty (wh_choice s)) as [(t & c & Hc)|Hc].
  - destruct (V4 t c Hc) as [-> _]. by eapply H.
  - by destruct (V5 Hc) as [->|[vm ->]].
Qed.

Lemma separate_shows K e s :
  handover_inv (wh_state s) → whole_step e s ≠ Val None → separate_input e s → reads K e s → shows (separate_in K) e s.
Proof.
  intros Hh Hstep [Hcalm Hsep] HK r ev Hv Hev. pose proof (calm_shows e s Hh Hstep Hcalm r ev Hv Hev) as Hc.
  split; [split; [done|]|].
  - destruct e as [a|t a|t|t ok|t ok getfl setfl_ok|x|fresh moves]; cbn [event_of] in Hev; try done.
    + destruct (workers (wh_state s) !! t) as [[[] conn]|] eqn:Ht; try done. injection Hev as <-.
      destruct Hh as (_ & _ & I3). pose proof (Forall_lookup_1 _ _ _ _ I3 Ht) as Harg. cbn in Harg. rewrite Harg. by apply Hsep.
    + injection Hev as <-. destruct Hv as (_ & V2 & _). by rewrite V2.
    + by injection Hev as <-.
    + injection Hev as <-. by eapply view_outside.
  - intros m ->. destruct e as [a|t a|t|t ok|t ok getfl setfl_ok|x|fresh moves]; cbn [event_of] in Hev; try done.
    + by destruct (workers (wh_state s) !! t) as [[[] conn]|].
    + injection Hev as <-. by apply HK.
Qed.

Lemma separate_sim K s s' r :
  handover_inv (wh_state s) → view s r → rtc (wstep (λ e s, separate_input e s ∧ reads K e s)) s s' →
  handover_inv (wh_state s') ∧ ∃ r', rtc (race (separate_in K)) r r' ∧ view s' r'.
Proof.
  intros Hh Hv Hr. revert r Hh Hv. induction Hr as [s|s s1 s' (e & [Hq HK] & H) _ IH]; intros r Hh Hv; [by eauto using rtc_refl|].
  assert (Hshow : shows (separate_in K) e s) by (apply separate_shows; [done|by rewrite H|done..]).
  destruct (sim_step _ e s r s1 Hh Hv Hshow H) as (r1 & Hr1 & Hv1).
  destruct (IH r1 (handover_whole e s s1 H Hh) Hv1) as (Hh' & r' & Hr' & Hv'). split; [done|].
  exists r'. split; [by etrans|done].
Qed.

Section Runs.
Context (f : Z → Z → lb_vm) (mem : list Z) (stack : arg_thread) (s0 : balancer).
Hypothesis Hf : ∀ k i, small (f k i).
Hypothesis Hinit : balancer_init (Some f) mem stack = Val s0.
Notation any := (λ _ : virtual_machine, True).

(** In every state of a run of separate accesses. *)
Lemma separate_reachable s :
  rtc (wstep separate_input) (whole_init s0) s →
  handover_inv (wh_state s) ∧ ∃ r b, view s r ∧ races_inv r ∧ rtc (race calm) (at_start (tables s0)) r ∧
    sessions_ok b ∧ stands any r b.
Proof.
  intros Hr. destruct (sim_inv_init calm (Some f) mem stack s0 Hinit) as (Hh0 & r0 & Hr0 & Hv0).
  destruct (separate_sim any (whole_init s0) s (at_start (tables s0)) Hh0) as (Hh & r & Hrr & Hv).
  - split_and!; try done. by left.
  - eapply rtc_subrel; [|exact Hr]. intros x y (e & ? & ?). exists e. by split_and!.
  - split; [done|]. pose proof (initial_image f mem stack s0 Hinit) as Him.
    destruct (stands_start any f _ Him) as [Hb Hst].
    destruct (separate_run any (λ _, True) (at_start (tables s0)) r (tables s0)) as (Hinv & b & Hok & _ & Hs); try done.
    + by eapply races_inv_start.
    + exists r, b. split_and!; try done. eapply rtc_subrel; [|exact Hrr]. intros x y (e & [[? _] _] & ?). by exists e.
Qed.

(** A choice that ends. *)
Lemma choice_ends s r s' t vm K b :
  handover_inv (wh_state s) → view s r → races_inv r → sessions_ok b → stands K r b →
  separate_input (XAccess t) s → whole_step (XAccess t) s = Val (Some s') → wh_choice s' !! t = Some (ChAccess (RtDone vm)) →
  ∃ r' b', view s' r' ∧ race_step ERoute r = Val (Some r') ∧ (∀ g, lb_step g (Connection (r_addr r)) b b') ∧
    index_ok b ∧ llive b 0 ≠ [] ∧ r_addr r ≠ no_ip ∧ get_current_socket (r_addr r) true true b = Val (vm.1, vm.2, b') ∧
    r_ctrl r' = r_ctrl r ∧ r_log r' = r_log r ∧ stands K r' b'.
Proof.
  intros Hh Hv Hinv Hb Hs Hsep H Hdone. destruct (access_shown t s r s' Hh Hv H) as (r' & E & Hv' & Ha).
  assert (Hshow : separate ERoute r).
  { apply (separate_shows any (XAccess t) s Hh ltac:(by rewrite H) Hsep ltac:(done) r ERoute Hv eq_refl). }
  assert (Hr' : r_route r' = RtDone vm) by (destruct Hv' as (_ & _ & _ & V4 & _); by destruct (V4 t _ Hdone)).
  assert (Hne : ∀ vm', r_route r ≠ RtDone vm') by (intros vm' Hd; unfold race_step in E; by rewrite Hd in E).
  assert (Hsame : r_ctrl r' = r_ctrl r ∧ r_log r' = r_log r).
  { unfold race_step in E. destruct (r_route r); try done; apply outcome_bind_Val in E as (x & _ & E); by injection E as <-. }
  destruct (separate_step K ERoute r r' b Hinv Hb Hs Hshow ltac:(done) E)
    as [[_ Hd]|[(g & m & b1 & _ & _ & _ & Hd & _)|(vm' & b' & Hst & Hd & _ & Hi & Hl & Eg & Hs')]].
  - by destruct (Hne vm (proj1 (Hd vm Hr'))).
  - rewrite Hr' in Hd. by destruct (Hne vm).
  - rewrite Hr' in Hd. injection Hd as <-. exists r', b'. split_and!; try done; try apply Hsame.
    destruct Hs as (_ & Hno & _). apply Hno. intros Hz. unfold race_step in E. by rewrite Hz in E.
Qed.
End Runs.

(** The messages that are not waiting to be handled. *)
Definition messages_over (s : whole) : list virtual_machine :=
  match wh_ctrl s with CtGrow _ => removelast (wh_log s) | _ => wh_log s end.

(** The last access of worker [t]'s choice, for the client [addr], that gives [vm]. *)
Definition choice_over (t : nat) (addr : list Z) (vm : list Z * Z) (s s' : whole) : Prop :=
  ∃ arg conn, chooses s t arg conn ∧ arg_ip arg = addr ∧ separate_input (XAccess t) s ∧
    whole_step (XAccess t) s = Val (Some s') ∧ wh_choice s' !! t = Some (ChAccess (RtDone vm)).

(** What the client is recorded with, and where it was before. *)
Definition recorded_with (addr : list Z) (vm : list Z * Z) (b : lb) : Prop :=
  ∃ v, home b addr = Some v ∧ lb_endpoint v = vm.

Lemma choice_records s r s' t addr vm K b :
  handover_inv (wh_state s) → view s r → races_inv r → sessions_ok b → stands K r b → choice_over t addr vm s s' →
  addr ≠ no_ip ∧ (∀ vm', recorded_with addr vm' b → vm' = vm) ∧
  handover_inv (wh_state s') ∧ ∃ r' b', view s' r' ∧ races_inv r' ∧ sessions_ok b' ∧ r_ctrl r' = r_ctrl r ∧
    stands K r' b' ∧ recorded_with addr vm b'.
Proof.
  intros Hh Hv Hinv Hb Hs (arg & conn & Ht & Ha & Hsep & E & Hdone).
  destruct (choice_ends s r s' t vm K b Hh Hv Hinv Hb Hs Hsep E Hdone)
    as (r' & b' & Hv' & Er & Hst & Hi & Hl & Hno & Eg & Ec & _ & Hs').
  assert (Haddr : r_addr r = addr).
  { apply whole_step_shape in E as (a1 & c1 & pc & x & _ & Hc & _). destruct (view_chooses s r t arg conn _ Hh Hv Ht Hc) as (_ & Hr & _). by rewrite Hr. }
  rewrite Haddr in *. destruct (current_socket_home b addr _ _ _ Hb Hi Hl Hno Eg) as (w & Hw & Hwe).
  assert (Hwm : lb_endpoint w = vm) by (rewrite Hwe; by destruct vm).
  split; [done|]. split; [|split; [by eapply handover_whole|]].
  - intros vm' (v & Hhv & Hev).
    pose proof (lb_step_home (raw 0) _ b b' addr v (Hst (raw 0)) Hb Hno ltac:(by intros H) Hhv) as Hv2. congruence.
  - exists r', b'. split; [done|]. split.
    { eapply races_inv_step; [exact Hinv| |exact Er].
      exact (calm_shows (XAccess t) s Hh ltac:(by rewrite E) (proj1 Hsep) r ERoute Hv eq_refl). }
    split; [by eapply (lb_step_sessions (raw 0) _ b b')|]. do 2 (split; [done|]). by exists w.
Qed.

(** Not a message that takes the endpoint [vm] away. *)
Definition keeps (vm : list Z * Z) (m : virtual_machine) : Prop :=
  ¬ ((op m = DELETE ∨ op m = REJ) ∧ vm_srv m = 0 ∧ endpoint_of m = vm).

(** A client that is recorded is not forgotten by what does not remove its VM. *)
Lemma home_kept addr vm g e b b' :
  addr ≠ no_ip → sessions_ok b → lb_step g e b b' → (∀ m, e = Message m → keeps vm m) →
  recorded_with addr vm b → recorded_with addr vm b'.
Proof.
  intros Ha Hb Hstep Hm (v & Hh & He). exists v. split; [|done]. apply (lb_step_home g e b b' addr v Hstep Hb Ha); [|done].
  destruct e as [m|a]; [|by intros H]. intros (H1 & H2 & H3). apply (Hm m eq_refl). split; [done|]. split; [done|].
  by rewrite <-H3.
Qed.

(** ** Properties *)

(** C11.  Sessions, access by access, in the runs of all the balancer's threads in
    which the accesses of a message and those of a choice do not overlap
    ([separate_input]): when a client's choice of a VM has ended with [vm], a later
    choice for the same client ends with [vm] too, through any messages and other
    connections in between, as long as none of the messages removes [vm].  Where
    accesses overlap this is not so ([Interleaved.session_can_be_lost]). *)
Theorem sessions_are_kept f mem stack s0 s1 s2 s3 s4 t t' addr vm vm' :
  (∀ k i, small (f k i)) → balancer_init (Some f) mem stack = Val s0 →
  rtc (wstep separate_input) (whole_init s0) s1 → wh_ctrl s1 = CtWait →
  choice_over t addr vm s1 s2 →
  rtc (wstep (λ e s, separate_input e s ∧ reads (keeps vm) e s)) s2 s3 →
  choice_over t' addr vm' s3 s4 →
  vm' = vm.
Proof.
  intros Hf Hi H1 Hw Hover H2 Hover'.
  destruct (separate_reachable f mem stack s0 Hf Hi s1 H1) as (Hh & r1 & b1 & Hv & Hinv & _ & Hb & Hs).
  destruct (choice_records s1 r1 s2 t addr vm _ b1 Hh Hv Hinv Hb Hs Hover)
    as (Hno & _ & Hh2 & r2 & b2 & Hv2 & Hinv2 & Hb2 & Ec & Hs2 & Hrec).
  destruct (separate_sim (keeps vm) s2 s3 r2 Hh2 Hv2 H2) as (Hh3 & r3 & Hr3 & Hv3).
  destruct (separate_run (keeps vm) (recorded_with addr vm) r2 r3 b2) as (Hinv3 & b3 & Hb3 & Hrec3 & Hs3); try done.
  - intros g e b b' Hok Hstep HK. by apply (home_kept addr vm g e b b').
  - destruct Hv as (_ & V2 & _). apply (stands_waiting (λ _, True)); [|exact Hs2]. by rewrite Ec, V2.
  - destruct (choice_records s3 r3 s4 t' addr vm' _ b3 Hh3 Hv3 Hinv3 Hb3 Hs3 Hover') as (_ & Heq & _).
    symmetry. by apply Heq.
Qed.

(** C21.  In those runs no client is ever recorded with two VMs, or twice with one,
    and the table is well-formed: in every state in which no message is being
    handled and no worker is in the middle of its choice.  Where accesses overlap
    a client can be recorded twice ([Interleaved.session_can_be_lost]). *)
Theorem nobody_recorded_twice f mem stack s0 s :
  (∀ k i, small (f k i)) → balancer_init (Some f) mem stack = Val s0 →
  rtc (wstep separate_input) (whole_init s0) s →
  ctrl_outside (wh_ctrl s) = true → (∀ t c, wh_choice s !! t = Some c → route_outside (pc_of c) = true) →
  lb_ok (tables (wh_state s)) ∧ NoDup (recorded (tables (wh_state s))).
Proof.
  intros Hf Hi H Hc Hr. destruct (separate_reachable f mem stack s0 Hf Hi s H) as (_ & r & b & Hv & _ & _ & Hb & (_ & _ & Hs)).
  rewrite (view_outside s r Hv Hr) in Hs. destruct Hv as (V1 & V2 & _). rewrite V2, Hc, V1 in Hs. cbn in Hs. by subst b.
Qed.

(** C22.  In those runs a choice ends with an endpoint that is registered when it
    ends: with the address and the port of one VM that, by the specification of
    Registry.v, the messages handled so far have up.  Where accesses overlap the
    two can be of different VMs, and not registered ([Races.endpoint_can_be_torn]). *)
Theorem clients_go_to_registered_vms f mem stack s0 s s' t addr vm :
  (∀ k i, small (f k i)) → balancer_init (Some f) mem stack = Val s0 →
  rtc (wstep separate_input) (whole_init s0) s → choice_over t addr vm s s' → Z.of_nat (length (wh_log s)) <= 2 ^ 30 →
  vm ∈ registry_run (messages_over s) empty_registry 0%nat.
Proof.
  intros Hf Hi H (arg & conn & _ & _ & Hsep & E & Hdone) Hlen.
  destruct (separate_reachable f mem stack s0 Hf Hi s H) as (Hh & r & b & Hv & Hinv & Hcalm & Hb & Hs).
  destruct (choice_ends s r s' t vm _ b Hh Hv Hinv Hb Hs Hsep E Hdone)
    as (r' & b' & Hv' & Er & _ & Hidx & Hl & _ & Eg & Ec & El & Hs').
  destruct (current_socket_registered b _ _ _ _ (proj1 Hb) Hidx Hl Eg) as (Hin & _ & _ & Hlive).
  assert (Hfo : follows (r_log r') (r_ctrl r') (sh_lb (r_shared r'))).
  { eapply (follows_reachable f (tables s0)); [done|by eapply initial_image| |rewrite El; destruct Hv as (_ & _ & -> & _); lia].
    eapply rtc_r; [exact Hcalm|]. exists ERoute. split; [|done].
    exact (calm_shows (XAccess t) s Hh ltac:(by rewrite E) (proj1 Hsep) r ERoute Hv eq_refl). }
  destruct Hs' as (_ & _ & Hs'). pose proof Hv as (_ & V2 & V3 & _).
  assert (Hout : ctrl_outside (r_ctrl r') = true) by (rewrite Ec, V2; exact (proj2 Hsep)).
  assert (Hdone' : r_route r' = RtDone vm) by (destruct Hv' as (_ & _ & _ & V4 & _); by destruct (V4 t _ Hdone)).
  rewrite Hout, Hdone' in Hs'. cbn in Hs'. rewrite Hs' in Hfo.
  assert (settled (messages_over s) b') as [_ Hset].
  { unfold messages_over. rewrite Ec, El, V2, V3 in Hfo. rewrite Ec, V2 in Hout. destruct (wh_ctrl s); try done.
    cbn in Hfo. destruct Hfo as (log0 & -> & _ & ? & _). by rewrite removelast_last. }
  rewrite <-(Hset 0%nat ltac:(lia)). unfold lb_view in Hin |- *. rewrite Hlive. by destruct vm.
Qed.

(** ** Witnesses *)
Definition separate_inputb (e : whole_input) (s : whole) : bool :=
  calm_inputb e s &&
  match e with
  | XCtrl _ _ => forallb (λ x, route_outside (pc_of x.2)) (map_to_list (wh_choice s))
  | XAccess _ => ctrl_outside (wh_ctrl s)
  | XWorker t _ =>
      match workers (wh_state s) !! t with Some (Worker WStart conn) => negb (bool_decide (arg_ip conn = no_ip)) | _ => true end
  | _ => true
  end.

Lemma separate_inputb_separate e s : raw_input e → separate_inputb e s = true → separate_input e s.
Proof.
  intros Hr [Hc H]%andb_true_iff. split; [by apply calm_inputb_calm|].
  destruct e as [a|t a|t|t ok|t ok getfl setfl_ok|x|fresh moves]; try done.
  - intros conn Ht. rewrite Ht in H. by apply negb_true_iff, bool_decide_eq_false in H.
  - intros t c Hc'. rewrite forallb_forall in H. apply (H (t, c)). by apply list_elem_of_In, elem_of_map_to_list.
Qed.

(** Two VMs; a client chooses the first one; the other one leaves and a second
    client comes, while the first one is served; the first one comes back. *)
Definition first_visit : list whole_input :=
  brings vm_a ++ brings vm_b ++ arrives conn1 ++ hand_over ++ [XWorker 0 LTau; XAccess 0; XSocket 0 true] ++ replicate 18 (XAccess 0).
Definition meanwhile : list whole_input :=
  [XConnect 0 true 2 true; XWorker 0 LTau] ++ brings (gone vm_b) ++ [XCtrl (plenty (raw 0)) false] ++ arrives conn2 ++ hand_over ++
  [XWorker 1 LTau; XAccess 1; XSocket 1 true] ++ replicate 13 (XAccess 1) ++ [XConnect 1 true 2 true; XWorker 1 LTau] ++
  arrives conn1 ++ hand_over ++ [XWorker 2 LTau; XAccess 2; XSocket 2 true] ++ replicate 3 (XAccess 2).

Definition then_run (es : list whole_input) (s : whole) : whole :=
  match run_whole separate_inputb es s with Val (Some s) => s | _ => s end.
Definition about_to_choose : whole := then_run first_visit (whole_init start).
Definition chosen_once : whole := then_run [XAccess 0] about_to_choose.
Definition back_again : whole := then_run meanwhile chosen_once.
Definition chosen_twice : whole := then_run [XAccess 2] back_again.

Lemma about_to_choose_reachable : rtc (wstep separate_input) (whole_init start) about_to_choose.
Proof.
  apply (run_whole_rtc separate_inputb _ first_visit); [exact separate_inputb_separate|by repeat constructor|vm_compute; reflexivity].
Qed.

Definition keepsb (vm : list Z * Z) (e : whole_input) (s : whole) : bool :=
  match e with
  | XRecv r => let m := received r (vm_struct (wh_state s)) in
               negb (bool_decide ((op m = DELETE ∨ op m = REJ) ∧ vm_srv m = 0 ∧ endpoint_of m = vm))
  | _ => true
  end.

Lemma back_again_reachable :
  rtc (wstep (λ e s, separate_input e s ∧ reads (keeps (endpoint_of vm_a)) e s)) chosen_once back_again.
Proof.
  apply (run_whole_rtc (λ e s, separate_inputb e s && keepsb (endpoint_of vm_a) e s) _ meanwhile);
    [|by repeat constructor|vm_compute; reflexivity].
  intros e s Hr [H1 H2]%andb_true_iff. split; [by apply separate_inputb_separate|].
  intros r ->. by apply negb_true_iff, bool_decide_eq_false in H2.
Qed.

Lemma choice_over_run t conn vm s s' :
  workers (wh_state s) !! t = Some (Worker (WChoose conn) conn) → separate_inputb (XAccess t) s = true →
  whole_step (XAccess t) s = Val (Some s') → wh_choice s' !! t = Some (ChAccess (RtDone vm)) →
  choice_over t (arg_ip conn) vm s s'.
Proof. intros H1 H2 H3 H4. exists conn, conn. do 2 (split; [done|]). split; [by apply separate_inputb_separate|done]. Qed.

Lemma first_choice : choice_over 0 (peer 49) (endpoint_of vm_a) about_to_choose chosen_once.
Proof. apply (choice_over_run 0 conn1); vm_compute; reflexivity. Qed.

Lemma second_choice : choice_over 2 (peer 49) (endpoint_of vm_a) back_again chosen_twice.
Proof. apply (choice_over_run 2 conn1); vm_compute; reflexivity. Qed.

Lemma sessions_are_kept_witness :
  wh_choice chosen_twice !! 2%nat = Some (ChAccess (RtDone (endpoint_of vm_a))) ∧ endpoint_of vm_a = endpoint_of vm_a.
Proof.
  split; [vm_compute; reflexivity|].
  exact (sessions_are_kept raw (replicate 28 0) stack0 start about_to_choose chosen_once back_again chosen_twice 0 2 (peer 49) _ _
    raw_small eq_refl about_to_choose_reachable ltac:(vm_compute; reflexivity) first_choice back_again_reachable second_choice).
Defined.

Lemma nobody_recorded_twice_witness :
  NoDup (recorded (tables (wh_state chosen_twice))) ∧ recorded (tables (wh_state chosen_twice)) = [peer 49; peer 50].
Proof.
  split; [|vm_compute; reflexivity].
  refine (proj2 (nobody_recorded_twice raw (replicate 28 0) stack0 start chosen_twice raw_small eq_refl _ _ _)).
  - apply (run_whole_rtc separate_inputb _ (first_visit ++ [XAccess 0] ++ meanwhile ++ [XAccess 2]));
      [exact separate_inputb_separate|by repeat constructor|vm_compute; reflexivity].
  - vm_compute. reflexivity.
  - intros t c Hc. apply elem_of_map_to_list in Hc. vm_compute in Hc. by apply list_elem_of_singleton in Hc as [= _ ->].
Defined.

Lemma clients_go_to_registered_vms_witness :
  messages_over about_to_choose = [vm_a; vm_b] ∧
  endpoint_of vm_a ∈ registry_run (messages_over about_to_choose) empty_registry 0%nat.
Proof.
  split; [vm_compute; reflexivity|].
  apply (clients_go_to_registered_vms raw (replicate 28 0) stack0 start about_to_choose chosen_once 0 (peer 49) (endpoint_of vm_a)
    raw_small eq_refl about_to_choose_reachable first_choice). vm_compute. discriminate.
Defined.
