(* ===== verification/Progress.v ===== *)
(** * controller/balancer.c: the lock of the load balancer is released

    The accepting thread locks [mutex] and a worker unlocks it, after its choice
    of a VM.  In the interleaved program (Interleaved.v) whoever has it can go
    on, without the controller thread, until it is unlocked, except at two
    points: the turn is not that of a live VM, and the client found no free
    place. *)
From S2P Require Import Prelude Protocol SockHelp Balancer Registry Relay Sessions Dispatch Races Interleaved.
Open Scope Z_scope.

(** ** The accesses of a choice are finitely many

    [n] is [current_vms[0]], which only the controller thread changes. *)
Definition remaining (n : Z) (pc : route_pc) : nat :=
  match pc with
  | RtTest => 8 * Z.to_nat n + 40
  | RtLoop i => 8 * Z.to_nat (n - i) + 20
  | RtPlace i _ place => 8 * Z.to_nat (n - i - 1) + 20 + S (5 - place)
  | RtIp _ _ _ => 12
  | RtPort _ _ _ => 11
  | RtFree _ _ place _ => 3 + S (5 - place)
  | RtStore _ _ _ => 2
  | RtDone _ => 1
  | RtIdle => 0
  end.

Definition remaining_choice (n : Z) (c : choice_pc) : nat :=
  match c with ChAccess pc => 2 * remaining n pc | ChSocket pc => S (2 * remaining n pc) end.

Ltac bind_cases H := repeat first
  [ discriminate H | case_decide
  | match type of H with context [if ?b then _ else _] => destruct b eqn:? end
  | apply outcome_bind_Val in H; destruct H as (? & ? & H) ].

Lemma route_step_remaining addr pc b ep n pc' sh :
  lb_current b !! 0%nat = Some n → route_step addr pc (Shared b ep) = Val (pc', sh) →
  match pc with RtIdle | RtDone _ => True | _ => (remaining n pc' < remaining n pc)%nat ∧ pc' ≠ RtIdle end.
Proof.
  intros Hn. pose proof (arr_get_nat _ 0%nat _ Hn : arr_get _ 0 = _) as Rn.
  destruct pc; cbn [route_step sh_lb sh_epoch]; try done; rewrite ?Rn; cbn [mbind outcome_bind]; intros H; bind_cases H;
    injection H as <- _; (split; [cbn [remaining]; lia|done]).
Qed.

#[export] Instance turn_ok_dec b : Decision (turn_ok b).
Proof.
  unfold turn_ok. destruct (actual_index b !! 0%nat) as [i|]; [|right; by intros (? & ? & ? & _)].
  destruct (lb_current b !! 0%nat) as [n|]; [|right; by intros (? & ? & _ & ? & _)].
  destruct (decide (0 <= i <= n ∧ 0 < n)) as [H|H].
  - left. exists i, n. tauto.
  - right. intros (i' & n' & [= <-] & [= <-] & H'). tauto.
Defined.

(** ** Every worker that is choosing stands somewhere *)
Definition choosing_inv (s : whole) : Prop :=
  (∀ t arg conn, workers (wh_state s) !! t = Some (Worker (WChoose arg) conn) → is_Some (wh_choice s !! t)) ∧
  (∀ t c, wh_choice s !! t = Some c → pc_of c ≠ RtIdle).

Lemma choosing_insert s t c :
  choosing_inv s → pc_of c ≠ RtIdle → choosing_inv (with_choice (<[t := c]> (wh_choice s)) s).
Proof.
  intros [C1 C2] Hc. split; cbn.
  - intros t' arg conn Ht'. destruct (decide (t' = t)) as [->|Hne]; [by rewrite lookup_insert_eq|].
    rewrite lookup_insert_ne by done. by eapply C1.
  - intros t' c'. rewrite lookup_insert_Some. intros [[_ <-]|[_ H]]; [done|by eapply C2].
Qed.

Lemma choosing_same s s' :
  wh_choice s' = wh_choice s →
  (∀ t arg conn, workers (wh_state s') !! t = Some (Worker (WChoose arg) conn) →
     workers (wh_state s) !! t = Some (Worker (WChoose arg) conn)) →
  choosing_inv s → choosing_inv s'.
Proof. intros E Hw [C1 C2]. split; rewrite E; [|done]. intros t arg conn H. by eapply C1, Hw. Qed.

Lemma choosing_worker s t w p conn st' :
  workers (wh_state s) !! t = Some w → workers st' = <[t := Worker p conn]> (workers (wh_state s)) →
  (∀ arg, p ≠ WChoose arg) → choosing_inv s → choosing_inv (with_state st' s).
Proof.
  intros Ht Hw Hp. apply choosing_same; [done|]. intros t' arg conn' H. cbn in H. rewrite Hw in H.
  apply list_lookup_insert_Some in H as [(_ & [= E _] & _)|[_ H]]; [by destruct (Hp arg)|done].
Qed.

Lemma choosing_step e s s' : whole_step e s = Val (Some s') → choosing_inv s → choosing_inv s'.
Proof.
  intros H Hi. apply whole_step_shape in H. destruct e as [a|t a|t|t ok|t ok getfl setfl_ok|x|fresh moves].
  - destruct H as (st & E & ->). apply acceptor_step_tables in E as (_ & _ & l & Hl & Hf).
    apply (choosing_same s); [done| |done]. intros t arg conn Ht. cbn in Ht. rewrite Hl in Ht.
    apply lookup_app_Some in Ht as [Ht|[_ Ht]]; [done|]. by pose proof (Forall_lookup_1 _ _ _ _ Hf Ht).
  - destruct H as (w & st & Ht & Hn & E & Hs'). apply worker_step_shape in E as (p & b & m & -> & Hp).
    destruct Hs' as [[Hpc ->]|[Hpc ->]].
    + rewrite Hpc in Hp. destruct Hp as (-> & _), Hi as [C1 C2]. split; cbn.
      * intros t' arg conn Ht'. destruct (decide (t' = t)) as [->|Hne]; [by rewrite lookup_insert_eq|].
        rewrite lookup_insert_ne by done. rewrite list_lookup_insert_ne in Ht' by done. by eapply C1.
      * intros t' c'. rewrite lookup_insert_Some. intros [[_ <-]|[_ H]]; [done|by eapply C2].
    + eapply choosing_worker; [exact Ht|reflexivity| |done]. intros arg.
      destruct (w_pc w) as [|arg'| | |]; [done|by destruct (Hn arg')| | |done].
      * by destruct Hp as (-> & _).
      * by destruct Hp as ([->|[? ->]] & _).
  - destruct H as (arg & conn & pc & x & _ & Hc & Hne & _ & E & ->).
    apply (choosing_insert (with_shared x.2 s)); [done|]. assert (x.1 ≠ RtIdle); [|by destruct pc].
    destruct x as [pc' sh]. revert E. destruct pc; cbn [route_step fst]; try done; intros E; bind_cases E; by injection E as <- _.
  - destruct H as (arg & conn & pc & _ & Hc & _ & ->). apply choosing_insert; [done|]. exact (proj2 Hi t _ Hc).
  - destruct H as (arg & conn & vm & _ & _ & ->), Hi as [C1 C2]. split; cbn.
    + intros t' arg' conn' [(_ & E & _)|[Hne Ht']]%list_lookup_insert_Some; [done|].
      rewrite lookup_delete_ne by done. by eapply C1.
    + intros t' c' [_ Hc]%lookup_delete_Some. by eapply C2.
  - destruct H as (_ & st & _ & Ew & _ & ->). apply (choosing_same s); [done| |done]. cbn. by rewrite Ew.
  - by destruct H as (x & _ & _ & ->).
Qed.

(** ** From the lock to the unlock *)

(** Who has [mutex], and for which connection: worker [t], or the accepting thread
    that is about to create worker [t]. *)
Definition holds_lock (s : whole) (t : nat) (conn : arg_thread) : Prop :=
  (∃ w, workers (wh_state s) !! t = Some w ∧ worker_holds w = 1%nat ∧ w_conn w = conn) ∨
  t = length (workers (wh_state s)) ∧ (acceptor (wh_state s) = AFill conn ∨ acceptor (wh_state s) = ACreate conn).

(** Its own steps, [pthread_create] succeeding: the accepting thread's while it
    has the lock, then worker [t]'s. *)
Definition own_steps (t : nat) (e : whole_input) (s : whole) : Prop :=
  match e with
  | XMain (LCreate false) => False
  | XMain _ => acceptor_holds (acceptor (wh_state s)) = 1%nat
  | XWorker t' _ | XAccess t' | XSocket t' _ | XConnect t' _ _ _ => t' = t
  | XRecv _ | XCtrl _ _ => False
  end.

Definition of_holder (t : nat) (e : whole_input) (s : whole) : Prop := calm_input e s ∧ own_steps t e s.

(** The two points where a worker that is choosing may not go on: the turn is
    above the live entries, of which there may be none, and [place] is -1. *)
Definition bad_turn (t : nat) (s : whole) : Prop :=
  wh_choice s !! t = Some (ChAccess RtTest) ∧ ¬ turn_ok (tables (wh_state s)).
Definition no_place (t : nat) (s : whole) : Prop :=
  ∃ i vm, wh_choice s !! t = Some (ChAccess (RtStore i (-1) vm)).

(** Worker [t] has given [mutex] back and relays for its client. *)
Definition relays (t : nat) (conn : arg_thread) (s : whole) : Prop :=
  lb_mutex (wh_state s) = false ∧ ∃ vm, workers (wh_state s) !! t = Some (Worker (WRelay conn vm relay_init) conn).

Section Release.
Context (f : Z → Z → lb_vm) (mem : list Z) (stack : arg_thread) (s0 : balancer).
Hypothesis Hf : ∀ k i, small (f k i).
Hypothesis Hinit : balancer_init (Some f) mem stack = Val s0.

Definition good (s : whole) : Prop := run_inv s0 s ∧ choosing_inv s.

Lemma good_step s s' : good s → wstep calm_input s s' → good s'.
Proof.
  intros [Hr Hc] Hs. split; [by eapply run_inv_step|]. destruct Hs as (e & _ & H). by eapply choosing_step.
Qed.

Lemma good_reachable s : rtc (wstep calm_input) (whole_init s0) s → good s.
Proof.
  apply rtc_invariant; [intros x y; apply good_step|]. split; [by apply (run_inv_init f mem stack)|].
  apply outcome_bind_Val in Hinit as (b & _ & H). injection H as H. rewrite <- H. by split.
Qed.

Notation leads t conn s := (∃ s', rtc (wstep (of_holder t)) s s' ∧ (relays t conn s' ∨ bad_turn t s' ∨ no_place t s')).

Lemma leads_by e t conn s s' :
  calm_input e s → own_steps t e s →
  whole_step e s = Val (Some s') → good s → (good s' → leads t conn s') → leads t conn s.
Proof.
  intros Hc Hh H Hg HL. destruct HL as (s2 & Hr & Hs2); [by eapply good_step; [|exists e]|].
  exists s2. split; [|done]. eapply rtc_l; [|exact Hr]. by exists e.
Qed.

Lemma unlock_leads t arg vm conn s :
  good s → workers (wh_state s) !! t = Some (Worker (WUnlock arg vm) conn) → leads t conn s.
Proof.
  intros Hg Ht. pose proof Hg as [((_ & _ & Ha) & _) _]. pose proof (Forall_lookup_1 _ _ _ _ Ha Ht) as Harg. cbn in Harg. subst arg.
  eapply (leads_by (XWorker t LTau)); [done|done| |done|]; [cbn [whole_step]; by rewrite Ht|].
  intros _. eexists. split; [constructor|]. left. split; [done|]. exists vm. cbn.
  by apply list_lookup_insert_eq; eapply lookup_lt_Some.
Qed.

(** The worker's facts about its next access. *)
Lemma choice_facts s t arg conn pc :
  good s → chooses s t arg conn → wh_choice s !! t = Some (ChAccess pc) →
  ∃ n h, lb_current (tables (wh_state s)) !! 0%nat = Some n ∧ tables_ok (wh_log s) (tables (wh_state s)) h ∧
    route_ok (wh_log s) (tables (wh_state s)) (wh_epoch s) (h 0%nat) pc.
Proof.
  intros [(Hh & _ & r & Hr & Hv) _] Ht Hc.
  destruct (races_inv_reachable f (tables s0) r Hf (initial_image f mem stack s0 Hinit) Hr) as (h & H1 & _ & H2).
  destruct (view_chooses s r t arg conn _ Hh Hv Ht Hc) as (Hpc & _). destruct Hv as (V1 & _ & V3 & _).
  rewrite V1, V3, ?Hpc in *. cbn in H1, H2. destruct (slot_reads _ _ _ H1) as (n & _ & Hn & _). by exists n, h.
Qed.

(** An access brings the choice closer to its end. *)
Lemma access_next s t arg conn pc n :
  good s → chooses s t arg conn → wh_choice s !! t = Some (ChAccess pc) → lb_current (tables (wh_state s)) !! 0%nat = Some n →
  pc ≠ RtIdle → (∀ vm, pc ≠ RtDone vm) → (pc = RtTest → turn_ok (tables (wh_state s))) →
  no_place t s ∨ ∃ s' c, whole_step (XAccess t) s = Val (Some s') ∧ chooses s' t arg conn ∧ wh_choice s' !! t = Some c ∧
    lb_current (tables (wh_state s')) !! 0%nat = Some n ∧ (remaining_choice n c < remaining_choice n (ChAccess pc))%nat.
Proof.
  intros Hg Ht Hc Hn Hi Hd Hturn. destruct (choice_facts s t arg conn pc Hg Ht Hc) as (n' & h & Hn' & Hok & Hro).
  pose proof (route_step_ok _ _ h _ (arg_ip arg) pc Hok Hro Hturn) as Hnext.
  destruct (route_step (arg_ip arg) pc _) as [[pc' sh]| | |] eqn:E; cbn [route_next] in Hnext; [|done..|].
  - right. destruct Hnext as (_ & Hsame & _). pose proof (route_step_remaining _ _ _ _ n _ _ Hn E) as Hrem.
    exists (with_choice (<[t := next_choice pc pc']> (wh_choice s)) (with_shared sh s)), (next_choice pc pc').
    split; [|split; [exact Ht|split; [apply lookup_insert_eq|split]]].
    + cbn [whole_step]. unfold chooses in Ht. rewrite Ht. cbn [access_step]. unfold access_step. rewrite Hc.
      unfold shared_of. destruct pc; try done; [by rewrite E..|by destruct (Hd vm)].
    + cbn. destruct Hsame as (_ & -> & _). exact Hn.
    + destruct pc; try done; cbn [next_choice remaining_choice]; try lia. by destruct (Hd vm).
  - left. destruct Hnext as (_ & i & vm & ->). by exists i, vm.
Qed.

Lemma choice_leads k t s arg conn c n :
  good s → chooses s t arg conn → wh_choice s !! t = Some c → lb_current (tables (wh_state s)) !! 0%nat = Some n →
  (remaining_choice n c < k)%nat → leads t conn s.
Proof.
  revert s c. induction k as [|k IH]; intros s c Hg Ht Hc Hn Hk; [lia|]. pose proof Ht as Ht'. unfold chooses in Ht'.
  destruct c as [pc|pc].
  2: { eapply (leads_by (XSocket t true)); [done|done| |done|]; [cbn [whole_step]; rewrite Ht'; unfold socket_step; by rewrite Hc|].
       intros Hg'. apply (IH _ (ChAccess pc) Hg'); [exact Ht|cbn; by rewrite lookup_insert_eq|exact Hn|cbn in *; lia]. }
  assert (Haccess : pc ≠ RtIdle → (∀ vm, pc ≠ RtDone vm) → (pc = RtTest → turn_ok (tables (wh_state s))) → leads t conn s).
  { intros Hi Hd Hturn. destruct (access_next s t arg conn pc n Hg Ht Hc Hn Hi Hd Hturn) as [Hno|(s' & c & E & H1 & H2 & H3 & H4)].
    - exists s. split; [constructor|]. by right; right.
    - eapply (leads_by (XAccess t)); [|done|exact E|done|].
      + intros E'. rewrite Hc in E'. injection E' as ->. by apply Hturn.
      + intros Hg'. apply (IH s' c Hg'); [done..|lia]. }
  destruct pc as [| | | | | | | |vm]; try by apply Haccess.
  - by destruct (proj2 (proj2 Hg) t _ Hc).
  - destruct (decide (turn_ok (tables (wh_state s)))) as [|Hno]; [by apply Haccess|].
    exists s. split; [constructor|]. right; left. by split.
  - eapply (leads_by (XConnect t true 0 true)); [done|done| |done|]; [cbn [whole_step]; rewrite Ht'; unfold connect_step; by rewrite Hc|].
    intros Hg'. eapply unlock_leads; [exact Hg'|]. cbn. by apply list_lookup_insert_eq; eapply lookup_lt_Some.
Qed.

Lemma worker_leads t w s :
  good s → workers (wh_state s) !! t = Some w → worker_holds w = 1%nat → leads t (w_conn w) s.
Proof.
  assert (Hchoose : ∀ s arg conn, good s → chooses s t arg conn → leads t conn s).
  { intros s1 arg conn Hg Ht. destruct (proj1 (proj2 Hg) t arg conn Ht) as [c Hc].
    assert (∃ n, lb_current (tables (wh_state s1)) !! 0%nat = Some n) as [n Hn].
    { destruct Hg as [(_ & _ & r & Hr & Hv) _].
      destruct (races_inv_reachable f (tables s0) r Hf (initial_image f mem stack s0 Hinit) Hr) as (h & H1 & _).
      destruct Hv as (V1 & _). rewrite V1 in H1. destruct (slot_reads _ _ _ H1) as (n & _ & Hn & _). by exists n. }
    apply (choice_leads (S (remaining_choice n c)) t s1 arg conn c n); try done. lia. }
  intros Hg Ht Hw. destruct w as [pc conn]. unfold worker_holds in Hw. cbn in Hw.
  destruct pc as [|arg|arg vm| |]; try done.
  - eapply (leads_by (XWorker t LTau)); [done|done| |done|]; [cbn [whole_step]; by rewrite Ht|].
    intros Hg'. eapply Hchoose; [done|]. unfold chooses. cbn. by apply list_lookup_insert_eq; eapply lookup_lt_Some.
  - by eapply Hchoose.
  - by eapply unlock_leads.
Qed.

Lemma acceptor_leads s conn :
  good s → acceptor (wh_state s) = AFill conn ∨ acceptor (wh_state s) = ACreate conn →
  leads (length (workers (wh_state s))) conn s.
Proof.
  assert (Hcreate : ∀ s c, good s → acceptor (wh_state s) = ACreate c → leads (length (workers (wh_state s))) c s).
  { intros s1 c Hg1 E. eapply (leads_by (XMain (LCreate true))); [done|cbn; by rewrite E| |done|];
      [cbn [whole_step]; unfold acceptor_step; by rewrite E|].
    intros Hg'. eapply (worker_leads _ (Worker WStart c)); [done| |done]. cbn. by apply list_lookup_middle. }
  intros Hg [E|E]; [|by apply Hcreate].
  eapply (leads_by (XMain LTau)); [done|cbn; by rewrite E| |done|]; [cbn [whole_step]; unfold acceptor_step; by rewrite E|].
  intros Hg'. exact (Hcreate _ conn Hg' eq_refl).
Qed.

Lemma holder_leads s t conn : good s → holds_lock s t conn → leads t conn s.
Proof. intros Hg [(w & Ht & Hw & <-)|[-> H]]; [by eapply worker_leads|by apply acceptor_leads]. Qed.

(** The lock has one holder. *)
Lemma holder_exists s : good s → lb_mutex (wh_state s) = true → ∃ t conn, holds_lock s t conn.
Proof.
  intros [((I1 & _) & _) _] Hm. rewrite Hm in I1. cbn in I1.
  destruct (acceptor (wh_state s)) as [|c|c|c|c] eqn:E; cbn in I1;
    try (eexists _, _; right; split; [done|]; rewrite E; by eauto).
  all: destruct (sum_list_with_pos worker_holds (workers (wh_state s))) as (t & w & Ht & Hw); [lia|];
    exists t, (w_conn w); left; exists w; split; [done|]; split; [|done];
    pose proof (sum_list_with_lookup worker_holds _ _ _ Ht); lia.
Qed.

Lemma holder_one s t conn t' conn' : good s → holds_lock s t conn → holds_lock s t' conn' → t' = t ∧ conn' = conn.
Proof.
  intros [(Hh & _) _]. pose proof Hh as (I1 & _). assert (Hb : (Nat.b2n (lb_mutex (wh_state s)) <= 1)%nat) by (destruct (lb_mutex _); cbn; lia).
  assert (Hno : ∀ t w c, workers (wh_state s) !! t = Some w → worker_holds w = 1%nat →
    acceptor (wh_state s) = AFill c ∨ acceptor (wh_state s) = ACreate c → False).
  { intros t0 w c Ht Hw Hc. pose proof (sum_list_with_lookup worker_holds _ _ _ Ht).
    assert (acceptor_holds (acceptor (wh_state s)) = 1%nat) by (by destruct Hc as [-> | ->]). lia. }
  intros [(w & Ht & Hw & <-)|[-> H]] [(w' & Ht' & Hw' & <-)|[-> H']]; [|by exfalso; eapply Hno..|].
  - assert (t' = t) as -> by (by eapply holders_unique). rewrite Ht in Ht'. by injection Ht' as ->.
  - destruct H as [H|H], H' as [H'|H']; rewrite H in H'; by simplify_eq.
Qed.
End Release.

(** C6.  [mutex], which one thread locks and another unlocks, is not lost: in every
    state that a run of [calm_input] reaches and in which it is locked, it has one
    holder, a worker or the accepting thread about to create one, and steps of
    that thread alone lead to a state in which it is free and that very worker
    relays between the client the lock was taken for and a VM, unless there is no
    VM, or the turn is above the live ones, when the worker tests it
    ([Balancer.index_escapes]), or the client found no free place in the VM it was
    given. *)
Theorem lock_is_released f mem stack s0 s :
  (∀ k i, small (f k i)) → balancer_init (Some f) mem stack = Val s0 → rtc (wstep calm_input) (whole_init s0) s →
  lb_mutex (wh_state s) = true →
  ∃ t conn, holds_lock s t conn ∧ (∀ t' conn', holds_lock s t' conn' → t' = t ∧ conn' = conn) ∧
    ∃ s', rtc (wstep (of_holder t)) s s' ∧
      ((lb_mutex (wh_state s') = false ∧
        ∃ vm, workers (wh_state s') !! t = Some (Worker (WRelay conn vm relay_init) conn)) ∨
       bad_turn t s' ∨ no_place t s').
Proof.
  intros Hf Hi Hs Hm. pose proof (good_reachable f mem stack s0 Hf Hi s Hs) as Hg.
  destruct (holder_exists s0 s Hg Hm) as (t & conn & Ht). exists t, conn. split; [done|].
  split; [intros t' conn'; by apply (holder_one s0 s)|]. by apply (holder_leads f mem stack s0 Hf Hi).
Qed.

(** ** Witness *)

(** In [two_served] the second worker has the lock, and is about to call [socket]. *)
Lemma lock_is_released_witness :
  wh_choice two_served !! 1%nat = Some (ChSocket (RtLoop 0)) ∧
  ∃ t conn, holds_lock two_served t conn ∧ (∀ t' conn', holds_lock two_served t' conn' → t' = t ∧ conn' = conn) ∧
    ∃ s', rtc (wstep (of_holder t)) two_served s' ∧
      ((lb_mutex (wh_state s') = false ∧
        ∃ vm, workers (wh_state s') !! t = Some (Worker (WRelay conn vm relay_init) conn)) ∨
       bad_turn t s' ∨ no_place t s').
Proof.
  split; [vm_compute; reflexivity|].
  apply (lock_is_released raw (replicate 28 0) stack0 start two_served raw_small eq_refl two_clients_reachable).
  vm_compute. reflexivity.
Defined.
