(* ===== verification/Startup.v ===== *)
(** * Start-up of the two servers: main of controller/server.c and controller/balancer.c

    What the programs do before their accept loops: arguments, listening sockets,
    tables, the peers, the connection between the two.  The state a start-up ends
    with is the initial state of Server.v, Broadcast.v, Leader.v and Dispatch.v. *)
From S2P Require Import Registry CFloat Scanf SockHelp Timer Broadcast Leader Protocol Groups Server Client Balancer Dispatch.
From stdpp Require Import list.
Open Scope Z_scope.

(** ** Listening sockets; the same function in server.c and client.c *)
Definition start_server (socket_ok bind_ok listen_ok : bool) : outcome unit :=
  if socket_ok then if bind_ok then if listen_ok then mret tt else Exit 1 else Exit 1 else Exit 1.

(** broadcast.c, the start of [initialize_broadcast] *)
Definition start_server_dgram (socket_ok bind_ok : bool) : outcome unit :=
  if socket_ok then if bind_ok then mret tt else Exit 1 else Exit 1.

(** ** server.c *)
Record ports := Ports { port_vms : Z; port_balancer : Z; ml_model_number : Z }.

Definition server_args (argv : list (list Z)) : outcome ports :=
  match argv with
  | [_; p; q; m] => if atoi p =? atoi q then Exit 1 else mret (Ports (atoi p) (atoi q) (atoi m))
  | _ => Exit 1
  end.

(** The answers of the environment; [controllers_list] are the lines of [PATH]
    with the results of [make_connection] for each. *)
Record server_boot := ServerBoot {
  listen_vms : bool * bool * bool;
  listen_balancer : bool * bool * bool;
  udp_socket : bool * bool;
  controllers_list : option (list (list Z * list Z));
  boot_time : timeval;
  accept_ok : bool; create_ok : bool; eax : Z
}.

(** The state of the three parts of a controller. *)
Record controller := Controller { c_server : server; c_leader : leader; c_bcast : bcast leader; c_ports : ports }.

(** [None]: still connecting to a peer. *)
Definition server_main (argv : list (list Z)) (fresh : Z → Z → vm_data) (rates : Z → f32) (e : server_boot)
    : outcome (option controller) :=
  p ← server_args argv;
  _ ← start_server (listen_vms e).1.1 (listen_vms e).1.2 (listen_vms e).2;
  _ ← start_server (listen_balancer e).1.1 (listen_balancer e).1.2 (listen_balancer e).2;
  _ ← start_server_dgram (udp_socket e).1 (udp_socket e).2;
  ob ← initialize_broadcast (controllers_list e) bcast_globals;
  match ob with
  | None => mret None
  | Some b =>
      '(l, b) ← initialize_leader (boot_time e) (Z.of_nat ∘ length <$> controllers_list e) leader_globals b;
      _ ← main_balancer (accept_ok e) (create_ok e) (eax e);
      mret (Some (Controller (server_init fresh rates) l b p))
  end.

(** ** balancer.c

    [argv1] is the address of the first argument as a number, which [atoport]
    prints as an [int]; its result goes through a [short] into [sin_port]. *)
Definition balancer_port_number (getservbyname : list Z → option Z) (argv1 : Z) : Z :=
  atoport getservbyname argv1 mod 2 ^ 16.

Record balancer_boot := BalancerBoot {
  controller_socket : bool; controller_connect : bool;
  clients_socket : bool; clients_bind : bool;
  argv1 : Z
}.

(** The state, and the port in network order. *)
Definition balancer_main (getservbyname : list Z → option Z) (argv : list (list Z)) (fresh : option (Z → Z → lb_vm))
    (mem : list Z) (stack : arg_thread) (e : balancer_boot) : outcome (balancer * Z) :=
  match argv with
  | [_; _; _; _] =>
      if controller_socket e then
        s ← balancer_init fresh mem stack;
        if controller_connect e then
          if clients_socket e then
            if clients_bind e then mret (s, balancer_port_number getservbyname (argv1 e)) else Exit 1
          else Exit 1
        else Exit 1
      else Exit 1
  | _ => Exit 1
  end.

(** ** Properties *)

(** Registering the two callbacks of leader.c. *)
Lemma initialize_leader_registers now n b ps :
  registered b [] → table_ok b ps → is_u32 n →
  ∃ l b', initialize_leader now (Some n) leader_globals b = Val (l, b') ∧ controllers l = n ∧ table_ok b' ps ∧
    registered b' [(LEADER_HEARTBEAT, leader_heartbeat_cb); (LEADER_PROPOSE, leader_propose_cb)].
Proof.
  intros Hr Ht Hn. unfold initialize_leader.
  destruct (register_callback_spec b [] LEADER_HEARTBEAT leader_heartbeat_cb Hr) as [H1 _].
  destruct H1 as (b1 & -> & Hr1 & Hs1 & Hc1 & Hl1); [cbn; lia|]. cbn [mbind outcome_bind].
  destruct (register_callback_spec b1 _ LEADER_PROPOSE leader_propose_cb Hr1) as [H2 _].
  destruct H2 as (b2 & -> & Hr2 & Hs2 & Hc2 & Hl2); [cbn; lia|]. cbn [mbind outcome_bind mret outcome_ret].
  eexists _, b2. split; [reflexivity|]. cbn [controllers leader_globals]. rewrite Z.add_0_l. split; [by apply u32_id|].
  split; [|done]. unfold table_ok in *. by rewrite Hl2, Hl1, Hs2, Hs1, Hc2, Hc1.
Qed.

(** A controller that gets through its start-up is in the initial state of
    the threads, with a well-formed table of VMs, on two different ports; its
    table of peers and the number of controllers the leader election expects come
    from the same file and agree, and the two callbacks of the election are the
    registered ones. *)
Theorem controller_starts argv fresh rates e ls c :
  controllers_list e = Some (map line_input ls) → Forall line_ok ls → (length ls <= 32)%nat →
  server_main argv fresh rates e = Val (Some c) →
  c_server c = server_init fresh rates ∧ groups_ok (tbl (c_server c)) ∧ port_vms (c_ports c) ≠ port_balancer (c_ports c) ∧
  table_ok (c_bcast c) (map line_peer ls) ∧ controllers (c_leader c) = last_controller_socket (c_bcast c) ∧
  registered (c_bcast c) [(LEADER_HEARTBEAT, leader_heartbeat_cb); (LEADER_PROPOSE, leader_propose_cb)].
Proof.
  intros Hf Hls Hlen H. unfold server_main in H. apply outcome_bind_Val in H as (p & Hp & H).
  do 3 (apply outcome_bind_Val in H as (? & _ & H)). rewrite Hf in H. cbn [fmap option_fmap option_map compose initialize_broadcast] in H.
  destruct (initialize_broadcast_from_spec (S := leader) ls bcast_globals [] building_globals Hls) as (b & E & Ht & Hc & _ & Hl);
    [cbn; lia|]. change (Z.of_nat (length [])) with 0 in E. rewrite E in H. cbn [mbind outcome_bind] in H.
  rewrite length_map in H.
  destruct (initialize_leader_registers (boot_time e) (Z.of_nat (length ls)) b (map line_peer ls)) as (l & b' & E' & Hn & Ht' & Hr').
  - split; [by rewrite Hl|by rewrite Hc].
  - done.
  - unfold is_u32. lia.
  - rewrite E' in H. cbn [mbind outcome_bind] in H. apply outcome_bind_Val in H as (? & _ & H). injection H as <-.
    cbn [c_server c_leader c_bcast c_ports]. split; [done|]. split; [apply init_groups_ok|]. split.
    + unfold server_args in Hp. destruct argv as [|a0 [|a1 [|a2 [|a3 [|]]]]]; try discriminate Hp.
      destruct (Z.eqb_spec (atoi a1) (atoi a2)); [discriminate Hp|]. by injection Hp as <-.
    + split; [done|]. split; [|done]. destruct Ht' as (-> & _). by rewrite Hn, length_map.
Qed.

(** The balancer never looks at the text of its port argument: unless the
    low half of the argument's address happens to be a port number or to name a
    service, it binds the port 65535, whatever was typed. *)
Theorem balancer_ignores_its_port getservbyname argv fresh mem stack e s port :
  getservbyname (sprintf_d (s32 (argv1 e))) = None → s32 (argv1 e) < 1 ∨ 65535 < s32 (argv1 e) →
  balancer_main getservbyname argv fresh mem stack e = Val (s, port) →
  ntohs port = 65535 ∧ ∀ argv', length argv' = length argv →
    balancer_main getservbyname argv' fresh mem stack e = Val (s, port).
Proof.
  intros Hn Hr H. assert (Hport : balancer_port_number getservbyname (argv1 e) = 65535).
  { unfold balancer_port_number, atoport. rewrite Hn, (strtol0_sprintf_d _ (s32_range _)).
    assert (negb (bool_decide ((@nil Z) = [])) || (s32 (argv1 e) <? 1) || (65535 <? s32 (argv1 e)) = true) as ->; [|done].
    apply orb_true_iff. destruct Hr; [left; apply orb_true_iff; right|right]; by apply Z.ltb_lt. }
  destruct argv as [|? [|? [|? [|? []]]]]; try discriminate H. split.
  - unfold balancer_main in H. destruct (controller_socket e); [|discriminate H].
    apply outcome_bind_Val in H as (st & _ & H). destruct (controller_connect e), (clients_socket e), (clients_bind e); try discriminate H.
    rewrite Hport in H. by injection H as _ <-.
  - intros argv' Hl. by destruct argv' as [|? [|? [|? [|? []]]]].
Qed.

(** ** Witnesses *)
Definition boot_ok : server_boot :=
  ServerBoot (true, true, true) (true, true, true) (true, true) (Some (map line_input two_lines)) (Timeval 1000 0) true true 0.

Lemma controller_starts_witness :
  ∃ c, server_main [chars "server"; chars "8000"; chars "8001"; chars "1"] (λ _ _, blank 7) (λ _, zero) boot_ok = Val (Some c) ∧
    controllers (c_leader c) = 2 ∧ last_controller_socket (c_bcast c) = 2 ∧ port_vms (c_ports c) = 8000.
Proof.
  destruct (server_main [chars "server"; chars "8000"; chars "8001"; chars "1"] (λ _ _, blank 7) (λ _, zero) boot_ok)
    as [[c|]|k| |f] eqn:E; try (vm_compute in E; discriminate E).
  destruct (controller_starts _ _ _ boot_ok two_lines c eq_refl two_lines_ok ltac:(simpl; lia) E) as (_ & _ & _ & Ht & He & _).
  exists c. split; [reflexivity|]. rewrite He. destruct Ht as (-> & _). split; [reflexivity|]. split; [reflexivity|].
  vm_compute in E. injection E as <-. reflexivity.
Defined.


Definition no_vm : Z → Z → lb_vm := λ _ _, LbVm [] 0 [].

(** The arguments of a process on x86-64 are near 2^47. *)
Lemma balancer_ignores_its_port_witness :
  ∃ s, balancer_main (λ _, None) [chars "balancer"; chars "8080"; chars "10.0.0.1"; chars "8001"] (Some no_vm) [] (ArgThread 0 [] 0)
         (BalancerBoot true true true true 140736700000000) = Val (s, 65535).
Proof.
  eexists. apply (balancer_ignores_its_port (λ _, None) [chars "b"; chars "80"; chars "c"; chars "1"] (Some no_vm) [] (ArgThread 0 [] 0)
    (BalancerBoot true true true true 140736700000000) _ 65535); [reflexivity| |reflexivity|reflexivity].
  vm_compute. tauto.
Defined.
