(* ===== verification/Pipeline.v ===== *)
(** * From the controller to the load balancer

    The controller's threads (Server.v), the 28-byte structs on the connection
    (Protocol.v) and the thread of the load balancer that reads them
    (Balancer.v), put together against the abstract table of Registry.v. *)
From S2P Require Import Prelude Registry CFloat Protocol SockHelp Balancer Groups Server.
Open Scope Z_scope.

(** ** The connection

    [rs] are the results of the balancer's [recv]s when each of them gets one of
    the controller's [send]s whole; the bytes after the terminator of the
    address are whatever the sender's struct held. *)
Definition carries (ms : list virtual_machine) (rs : list rres) : Prop :=
  Forall2 (λ m r, ∃ old, length old = 16%nat ∧ r = RData (encode_vm old m)) ms rs.

(** The loop of [controller_thread]. *)
Fixpoint controller_loop (fresh : lb_memory) (rs : list rres) (st : list Z * lb) : outcome (list Z * lb) :=
  match rs with
  | [] => mret st
  | r :: rs => st ← controller_turn fresh r st; controller_loop fresh rs st
  end.

(** What [controller_thread] can act on and [encode_vm] can carry. *)
Definition wire_message (m : virtual_machine) : Prop := vm_message m ∧ valid_message m.

Lemma controller_turn_message fresh old m mem b :
  length old = 16%nat → vm_message m →
  controller_turn fresh (RData (encode_vm old m)) (mem, b)
    = (_ ← string16 (ip m); b' ← controller_message fresh m b; mret (encode_vm old m ++ drop 28 mem, b')).
Proof.
  intros Ho Hm. unfold controller_turn. destruct (decode_encode_vm old m (drop 28 mem) Ho Hm) as [Hl Hd].
  unfold recv_into. rewrite take_ge by lia. by rewrite Hl, Hd.
Qed.

(** Reading the structs is running the messages. *)
Lemma controller_loop_messages f ms rs mem b b' :
  carries ms rs → Forall wire_message ms → messages (plenty f) ms b = Val b' →
  ∃ mem', controller_loop (plenty f) rs (mem, b) = Val (mem', b').
Proof.
  intros Hc. revert mem b. induction Hc as [|m r ms rs (old & Ho & ->) _ IH]; intros mem b Hms; cbn [messages controller_loop].
  - intros [= <-]. by exists mem.
  - apply Forall_cons_1 in Hms as [[Hm [_ Hip]] Hms]. rewrite controller_turn_message by done.
    unfold string16. rewrite decide_True by done. cbn [mbind outcome_bind].
    intros H. apply outcome_bind_Val in H as (b1 & -> & H). cbn [mbind outcome_bind mret outcome_ret]. by apply IH.
Qed.

(** ** What the controller posts

    [P] holds of the addresses [accept] gives to [inet_ntoa]. *)
Section Addresses.
Variable P : list Z → Prop.

Definition good_address (e : event) : Prop :=
  match e with EMain (AClient _ _ _ addr _ _) => P addr | _ => True end.

(** Threads can be created, addresses are good, and the balancer's connection is up. *)
Definition delivers (e : event) : Prop :=
  creates e ∧ good_address e ∧ match e with EBal (ASend false) => False | _ => True end.

Definition has_address (v : vm_data) : Prop := P (ip_address v).
Definition main_address (p : main_pc) : Prop :=
  match p with
  | MAccept => True
  | MLock c | MAdd c | MPost c _ | MWrite c _ | MFlag c _ | MCreate c _ => P (c_ip c)
  end.
Definition comm_address (c : comm) : Prop := match c_pc c with CStart _ _ => True | _ => has_address (c_vm c) end.

Definition posted (m : virtual_machine) : Prop :=
  P (ip m) ∧ port m = vm_port ∧ (∃ k : nat, (k < 3)%nat ∧ vm_srv m = Z.of_nat k) ∧ (op m = ADD ∨ leaving (op m)).

Definition address_inv (s : server) : Prop :=
  (∀ k, Forall has_address (live (tbl s) k)) ∧ main_address (main s) ∧ Forall comm_address (comms s) ∧
  Forall posted (posts (trace s)).

Lemma remove_ip_Forall (Q : vm_data → Prop) a l : Forall Q l → Forall Q (remove_ip a l).
Proof.
  intros H. unfold remove_ip. destruct (list_find _ l) as [[i v]|] eqn:E; [|done].
  apply list_find_Some in E as (Hi & _). pose proof (swap_remove_perm i l v Hi) as Hp.
  rewrite <-Hp in H. by apply Forall_cons_1 in H as [_ ?].
Qed.

Lemma activate_first_Forall (Q : vm_data → Prop) l :
  (∀ v, Q v → Q (set_state ACTIVE v)) → Forall Q l → Forall Q (activate_first l).
Proof.
  intros HQ H. unfold activate_first. destruct (list_find _ l) as [[i v]|] eqn:E; [|done].
  apply list_find_Some in E as (Hi & _). apply Forall_insert; [done|]. apply HQ. by eapply Forall_lookup_1.
Qed.

Lemma live_same_but (Q : vm_data → Prop) g g' k :
  (∀ k, Forall Q (live g k)) → same_but k g g' → Forall Q (live g' k) → ∀ k', Forall Q (live g' k').
Proof. intros H Hs Hk k'. destruct (decide (k' = k)) as [->|Hne]; [done|]. by rewrite (Hs k' Hne). Qed.

Lemma datapoint_address bs c c' : on_datapoint bs c = Val c' → has_address (c_vm c) → comm_address c'.
Proof.
  unfold on_datapoint. intros (buf & _ & E)%outcome_bind_Val H. injection E as <-.
  assert (has_address (c_vm (with_datapoint buf c))) as Hd.
  { unfold with_datapoint. by destruct (c_flag c =? 0); destruct (last_system_features_stored (c_vm _) =? 0). }
  unfold comm_address. by destruct (c_pc (with_datapoint buf c)).
Qed.

Lemma posts_quiet t o : match o with OPost _ => False | _ => True end → posts (t ++ [o]) = posts t.
Proof. intros Ho. rewrite posts_app. by destruct o; cbn; rewrite ?app_nil_r. Qed.

Lemma message_posted v o :
  has_address v → (∃ k : nat, (k < 3)%nat ∧ group_of v = Z.of_nat k) → leaving o → posted (message v o).
Proof. intros Hv Hg Ho. split; [done|]. split; [done|]. split; [done|by right]. Qed.

(** The same call has been evaluated: its result is the one of [E]. *)
Ltac known_result E :=
  match type of E with ?call = Val _ =>
    match goal with H : call = Val _ |- _ => lazymatch H with E => fail | _ => rewrite E in H; injection H as <- end end
  end.

Lemma address_inv_comm m t c a s s' :
  comms s !! t = Some c → comm_step m t c a s = Val (Some s') →
  table_inv s → mail_inv s → address_inv s → address_inv s'.
Proof.
  intros Ht H (T1 & _ & _ & T4) (_ & Hmail) (A1 & A2 & A3 & A4).
  pose proof (Forall_lookup_1 _ _ _ _ T4 Ht) as Hok. pose proof (Forall_lookup_1 _ _ _ _ A3 Ht) as Hc.
  pose proof (Forall_lookup_1 _ _ _ _ Hmail Ht) as Hm.
  unfold comm_ok, comm_address, comm_mail in Hok, Hc, Hm. unfold comm_step in H.
  destruct (c_pc c) eqn:Hpc, a; try discriminate H.
  1: { destruct (slot_ok_read _ _ _ T1 Hok) as (slots & v & Hs & Hv & k & Hk & _ & _ & Hin). rewrite Hs in H.
       cbn [mbind outcome_bind] in H. rewrite Hv in H. injection H as <-. split; [done|]. split; [done|]. split; [|done].
       apply Forall_insert; [done|]. pose proof (A1 k) as Hl. rewrite Forall_forall in Hl. by apply Hl. }
  all: destruct Hok as (k & Hk & Hg).
  all: step_cases H; injection H as <-; unfold address_inv; state_simpl; rewrite ?posts_quiet by done.
  all: try (split; [done|]; split; [done|]; split; [|done]; apply Forall_insert; [done|]; first [exact Hc | by eapply datapoint_address]).
  - (* the switch *)
    destruct (switch_active_machine_spec (c_vm c) (tbl s) k T1 Hk Hg) as (g' & E & _ & Hl & Hsame & _).
    known_result E. split; [|split; [done|]; split; [by apply Forall_insert|done]].
    eapply live_same_but; [done|exact Hsame|]. cbn [fst]. rewrite Hl. by apply activate_first_Forall.
  - destruct (manage_disconnected_vms_spec (c_vm c) (tbl s) k T1 Hk Hg) as (g' & E & _ & Hl & Hsame & _).
    known_result E. split; [|split; [done|]; split; [by apply Forall_insert|done]].
    eapply live_same_but; [done|exact Hsame|]. rewrite Hl. by apply remove_ip_Forall.
  - (* a post of DELETE *)
    destruct Hm as [Hleave Hv]. split; [done|]. split; [done|]. split; [by apply Forall_insert|].
    rewrite posts_app. apply Forall_app. split; [done|]. apply Forall_singleton. rewrite Hv. apply message_posted; [done|by exists k|done].
  - (* a post of REJ *)
    destruct Hm as [Hleave Hv]. split; [done|]. split; [done|]. split; [by apply Forall_insert|].
    rewrite posts_app. apply Forall_app. split; [done|]. apply Forall_singleton. rewrite Hv. apply message_posted; [done|by exists k|done].
  - destruct (manage_disconnected_vms_spec (c_vm c) (tbl s) k T1 Hk Hg) as (g' & E & _ & Hl & Hsame & _).
    known_result E. split; [|split; [done|]; split; [by apply Forall_insert|done]].
    eapply live_same_but; [done|exact Hsame|]. rewrite Hl. by apply remove_ip_Forall.
Qed.

Lemma address_inv_main a s s' :
  good_address (EMain a) → main_step a s = Val (Some s') → table_inv s → mail_inv s → address_inv s → address_inv s'.
Proof.
  intros Hgood H (T1 & _ & T3 & _) (Hm & _) (A1 & A2 & A3 & A4). unfold main_step in H.
  destruct (main s) as [|c|c|c i|c i|c i|c i] eqn:Hpc, a; try discriminate H; step_cases H; injection H as <-; unfold address_inv.
  1, 2: match goal with |- context [closes ?k ?n ?st] =>
      destruct (closes_same k n st) as (E1 & _ & _ & _ & _ & _ & E4 & _ & E5 & E6 & _) end;
    state_simpl; rewrite ?E1, ?E4, ?E5, ?E6, ?Hpc; by split_and!.
  all: state_simpl; cbn [main_address] in *; rewrite ?posts_quiet by done; try (by split_and!).
  1, 2: destruct T3 as (k & Hk & Hc);
    destruct (register_spec c mem (tbl s) k T1 Hk Hc) as [(g1 & f & st & E & _ & Hl & Hsame)|[[E _]|[E _]]]; [|congruence..];
    known_result E; cbn [fst snd]; (split; [|done]);
    (eapply live_same_but; [exact A1|exact Hsame|]); rewrite Hl; apply Forall_app; (split; [done|]); by apply Forall_singleton.
  - destruct Hm as [_ Hv]. split; [done|]. split; [done|]. split; [done|].
    rewrite posts_app. apply Forall_app. split; [done|]. apply Forall_singleton. rewrite Hv. split; [done|].
    split; [done|]. destruct T3 as (k & n & Hk & Hs & _). split; [by exists k|by left].
  - split; [done|]. split; [done|]. split; [|done]. apply Forall_app. split; [done|]. by apply Forall_singleton.
Qed.

Lemma delivers_creates m s s' : sstep m delivers s s' → sstep m creates s s'.
Proof. intros (e & (Hc & _) & H). by exists e. Qed.

Lemma address_inv_step m s s' :
  sstep m delivers s s' → table_inv s → mail_inv s → address_inv s → address_inv s'.
Proof.
  intros ([a|t a|a|] & (_ & Hgood & _) & H) Ht Hm Ha; cbn [server_step] in H.
  - by eapply address_inv_main.
  - destruct (comms s !! t) as [c|] eqn:E; [|discriminate]. by eapply address_inv_comm.
  - destruct Ha as (A1 & A2 & A3 & A4). unfold bal_step in H. destruct (bal s), a; try discriminate H; injection H as <-;
      try case_match; unfold address_inv; state_simpl; rewrite ?posts_quiet by done; by split_and!.
  - apply mttf_same in H as (E1 & _ & _ & _ & _ & E2 & _ & E3 & _ & _ & E4 & _). unfold address_inv in *. by rewrite E1, E2, E3, E4.
Qed.

Lemma delivers_reachable m fresh rates s :
  rtc (sstep m delivers) (server_init fresh rates) s →
  rtc (sstep m creates) (server_init fresh rates) s ∧ address_inv s.
Proof.
  intros Hr.
  apply (rtc_invariant (sstep m delivers) (λ s, rtc (sstep m creates) (server_init fresh rates) s ∧ address_inv s)
    (server_init fresh rates) s); [|split|exact Hr].
  - intros x y [Hx Ha] Hxy. pose proof (delivers_creates m x y Hxy). split; [by eapply rtc_r|].
    destruct (inv_reachable m fresh rates x Hx) as [_ Ht]. apply (address_inv_step m x y Hxy Ht); [|done].
    by apply (mail_inv_reachable m fresh rates).
  - done.
  - split; [|by split_and!]. intros [|[|[|k]]]; constructor.
Qed.
End Addresses.

(** ** Property *)

(** What [inet_ntoa] returns: at most fifteen characters before the terminator. *)
Definition dotted_quad (a : list Z) : Prop := (length a <= 15)%nat ∧ Forall (λ c, c ≠ 0) a.

Lemma posted_wire m : posted dotted_quad m → wire_message m.
Proof.
  intros ([Hl Hn] & Hp & (k & Hk & Hs) & Ho). split; [|split; [by exists k|lia]]. split; [done|]. split; [done|].
  rewrite Hp, Hs. unfold leaving, ADD, DELETE, REJ, is_s32, is_u32, vm_port in *. lia.
Qed.

(** C4.  End to end: in every state of the controller that is reached while
    [pthread_create] and the [send]s to the balancer succeed, if the balancer has
    read the structs sent so far, each whole in one [recv], and no [malloc] or
    [realloc] fails there, its table is well-formed and holds exactly the endpoints
    that the messages sent so far ask for; the messages posted so far are these and
    at most one that is still in the mailbox. *)
Theorem balancer_follows_controller m fresh rates s f b0 mem rs :
  rtc (sstep m (delivers dotted_quad)) (server_init fresh rates) s →
  create_system_image (Some f) = Val b0 → carries (sends (trace s)) rs →
  Z.of_nat (length (sends (trace s))) <= 2 ^ 30 →
  ∃ mem' b, controller_loop (plenty (f 0)) rs (mem, b0) = Val (mem', b) ∧ lb_ok b ∧
    lb_view b ≡ᵣ registry_run (sends (trace s)) empty_registry ∧
    posts (trace s) = sends (trace s) ++ pending s ∧ (length (pending s) <= 1)%nat.
Proof.
  intros Hr Hb Hc Hlen. destruct (delivers_reachable dotted_quad m fresh rates s Hr) as [Hr' (_ & _ & _ & Hposts)].
  destruct (lock_inv_reachable m fresh rates s Hr') as (_ & _ & _ & Hp).
  assert (Hwire : Forall wire_message (sends (trace s))).
  { rewrite Hp, Forall_app in Hposts. destruct Hposts as [H _]. eapply Forall_impl; [exact H|]. apply posted_wire. }
  destruct (startup_refines f (sends (trace s)) b0 Hb) as (b & E & Hok & Hv); [|done|].
  { eapply Forall_impl; [exact Hwire|]. by intros m' [_ ?]. }
  destruct (controller_loop_messages (f 0) _ rs mem b0 b Hc Hwire E) as (mem' & E').
  exists mem', b. split_and!; try done. unfold pending. by destruct (bal s), (state_man_vm s =? 1); cbn; lia.
Qed.

(** ** Witness *)
Definition delivers_bool (e : event) : bool :=
  match e with
  | EMain (ACreate ok _ _ _) => ok
  | EMain (AClient _ _ _ addr _ _) => (length addr <=? 15)%nat && forallb (λ c, negb (c =? 0)) addr
  | EBal (ASend ok) => ok
  | _ => true
  end.

Lemma delivers_run es :
  forallb delivers_bool es = true → Forall (delivers dotted_quad) es.
Proof.
  induction es as [|e es IH]; [constructor|]. cbn [forallb]. intros [H1 H2]%andb_true_iff.
  constructor; [|by apply IH]. unfold delivers, creates, good_address.
  destruct e as [[]|t a|[]|]; cbn in H1; split_and!; try done; try (by rewrite H1 || by subst); try (by destruct ok).
  apply andb_true_iff in H1 as [H1%Nat.leb_le H3]. split; [done|].
  apply Forall_forall. intros c Hc. rewrite forallb_forall in H3. apply list_elem_of_In in Hc.
  specialize (H3 c Hc). by apply negb_true_iff, Z.eqb_neq in H3.
Qed.

(** A VM arrives and fails, another one arrives. *)
Definition relayed_run : list event :=
  arrival 1 ACTIVE 10 [49; 46; 50] 0 ++ delivery ++ arrival 1 ACTIVE 11 [49; 46; 51] 1 ++ delivery ++
  failing_datapoint 0 ++ delivery.

Definition relayed : list virtual_machine :=
  [VirtualMachine [49; 46; 50] vm_port 1 ADD; VirtualMachine [49; 46; 51] vm_port 1 ADD;
   VirtualMachine [49; 46; 50] vm_port 1 REJ].

Lemma balancer_follows_controller_witness :
  ∃ mem' b, controller_loop (plenty (raw 0)) (map (λ m, RData (encode_vm (replicate 16 88) m)) relayed)
      (replicate 28 0, base []) = Val (mem', b) ∧
    lb_view b 1%nat = {[+ ([49; 46; 51], vm_port) +]} ∧ lb_view b 0%nat = ∅.
Proof.
  assert (Hs : sends (trace (after relayed_run)) = relayed) by (vm_compute; reflexivity).
  assert (Hr : rtc (sstep 0 (delivers dotted_quad)) start_state (after relayed_run)).
  { unfold after. destruct (run_events 0 relayed_run start_state) as [s|] eqn:E; [|vm_compute in E; discriminate E].
    apply (run_events_rtc 0 _ relayed_run); [apply delivers_run; vm_compute; reflexivity|exact E]. }
  destruct (balancer_follows_controller 0 _ _ (after relayed_run) raw (base []) (replicate 28 0)
    (map (λ m, RData (encode_vm (replicate 16 88) m)) relayed) Hr eq_refl) as (mem' & b & E & _ & Hv & _).
  - rewrite Hs. unfold carries. apply Forall2_fmap_r, Forall_Forall2_diag, Forall_true. intros x. exists (replicate 16 88). split; reflexivity.
  - rewrite Hs. simpl. lia.
  - exists mem', b. split; [exact E|]. rewrite Hs in Hv. split.
    + rewrite (Hv 1%nat ltac:(lia)). apply (bool_decide_unpack _). vm_compute. exact I.
    + rewrite (Hv 0%nat ltac:(lia)). apply (bool_decide_unpack _). vm_compute. exact I.
Defined.
