(* ===== verification/EndToEnd.v ===== *)
(** * The controller and the load balancer, running together

    The threads of the controller (Server.v) and those of the load balancer,
    access by access (Interleaved.v), with the connection between them: a
    reliable stream of the 28-byte structs, of which each [recv] of the balancer
    gets one whole, at any time after it was sent.  Pipeline.v says what the
    balancer's table holds when it has read everything alone; here the messages
    are read while clients are connected. *)
From S2P Require Import Prelude CFloat Groups Server Protocol SockHelp Balancer Registry Relay Sessions Dispatch Races Quiescent Interleaved Pipeline.
Open Scope Z_scope.

(** ** The system *)
Record system := System { controller : server; load_balancer : whole; delivered : nat }.

Inductive system_input :=
  | SController (e : event)
  | SBalancer (x : whole_input)
  | SDeliver (old : list Z).   (* a [recv]; [old] is what the sender's struct held after the terminator *)

Definition system_step (ml_model : Z) (e : system_input) (s : system) : outcome (option system) :=
  match e with
  | SController e => c ←? server_step ml_model e (controller s); Val (Some (System c (load_balancer s) (delivered s)))
  | SBalancer (XRecv _) => Val None
  | SBalancer x => b ←? whole_step x (load_balancer s); Val (Some (System (controller s) b (delivered s)))
  | SDeliver old =>
      match sends (trace (controller s)) !! delivered s with
      | Some m => b ←? recv_step (RData (encode_vm old m)) (load_balancer s);
                  Val (Some (System (controller s) b (S (delivered s))))
      | None => Val None
      end
  end.

(** ** Who is announced

    [A] holds of the clients that complete the handshake as active. *)
Section Accepted.
Variable A : client → Prop.

Definition admits (e : event) : Prop :=
  match e with
  | EMain (AClient first turns mem addr sock prt) =>
      ∀ srv n, handshake mem first turns = HsClient srv n → state srv = ACTIVE → A (Client sock addr prt srv)
  | _ => True
  end.

Definition main_client (p : main_pc) : option client :=
  match p with
  | MAccept => None
  | MLock c | MAdd c | MPost c _ | MWrite c _ | MFlag c _ | MCreate c _ => Some c
  end.

Definition announced (m : virtual_machine) : Prop := op m = ADD → ∃ c, A c ∧ m = announcement c.

Definition accepted_inv (s : server) : Prop :=
  (∀ c, main_client (main s) = Some c → state (c_service c) = ACTIVE → A c) ∧ Forall announced (posts (trace s)).

Lemma main_client_step m e s s' :
  server_step m e s = Val (Some s') → main_client (main s') = main_client (main s) ∨ main_client (main s') = None ∨
  ∃ first turns mem addr sock prt srv n, e = EMain (AClient first turns mem addr sock prt) ∧
    handshake mem first turns = HsClient srv n ∧ main s' = MLock (Client sock addr prt srv).
Proof.
  intros H. destruct e as [a|t a|a|]; cbn [server_step] in H.
  - unfold main_step in H. destruct (main s) as [|c|c|c i|c i|c i|c i] eqn:E, a; try discriminate H; step_cases H;
      injection H as <-; state_simpl; try (by left); try (by right; left).
    + match goal with |- context [Server.closes ?k ?n ?st] => destruct (closes_same k n st) as (_ & _ & _ & _ & _ & _ & E4 & _) end.
      rewrite E4, E. by left.
    + right; right. by eexists _, _, _, _, _, _, _, _.
  - destruct (comms s !! t) as [c|]; [|discriminate]. left. by destruct (comm_step_shape _ _ _ _ _ _ H) as (_ & _ & -> & _).
  - unfold bal_step in H. destruct (bal s), a; try discriminate H; injection H as <-; try case_match; by left.
  - left. by apply mttf_same in H as (_ & _ & _ & _ & _ & -> & _).
Qed.

Lemma accepted_step m e s s' :
  mail_inv s → admits e → server_step m e s = Val (Some s') → accepted_inv s → accepted_inv s'.
Proof.
  intros Hmail Ha H [A1 A2]. split.
  - intros c Hc Hs. destruct (main_client_step m e s s' H) as [E|[E|(first & turns & mem & addr & sock & prt & srv & n & -> & Eh & E)]];
      rewrite E in Hc; [by apply A1|done|]. injection Hc as <-. by eapply Ha.
  - destruct (step_posts m s e s' Hmail H) as [->|(msg & -> & Hmsg)]; [done|]. apply Forall_app. split; [done|].
    apply Forall_singleton. intros Hop.
    destruct Hmsg as [(t & c & o & _ & _ & Hl & ->)|(c & i & _ & Hpc & Hst & ->)].
    + cbn in Hop. subst o. unfold leaving, ADD, REJ, DELETE in Hl. lia.
    + exists c. split; [|done]. apply A1; [by rewrite Hpc|done].
Qed.
End Accepted.

(** What has been sent stays sent. *)
Lemma sends_grow m e s s' : server_step m e s = Val (Some s') → ∃ l, sends (trace s') = sends (trace s) ++ l.
Proof.
  assert (Hsend : ∀ o t, ∃ l, sends (t ++ [o]) = sends t ++ l) by (intros o t; rewrite sends_app; by eexists).
  assert (Hsame : ∀ t, ∃ l, sends t = sends t ++ l) by (intros t; exists []; by rewrite app_nil_r).
  intros H. destruct e as [a|t a|a|]; cbn [server_step] in H.
  - unfold main_step in H. destruct (main s), a; try discriminate H; step_cases H; injection H as <-; state_simpl; auto.
    all: match goal with |- context [Server.closes ?k ?n ?st] => destruct (closes_same k n st) as (_ & _ & _ & _ & _ & _ & _ & _ & _ & _ & ->) end; auto.
  - destruct (comms s !! t) as [c|]; [|discriminate]. unfold comm_step in H.
    destruct (c_pc c), a; try discriminate H; step_cases H; injection H as <-; state_simpl; auto.
  - unfold bal_step in H. destruct (bal s), a; try discriminate H; injection H as <-; try case_match; state_simpl; auto.
  - apply mttf_same in H as (_ & _ & _ & _ & _ & _ & _ & _ & _ & _ & _ & ->). auto.
Qed.

(** ** Every run of the system *)

(** The controller's threads can be created and its connection is up; the
    balancer is as in Races.v, the validity of the messages apart, which is the
    controller's to give. *)
Definition fair (A : client → Prop) (e : system_input) (s : system) : Prop :=
  match e with
  | SController e => delivers dotted_quad e ∧ admits A e
  | SBalancer x => calm_input x (load_balancer s)
  | SDeliver old => length old = 16%nat
  end.

Definition system_run (A : client → Prop) (m : Z) (s s' : system) : Prop := ∃ e, fair A e s ∧ system_step m e s = Val (Some s').

Section Runs.
Context (A : client → Prop) (m : Z) (fresh : Z → Z → vm_data) (rates : Z → f32) (b0 : balancer).

Definition system_inv (s : system) : Prop :=
  rtc (sstep m (delivers dotted_quad)) (server_init fresh rates) (controller s) ∧ accepted_inv A (controller s) ∧
  rtc (wstep calm_input) (whole_init b0) (load_balancer s) ∧
  wh_log (load_balancer s) = take (delivered s) (sends (trace (controller s))) ∧
  (delivered s <= length (sends (trace (controller s))))%nat.

(** Only a [recv] adds to the log. *)
Lemma whole_log x b b' :
  whole_step x b = Val (Some b') → match x with XRecv _ => False | _ => True end → wh_log b' = wh_log b.
Proof.
  intros H Hx. apply whole_step_shape in H. destruct x as [a|t a|t|t ok|t ok getfl setfl_ok|r|fr moves]; [..|done|].
  - by destruct H as (st & _ & ->).
  - by destruct H as (w & st & _ & _ & _ & [[_ ->]|[_ ->]]).
  - by destruct H as (arg & conn & pc & x & _ & _ & _ & _ & _ & ->).
  - by destruct H as (arg & conn & pc & _ & _ & _ & ->).
  - by destruct H as (arg & conn & vm & _ & _ & ->).
  - by destruct H as (x & _ & _ & ->).
Qed.

(** What the controller has sent can be carried and acted upon. *)
Lemma sent_wire s : rtc (sstep m (delivers dotted_quad)) (server_init fresh rates) s → Forall wire_message (sends (trace s)).
Proof.
  intros Hr. destruct (delivers_reachable dotted_quad m fresh rates s Hr) as [Hr' (_ & _ & _ & Hposts)].
  destruct (lock_inv_reachable m fresh rates s Hr') as (_ & _ & _ & Hp).
  rewrite Hp, Forall_app in Hposts. destruct Hposts as [H _]. eapply Forall_impl; [|exact H]. intros msg. apply posted_wire.
Qed.

Lemma system_inv_step s s' : system_inv s → system_run A m s s' → system_inv s'.
Proof.
  intros (Hc & Ha & Hb & Hlog & Hle) (e & Hfair & H). destruct e as [e|x|old]; cbn [system_step fair] in *.
  - destruct Hfair as [Hd Had]. apply then_Val in H as (c & E & H). injection H as <-.
    destruct (sends_grow m e _ _ E) as (l & Hl). destruct (delivers_reachable dotted_quad m fresh rates _ Hc) as [Hc' _].
    split; [|split; [|split; [done|split]]]; cbn [controller load_balancer delivered].
    + eapply rtc_r; [exact Hc|by exists e].
    + eapply accepted_step; [|exact Had|exact E|exact Ha]. by apply (mail_inv_reachable m fresh rates).
    + by rewrite Hl, take_app_le by lia.
    + rewrite Hl, length_app. lia.
  - assert (match x with XRecv _ => False | _ => True end ∧
      ∃ b, whole_step x (load_balancer s) = Val (Some b) ∧ s' = System (controller s) b (delivered s)) as (Hx & b & E & ->).
    { destruct x; try discriminate H; apply then_Val in H as (b & E & H); injection H as <-; by eauto. }
    split; [done|]. split; [done|]. cbn [controller load_balancer delivered]. rewrite (whole_log _ _ _ E Hx).
    split; [|done]. eapply rtc_r; [exact Hb|by exists x].
  - destruct (sends _ !! delivered s) as [msg|] eqn:Hm; [|done]. apply then_Val in H as (b & E & H). injection H as <-.
    destruct (Forall_lookup_1 _ _ _ _ (sent_wire _ Hc) Hm) as [Hvm Hvalid].
    set (mem' := vm_struct (wh_state (load_balancer s))) in *.
    destruct (decode_encode_vm old msg (drop 28 mem') Hfair Hvm) as [Hl Hd].
    assert (Hrec : received (RData (encode_vm old msg)) mem' = msg).
    { unfold received, recv_into. rewrite take_ge by lia. by rewrite Hl. }
    split; [done|]. split; [done|]. cbn [controller load_balancer delivered]. split; [|split].
    + eapply rtc_r; [exact Hb|]. exists (XRecv (RData (encode_vm old msg))). split; [|exact E].
      unfold calm_input. fold mem'. by rewrite Hrec.
    + rewrite (take_S_r _ _ _ Hm), <-Hlog. unfold recv_step in E. destruct (wh_ctrl (load_balancer s)); try discriminate E.
      apply outcome_bind_Val in E as (x & _ & E). injection E as <-. cbn [wh_log]. f_equal. f_equal. exact Hrec.
    + by apply lookup_lt_Some in Hm.
Qed.

Lemma system_inv_reachable s :
  rtc (system_run A m) (System (server_init fresh rates) (whole_init b0) 0) s → system_inv s.
Proof.
  apply rtc_invariant; [intros x y; apply system_inv_step|].
  split; [constructor|]. split; [by split|]. split; [constructor|]. by split.
Qed.
End Runs.

(** C2.  From registration to connection, in the runs that [fair] allows: the
    controller's threads register VMs and report those that leave, the balancer's
    threads, in any interleaving, read those messages and give VMs to clients;
    [pthread_create] and the [send]s of the controller succeed, each [recv] of the
    balancer gets one struct whole, [realloc] does not move its table, and no worker
    tests the turn while it is above the live entries, which the code does not
    ensure and without which a client can be sent to a slot that was never written
    ([Balancer.index_escapes]).  There every worker that has chosen serves the
    connection it was created for and is connected to the address of a VM that
    completed the controller's handshake as active for service 0 ([A] is any
    property of those that do), at the port 8080, which the controller announces
    for every VM: that the address and the port can come from different messages
    ([Races.endpoint_can_be_torn]) does no harm. *)
Theorem clients_reach_active_vms (A : client → Prop) m fresh rates f mem stack b0 s t w vm :
  (∀ k i, small (f k i)) → balancer_init (Some f) mem stack = Val b0 →
  rtc (system_run A m) (System (server_init fresh rates) (whole_init b0) 0) s →
  workers (wh_state (load_balancer s)) !! t = Some w → chosen_vm (w_pc w) = Some vm →
  worker_arg (vm_client (wh_state (load_balancer s))) w ∧
  vm.2 = vm_port ∧ ∃ c, A c ∧ service (c_service c) = 0 ∧ c_ip c = vm.1.
Proof.
  intros Hf Hi Hs Ht Hvm.
  destruct (system_inv_reachable A m fresh rates b0 s Hs) as (Hc & (_ & Hann) & Hb & Hlog & _).
  destruct (run_inv_reachable f mem stack b0 Hf Hi _ Hb) as ((_ & _ & Hargs) & Hrouted & _).
  destruct (delivers_reachable dotted_quad m fresh rates _ Hc) as [Hc' _].
  destruct (lock_inv_reachable m fresh rates _ Hc') as (_ & _ & _ & Hp).
  assert (Hlogged : ∀ msg, msg ∈ wh_log (load_balancer s) → op msg = ADD → ∃ c, A c ∧ msg = announcement c).
  { intros msg Hin. rewrite Forall_forall in Hann. apply Hann, list_elem_of_In. rewrite Hp.
    apply elem_of_app. left.
    rewrite Hlog in Hin. by eapply subseteq_take. }
  destruct (Forall_lookup_1 _ _ _ _ Hrouted Ht vm Hvm) as [(m1 & H1 & O1 & S1 & I1) (m2 & H2 & O2 & S2 & P2)].
  split; [by eapply (Forall_lookup_1 _ _ _ _ Hargs)|].
  destruct (Hlogged m1 H1 O1) as (c & HA & ->). destruct (Hlogged m2 H2 O2) as (c2 & _ & ->). split; [done|]. by exists c.
Qed.

(** C3.  The table keeps up with the controller while clients are being served, in
    the runs that [fair] allows ([pthread_create] and the [send]s of the controller
    succeed, each [recv] of the balancer gets one struct whole, [realloc] does not
    move its table, no worker tests the turn while it is above the live entries) and
    as long as no more than 2^30 messages have been read: wherever the workers are,
    if the balancer's controller thread waits for the next message its table is
    well-formed and holds exactly the endpoints that the messages read so far ask
    for, which are the first ones the controller sent; of those its threads have
    posted at most one is not sent yet.  Outside of these runs a post can be lost
    ([Server.failed_create_loses_message]), and the last message is handled again
    and again at the end of the stream ([Balancer.end_of_stream_readds]). *)
Theorem table_keeps_up (A : client → Prop) m fresh rates f mem stack b0 s :
  (∀ k i, small (f k i)) → balancer_init (Some f) mem stack = Val b0 →
  rtc (system_run A m) (System (server_init fresh rates) (whole_init b0) 0) s →
  wh_ctrl (load_balancer s) = CtWait → Z.of_nat (delivered s) <= 2 ^ 30 →
  let sent := sends (trace (controller s)) in
  lb_ok (tables (wh_state (load_balancer s))) ∧
  lb_view (tables (wh_state (load_balancer s))) ≡ᵣ registry_run (take (delivered s) sent) empty_registry ∧
  posts (trace (controller s)) = sent ++ pending (controller s) ∧ (length (pending (controller s)) <= 1)%nat.
Proof.
  intros Hf Hi Hs Hwait Hlen. cbn zeta.
  destruct (system_inv_reachable A m fresh rates b0 s Hs) as (Hc & _ & Hb & Hlog & Hle).
  destruct (run_inv_reachable f mem stack b0 Hf Hi _ Hb) as (_ & _ & r & Hr & (V1 & V2 & V3 & _)).
  destruct (delivers_reachable dotted_quad m fresh rates _ Hc) as [Hc' _].
  destruct (lock_inv_reachable m fresh rates _ Hc') as (_ & _ & _ & Hp).
  pose proof (follows_reachable f (tables b0) r Hf (initial_image f mem stack b0 Hi) Hr) as Hfo.
  rewrite V1, V2, V3, Hwait, Hlog, length_take in Hfo. destruct Hfo as [Hok Hv]; [lia|].
  split; [exact Hok|]. split; [exact Hv|]. split; [exact Hp|].
  unfold pending. destruct (bal (controller s)), (state_man_vm (controller s) =? 1); cbn; lia.
Qed.

(** ** Witness *)

(** One VM registers as active and one on stand-by; a client comes, and its
    worker is choosing when the first VM fails and is reported. *)
Definition is_vm_a (c : client) : Prop := c_ip c = ip vm_a.

Definition fairb (e : system_input) (s : system) : bool :=
  match e with
  | SController e =>
      delivers_bool e &&
      match e with
      | EMain (AClient first turns mem addr sock prt) =>
          match handshake mem first turns with
          | HsClient srv _ => if state srv =? ACTIVE then bool_decide (addr = ip vm_a) else true
          | _ => true
          end
      | _ => true
      end
  | SBalancer x => calm_inputb x (load_balancer s)
  | SDeliver old => (length old =? 16)%nat
  end.

Definition raw_balancer (e : system_input) : Prop := match e with SBalancer x => raw_input x | _ => True end.

Lemma fairb_fair e s : raw_balancer e → fairb e s = true → fair is_vm_a e s.
Proof.
  destruct e as [e|x|old]; cbn [fairb fair raw_balancer]; intros Hr H.
  - apply andb_true_iff in H as [H1 H2]. split.
    + apply (Forall_singleton (delivers dotted_quad)), delivers_run. cbn. by rewrite H1.
    + destruct e as [[]| | |]; try done. intros srv n E Hst. cbn in H2. rewrite E, Hst in H2. by apply bool_decide_eq_true in H2.
  - by apply calm_inputb_calm.
  - by apply Nat.eqb_eq.
Qed.

Fixpoint run_system (m : Z) (es : list system_input) (s : system) : outcome (option system) :=
  match es with
  | [] => Val (Some s)
  | e :: es => if fairb e s then s' ←? system_step m e s; run_system m es s' else Val None
  end.

Lemma run_system_rtc m es s s' :
  Forall raw_balancer es → run_system m es s = Val (Some s') → rtc (system_run is_vm_a m) s s'.
Proof.
  intros Hes. revert s. induction Hes as [|e es He _ IH]; intros s; cbn [run_system]; [by intros [= <-]; apply rtc_refl|].
  destruct (fairb e s) eqn:Hq; [|done]. intros (s1 & E & H)%then_Val.
  eapply rtc_l; [|by apply IH]. exists e. split; [by apply fairb_fair|done].
Qed.

Definition read_one : list system_input := SDeliver (replicate 16 88) :: map SBalancer (replicate 11 (XCtrl (plenty (raw 0)) false)).

Definition live_run : list system_input :=
  map SController (arrival 0 ACTIVE 10 (ip vm_a) 0 ++ delivery ++ arrival 0 STAND_BY 11 (ip vm_b) 1) ++ read_one ++
  map SBalancer (arrives conn1 ++ hand_over ++ [XWorker 0 LTau; XAccess 0; XSocket 0 true] ++ replicate 5 (XAccess 0)) ++
  map SController (failing_datapoint 0 ++ delivery) ++ read_one ++
  map SBalancer (replicate 7 (XAccess 0) ++ [XConnect 0 true 2 true; XWorker 0 LTau]).

Definition system_start : system := System start_state (whole_init start) 0.
Definition live_system : system :=
  match run_system 0 live_run system_start with Val (Some s) => s | _ => system_start end.

Lemma live_raw : Forall raw_balancer live_run.
Proof. repeat constructor. Qed.

Lemma live_reachable : rtc (system_run is_vm_a 0) system_start live_system.
Proof. apply (run_system_rtc 0 live_run); [exact live_raw|vm_compute; reflexivity]. Qed.

Lemma clients_reach_active_vms_witness :
  workers (wh_state (load_balancer live_system)) !! 0%nat = Some (Worker (WRelay conn1 (ip vm_a, vm_port) relay_init) conn1) ∧
  llive (tables (wh_state (load_balancer live_system))) 0 = [] ∧
  ∃ c, is_vm_a c ∧ service (c_service c) = 0 ∧ c_ip c = ip vm_a.
Proof.
  split; [vm_compute; reflexivity|]. split; [vm_compute; reflexivity|].
  refine (proj2 (proj2 (clients_reach_active_vms is_vm_a 0 (λ _ _, blank 1) (λ _, zero) raw (replicate 28 0) stack0 start
    live_system 0 (Worker (WRelay conn1 (ip vm_a, vm_port) relay_init) conn1) (ip vm_a, vm_port)
    raw_small eq_refl live_reachable _ eq_refl))). vm_compute. reflexivity.
Defined.

Lemma table_keeps_up_witness :
  delivered live_system = 2%nat ∧ wh_ctrl (load_balancer live_system) = CtWait ∧
  lb_view (tables (wh_state (load_balancer live_system))) ≡ᵣ
    registry_run [VirtualMachine (ip vm_a) vm_port 0 ADD; VirtualMachine (ip vm_a) vm_port 0 REJ] empty_registry.
Proof.
  split; [vm_compute; reflexivity|]. split; [vm_compute; reflexivity|].
  pose proof (proj1 (proj2 (table_keeps_up is_vm_a 0 (λ _ _, blank 1) (λ _, zero) raw (replicate 28 0) stack0 start live_system
    raw_small eq_refl live_reachable ltac:(vm_compute; reflexivity) ltac:(vm_compute; discriminate)))) as H.
  replace (take (delivered live_system) (sends (trace (controller live_system)))) with
    [VirtualMachine (ip vm_a) vm_port 0 ADD; VirtualMachine (ip vm_a) vm_port 0 REJ] in H by (vm_compute; reflexivity).
  exact H.
Defined.
